(* ===== verification/_CoqProject ===== *)
-Q . S2P
Prelude.v
Errors.v
RateLimit.v
Cache.v
Tags.v
Http.v
Jwt.v
Identity.v
PathPattern.v
IdentityConfig.v
Config.v
Implicit.v
AwsSts.v
Mtls.v
Svid.v
Oidc.v
Gcp.v
Jwks.v
JwksTasks.v
DataStore.v
DynamoApi.v
Dynamo.v
Firestore.v
LocalStore.v
LocalDurability.v
CedarApi.v
AuditLog.v
AuditSinks.v
Demo.v
Sync.v
Cedar.v
Entity.v
Resolver.v
Concurrent.v
PolicyCrud.v
BilletCrud.v
StoreSafety.v
Backends.v
Authorization.v
Token.v
Der.v
Cert.v
AdminAuth.v
TokenHandler.v
AdminHandlers.v
StaticKey.v
KeyManager.v
KeySteps.v
AnyStore.v
Server.v
Startup.v
TlsServer.v
Boot.v
OpenApi.v
StatusTypes.v
Cli.v
