(* ===== verification/Prelude.v ===== *)
(** * Quartermaster: a verification development

    Quartermaster is a token service.  A workload or a person proves an identity
    (a SPIRE JWT-SVID or client certificate, an OIDC token, a presigned AWS STS
    request, a GCP identity token) and receives a signed JWT, and optionally a
    certificate, that lists its _billets_: named roles.  Which billets an identity
    may hold is decided by Cedar policies attached to billets; administrators
    manage billets and policies through a REST API that the same policies guard.

    ** The program's parts and the files that model them (sources under src/src)

    Foundations.

    - [Prelude]: Rust's [Result], the state-and-error monad [M] (an error keeps the
      effects made before it), [str] operations on byte strings, JSON values, hash
      iteration order ([HashIter], an arbitrary permutation), sorting, automation.
    - [Errors] (domain/mod.rs): error codes and their HTTP rendering.
    - [Http], [Jwt], [CedarApi], [DynamoApi]: the crates the sources call, as type
      classes with their documented laws and a small instance that satisfies them.

    Configuration.

    - [IdentityConfig] (config/identity.rs) and [Config] (config/mod.rs, backends.rs,
      domain/audit/config.rs): structures, defaults, validation, environment and file.

    Identities.

    - [Identity] (domain/identity/mod.rs, subject.rs, claims.rs, dispatcher.rs),
      [PathPattern] (path_pattern.rs), [Implicit] (implicit.rs), [Entity] (entity.rs).
    - [Svid] (domain/svid/mod.rs), [Oidc], [AwsSts], [Gcp], [Mtls]: the validators,
      whole; [Jwks] (domain/identity/jwks.rs): the keys of the issuers, fetched,
      refreshed and served, with readers and refreshes interleaved; [JwksTasks]: the
      tasks that refresh them and their timers.

    State.

    - [DataStore] (datastore/mod.rs): the interface [DataStore] and its contract
      [DataStoreLaws]: a store is two finite maps, an operation that fails changes
      neither.  [LocalStore] (datastore/local.rs): the file-backed store, every
      operation, with the instance of the contract; [LocalDurability]: what is on
      disk after any run.  [Dynamo] (datastore/dynamodb.rs) and [Firestore]
      (datastore/firestore_store.rs): the cloud stores, every operation; they do not
      meet the contract, and their theorems say what they do.  The reads of [Dynamo] are
      eventually consistent, as the source asks for nothing else.  [StoreSafety]: a weaker
      interface, that only a write makes a statement appear, with a logic of footprints
      that carries it to the services; [Backends]: all three stores meet it.
    - [RateLimit] (domain/ratelimit/mod.rs): the sliding-window limiter with its
      background cleanup.  Both read the clock before they wait for the lock.
    - [Cache] (domain/cache/): the [Cache] interface and its laws; [Memory]
      (memory.rs) with the two-phase [get] under its read-write lock; [Redis]
      (redis.rs) over a server that is a parameter.
    - [AuditLog] (domain/audit/mod.rs, schema.rs, sink.rs, service.rs): events and
      the delivery service as a transition system; [AuditSinks] (stdout_sink.rs,
      file_sink.rs, kinesis_sink.rs, pubsub_sink.rs): where events go.
    - [Sync] (sync/mod.rs): the copy of policies and billets the authorizer uses.

    Authorization and administration.

    - [Cedar] (cedar/mod.rs): the authorizer.  [Resolver] (domain/billet/mod.rs):
      resolution through the cache, and scoping.  [Concurrent]: resolutions and the
      rounds of [Sync] cut at their awaits and interleaved with each other, with
      writes to the store, dropped requests and the clock; each of them run alone is
      the function of [Resolver] or [Sync].
    - [Tags], [PolicyCrud], [BilletCrud] (domain/admin/tags.rs, policies.rs,
      billets.rs, domain/bootstrap.rs): administration of policies and billets.
    - [Authorization]: the store, the synchroniser, the authorizer, the resolver and
      the cache running together, over a store that meets the contract; [AnyStore]: the
      same over every safe store, with other instances and key managers beside.

    Credentials.

    - [Token] (domain/token/mod.rs, signing/mod.rs): issuance, over the jsonwebtoken
      crate as a parameter ([JwtLib], [JwtLaws]; [ToyJwt] satisfies them).
    - [Der]: a reference reader for the DER encoding; [Cert] (domain/cert/mod.rs): the
      certificate authority with its checks of a signing request; [StaticKey]
      (signing/static_key.rs): a key from a PEM file; [KeyManager] (keymanager/): the
      key managers, with rotation, storage and the key service; [KeySteps]: what they
      do to a store.
    - [AdminAuth] (domain/admin/authenticator.rs, handler/billets.rs): verification
      of the service's own tokens.

    The server.

    - [TokenHandler] (handler/token.rs, handler/billets_discovery.rs) and
      [AdminHandlers] (handler/admin_billets.rs): the HTTP handlers, whole, over the
      components above.  [Server] (server/, oidc/mod.rs, handler/health.rs, oidc.rs,
      jwks.rs, ca.rs): the other endpoints, routes, middleware, TLS configuration and
      listeners.  [TlsServer] (server/tls.rs): the accept loop and its tasks.
    - [Startup] (main.rs, datastore/factory.rs): what is built from a configuration.
      [Boot] (main.rs): the whole start, in order, up to the bound listeners.
    - [OpenApi] (openapi.rs and the annotations of the handlers): the document.
      [StatusTypes]: a typing of the handlers by the statuses they can answer.
    - [Cli] (bin/qm_bootstrap.rs): the bootstrap command line.
    - [Demo]: concrete instances on which the witnesses run.

    State is passed explicitly.  A handler or service method is one definition with
    the name of the Rust function; a lock makes the section it guards one step, and
    where the code releases a lock in the middle of an operation (the cache's [get],
    the key manager's rotation, a refresh of keys) the steps are separate definitions
    that a trace interleaves.  Clock readings, fresh UUIDs, generated keys and parsed
    request parts are arguments.  Times are integral nanoseconds or seconds in Z; the
    places where a machine width matters (the limiter's [u32] count, counts of deleted
    records, the [u64] overflow counter, token expiry, durations, lengths in DER) wrap
    explicitly.  Strings are byte strings.  A panic is an error value of its own where
    the code can panic.

    ** What the theorems show

    - No privilege escalation ([AnyStore.no_escalation_any_store]): over every backend,
      in every run of administration requests, starts of other instances, key rotations,
      synchronisation rounds and resolutions, each billet of an answer goes back to an
      admitted request, with a permit policy for that billet or made for a system billet
      other than the guardrails. The run starts from a store and a cache whose
      statements were admitted so: [qm-bootstrap add-policy] writes policies without
      these checks and can break that. [Boot.boot_no_escalation] starts such a run from
      [main]; over a store that meets the contract the policy was stored
      ([Authorization.no_privilege_escalation]). [TokenHandler.token_exchange_sound]:
      the billets of an issued token come from the caller's claims, are allowed by Cedar to a request
      whose principal is the authenticated caller, or are taken from a cache slot filled for
      the same subject and audience; [TokenHandler.billet_discovery_sound] is the same
      for discovery, where no billets is an empty answer.
      [Implicit.reserved_billets_come_from_claims] shows that names under a reserved
      prefix come only from an IdP's claims.
    - Revocation ([Concurrent.revocation_takes_effect]): once a billet is denied by the
      published policies, every interleaving stops answering with it within the time to
      live of the cache; no interleaving answers with a billet that no published policy
      set permits ([Concurrent.interleaved_resolutions_sound]).
    - Each validator ([Svid], [Oidc], [AwsSts], [Gcp], [Mtls]): what an accepted
      credential has proved, and for client certificates exactly which are accepted;
      [Jwks]: keys that are served are fresh and came from their issuer; [JwksTasks]:
      the keys of an issuer that answers stay available;
      [Startup.startup_keys_of_own_issuer]: the configured validators are built, and
      a token they accept was verified with a key of the issuer it names, unless an
      OIDC source is called [google] beside an enabled GCP source.
    - The administration API ([AdminHandlers]): no change without authentication for
      that action and billet; every history of requests, one after another over a store
      that meets the contract, keeps tags well formed,
      policies admitted and attached, reserved names free and the system billets
      present; each write is audited.  [AdminAuth]: what authentication means, and
      that issued tokens are accepted until they expire.
    - Stores: the file-backed store meets the contract and, from its opening on a
      directory whose files bear the names of their records, is durable and reloadable
      whatever file-system calls fail; the listings and cascades of [Dynamo] are
      complete for tables whose writes have settled, and a cascade misses a policy its
      listing does not show yet; the single writes of the cloud stores have the stated
      effect; the memory cache is linearizable; the limiter refines a sliding-window
      count and respects its bound in every window.
    - Certificates ([Cert]) are issued only for a request whose signature verifies, for
      the key of the request and with the names of the identity.
    - Keys: a rotation publishes what it signs with, keys stay published while tokens
      signed by them live, a rotation that fails changes nothing.
    - The audit service accounts for every event over every interleaving and each sink
      is given each delivered event; a shutdown delivers what was accepted; the file sink
      keeps the log in whole lines and loses only its oldest files, and the
      buffered sinks send each event once when the service answers.
    - Configuration: a configuration that loads satisfies every constraint of the
      sections; the two listener modes serve the same routes.
    - The start: with keys from files its outcome does not depend on the store, and the
      wait for the policies is bounded; over TLS each connection is served as if it were
      alone, with the certificates of its own handshake.
    - The interface: a handler that is called answers with its success status or one of
      a listed set ([StatusTypes.answers_typed]); the OpenAPI document describes exactly
      the routes that are served and names the bearer scheme where the handlers ask for
      it ([StatusTypes.document_matches_routes]); and a token of the command line is
      accepted by a server with the same configuration.
    - Lemmas beside the theorems prove behaviour that looks unintended (colliding cache
      keys and document identifiers, cached answers shared across claims, foreign trust
      domains, tags that cannot be cleared, keys that are not published, a manager that
      never starts, and others).

    Fuel: [Str.trim_with], [Str.lossy] and [chunks] take the length of the input as
    fuel, and each of their turns consumes at least one element.  [Dynamo.collect]
    takes one more than the number of items of the table: every page but the last
    evaluates one, and [Dynamo.dynamo_listing_complete] shows that more fuel changes
    nothing.  [Boot.wait_ready] counts the fifty polls of the loop in [main].  No other
    recursion needs fuel.

    ** Not modelled

    The crates themselves (the laws assumed of them are the classes named above);
    cloud clients beyond their requests and answers; [axum]'s matching of paths, the
    rejections of its extractors (malformed JSON or forms are refused with 400, 415 or 422
    and never reach a handler) and the 500 that [CatchPanicLayer] makes of a panic;
    [rustls] and [hyper] beyond the events of the accept loop; the serialisation of the
    OpenAPI document; the parsing of arguments by [clap]; back-off; logging;
    what [main] does after its listeners end.  Nobody writes to a table of a cloud store
    between the pages of one listing.  What remains of the sources is test code,
    module lists, imports and derived instances. *)

From stdpp Require Export base tactics decidable option list numbers strings pretty.
From stdpp Require Export gmap sets fin_maps sorting relations.
From Stdlib Require Export Ascii.

#[global] Set Default Goal Selector "!".

(* ------------------------------------------------------------------ *)
(** ** Results: Rust's [Result<A, E>] *)

Inductive result (E A : Type) : Type :=
| Ok (a : A)
| Err (e : E).
Arguments Ok {E A} a.
Arguments Err {E A} e.

#[export] Instance result_ret E : MRet (result E) := λ A a, Ok a.
#[export] Instance result_bind E : MBind (result E) := λ A B f m,
  match m with Ok a => f a | Err e => Err e end.
#[export] Instance result_fmap E : FMap (result E) := λ A B f m,
  match m with Ok a => Ok (f a) | Err e => Err e end.
#[export] Instance result_eq_dec `{EqDecision E, EqDecision A} :
  EqDecision (result E A).
Proof. solve_decision. Defined.

(** [r.map_err(f)] *)
Definition map_err {E F A} (f : E → F) (m : result E A) : result F A :=
  match m with Ok a => Ok a | Err e => Err (f e) end.

(** [o.ok_or(e)] *)
Definition ok_or {E A} (e : E) (o : option A) : result E A :=
  match o with Some a => Ok a | None => Err e end.

(** [if cond { return Err(e) }] *)
Definition fail_if {E} (cond : bool) (e : E) : result E unit :=
  if cond then Err e else Ok tt.

Definition is_ok {E A} (m : result E A) : bool :=
  match m with Ok _ => true | Err _ => false end.

(** [for x in l { f(x)?; }] *)
Fixpoint try_for_each {E A} (f : A → result E unit) (l : list A) : result E unit :=
  match l with
  | [] => Ok tt
  | x :: l' => _ ← f x; try_for_each f l'
  end.

(** [l.iter().map(f).collect::<Result<Vec<_>, _>>()] *)
Fixpoint try_map {E A B} (f : A → result E B) (l : list A) : result E (list B) :=
  match l with
  | [] => Ok []
  | x :: l' => y ← f x; ys ← try_map f l'; Ok (y :: ys)
  end.

(** A remote write that reports an error may have been carried out. *)
Definition outcome {E A} (r : result E A) (same done : Prop) : Prop :=
  match r with Ok _ => done | Err _ => same ∨ done end.

(** [l.chunks(n)]; the length of the list is enough fuel. *)
Fixpoint chunks {A} (fuel n : nat) (l : list A) : list (list A) :=
  match fuel, l with
  | S fuel', _ :: _ => take n l :: chunks fuel' n (drop n l)
  | _, _ => []
  end.

(* ------------------------------------------------------------------ *)
(** ** Stateful fallible code: [S → result E A * S]

    An error keeps the effects performed before it, as in the Rust code. *)

Definition M (S E A : Type) : Type := S → result E A * S.

#[export] Instance M_ret S E : MRet (M S E) := λ A a s, (Ok a, s).
#[export] Instance M_bind S E : MBind (M S E) := λ A B f m s,
  match m s with
  | (Ok a, s') => f a s'
  | (Err e, s') => (Err e, s')
  end.

Definition throw {S E A} (e : E) : M S E A := λ s, (Err e, s).
Definition get_st {S E} : M S E S := λ s, (Ok s, s).
Definition put_st {S E} (s : S) : M S E unit := λ _, (Ok tt, s).
Definition modify_st {S E} (f : S → S) : M S E unit := λ s, (Ok tt, f s).
Definition lift_res {S E A} (r : result E A) : M S E A := λ s, (r, s).
Definition m_map_err {S E F A} (f : E → F) (m : M S E A) : M S F A :=
  λ s, match m s with (r, s') => (map_err f r, s') end.
(** [m.map_err(|e| { effect; convert(e) })] *)
Definition m_on_err {S E F A} (h : E → M S F A) (m : M S E A) : M S F A :=
  λ s, match m s with (Ok a, s') => (Ok a, s') | (Err e, s') => h e s' end.

(* ------------------------------------------------------------------ *)
(** ** Hash iteration order

    [HashMap] and [HashSet] iterate in an order fixed by a random seed; the
    model abstracts the seed as an arbitrary permutation. *)

Class HashIter := {
  hash_iter : ∀ {A : Type}, list A → list A;
  hash_iter_perm : ∀ A (l : list A), hash_iter l ≡ₚ l
}.

(* ------------------------------------------------------------------ *)
(** ** Rust [str] operations on byte strings *)

Declare Scope qm_scope.
Delimit Scope qm_scope with qm.

Notation "s =s? t" := (bool_decide (s = t)) (at level 70, no associativity) : qm_scope.

Module Str.

Fixpoint strip_prefix (p s : string) : option string :=
  match p, s with
  | EmptyString, _ => Some s
  | String a p', String b s' =>
      if bool_decide (a = b) then strip_prefix p' s' else None
  | String _ _, EmptyString => None
  end.

Definition starts_with (p s : string) : bool :=
  match strip_prefix p s with Some _ => true | None => false end.

Fixpoint strip_suffix (p s : string) : option string :=
  if bool_decide (s = p) then Some EmptyString
  else match s with
       | EmptyString => None
       | String c s' => String c <$> strip_suffix p s'
       end.

(** [s.find(c)] together with the two slices around the hit. *)
Fixpoint split_once (c : ascii) (s : string) : option (string * string) :=
  match s with
  | EmptyString => None
  | String a s' =>
      if bool_decide (a = c) then Some (EmptyString, s')
      else prod_map (String a) id <$> split_once c s'
  end.

(** [s.find(p)] for a string pattern: the text before and after the first hit. *)
Fixpoint find_str (p s : string) : option (string * string) :=
  match strip_prefix p s with
  | Some r => Some (EmptyString, r)
  | None =>
      match s with
      | EmptyString => None
      | String a s' => prod_map (String a) id <$> find_str p s'
      end
  end.

Definition contains (p s : string) : bool :=
  match find_str p s with Some _ => true | None => false end.

(** [s.split(c)]: never empty. *)
Fixpoint split (c : ascii) (s : string) : list string :=
  match s with
  | EmptyString => [EmptyString]
  | String a s' =>
      if bool_decide (a = c) then EmptyString :: split c s'
      else match split c s' with
           | h :: t => String a h :: t
           | [] => [String a EmptyString]
           end
  end.

(** [s.splitn(n, c)] *)
Fixpoint splitn (n : nat) (c : ascii) (s : string) : list string :=
  match n with
  | O => []
  | S O => [s]
  | S n' => match split_once c s with
            | Some (a, b) => a :: splitn n' c b
            | None => [s]
            end
  end.

Fixpoint join (sep : string) (l : list string) : string :=
  match l with
  | [] => EmptyString
  | [x] => x
  | x :: l' => x +:+ sep +:+ join sep l'
  end.

Fixpoint all_chars (P : ascii → bool) (s : string) : bool :=
  match s with
  | EmptyString => true
  | String a s' => P a && all_chars P s'
  end.

Definition is_empty (s : string) : bool := bool_decide (s = EmptyString).

(** Character classes of [char]/[u8]. *)
Definition code (c : ascii) : N := N_of_ascii c.
Definition is_ascii_digit (c : ascii) : bool := (48 <=? code c)%N && (code c <=? 57)%N.
Definition is_ascii_lowercase (c : ascii) : bool := (97 <=? code c)%N && (code c <=? 122)%N.
Definition is_ascii_uppercase (c : ascii) : bool := (65 <=? code c)%N && (code c <=? 90)%N.
Definition is_ascii_alphanumeric (c : ascii) : bool :=
  is_ascii_digit c || is_ascii_lowercase c || is_ascii_uppercase c.

Definition to_ascii_lowercase (c : ascii) : ascii :=
  if is_ascii_uppercase c then ascii_of_N (code c + 32) else c.

Fixpoint eq_ignore_ascii_case (s t : string) : bool :=
  match s, t with
  | EmptyString, EmptyString => true
  | String a s', String b t' =>
      bool_decide (to_ascii_lowercase a = to_ascii_lowercase b)
      && eq_ignore_ascii_case s' t'
  | _, _ => false
  end.

(** The UTF-8 encodings of the characters with the Unicode property
    [White_Space], which [str::trim] removes. *)
Definition bytes (l : list N) : string :=
  foldr (λ n s, String (ascii_of_N n) s) EmptyString l.

Definition whitespace : list string :=
  (bytes <$> [[9]; [10]; [11]; [12]; [13]; [32]; [194; 133]; [194; 160];
             [225; 154; 128]; [226; 128; 168]; [226; 128; 169];
             [226; 128; 175]; [226; 129; 159]; [227; 128; 128]])%N
  ++ ((λ k, bytes [226; 128; 128 + k]) <$> [0; 1; 2; 3; 4; 5; 6; 7; 8; 9; 10])%N.

(** One trimming step: the first whitespace character that is a prefix
    (resp. suffix) is removed. *)
Definition first_some {A B} (f : A → option B) : list A → option B :=
  fix go l := match l with
              | [] => None
              | x :: l' => match f x with Some y => Some y | None => go l' end
              end.

Fixpoint trim_with (step : string → option string) (fuel : nat) (s : string) : string :=
  match fuel with
  | O => s
  | S n => match step s with Some s' => trim_with step n s' | None => s end
  end.

Definition trim_start (s : string) : string :=
  trim_with (λ s, first_some (λ w, strip_prefix w s) whitespace) (String.length s) s.
Definition trim_end (s : string) : string :=
  trim_with (λ s, first_some (λ w, strip_suffix w s) whitespace) (String.length s) s.
Definition trim (s : string) : string := trim_end (trim_start s).

(** [&s\[..n\]] and [&s\[n..\]] on byte indices that are character boundaries. *)
Fixpoint take_bytes (n : nat) (s : string) : string :=
  match n, s with
  | S n', String c s' => String c (take_bytes n' s')
  | _, _ => EmptyString
  end.
Fixpoint drop_bytes (n : nat) (s : string) : string :=
  match n, s with
  | S n', String _ s' => drop_bytes n' s'
  | _, _ => s
  end.

(** [String::from_utf8_lossy]: each maximal invalid sequence becomes U+FFFD.
    [utf8_seq s] is the length of the sequence at the head of [s] and whether it
    is a valid character. *)
Definition in_range (lo hi : N) (c : ascii) : bool := (lo <=? code c)%N && (code c <=? hi)%N.

Fixpoint utf8_cont (k : nat) (len : nat) (s : string) : nat * bool :=
  match k with
  | O => (len, true)
  | S k' => match s with
            | String c s' => if in_range 128 191 c then utf8_cont k' (S len) s' else (len, false)
            | EmptyString => (len, false)
            end
  end.

Definition utf8_second (lo hi : N) (k : nat) (s : string) : nat * bool :=
  match s with
  | String c s' => if in_range lo hi c then utf8_cont k 2 s' else (1, false)
  | EmptyString => (1, false)
  end.

Definition utf8_seq (c : ascii) (s : string) : nat * bool :=
  if in_range 0 127 c then (1, true)
  else if in_range 194 223 c then utf8_cont 1 1 s
  else if in_range 224 224 c then utf8_second 160 191 1 s
  else if in_range 237 237 c then utf8_second 128 159 1 s
  else if in_range 225 239 c then utf8_second 128 191 1 s
  else if in_range 240 240 c then utf8_second 144 191 2 s
  else if in_range 241 243 c then utf8_second 128 191 2 s
  else if in_range 244 244 c then utf8_second 128 143 2 s
  else (1, false).

Fixpoint lossy (fuel : nat) (s : string) : string :=
  match fuel, s with
  | S fuel', String c s' =>
      let '(n, ok) := utf8_seq c s' in
      (if ok : bool then take_bytes n s else bytes [239; 191; 189]%N) +:+ lossy fuel' (drop_bytes n s)
  | _, _ => EmptyString
  end.

Definition from_utf8_lossy (s : string) : string := lossy (String.length s) s.

(** [s.parse::<u64>()] and friends: an optional leading ['+'], at least one
    digit, no overflow past [max]. *)
Fixpoint parse_digits (max acc : Z) (s : string) : option Z :=
  match s with
  | EmptyString => Some acc
  | String c s' =>
      if is_ascii_digit c
      then let acc' := (acc * 10 + (Z.of_N (code c) - 48))%Z in
           if (acc' <=? max)%Z then parse_digits max acc' s' else None
      else None
  end.

Definition parse_uint (max : Z) (s : string) : option Z :=
  match s with
  | EmptyString => None
  | String c s' =>
      if bool_decide (c = "+"%char)
      then if is_empty s' then None else parse_digits max 0 s'
      else parse_digits max 0 s
  end.

End Str.

(** [Instant], [SystemTime] and [Duration] as integral nanoseconds. *)
Definition secs (n : Z) : Z := (n * 1000000000)%Z.

(** Machine widths. *)
Definition u32_max : Z := 4294967295.
Definition u64_max : Z := 18446744073709551615.
Definition wrap (bits n : Z) : Z := (n mod 2 ^ bits)%Z.

(** [v.dedup()]: removes consecutive repetitions. *)
Fixpoint dedup `{EqDecision A} (l : list A) : list A :=
  match l with
  | [] => []
  | x :: l' => match dedup l' with
               | y :: t => if bool_decide (x = y) then y :: t else x :: y :: t
               | [] => [x]
               end
  end.

(** [serde_json::Value]; numbers are the integers the program uses. *)
Inductive json : Type :=
| JNull
| JBool (b : bool)
| JNum (n : Z)
| JStr (s : string)
| JArr (l : list json)
| JObj (o : list (string * json)).

(** [v\[key\]] and [v.get(key)]: the value of a key, if [v] is an object. *)
Definition json_get (k : string) (v : json) : option json :=
  match v with
  | JObj o => match list_find (λ p, p.1 = k) o with
              | Some (_, (_, x)) => Some x
              | None => None
              end
  | _ => None
  end.
Definition json_as_str (v : json) : option string :=
  match v with JStr s => Some s | _ => None end.
Definition json_as_array (v : json) : option (list json) :=
  match v with JArr l => Some l | _ => None end.

(* ------------------------------------------------------------------ *)
(** ** Automation *)

Create HintDb qm.
Create Rewrite HintDb qm.

(** Splits a monadic computation known to end in [Ok]/[Some] (or any other
    constructor) into its branches. *)
Ltac inv_result :=
  repeat match goal with
  | H : Ok _ = Ok _ |- _ => injection H as H; try subst
  | H : Err _ = Err _ |- _ => injection H as H; try subst
  | H : Ok _ = Err _ |- _ => discriminate H
  | H : Err _ = Ok _ |- _ => discriminate H
  | H : (_, _) = (_, _) |- _ => injection H; clear H; intros; try subst
  | H : Some _ = Some _ |- _ => injection H as H; try subst
  | H : Some _ = None |- _ => discriminate H
  | H : None = Some _ |- _ => discriminate H
  end.

Ltac unfold_monad :=
  unfold mbind, mret, result_bind, result_ret, M_bind, M_ret, throw, get_st,
    put_st, modify_st, lift_res, m_map_err, m_on_err, map_err, ok_or, fail_if in *;
  simpl in *.

(** Closes a decidable closed goal by evaluating its decision. *)
Ltac compute_decide :=
  lazymatch goal with
  | |- ?P => refine (bool_decide_unpack P _); vm_compute; exact I
  end.

(** One case split on the outermost stuck [match] of a hypothesis or of the
    goal, keeping the equation. *)
Ltac split_match :=
  match goal with
  | H : context [match ?x with _ => _ end] |- _ =>
      lazymatch x with
      | context [match _ with _ => _ end] => fail
      | _ => destruct x eqn:?
      end
  | |- context [match ?x with _ => _ end] =>
      lazymatch x with
      | context [match _ with _ => _ end] => fail
      | _ => destruct x eqn:?
      end
  end.

Ltac run_monad := unfold_monad; repeat (split_match; inv_result; simpl in *).

(* ------------------------------------------------------------------ *)
(** ** Lemmas on results *)

Section result_lemmas.
Context {E : Type}.

Lemma bind_Ok {A B} (m : result E A) (f : A → result E B) b :
  m ≫= f = Ok b ↔ ∃ a, m = Ok a ∧ f a = Ok b.
Proof. destruct m; simpl; naive_solver. Qed.

Lemma map_err_Ok {F A} (f : E → F) (m : result E A) a :
  map_err f m = Ok a ↔ m = Ok a.
Proof. destruct m; simpl; naive_solver. Qed.

Lemma map_err_Err {F A} (f : E → F) (m : result E A) e :
  map_err f m = Err e ↔ ∃ e', m = Err e' ∧ e = f e'.
Proof. destruct m; simpl; naive_solver. Qed.

Lemma ok_or_Ok {A} (e : E) (o : option A) a : ok_or e o = Ok a ↔ o = Some a.
Proof. destruct o; simpl; naive_solver. Qed.

Lemma fail_if_Ok (b : bool) (e : E) u : fail_if b e = Ok u ↔ b = false.
Proof. destruct b, u; simpl; naive_solver. Qed.

Lemma try_for_each_Ok {A} (f : A → result E unit) l u :
  try_for_each f l = Ok u ↔ Forall (λ x, f x = Ok tt) l.
Proof.
  destruct u. induction l as [|x l IH]; simpl.
  - split; [constructor|done].
  - rewrite bind_Ok, Forall_cons. split.
    + intros ([] & Hx & Hl). by apply IH in Hl.
    + intros [Hx Hl]. exists tt. by apply IH in Hl.
Qed.

Lemma try_for_each_Err {A} (f : A → result E unit) l e :
  try_for_each f l = Err e ↔
  ∃ l1 x l2, l = l1 ++ x :: l2 ∧ Forall (λ y, f y = Ok tt) l1 ∧ f x = Err e.
Proof.
  induction l as [|x l IH]; simpl.
  - split; [done|]. intros ([|??] & ? & ? & ? & _); done.
  - unfold mbind, result_bind. destruct (f x) as [[]|e'] eqn:Hx.
    + rewrite IH. split.
      * intros (l1 & y & l2 & -> & ? & ?). exists (x :: l1), y, l2. naive_solver.
      * intros ([|z l1] & y & l2 & ? & Hl & ?); simplify_eq/=; [congruence|].
        apply Forall_cons in Hl as [_ Hl]. eauto 10.
    + split.
      * intros [= ->]. exists [], x, l. naive_solver.
      * intros ([|z l1] & y & l2 & ? & Hl & ?); simplify_eq/=; [congruence|].
        apply Forall_cons in Hl as [Hz _]. congruence.
Qed.

Lemma try_map_Ok {A B} (f : A → result E B) l k :
  try_map f l = Ok k ↔ Forall2 (λ x y, f x = Ok y) l k.
Proof.
  revert k. induction l as [|x l IH]; intros k; simpl.
  - split; [intros [= <-]; constructor|inversion 1; done].
  - rewrite bind_Ok. setoid_rewrite bind_Ok. split.
    + intros (y & Hy & ys & Hys & [= <-]). constructor; [done|by apply IH].
    + inversion 1; subst. eexists; split; [done|].
      eexists; split; [by apply IH|done].
Qed.
End result_lemmas.

Lemma outcome_mono {E A} (r : result E A) (P P' Q Q' : Prop) : (P → P') → (Q → Q') → outcome r P Q → outcome r P' Q'.
Proof. destruct r; cbn; tauto. Qed.

Lemma NoDup_fmap_filter {A B} (f : A → B) (P : A → Prop) `{∀ x, Decision (P x)} l :
  NoDup (f <$> l) → NoDup (f <$> filter P l).
Proof.
  induction l as [|x l IH]; [done|]. rewrite fmap_cons, NoDup_cons. intros [Hx Hl]. rewrite filter_cons.
  destruct (decide (P x)); [|by apply IH]. rewrite fmap_cons. apply NoDup_cons. split; [|by apply IH].
  rewrite list_elem_of_fmap in Hx |- *. intros (y & Hy & [_ Hin]%list_elem_of_filter). apply Hx. by exists y.
Qed.

Lemma filter_of_fmap {A B} (f : A → B) (P : B → Prop) `{∀ x, Decision (P x)} (l : list A) :
  filter P (f <$> l) = f <$> filter (λ x, P (f x)) l.
Proof.
  induction l as [|x l IH]; [done|]. rewrite fmap_cons, !filter_cons, IH. by destruct (decide (P (f x))).
Qed.

Lemma chunks_concat {A} fuel n (l : list A) : (0 < n)%nat → (length l ≤ fuel)%nat → concat (chunks fuel n l) = l.
Proof.
  intros Hn. revert l. induction fuel as [|fuel IH]; intros [|x l] Hl; cbn [chunks concat]; try done; [cbn in Hl; lia|].
  rewrite IH; [apply take_drop|]. rewrite length_drop. cbn [length] in *. lia.
Qed.

Lemma chunks_bound {A} fuel n (l : list A) : Forall (λ c, length c ≤ n)%nat (chunks fuel n l).
Proof.
  revert l. induction fuel as [|fuel IH]; intros [|x l]; cbn [chunks]; constructor; [|done].
  rewrite length_take. lia.
Qed.

(** A stateful computation is its first step, then the rest. *)
Lemma M_bind_inv {S E A B} (m : M S E A) (k : A → M S E B) s r s' :
  (m ≫= k) s = (r, s') →
  (∃ a s1, m s = (Ok a, s1) ∧ k a s1 = (r, s')) ∨ (∃ e, m s = (Err e, s') ∧ r = Err e).
Proof.
  unfold mbind, M_bind. destruct (m s) as [[a|e] s1]; [eauto|]. intros [= <- <-]. eauto.
Qed.

Lemma m_map_err_inv {S E F A} (g : E → F) (m : M S E A) s r s' :
  m_map_err g m s = (r, s') → ∃ x, m s = (x, s') ∧ r = map_err g x.
Proof. unfold m_map_err. destruct (m s) as [x s1]. naive_solver. Qed.

(** Splits a bind of a computation that is known to have ended. *)
Lemma bind_map_err {S E F A B} (g : E → F) (m : M S E A) (k : A → M S F B) s r s' :
  (m_map_err g m ≫= k) s = (r, s') →
  (∃ a s1, m s = (Ok a, s1) ∧ k a s1 = (r, s')) ∨ (∃ e, m s = (Err e, s') ∧ r = Err (g e)).
Proof.
  intros [(a & s1 & Hm & Hk)|(e & Hm & ->)]%M_bind_inv; apply m_map_err_inv in Hm as ([x|x] & Hm & Hx);
    try done; injection Hx as ->; [left|right]; eauto.
Qed.

#[export] Hint Rewrite @bind_Ok @map_err_Ok @ok_or_Ok @fail_if_Ok : qm.

(* ------------------------------------------------------------------ *)
(** ** Lemmas on strings *)

Section string_lemmas.
Implicit Types s t p : string.

Lemma app_cons a s t : String a s +:+ t = String a (s +:+ t).
Proof. done. Qed.
Lemma app_empty_l s : EmptyString +:+ s = s.
Proof. done. Qed.
Lemma app_empty_r s : s +:+ EmptyString = s.
Proof. induction s as [|a s IH]; [done|]. by rewrite app_cons, IH. Qed.
Lemma str_app_assoc s t p : s +:+ (t +:+ p) = (s +:+ t) +:+ p.
Proof. induction s as [|a s IH]; [done|]. by rewrite !app_cons, IH. Qed.

#[global] Instance str_app_inj s : Inj (=) (=) (String.append s).
Proof. intros t p. induction s as [|a s IH]; [done|]. rewrite !app_cons. naive_solver. Qed.

Lemma str_length_app s t : String.length (s +:+ t) = String.length s + String.length t.
Proof. induction s as [|a s IH]; [done|]. rewrite app_cons. simpl. by rewrite IH. Qed.

(** Two splits of one string agree, or one left part extends the other. *)
Lemma str_app_eq_app s1 s2 t1 t2 :
  s1 +:+ t1 = s2 +:+ t2 ↔
  (∃ p, s1 = s2 +:+ p ∧ t2 = p +:+ t1) ∨ (∃ p, s2 = s1 +:+ p ∧ t1 = p +:+ t2).
Proof.
  split.
  - revert s2. induction s1 as [|a s1 IH]; intros s2 H.
    + right. by exists s2.
    + destruct s2 as [|b s2]; [left; exists (String a s1); by rewrite H|].
      rewrite !app_cons in H. injection H as -> H.
      destruct (IH _ H) as [(p & -> & ->)|(p & -> & ->)];
        [left|right]; by exists p.
  - intros [(p & -> & ->)|(p & -> & ->)]; by rewrite str_app_assoc.
Qed.

Lemma strip_prefix_Some p s r : Str.strip_prefix p s = Some r ↔ s = p +:+ r.
Proof.
  revert s. induction p as [|a p IH]; intros s; simpl; [naive_solver|].
  destruct s as [|b s]; rewrite app_cons; [naive_solver|].
  case_bool_decide; subst; [rewrite IH; naive_solver|naive_solver].
Qed.

Lemma starts_with_spec p s : Str.starts_with p s = true ↔ ∃ r, s = p +:+ r.
Proof.
  unfold Str.starts_with. destruct (Str.strip_prefix p s) eqn:E.
  - apply strip_prefix_Some in E. naive_solver.
  - split; [done|]. intros [r Hr%strip_prefix_Some]. congruence.
Qed.

Lemma starts_with_app p r : Str.starts_with p (p +:+ r) = true.
Proof. apply starts_with_spec; eauto. Qed.

Lemma strip_suffix_Some p s r : Str.strip_suffix p s = Some r ↔ s = r +:+ p.
Proof.
  revert r. induction s as [|c s IH]; intros r; simpl; case_bool_decide as Hp; subst.
  - split; [by intros [= <-]|]. destruct r; [done|]. by rewrite app_cons.
  - split; [done|]. destruct r; [done|]. by rewrite app_cons.
  - split; [by intros [= <-]|]. intros H. f_equal.
    apply (f_equal String.length) in H. rewrite str_length_app in H.
    destruct r; [done|]. simpl in H. lia.
  - rewrite fmap_Some. setoid_rewrite IH. split.
    + intros (x & -> & ->). done.
    + destruct r as [|b r]; [naive_solver|]. rewrite app_cons. naive_solver.
Qed.

Lemma all_chars_app P s t :
  Str.all_chars P (s +:+ t) = Str.all_chars P s && Str.all_chars P t.
Proof. induction s as [|a s IH]; [done|]. rewrite app_cons. simpl. by rewrite IH, andb_assoc. Qed.

(** [split_once] cuts at the first occurrence. *)
Lemma split_once_Some c s a b :
  Str.split_once c s = Some (a, b) ↔
  s = a +:+ String c b ∧ Str.all_chars (λ x, bool_decide (x ≠ c)) a = true.
Proof.
  revert a. induction s as [|x s IH]; intros a; simpl.
  - split; [done|]. intros [H _]. by destruct a.
  - case_bool_decide as Hx; subst.
    + split.
      * intros [= <- <-]. done.
      * intros [H Ha]. destruct a as [|y a]; [by injection H as ->|].
        rewrite app_cons in H. injection H as <- ->. simpl in Ha.
        by rewrite bool_decide_eq_false_2 in Ha by naive_solver.
    + rewrite fmap_Some. split.
      * intros ([a' b'] & Hs & [= -> ->]). apply IH in Hs as [-> Ha].
        split; [done|]. simpl. rewrite Ha. by rewrite bool_decide_eq_true_2.
      * intros [H Ha]. destruct a as [|y a]; [injection H; naive_solver|].
        rewrite app_cons in H. injection H as <- ->. simpl in Ha.
        apply andb_true_iff in Ha as [_ Ha].
        exists (a, b). split; [by apply IH|done].
Qed.

Lemma split_once_None c s :
  Str.split_once c s = None ↔ Str.all_chars (λ x, bool_decide (x ≠ c)) s = true.
Proof.
  induction s as [|x s IH]; simpl; [done|].
  case_bool_decide as Hx; subst.
  - rewrite bool_decide_eq_false_2 by naive_solver. done.
  - rewrite bool_decide_eq_true_2 by done. simpl. rewrite <-IH.
    destruct (Str.split_once c s) as [[??]|]; naive_solver.
Qed.

(** Joining the pieces of a split gives the string back. *)
Lemma split_non_nil c s : Str.split c s ≠ [].
Proof. destruct s; simpl; [done|]. case_bool_decide; [done|]. by destruct (Str.split c s). Qed.

Lemma join_cons sep x l : l ≠ [] → Str.join sep (x :: l) = x +:+ sep +:+ Str.join sep l.
Proof. by destruct l. Qed.

Lemma join_split c s : Str.join (String c EmptyString) (Str.split c s) = s.
Proof.
  induction s as [|a s IH]; [done|]. simpl.
  case_bool_decide as Ha; subst.
  - rewrite join_cons by apply split_non_nil. by rewrite IH.
  - destruct (Str.split c s) as [|h t] eqn:E; [by apply split_non_nil in E|].
    destruct t as [|h' t]; simpl in *; by rewrite <-IH.
Qed.

Lemma split_app c a b : Str.split c (a +:+ String c b) = Str.split c a ++ Str.split c b.
Proof.
  induction a as [|x a IH].
  - simpl. rewrite bool_decide_eq_true_2 by done. done.
  - rewrite app_cons. simpl. case_bool_decide; [by rewrite IH|].
    rewrite IH. destruct (Str.split c a) as [|h t] eqn:E; [by apply split_non_nil in E|done].
Qed.

Lemma split_join c ss :
  ss ≠ [] → Str.split c (Str.join (String c EmptyString) ss) = ss ≫= Str.split c.
Proof.
  induction ss as [|x ss IH]; [done|]. intros _. destruct ss as [|y ss].
  - simpl. by rewrite app_nil_r.
  - rewrite join_cons, bind_cons by done.
    change (String c "" +:+ Str.join (String c "") (y :: ss))
      with (String c (Str.join (String c "") (y :: ss))).
    rewrite split_app, IH by done. done.
Qed.

Lemma split_no_sep c s :
  Forall (λ x, Str.all_chars (λ a, bool_decide (a ≠ c)) x = true) (Str.split c s).
Proof.
  induction s as [|a s IH]; [by repeat constructor|]. simpl.
  case_bool_decide as Ha; [by constructor|].
  destruct (Str.split c s) as [|h t] eqn:E; [by apply split_non_nil in E|].
  apply Forall_cons in IH as [Hh Ht]. constructor; [|done].
  simpl. by rewrite Hh, bool_decide_eq_true_2.
Qed.

(** The character does not occur in the text. *)
Definition free_of (c : ascii) (s : string) : bool := Str.all_chars (λ a, bool_decide (a ≠ c)) s.

(** A split text ends in the part after its last separator. *)
Lemma split_last c s :
  (free_of c s = true ∧ Str.split c s = [s]) ∨
  ∃ p n, s = p +:+ String c n ∧ free_of c n = true ∧ Str.split c s = Str.split c p ++ [n].
Proof.
  induction s as [|a s IH]; [by left|]. destruct (decide (a = c)) as [->|Hne].
  - right. destruct IH as [[Hf Hs]|(p & n & -> & Hf & Hs)].
    + exists "", s. split_and!; [done|done|]. cbn. by rewrite bool_decide_eq_true_2, Hs.
    + exists (String c p), n. split_and!; [done|done|]. cbn. by rewrite bool_decide_eq_true_2, Hs.
  - destruct IH as [[Hf Hs]|(p & n & -> & Hf & Hs)].
    + left. unfold free_of in *. cbn. rewrite bool_decide_eq_true_2, Hf by done.
      by rewrite bool_decide_eq_false_2, Hs.
    + right. exists (String a p), n. split_and!; [done|done|].
      change (Str.split c (String a p +:+ String c n)) with (Str.split c (String a (p +:+ String c n))).
      cbn. rewrite bool_decide_eq_false_2, Hs by done.
      destruct (Str.split c p) eqn:Hp; [by apply split_non_nil in Hp|done].
Qed.

Lemma split_free c s : free_of c s = true → Str.split c s = [s].
Proof.
  intros Hf. destruct (split_last c s) as [[_ ->]|(q & n & -> & _)]; [done|].
  unfold free_of in Hf. rewrite all_chars_app in Hf. cbn in Hf.
  rewrite bool_decide_eq_false_2, andb_false_r in Hf by (intros ?; done). done.
Qed.

Lemma strip_suffix_last c s d :
  Str.strip_suffix (String c EmptyString) (s +:+ String d EmptyString) =
  if bool_decide (c = d) then Some s else None.
Proof.
  case_bool_decide as H; subst; [by apply strip_suffix_Some|].
  destruct (Str.strip_suffix _ _) as [r|] eqn:E; [|done].
  apply strip_suffix_Some, str_app_eq_app in E.
  destruct E as [(p & -> & E)|(p & -> & E)]; destruct p as [|x [|y p]];
    rewrite ?app_empty_l, ?app_cons in E; by injection E.
Qed.

Lemma str_app_inj_r t s s' : s +:+ t = s' +:+ t → s = s'.
Proof.
  intros H. assert (Str.strip_suffix t (s +:+ t) = Some s) as E by by apply strip_suffix_Some.
  rewrite H, (proj2 (strip_suffix_Some t (s' +:+ t) s') eq_refl) in E. by injection E.
Qed.

(** Strings with different last characters differ. *)
Lemma str_last_ne s c s' c' :
  c ≠ c' → s +:+ String c EmptyString ≠ s' +:+ String c' EmptyString.
Proof.
  intros Hc H. pose proof (strip_suffix_last c' s c) as E. rewrite H, strip_suffix_last in E.
  by rewrite bool_decide_eq_true_2, bool_decide_eq_false_2 in E by done.
Qed.

(** Visible ASCII text is its own [trim]. *)
Definition is_graphic (c : ascii) : bool := (33 <=? Str.code c)%N && (Str.code c <=? 126)%N.

Lemma whitespace_not_graphic :
  Forall (λ w, Str.all_chars is_graphic w = false) Str.whitespace.
Proof. compute_decide. Qed.

Lemma first_some_None {A B} (f : A → option B) l :
  Str.first_some f l = None ↔ Forall (λ x, f x = None) l.
Proof.
  induction l as [|x l IH]; simpl; [by split|].
  rewrite Forall_cons, <-IH. destruct (f x); naive_solver.
Qed.

Lemma trim_with_None step fuel s : step s = None → Str.trim_with step fuel s = s.
Proof. intros H. destruct fuel; simpl; [done|]. by rewrite H. Qed.

Lemma trim_graphic s : Str.all_chars is_graphic s = true → Str.trim s = s.
Proof.
  intros Hs. unfold Str.trim.
  assert (Str.trim_start s = s) as ->.
  { apply trim_with_None, first_some_None. eapply Forall_impl; [apply whitespace_not_graphic|].
    intros w Hw. destruct (Str.strip_prefix w s) as [r|] eqn:E; [|done].
    apply strip_prefix_Some in E as ->. rewrite all_chars_app, Hw in Hs. done. }
  apply trim_with_None, first_some_None. eapply Forall_impl; [apply whitespace_not_graphic|].
  intros w Hw. destruct (Str.strip_suffix w s) as [r|] eqn:E; [|done].
  apply strip_suffix_Some in E as ->. rewrite all_chars_app, Hw, andb_false_r in Hs. done.
Qed.

(** Text that begins and ends with visible characters is its own [trim]. *)
Definition graphic_head (s : string) : bool := match s with String c _ => is_graphic c | "" => false end.

Fixpoint graphic_last (s : string) : bool :=
  match s with
  | EmptyString => false
  | String c EmptyString => is_graphic c
  | String _ s' => graphic_last s'
  end.

Lemma graphic_last_app s t : t ≠ "" → graphic_last (s +:+ t) = graphic_last t.
Proof.
  intros Ht. induction s as [|c s IH]; [done|]. rewrite app_cons. cbn.
  destruct (s +:+ t) eqn:E; [|by rewrite <-IH]. by destruct s, t.
Qed.

Lemma whitespace_ends :
  Forall (λ w, w ≠ "" ∧ graphic_head w = false ∧ graphic_last w = false) Str.whitespace.
Proof. compute_decide. Qed.

Lemma trim_graphic_ends s : graphic_head s = true → graphic_last s = true → Str.trim s = s.
Proof.
  intros Hh Hl. unfold Str.trim. assert (Str.trim_start s = s) as ->.
  { apply trim_with_None, first_some_None. eapply Forall_impl; [apply whitespace_ends|].
    intros w (Hne & Hw & _). destruct (Str.strip_prefix w s) as [r|] eqn:E; [|done].
    apply strip_prefix_Some in E as ->. destruct w; [done|]. rewrite app_cons in Hh. cbn in *. congruence. }
  apply trim_with_None, first_some_None. eapply Forall_impl; [apply whitespace_ends|].
  intros w (Hne & _ & Hw). destruct (Str.strip_suffix w s) as [r|] eqn:E; [|done].
  apply strip_suffix_Some in E as ->. rewrite graphic_last_app in Hl by done. congruence.
Qed.

Lemma graphic_all_last s : Str.all_chars is_graphic s = true → s ≠ "" → graphic_last s = true.
Proof.
  induction s as [|c s IH]; [done|]. cbn. intros [Hc Hs]%andb_true_iff _.
  destruct s; [done|]. by apply IH.
Qed.

(** ASCII text is valid UTF-8. *)
Lemma lossy_ascii n s :
  String.length s ≤ n → Str.all_chars (Str.in_range 0 127) s = true → Str.lossy n s = s.
Proof.
  revert s. induction n as [|n IH]; intros [|c s] Hn Hs; try done; [cbn in Hn; lia|].
  cbn in Hs. apply andb_true_iff in Hs as [Hc Hs]. cbn [Str.lossy]. unfold Str.utf8_seq. rewrite Hc.
  cbn [Str.take_bytes Str.drop_bytes]. rewrite app_cons, app_empty_l, IH; [done| |done].
  cbn in Hn. lia.
Qed.

(** Decimal printing is read back by [parse_uint]. *)
Lemma pretty_N_char_digit x :
  (x < 10)%N → Str.is_ascii_digit (pretty_N_char x) = true ∧
  Str.code (pretty_N_char x) = (48 + x)%N.
Proof.
  intros Hx. assert (x = 0 ∨ x = 1 ∨ x = 2 ∨ x = 3 ∨ x = 4 ∨ x = 5 ∨ x = 6 ∨ x = 7 ∨ x = 8 ∨ x = 9)%N
    by lia. by destruct_or!; subst.
Qed.

Lemma parse_digits_pretty_go max x s :
  (Z.of_N x ≤ max)%Z →
  Str.parse_digits max 0 (pretty_N_go x s) = Str.parse_digits max (Z.of_N x) s.
Proof.
  revert s. induction (N.lt_wf_0 x) as [x _ IH]; intros s Hx.
  destruct (decide (x = 0)%N) as [->|Hx0]; [by rewrite pretty_N_go_0|].
  rewrite pretty_N_go_step by lia.
  assert (x `div` 10 < x)%N by (apply N.div_lt; lia).
  rewrite IH by lia. simpl.
  destruct (pretty_N_char_digit (x `mod` 10)) as [-> ->]; [apply N.mod_lt; lia|].
  pose proof (N.div_mod x 10 ltac:(done)).
  assert (Z.of_N (x `div` 10) * 10 + (Z.of_N (48 + x `mod` 10) - 48) = Z.of_N x)%Z as -> by lia.
  by rewrite (proj2 (Z.leb_le _ _)).
Qed.

Lemma pretty_go_chars P x s :
  (∀ y, (y < 10)%N → P (pretty_N_char y) = true) → Str.all_chars P s = true →
  Str.all_chars P (pretty_N_go x s) = true.
Proof.
  intros HP. revert s. induction (N.lt_wf_0 x) as [x _ IH]; intros s Hs.
  destruct (decide (x = 0)%N) as [->|Hx0]; [by rewrite pretty_N_go_0|].
  rewrite pretty_N_go_step by lia. apply IH; [apply N.div_lt; lia|].
  simpl. rewrite HP, Hs; [done|]. apply N.mod_lt. lia.
Qed.

(** A printed number consists of digits, the first of which is there. *)
Lemma pretty_N_digits (x : N) : Str.all_chars Str.is_ascii_digit (pretty x) = true.
Proof.
  unfold pretty, pretty_N. case_decide; [done|]. apply pretty_go_chars; [|done].
  intros y Hy. by apply pretty_N_char_digit.
Qed.

Lemma pretty_N_nonempty (x : N) : pretty x ≠ EmptyString.
Proof.
  unfold pretty, pretty_N. case_decide as Hx; [done|]. intros H.
  apply (f_equal (Str.parse_digits (Z.of_N x) 0)) in H.
  rewrite parse_digits_pretty_go in H by lia. simpl in H. injection H. lia.
Qed.

Lemma parse_uint_pretty max (x : N) :
  (Z.of_N x ≤ max)%Z → Str.parse_uint max (pretty x) = Some (Z.of_N x).
Proof.
  intros Hx. assert (Str.parse_digits max 0 (pretty x) = Some (Z.of_N x)) as Hd.
  { unfold pretty, pretty_N. case_decide as H0; subst.
    - simpl. by rewrite (proj2 (Z.leb_le _ _)).
    - by rewrite parse_digits_pretty_go. }
  pose proof (pretty_N_digits x) as Hc. pose proof (pretty_N_nonempty x).
  destruct (pretty x) as [|c s]; [done|]. simpl. simpl in Hc.
  apply andb_true_iff in Hc as [Hc _].
  rewrite bool_decide_eq_false_2; [done|]. by intros ->.
Qed.
End string_lemmas.

#[global] Arguments Str.strip_prefix : simpl never.
#[global] Arguments Str.strip_suffix : simpl never.
#[global] Arguments Str.find_str : simpl never.

(* ------------------------------------------------------------------ *)
(** ** Sorting strings ([Vec<String>::sort]): byte order *)

Definition str_le (s t : string) : Prop := String.leb s t = true.

#[global] Instance str_le_dec s t : Decision (str_le s t).
Proof. unfold str_le. apply _. Defined.

#[global] Instance str_le_total : Total str_le.
Proof. intros s t. apply String.leb_total. Qed.

#[global] Instance str_le_antisymm : AntiSymm (=) str_le.
Proof. intros s t. apply String.leb_antisym. Qed.

Lemma str_le_cons a s b t :
  str_le (String a s) (String b t) ↔ (Str.code a < Str.code b)%N ∨ (a = b ∧ str_le s t).
Proof.
  unfold str_le, String.leb, Str.code. cbn. unfold Ascii.compare.
  destruct (N.compare_spec (N_of_ascii a) (N_of_ascii b)) as [E|E|E].
  - apply (f_equal ascii_of_N) in E. rewrite !ascii_N_embedding in E. subst.
    split; [naive_solver|]. intros [?|[_ ?]]; [lia|done].
  - split; [by left|done].
  - split; [done|]. intros [?|[-> _]]; lia.
Qed.

#[global] Instance str_le_trans : Transitive str_le.
Proof.
  intros s. induction s as [|a s IH]; intros [|b t] [|c u]; try done.
  rewrite !str_le_cons. intros [?|[-> ?]] [?|[-> ?]]; [left; lia|by left|by left|].
  right. split; [done|by eapply IH].
Qed.

Definition sort_strings (l : list string) : list string := merge_sort str_le l.

(** The result does not depend on the order of the input. *)
Lemma sort_strings_canonical l l' : l ≡ₚ l' → sort_strings l = sort_strings l'.
Proof.
  intros Hl. apply (StronglySorted_unique str_le);
    [apply StronglySorted_merge_sort; apply _..|].
  unfold sort_strings. by rewrite !merge_sort_Permutation.
Qed.

(* ------------------------------------------------------------------ *)
(** ** Lemmas on lists *)

Section list_lemmas.
Context {A : Type}.

Lemma elem_of_hash_iter `{HashIter} (x : A) l : x ∈ hash_iter l ↔ x ∈ l.
Proof. by rewrite hash_iter_perm. Qed.

Lemma elem_of_dedup `{EqDecision A} (x : A) l : x ∈ dedup l ↔ x ∈ l.
Proof.
  induction l as [|y l IH]; [done|]. simpl.
  destruct (dedup l) as [|z t] eqn:E.
  - rewrite !elem_of_cons, <-IH. set_solver.
  - case_bool_decide; subst; rewrite (elem_of_cons l), <-IH; set_solver.
Qed.

Lemma filter_all_id (P : A → Prop) `{∀ x, Decision (P x)} (l : list A) :
  Forall P l → filter P l = l.
Proof. induction 1; [done|]. rewrite filter_cons, decide_True by done. by f_equal. Qed.

Lemma Forall_filter_keep (P Q : A → Prop) `{∀ x, Decision (P x)} (l : list A) :
  Forall Q l → Forall Q (filter P l).
Proof. rewrite !Forall_forall. intros HQ x Hx%list_elem_of_filter. naive_solver. Qed.

(** Forall on a filtered list. *)
Lemma bool_filter_nil (P : A → Prop) `{∀ x, Decision (P x)} (l : list A) :
  filter P l = [] ↔ Forall (λ x, ¬ P x) l.
Proof.
  induction l as [|x l IH]; [by split|].
  rewrite filter_cons, Forall_cons. case_decide; naive_solver.
Qed.
End list_lemmas.
