(* ===== verification/Errors.v ===== *)
(** * Domain errors and their HTTP rendering ([src/src/domain/mod.rs])

    Every fallible operation of the service ends in a [DomainError]; this file
    holds the error codes, their status codes and OAuth strings, the
    constructors the other components use, and the response an error becomes. *)

From S2P Require Import Prelude.

Module Errors.
Local Open Scope Z_scope.

Inductive ErrorCode : Type :=
| InvalidRequest
| InvalidToken
| InsufficientScope
| NotFound
| Conflict
| RateLimited
| ServiceUnavailable.

#[export] Instance ErrorCode_eq_dec : EqDecision ErrorCode.
Proof. solve_decision. Defined.

Definition status_code (c : ErrorCode) : Z :=
  match c with
  | InvalidRequest => 400
  | InvalidToken => 401
  | InsufficientScope => 403
  | NotFound => 404
  | Conflict => 409
  | RateLimited => 429
  | ServiceUnavailable => 503
  end.

Definition as_str (c : ErrorCode) : string :=
  match c with
  | InvalidRequest => "invalid_request"
  | InvalidToken => "invalid_token"
  | InsufficientScope => "insufficient_scope"
  | NotFound => "not_found"
  | Conflict => "conflict"
  | RateLimited => "rate_limited"
  | ServiceUnavailable => "service_unavailable"
  end.

Record DomainError : Type := mkDomainError {
  err_code : ErrorCode;
  description : string
}.

#[export] Instance DomainError_eq_dec : EqDecision DomainError.
Proof. solve_decision. Defined.

Definition invalid_request (d : string) : DomainError := mkDomainError InvalidRequest d.
Definition invalid_token (d : string) : DomainError := mkDomainError InvalidToken d.
Definition insufficient_scope (d : string) : DomainError := mkDomainError InsufficientScope d.
Definition not_found (d : string) : DomainError := mkDomainError NotFound d.
Definition conflict (d : string) : DomainError := mkDomainError Conflict d.
Definition rate_limited (d : string) : DomainError := mkDomainError RateLimited d.
Definition service_unavailable (d : string) : DomainError := mkDomainError ServiceUnavailable d.

(** [Display for DomainError] *)
Definition DomainError_fmt (e : DomainError) : string :=
  as_str (err_code e) +:+ ": " +:+ description e.

(** An HTTP response: a status and a JSON body. *)
Record Response : Type := mkResponse { resp_status : Z; resp_body : json }.

Record ErrorBody : Type := mkErrorBody { error : string; error_description : string }.

Definition ErrorBody_json (b : ErrorBody) : json :=
  JObj [("error", JStr (error b)); ("error_description", JStr (error_description b))].

Definition into_response (e : DomainError) : Response :=
  {| resp_status := status_code (err_code e);
     resp_body := ErrorBody_json {| error := as_str (err_code e);
                                    error_description := description e |} |}.

(** A client can recover the error from the response: code and description. *)
Definition read_code (s : string) : option ErrorCode :=
  Str.first_some (λ c, if bool_decide (as_str c = s) then Some c else None)
    [InvalidRequest; InvalidToken; InsufficientScope; NotFound; Conflict;
     RateLimited; ServiceUnavailable].

Definition read_response (r : Response) : option DomainError :=
  v ← json_get "error" (resp_body r);
  s ← json_as_str v;
  c ← read_code s;
  w ← json_get "error_description" (resp_body r);
  d ← json_as_str w;
  if bool_decide (resp_status r = status_code c) then Some (mkDomainError c d) else None.

#[export] Instance status_code_inj : Inj (=) (=) status_code.
Proof. intros [] []; done. Qed.

(** The response of an error carries the error: distinct codes have
    distinct statuses and strings, and code and description can be read back
    from status and body. *)
Lemma error_response_roundtrip e : read_response (into_response e) = Some e.
Proof. destruct e as [c d]. by destruct c. Qed.

End Errors.
