(* ===== verification/RateLimit.v ===== *)
(** * Per-subject rate limiting ([src/src/domain/ratelimit/mod.rs])

    [InMemoryLimiter] keeps, for each subject, a queue of the instants of the
    requests it accepted.  [allow] drops the instants that left the window,
    then accepts when fewer than the limit remain.  The specification keeps
    the whole history of accepted requests and counts those in the window;
    the limiter, with its pruning and its background [cleanup], answers every
    request as the specification does.

    A call is one step: the lock covers all of it but the reading of the clock, which
    both operations do before they wait for the lock.  A trace has the calls in the order
    of the lock, and its clock is monotone when none is overtaken while it waits;
    [overtaken_request_refused] shows what happens otherwise. *)

From S2P Require Import Prelude.

Module RateLimit.
Local Open Scope Z_scope.

Inductive RateLimitError : Type := BackendError (msg : string).

Definition RateLimitError_fmt (e : RateLimitError) : string :=
  match e with BackendError msg => "rate limit backend error: " +:+ msg end.

(** The [Limiter] trait: what the request handlers call. *)
Class Limiter (L : Type) :=
  limiter_allow : Z → string → M L RateLimitError bool.

Record InMemoryLimiter : Type := mkLimiter {
  windows : gmap string (list Z);
  requests_per_minute : Z;
  window_duration : Z
}.

Definition new (rpm : Z) : InMemoryLimiter :=
  {| windows := ∅; requests_per_minute := rpm; window_duration := secs 60 |}.

Definition set_windows (w : gmap string (list Z)) (l : InMemoryLimiter) : InMemoryLimiter :=
  mkLimiter w (requests_per_minute l) (window_duration l).

(** The [while let Some(&front) = timestamps.front()] loop. *)
Fixpoint drop_stale (cutoff : Z) (ts : list Z) : list Z :=
  match ts with
  | front :: ts' => if front <? cutoff then drop_stale cutoff ts' else ts
  | [] => []
  end.

(** [now] was read before the lock was taken. *)
Definition allow (now : Z) (subject : string) : M InMemoryLimiter RateLimitError bool :=
  λ l,
    let cutoff := now - window_duration l in
    let timestamps := drop_stale cutoff (default [] (windows l !! subject)) in
    if wrap 32 (Z.of_nat (length timestamps)) <? requests_per_minute l
    then (Ok true, set_windows (<[subject := timestamps ++ [now]]> (windows l)) l)
    else (Ok false, set_windows (<[subject := timestamps]> (windows l)) l).

#[export] Instance InMemoryLimiter_Limiter : Limiter InMemoryLimiter := allow.

(** One tick of the background task: [map.retain(..)]; here too [now] was read before
    the lock was taken. *)
Definition cleanup (now : Z) (l : InMemoryLimiter) : InMemoryLimiter :=
  let cutoff := now - window_duration l in
  set_windows
    (omap (λ ts, match drop_stale cutoff ts with [] => None | ts' => Some ts' end)
       (windows l)) l.

(* ------------------------------------------------------------------ *)
(** ** Traces: requests interleaved with cleanup ticks *)

Inductive event : Type :=
| Request (subject : string)
| Cleanup.

(** The answers given to the requests of a timed trace, and the final state. *)
Fixpoint run (tr : list (Z * event)) (l : InMemoryLimiter) : list bool * InMemoryLimiter :=
  match tr with
  | [] => ([], l)
  | (now, Request s) :: tr' =>
      match allow now s l with
      | (Ok b, l') => prod_map (cons b) id (run tr' l')
      | (Err _, l') => run tr' l'
      end
  | (now, Cleanup) :: tr' => run tr' (cleanup now l)
  end.

(** The clock is monotone ([tokio::time::Instant]). *)
Fixpoint monotone (last : Z) (tr : list (Z * event)) : Prop :=
  match tr with
  | [] => True
  | (now, _) :: tr' => last ≤ now ∧ monotone now tr'
  end.

#[export] Instance monotone_dec last tr : Decision (monotone last tr).
Proof.
  revert last; induction tr as [|[now e] tr IH]; intros last; simpl; apply _.
Defined.

(* ------------------------------------------------------------------ *)
(** ** Specification: a sliding window over the full history *)

(** Accepted requests, oldest first. *)
Definition times (s : string) (h : list (string * Z)) : list Z :=
  snd <$> filter (λ p, p.1 = s) h.

Definition in_window (c : Z) (ts : list Z) : list Z := filter (λ t, c ≤ t) ts.

Fixpoint spec_run (W rpm : Z) (tr : list (Z * event)) (h : list (string * Z)) :
    list bool * list (string * Z) :=
  match tr with
  | [] => ([], h)
  | (now, Request s) :: tr' =>
      if Z.of_nat (length (in_window (now - W) (times s h))) <? rpm
      then prod_map (cons true) id (spec_run W rpm tr' (h ++ [(s, now)]))
      else prod_map (cons false) id (spec_run W rpm tr' h)
  | (_, Cleanup) :: tr' => spec_run W rpm tr' h
  end.

(** The requests of a trace that were answered [true]. *)
Fixpoint accepted (tr : list (Z * event)) (bs : list bool) : list (string * Z) :=
  match tr, bs with
  | (_, Cleanup) :: tr', _ => accepted tr' bs
  | (now, Request s) :: tr', b :: bs' =>
      if b then (s, now) :: accepted tr' bs' else accepted tr' bs'
  | _, _ => []
  end.

(* ------------------------------------------------------------------ *)
(** ** Lemmas *)

Lemma times_app s h h' : times s (h ++ h') = times s h ++ times s h'.
Proof. unfold times. by rewrite filter_app, fmap_app. Qed.

Lemma times_single s s' t : times s [(s', t)] = if decide (s' = s) then [t] else [].
Proof. unfold times. rewrite filter_cons. simpl. by case_decide. Qed.

Lemma drop_stale_sorted c ts :
  StronglySorted Z.le ts → drop_stale c ts = in_window c ts.
Proof.
  unfold in_window. induction 1 as [|t ts Hs IH Ht]; [done|]. simpl.
  rewrite filter_cons. destruct (Z.ltb_spec t c).
  - by rewrite decide_False by lia.
  - rewrite decide_True by lia. f_equal. symmetry. apply filter_all_id.
    eapply Forall_impl; [exact Ht|]. simpl. lia.
Qed.

Lemma in_window_sorted c ts : StronglySorted Z.le ts → StronglySorted Z.le (in_window c ts).
Proof.
  unfold in_window. induction 1 as [|t ts Hs IH Ht]; [constructor|].
  rewrite filter_cons. case_decide; [|done]. constructor; [done|].
  by apply Forall_filter_keep.
Qed.

Lemma in_window_in_window c c' ts :
  c' ≤ c → in_window c (in_window c' ts) = in_window c ts.
Proof. intros Hc. apply list_filter_filter_l. lia. Qed.

Lemma in_window_app c ts ts' : in_window c (ts ++ ts') = in_window c ts ++ in_window c ts'.
Proof. apply filter_app. Qed.

(** [in_window] shrinks as the cutoff grows. *)
Lemma in_window_length_mono c c' ts :
  c' ≤ c → (length (in_window c ts) ≤ length (in_window c' ts))%nat.
Proof.
  intros Hc. rewrite <-(in_window_in_window c c' ts Hc). apply length_filter.
Qed.

(** The simulation: the queue of a subject is its accepted history from some
    cutoff that every later window starts after. *)
Definition queue (l : InMemoryLimiter) (s : string) : list Z := default [] (windows l !! s).

Definition ordered (last : Z) (h : list (string * Z)) : Prop :=
  ∀ s, StronglySorted Z.le (times s h) ∧ Forall (λ t, t ≤ last) (times s h).

Record sim (W rpm last : Z) (h : list (string * Z)) (l : InMemoryLimiter) : Prop := {
  sim_rpm : requests_per_minute l = rpm;
  sim_window : window_duration l = W;
  sim_ordered : ordered last h;
  sim_queue s : ∃ c, c ≤ last - W ∧ queue l s = in_window c (times s h);
  sim_bound s : Z.of_nat (length (queue l s)) ≤ rpm
}.

Lemma ordered_later last now h : ordered last h → last ≤ now → ordered now h.
Proof.
  intros Ho Hle s. destruct (Ho s) as [Hs Hp]. split; [done|].
  eapply Forall_impl; [exact Hp|]. simpl. lia.
Qed.

Lemma ordered_snoc last now h s :
  ordered last h → last ≤ now → ordered now (h ++ [(s, now)]).
Proof.
  intros Ho Hle s'. destruct (ordered_later _ _ _ Ho Hle s') as [Hs Hp].
  rewrite times_app, times_single, StronglySorted_app, Forall_app.
  assert (Forall (λ t, t = now) (if decide (s = s') then [now] else [])) as Hn
    by (case_decide; by repeat constructor).
  rewrite Forall_forall in Hp, Hn. repeat split.
  - intros x y Hx ->%Hn. auto.
  - done.
  - case_decide; repeat constructor.
  - by apply Forall_forall.
  - apply Forall_forall. intros x ->%Hn. done.
Qed.

Lemma queue_insert l s ts s' :
  queue (set_windows (<[s := ts]> (windows l)) l) s' =
  if decide (s = s') then ts else queue l s'.
Proof. unfold queue. simpl. rewrite lookup_insert. by case_decide. Qed.

Lemma queue_cleanup now l s :
  queue (cleanup now l) s = drop_stale (now - window_duration l) (queue l s).
Proof.
  unfold queue, cleanup. simpl. rewrite lookup_omap.
  destruct (windows l !! s) as [ts|]; simpl; [|done].
  by destruct (drop_stale _ ts).
Qed.

Section simulation.
Context (W rpm : Z).
Context (HW : 0 ≤ W) (Hrpm : 0 ≤ rpm ≤ u32_max).

Lemma sim_new last : W = secs 60 → sim W rpm last [] (new rpm).
Proof.
  intros ->. split; try done.
  - intros s. by split; constructor.
  - intros s. exists (last - secs 60). split; [lia|done].
  - intros s. unfold queue. simpl. rewrite lookup_empty. simpl. lia.
Qed.

(** Pruning at any later instant leaves exactly the window. *)
Lemma sim_prune last now h l s :
  sim W rpm last h l → last ≤ now →
  drop_stale (now - W) (queue l s) = in_window (now - W) (times s h).
Proof.
  intros H Hle. destruct (sim_queue _ _ _ _ _ H s) as (c & Hc & ->).
  rewrite drop_stale_sorted by apply in_window_sorted, (sim_ordered _ _ _ _ _ H).
  apply in_window_in_window. lia.
Qed.

Lemma sim_prune_bound last now h l s :
  sim W rpm last h l → last ≤ now →
  Z.of_nat (length (in_window (now - W) (times s h))) ≤ rpm.
Proof.
  intros H Hle. destruct (sim_queue _ _ _ _ _ H s) as (c & Hc & Hq).
  pose proof (sim_bound _ _ _ _ _ H s) as Hb. rewrite Hq in Hb.
  pose proof (in_window_length_mono (now - W) c (times s h) ltac:(lia)). lia.
Qed.

(** Changing the queue of one subject to the current window of a history
    that only grew for that subject. *)
Lemma sim_update last now h h' l s :
  sim W rpm last h l → last ≤ now → ordered now h' →
  (∀ s', s ≠ s' → times s' h' = times s' h) →
  Z.of_nat (length (in_window (now - W) (times s h'))) ≤ rpm →
  sim W rpm now h' (set_windows (<[s := in_window (now - W) (times s h')]> (windows l)) l).
Proof.
  intros H Hle Ho Hsame Hb. destruct H as [H1 H2 _ H4 H5]. split; [done..| |].
  - intros s'. rewrite queue_insert. case_decide as Hs; subst.
    + by exists (now - window_duration l).
    + rewrite Hsame by done. destruct (H4 s') as (c & ? & ?). exists c. split; [lia|done].
  - intros s'. rewrite queue_insert. case_decide; by subst.
Qed.

Lemma sim_allow last now h l s :
  sim W rpm last h l → last ≤ now →
  let b := Z.of_nat (length (in_window (now - W) (times s h))) <? rpm in
  let h' := if b then h ++ [(s, now)] else h in
  ∃ l', allow now s l = (Ok b, l') ∧ sim W rpm now h' l'.
Proof.
  intros H Hle b h'. pose proof (sim_prune_bound _ _ _ _ s H Hle) as Hb.
  pose proof (sim_ordered _ _ _ _ _ H) as Ho.
  unfold allow. rewrite (sim_window _ _ _ _ _ H), (sim_rpm _ _ _ _ _ H).
  fold (queue l s). rewrite (sim_prune _ _ _ _ _ H Hle).
  unfold wrap. rewrite Z.mod_small by (unfold u32_max in Hrpm; lia). fold b.
  destruct b eqn:Eb; subst b h'; eexists; (split; [reflexivity|]).
  - apply Z.ltb_lt in Eb.
    replace (_ ++ [now]) with (in_window (now - W) (times s (h ++ [(s, now)]))).
    + apply (sim_update last now h); [done|done|by eapply ordered_snoc| |].
      * intros s' Hs. by rewrite times_app, times_single, decide_False, app_nil_r.
      * rewrite times_app, times_single, decide_True, in_window_app, length_app by done.
        simpl. pose proof (length_filter (λ t, now - W ≤ t) [now]).
        unfold in_window in *. simpl in *. lia.
    + rewrite times_app, times_single, decide_True, in_window_app by done. f_equal.
      apply filter_all_id. repeat constructor. lia.
  - apply (sim_update last now h); [done|done|by eapply ordered_later|done|done].
Qed.

Lemma sim_cleanup last now h l :
  sim W rpm last h l → last ≤ now → sim W rpm now h (cleanup now l).
Proof.
  intros H Hle. pose proof (sim_window _ _ _ _ _ H) as HWl. split.
  - apply (sim_rpm _ _ _ _ _ H).
  - done.
  - eapply ordered_later; [apply H|done].
  - intros s. exists (now - W). split; [lia|].
    rewrite queue_cleanup, HWl. by eapply sim_prune.
  - intros s. rewrite queue_cleanup, HWl, (sim_prune _ _ _ _ _ H Hle).
    by eapply sim_prune_bound.
Qed.

Lemma run_spec_run tr last h l :
  sim W rpm last h l → monotone last tr → (run tr l).1 = (spec_run W rpm tr h).1.
Proof.
  revert last h l. induction tr as [|[now [s|]] tr IH]; intros last h l H Hm; simpl.
  - done.
  - destruct Hm as [Hle Hm]. destruct (sim_allow _ _ _ _ s H Hle) as (l' & -> & H').
    simpl in *. destruct (_ <? rpm); simpl; f_equal; eauto.
  - destruct Hm as [Hle Hm]. eauto using sim_cleanup.
Qed.
End simulation.

(** Accepted requests in any closed interval of the window's length. *)
Definition count_between (lo hi : Z) (ts : list Z) : Z :=
  Z.of_nat (length (filter (λ t, lo ≤ t ≤ hi) ts)).

Lemma count_between_app lo hi ts ts' :
  count_between lo hi (ts ++ ts') = count_between lo hi ts + count_between lo hi ts'.
Proof. unfold count_between. rewrite filter_app, length_app. lia. Qed.

Lemma count_between_window lo hi ts : count_between lo hi ts ≤ Z.of_nat (length (in_window lo ts)).
Proof.
  unfold count_between, in_window.
  rewrite <-(list_filter_filter_l (λ t, lo ≤ t ≤ hi) (λ t, lo ≤ t)) by lia.
  pose proof (length_filter (λ t, lo ≤ t ≤ hi) (filter (λ t, lo ≤ t) ts)). lia.
Qed.

Section bound.
Context (W rpm : Z).

Definition within_limit (h : list (string * Z)) : Prop :=
  ∀ s t, count_between (t - W) t (times s h) ≤ rpm.

Lemma within_limit_snoc last h s now :
  within_limit h → ordered last h → last ≤ now →
  Z.of_nat (length (in_window (now - W) (times s h))) < rpm →
  within_limit (h ++ [(s, now)]).
Proof.
  intros Hl Ho Hle Hlt s' t. rewrite times_app, times_single, count_between_app.
  case_decide; subst; [|specialize (Hl s' t); unfold count_between in *; simpl; lia].
  destruct (decide (t - W ≤ now ≤ t)) as [Hin|Hout].
  - pose proof (count_between_window (t - W) t (times s' h)).
    pose proof (in_window_length_mono (t - W) (now - W) (times s' h) ltac:(lia)).
    unfold count_between at 2. rewrite filter_cons, decide_True by done. simpl. lia.
  - specialize (Hl s' t). unfold count_between at 2.
    rewrite filter_cons, decide_False by done. simpl. lia.
Qed.

Lemma spec_run_accepted tr h :
  (spec_run W rpm tr h).2 = h ++ accepted tr (spec_run W rpm tr h).1.
Proof.
  revert h. induction tr as [|[now [s|]] tr IH]; intros h; simpl.
  - by rewrite app_nil_r.
  - case_match; simpl; rewrite IH; [|done]. by rewrite <-app_assoc.
  - apply IH.
Qed.

Lemma spec_run_within_limit tr last h :
  monotone last tr → within_limit h → ordered last h →
  within_limit (spec_run W rpm tr h).2.
Proof.
  revert last h. induction tr as [|[now [s|]] tr IH]; intros last h Hm Hl Ho; simpl.
  - done.
  - destruct Hm as [Hle Hm]. destruct (Z.ltb_spec (Z.of_nat (length (in_window (now - W) (times s h)))) rpm);
      simpl; eapply IH; eauto using within_limit_snoc, ordered_snoc, ordered_later.
  - destruct Hm as [Hle Hm]. eauto using ordered_later.
Qed.
End bound.

(* ------------------------------------------------------------------ *)
(** ** Properties *)

(** C16: for every trace of requests and cleanup ticks on a monotone clock (no call is
    overtaken between its reading of the clock and the lock), the limiter gives each request the answer of the sliding-window specification,
    which counts the subject's accepted requests of the last 60 seconds in the
    complete history.  Pruning, the shared map and the background task are
    invisible. *)
Theorem limiter_refines_sliding_window rpm last tr :
  0 ≤ rpm ≤ u32_max → monotone last tr →
  (run tr (new rpm)).1 = (spec_run (secs 60) rpm tr []).1.
Proof.
  intros Hrpm Hm. eapply run_spec_run; eauto; [done|].
  by apply sim_new.
Qed.

Definition demo_trace : list (Z * event) :=
  [(secs 1, Request "a"); (secs 2, Request "a"); (secs 3, Request "a");
   (secs 3, Request "b"); (secs 62, Cleanup); (secs 62, Request "a")].

(** A request that read the clock at 9 seconds and was overtaken by one of 10 seconds
    leaves its instant behind the later one, where pruning does not reach it: it is still
    counted when it has left the window. *)
Lemma overtaken_request_refused :
  let tr := [(secs 10, Request "a"); (secs 9, Request "a"); (secs 70, Request "a")] in
  (run tr (new 2)).1 = [true; true; false] ∧ (spec_run (secs 60) 2 tr []).1 = [true; true; true].
Proof. by vm_compute. Qed.

Lemma limiter_refines_sliding_window_witness :
  (run demo_trace (new 2)).1 = (spec_run (secs 60) 2 demo_trace []).1 ∧
  (run demo_trace (new 2)).1 = [true; true; false; true; true].
Proof.
  split; [|by vm_compute].
  apply (limiter_refines_sliding_window 2 0 demo_trace); [by vm_compute|].
  by vm_compute; repeat split; discriminate.
Defined.

(** Over any trace on a monotone clock, no 60-second interval, wherever it
    starts, contains more than [requests_per_minute] accepted requests of one
    subject. *)
Theorem limiter_window_bound rpm last tr s t :
  0 ≤ rpm ≤ u32_max → monotone last tr →
  count_between (t - secs 60) t (times s (accepted tr (run tr (new rpm)).1)) ≤ rpm.
Proof.
  intros Hrpm Hm.
  assert ((run tr (new rpm)).1 = (spec_run (secs 60) rpm tr []).1) as ->.
  { eapply run_spec_run; eauto; [done|]. by apply sim_new. }
  pose proof (spec_run_accepted (secs 60) rpm tr []) as E. simpl in E. rewrite <-E.
  eapply (spec_run_within_limit (secs 60) rpm tr last []); [done| |].
  - intros s' t'. unfold count_between. simpl. lia.
  - intros s'. by split; constructor.
Qed.

Lemma limiter_window_bound_witness :
  count_between (secs 2) (secs 62)
    (times "a" (accepted demo_trace (run demo_trace (new 2)).1)) ≤ 2.
Proof.
  apply (limiter_window_bound 2 0 demo_trace "a" (secs 62)); [by vm_compute|].
  by vm_compute; repeat split; discriminate.
Defined.

End RateLimit.
