(* ===== verification/Cache.v ===== *)
(** * The billet-resolution cache ([src/src/domain/cache/])

    - [Cache]: the trait, with the laws the resolver relies on ([CacheLaws]);
    - [Memory]: [InMemoryCache] of [memory.rs].  Its [get] takes the read lock,
      releases it and may take the write lock: the two phases are separate
      definitions, and the concurrent system interleaves them with every other
      operation.  It refines an atomic cache in which entries disappear exactly
      when their time to live is over;
    - [Redis]: [RedisCache] of [redis.rs] over a Redis server and a JSON codec
      that are parameters. *)

From S2P Require Import Prelude.

Module Cache.
Local Open Scope Z_scope.

Record CacheEntry : Type := mkCacheEntry { billets : list string; stored_at : Z }.

#[export] Instance CacheEntry_eq_dec : EqDecision CacheEntry.
Proof. solve_decision. Defined.

Inductive CacheError : Type := BackendError (msg : string).

Definition CacheError_fmt (e : CacheError) : string :=
  match e with BackendError msg => "cache backend error: " +:+ msg end.

(** The [Cache] trait.  The instant of a call is an argument: [now] on the
    monotone clock, [wall] on the UTC clock. *)
Class Cache (C : Type) := {
  cache_get : Z → string → string → M C CacheError (option CacheEntry);
  cache_set : Z → Z → string → string → list string → Z → M C CacheError unit;
  cache_delete : Z → string → string → M C CacheError unit
}.

(** What a client may rely on: an invariant on the (slot, billets) pairs that
    were stored is an invariant of the pairs that are read, whatever fails,
    expires or is evicted. *)
Class CacheLaws (C : Type) `{Cache C} := {
  cache_slot : string → string → string;
  cache_holds : (string → list string → Prop) → C → Prop;
  cache_holds_mono : ∀ (P Q : string → list string → Prop) c,
    (∀ k b, P k b → Q k b) → cache_holds P c → cache_holds Q c;
  cache_get_holds : ∀ P now s a c r c',
    cache_holds P c → cache_get now s a c = (r, c') → cache_holds P c';
  cache_get_sound : ∀ P now s a c e c',
    cache_holds P c → cache_get now s a c = (Ok (Some e), c') → P (cache_slot s a) (billets e);
  cache_set_holds : ∀ P now wall s a b ttl c r c',
    cache_holds P c → P (cache_slot s a) b →
    cache_set now wall s a b ttl c = (r, c') → cache_holds P c';
  cache_delete_holds : ∀ P now s a c r c',
    cache_holds P c → cache_delete now s a c = (r, c') → cache_holds P c'
}.

(* ------------------------------------------------------------------ *)
Module Memory.

Record InternalEntry : Type := mkInternalEntry {
  ibillets : list string;
  istored_at : Z;
  expires_at : Z
}.

Definition is_expired (now : Z) (e : InternalEntry) : bool := expires_at e <=? now.

Abbreviation InMemoryCache := (gmap string InternalEntry).

Definition new : InMemoryCache := ∅.

Definition cache_key (subject audience : string) : string :=
  subject +:+ ":" +:+ audience.

Definition to_entry (e : InternalEntry) : CacheEntry := mkCacheEntry (ibillets e) (istored_at e).

(** The block under the read lock: [Some r] when [get] returns [r] there,
    [None] when it goes on to the write lock. *)
Definition get_read (now : Z) (key : string) (map : InMemoryCache) :
    option (option CacheEntry) :=
  match map !! key with
  | Some entry => if negb (is_expired now entry) then Some (Some (to_entry entry)) else None
  | None => Some None
  end.

(** The rest, under the write lock. *)
Definition get_write (now : Z) (key : string) (map : InMemoryCache) :
    option CacheEntry * InMemoryCache :=
  match map !! key with
  | Some entry =>
      if is_expired now entry then (None, delete key map) else (Some (to_entry entry), map)
  | None => (None, map)
  end.

(** [get] without interference between the two locks. *)
Definition get (now : Z) (subject audience : string) :
    M InMemoryCache CacheError (option CacheEntry) :=
  λ map,
    let key := cache_key subject audience in
    match get_read now key map with
    | Some r => (Ok r, map)
    | None => let '(r, map') := get_write now key map in (Ok r, map')
    end.

Definition set (now wall : Z) (subject audience : string) (billets : list string) (ttl : Z) :
    M InMemoryCache CacheError unit :=
  λ map,
    let entry := {| ibillets := billets; istored_at := wall; expires_at := now + ttl |} in
    (Ok tt, <[cache_key subject audience := entry]> map).

Definition delete_ (subject audience : string) : M InMemoryCache CacheError unit :=
  λ map, (Ok tt, delete (cache_key subject audience) map).

(** One tick of the background task. *)
Definition cleanup (now : Z) (map : InMemoryCache) : InMemoryCache :=
  filter (λ kv, is_expired now kv.2 = false) map.

#[global] Instance InMemoryCache_Cache : Cache InMemoryCache := {
  cache_get := get;
  cache_set := set;
  cache_delete := λ _, delete_
}.

(* ------------------------------------------------------------------ *)
(** ** The concurrent cache and the atomic one *)

Inductive label : Type :=
| LGet (key : string) (r : option CacheEntry)
| LSet (key : string) (e : InternalEntry)
| LDelete (key : string)
| LTau.

(** Tasks of the runtime share [store]; [pending] are the [get] calls between
    their two locks. *)
Record system : Type := mkSystem {
  clock : Z;
  store : InMemoryCache;
  pending : list string
}.

Inductive step : system → label → system → Prop :=
| step_tick t t' m p : t ≤ t' → step (mkSystem t m p) LTau (mkSystem t' m p)
| step_get_read t m p k r :
    get_read t k m = Some r → step (mkSystem t m p) (LGet k r) (mkSystem t m p)
| step_get_wait t m p k :
    get_read t k m = None → step (mkSystem t m p) LTau (mkSystem t m (k :: p))
| step_get_write t m p1 p2 k r m' :
    get_write t k m = (r, m') →
    step (mkSystem t m (p1 ++ k :: p2)) (LGet k r) (mkSystem t m' (p1 ++ p2))
| step_set t m p s a b wall ttl m' :
    set t wall s a b ttl m = (Ok tt, m') →
    step (mkSystem t m p) (LSet (cache_key s a) (mkInternalEntry b wall (t + ttl)))
         (mkSystem t m' p)
| step_delete t m p s a m' :
    delete_ s a m = (Ok tt, m') →
    step (mkSystem t m p) (LDelete (cache_key s a)) (mkSystem t m' p)
| step_cleanup t m p : step (mkSystem t m p) LTau (mkSystem t (cleanup t m) p).

(** The specification: an entry is there until it expires; nothing is ever
    collected, and a [get] is one atomic lookup. *)
Definition live (t : Z) (m : gmap string InternalEntry) (k : string) : option InternalEntry :=
  match m !! k with
  | Some e => if is_expired t e then None else Some e
  | None => None
  end.

Inductive aspec : Z * gmap string InternalEntry → label → Z * gmap string InternalEntry → Prop :=
| aspec_tick t t' m : t ≤ t' → aspec (t, m) LTau (t', m)
| aspec_get t m k : aspec (t, m) (LGet k (to_entry <$> live t m k)) (t, m)
| aspec_set t m k e : aspec (t, m) (LSet k e) (t, <[k := e]> m)
| aspec_delete t m k : aspec (t, m) (LDelete k) (t, delete k m).

Inductive trace {S : Type} (R : S → label → S → Prop) : S → list label → S → Prop :=
| trace_nil s : trace R s [] s
| trace_cons s l s' tr s'' : R s l s' → trace R s' tr s'' → trace R s (l :: tr) s''.

(** The abstract state has the same clock and the same live entries. *)
Definition coherent (c : system) (a : Z * gmap string InternalEntry) : Prop :=
  clock c = a.1 ∧ ∀ k, live (clock c) (store c) k = live (clock c) a.2 k.

Lemma live_later t t' m k : t ≤ t' → live t' m k = (e ← live t m k; if is_expired t' e then None else Some e).
Proof.
  intros Ht. unfold live, is_expired. destruct (m !! k) as [e|]; [|done].
  destruct (Z.leb_spec (expires_at e) t); simpl; [|done].
  destruct (Z.leb_spec (expires_at e) t'); [done|lia].
Qed.

Lemma live_insert t m k e k' :
  live t (<[k := e]> m) k' =
  if decide (k = k') then if is_expired t e then None else Some e else live t m k'.
Proof. unfold live. case_decide; simplify_map_eq; done. Qed.

Lemma live_delete t m k k' :
  live t (delete k m) k' = if decide (k = k') then None else live t m k'.
Proof. unfold live. case_decide; simplify_map_eq; done. Qed.

Lemma live_cleanup t m k : live t (cleanup t m) k = live t m k.
Proof.
  unfold live, cleanup. rewrite map_lookup_filter.
  destruct (m !! k) as [e|]; simpl; [|done].
  destruct (is_expired t e) eqn:He; by rewrite ?option_guard_True, ?option_guard_False, ?He by done.
Qed.

Lemma get_read_live t k m r : get_read t k m = Some r → r = to_entry <$> live t m k.
Proof.
  unfold get_read, live. destruct (m !! k) as [e|]; [|by intros [= <-]].
  destruct (is_expired t e); simpl; by intros [= <-].
Qed.

Lemma get_write_live t k m r m' :
  get_write t k m = (r, m') → r = to_entry <$> live t m k ∧ ∀ k', live t m' k' = live t m k'.
Proof.
  unfold get_write. destruct (m !! k) as [e|] eqn:Hk.
  - destruct (is_expired t e) eqn:He; intros [= <- <-].
    + unfold live at 1. rewrite Hk, He. split; [done|].
      intros k'. rewrite live_delete. case_decide; [|done]. subst. unfold live. by rewrite Hk, He.
    + unfold live. by rewrite Hk, He.
  - intros [= <- <-]. unfold live. by rewrite Hk.
Qed.

(** One concurrent step is matched by one atomic step. *)
Lemma step_simulated c l c' a :
  step c l c' → coherent c a → ∃ a', aspec a l a' ∧ coherent c' a'.
Proof.
  destruct a as [t0 am]. unfold coherent. intros Hs [Ht Hl]. destruct Hs; simpl in *; subst.
  - exists (t', am). split; [by constructor|]. split; [done|]. simpl.
    intros k. by rewrite !(live_later t0 t') by done; rewrite Hl.
  - exists (t0, am). rewrite (get_read_live _ _ _ _ H), Hl. by split; [constructor|].
  - exists (t0, am). by split; [constructor|].
  - exists (t0, am). destruct (get_write_live _ _ _ _ _ H) as [-> Hl']. rewrite Hl.
    split; [constructor|]. split; [done|]. simpl. intros k'. by rewrite Hl'.
  - exists (t0, <[cache_key s a := mkInternalEntry b wall (t0 + ttl)]> am).
    injection H as <-. split; [constructor|]. split; [done|]. simpl.
    intros k. rewrite !live_insert. by case_decide.
  - exists (t0, delete (cache_key s a) am). injection H as <-.
    split; [constructor|]. split; [done|]. simpl.
    intros k. rewrite !live_delete. by case_decide.
  - exists (t0, am). split; [by constructor|]. split; [done|]. simpl.
    intros k. by rewrite live_cleanup.
Qed.

Lemma trace_simulated c tr c' a :
  trace step c tr c' → coherent c a → ∃ a', trace aspec a tr a' ∧ coherent c' a'.
Proof.
  intros Htr. revert a. induction Htr as [c|c l c1 tr c' Hs Htr IH]; intros a Ha.
  - exists a. by split; [constructor|].
  - destruct (step_simulated _ _ _ _ Hs Ha) as (a1 & Hs' & Ha1).
    destruct (IH _ Ha1) as (a' & Htr' & Ha'). exists a'. split; [|done]. by econstructor.
Qed.

(** C17: every interleaving of the two-phase [get] with [set], [delete], the
    cleanup task and the passing of time is a trace of the atomic cache: a
    [get] answers with the entry that is live when it completes, never with an
    expired one, and neither its lazy removal nor the cleanup ever loses an
    entry that another task refreshed. *)
Theorem cache_linearizable t tr c' :
  trace step (mkSystem t new []) tr c' →
  ∃ a', trace aspec (t, ∅) tr a' ∧ coherent c' a'.
Proof. intros Htr. by eapply trace_simulated. Qed.

(** A reader that found an expired entry, overtaken by a writer. *)
Definition race_trace : list label :=
  [LSet (cache_key "s" "a") (mkInternalEntry ["old"] 0 10); LTau; LTau;
   LSet (cache_key "s" "a") (mkInternalEntry ["new"] 0 25);
   LGet (cache_key "s" "a") (Some (mkCacheEntry ["new"] 0))].

Lemma race_trace_runs : ∃ c', trace step (mkSystem 0 new []) race_trace c'.
Proof.
  eexists.
  eapply trace_cons; [exact (step_set 0 new [] "s" "a" ["old"] 0 10 _ eq_refl)|].
  eapply trace_cons; [apply (step_tick 0 15); lia|].
  eapply trace_cons; [apply (step_get_wait 15 _ [] (cache_key "s" "a")); by vm_compute|].
  eapply trace_cons; [exact (step_set 15 _ _ "s" "a" ["new"] 0 10 _ eq_refl)|].
  eapply trace_cons; [apply (step_get_write 15 _ [] [] (cache_key "s" "a")); by vm_compute|].
  apply trace_nil.
Qed.

Lemma cache_linearizable_witness :
  ∃ a', trace aspec (0, ∅) race_trace a'.
Proof.
  destruct race_trace_runs as [c' Htr].
  destruct (cache_linearizable 0 race_trace c' Htr) as (a' & Ha & _). by exists a'.
Defined.

(** Two (subject, audience) pairs share a cache slot exactly when they are
    equal or one subject extends the other by a colon and the beginning of
    that other pair's audience; with colon-free audiences the slot determines
    the pair. *)
Lemma cache_key_collision s a s' a' :
  cache_key s a = cache_key s' a' ↔
  (s = s' ∧ a = a') ∨
  (∃ p, s = s' +:+ ":" +:+ p ∧ a' = p +:+ ":" +:+ a) ∨
  (∃ p, s' = s +:+ ":" +:+ p ∧ a = p +:+ ":" +:+ a').
Proof.
  unfold cache_key. rewrite str_app_eq_app. split.
  - assert (∀ p x y, ":" +:+ x = p +:+ ":" +:+ y →
              (p = "" ∧ x = y) ∨ ∃ q, p = ":" +:+ q ∧ x = q +:+ ":" +:+ y) as Hc.
    { intros [|c p] x y H.
      - rewrite app_empty_l in H. apply (inj _) in H. by left.
      - rewrite !app_cons in H. injection H as <- H. right. exists p. by rewrite !app_cons. }
    intros [(p & -> & H)|(p & -> & H)]; apply Hc in H as [[-> ->]|(q & -> & ->)];
      rewrite ?app_empty_r; eauto 10.
  - intros [[-> ->]|[(p & -> & ->)|(p & -> & ->)]].
    + left. exists EmptyString. by rewrite app_empty_r.
    + left. by exists (":" +:+ p).
    + right. by exists (":" +:+ p).
Qed.

(* ------------------------------------------------------------------ *)
(** ** The interface laws *)

Definition holds (P : string → list string → Prop) (m : InMemoryCache) : Prop :=
  map_Forall (λ k e, P k (ibillets e)) m.

Lemma get_store_subset now s a m r m' : get now s a m = (r, m') → m' ⊆ m.
Proof.
  unfold get, get_write. repeat case_match; intros; simplify_eq; try done.
  apply delete_subseteq.
Qed.

#[local] Obligation Tactic := idtac.

#[global] Program Instance InMemoryCache_Laws : CacheLaws InMemoryCache := {|
  cache_slot := cache_key;
  cache_holds := holds
|}.
Next Obligation.
  intros P Q c HPQ HP k e Hk. by apply HPQ, HP.
Qed.
Next Obligation.
  intros P now s a c r c' HP Hg k e Hk. apply HP.
  eapply lookup_weaken; [done|by eapply get_store_subset].
Qed.
Next Obligation.
  intros P now s a c e c' HP Hg. simpl in Hg. unfold get in Hg.
  destruct (get_read now (cache_key s a) c) as [r|] eqn:Hr.
  - injection Hg as -> <-. unfold get_read in Hr.
    destruct (c !! _) as [i|] eqn:Hi; [|done]. destruct (is_expired now i); [done|].
    injection Hr as <-. by apply HP in Hi.
  - unfold get_write in Hg. destruct (c !! _) as [i|] eqn:Hi; [|done].
    destruct (is_expired now i); [done|]. injection Hg as <- <-. by apply HP in Hi.
Qed.
Next Obligation.
  intros P now wall s a b ttl c r c' HP Hb [= <- <-]. by apply map_Forall_insert_2.
Qed.
Next Obligation.
  intros P now s a c r c' HP [= <- <-]. by apply map_Forall_delete.
Qed.

End Memory.

(* ------------------------------------------------------------------ *)
Module Redis.

(** The Redis server, a service: its commands, and what its documentation
    promises of the keys it r_holds.  A key may vanish at any time (expiry,
    eviction, a failed command), never change by itself. *)
Class RedisServer (R : Type) := {
  redis_get : Z → string → M R string (option string);
  redis_set_ex : Z → string → string → Z → M R string unit;
  redis_del : Z → string → M R string unit;
  redis_view : R → gmap string string
}.

Class RedisLaws (R : Type) `{RedisServer R} := {
  redis_get_view : ∀ now k r x r', redis_get now k r = (x, r') → redis_view r' ⊆ redis_view r;
  redis_get_value : ∀ now k r v r',
    redis_get now k r = (Ok (Some v), r') → redis_view r !! k = Some v;
  redis_set_view : ∀ now k v ttl r x r',
    redis_set_ex now k v ttl r = (x, r') →
    redis_view r' ⊆ redis_view r ∨ redis_view r' ⊆ <[k := v]> (redis_view r);
  redis_del_view : ∀ now k r x r', redis_del now k r = (x, r') → redis_view r' ⊆ redis_view r
}.

Record StoredEntry : Type := mkStoredEntry { sbillets : list string; sstored_at : Z }.

(** [serde_json] on [StoredEntry]. *)
Class EntryCodec := {
  entry_to_string : StoredEntry → result string string;
  entry_from_str : string → result string StoredEntry
}.

Class EntryCodecLaws `{EntryCodec} :=
  entry_roundtrip : ∀ e s, entry_to_string e = Ok s → entry_from_str s = Ok e.

Section redis.
Context {R : Type} `{RedisServer R} `{EntryCodec}.

Definition r_cache_key (subject audience : string) : string :=
  "qm:cache:" +:+ subject +:+ ":" +:+ audience.

Definition r_get (now : Z) (subject audience : string) : M R CacheError (option CacheEntry) :=
  let key := r_cache_key subject audience in
  value ← m_map_err (λ e, BackendError ("Redis GET failed: " +:+ e)) (redis_get now key);
  match value with
  | None => mret None
  | Some json =>
      stored ← lift_res (map_err
        (λ e, BackendError ("failed to deserialize cache entry: " +:+ e)) (entry_from_str json));
      mret (Some (mkCacheEntry (sbillets stored) (sstored_at stored)))
  end.

(** [ttl] is in nanoseconds; [ttl.as_secs().max(1)]. *)
Definition r_set (now wall : Z) (subject audience : string) (billets : list string) (ttl : Z) :
    M R CacheError unit :=
  let key := r_cache_key subject audience in
  json ← lift_res (map_err (λ e, BackendError ("failed to serialize cache entry: " +:+ e))
           (entry_to_string (mkStoredEntry billets wall)));
  let ttl_secs := Z.max (ttl / secs 1) 1 in
  m_map_err (λ e, BackendError ("Redis SETEX failed: " +:+ e))
    (redis_set_ex now key json ttl_secs).

Definition r_delete (now : Z) (subject audience : string) : M R CacheError unit :=
  m_map_err (λ e, BackendError ("Redis DEL failed: " +:+ e))
    (redis_del now (r_cache_key subject audience)).

#[global] Instance RedisCache_Cache : Cache R := {
  cache_get := r_get;
  cache_set := r_set;
  cache_delete := r_delete
}.

(** Every value on the server that decodes satisfies the client's invariant. *)
Definition r_holds (P : string → list string → Prop) (r : R) : Prop :=
  map_Forall (λ k v, ∀ e, entry_from_str v = Ok e → P k (sbillets e)) (redis_view r).

Lemma r_holds_subset P r r' : redis_view r' ⊆ redis_view r → r_holds P r → r_holds P r'.
Proof. intros Hsub HP k v Hk. apply HP. by eapply lookup_weaken. Qed.

Context `{!RedisLaws R, !EntryCodecLaws}.

#[local] Obligation Tactic := idtac.

#[global] Program Instance RedisCache_Laws : CacheLaws R := {|
  cache_slot := r_cache_key;
  cache_holds := r_holds
|}.
Next Obligation.
  intros P Q c HPQ HP k v Hk e He. by eapply HPQ, HP.
Qed.
Next Obligation.
  intros P now s a c r c' HP. simpl. unfold r_get. unfold_monad.
  destruct (redis_get now _ c) as [x c1] eqn:Hg. apply redis_get_view in Hg.
  repeat case_match; intros; simplify_eq; by eapply r_holds_subset.
Qed.
Next Obligation.
  intros P now s a c e c' HP. simpl. unfold r_get. unfold_monad.
  destruct (redis_get now _ c) as [[[v|]|x] c1] eqn:Hg; try done.
  apply redis_get_value in Hg. destruct (entry_from_str v) eqn:Hv; [|done].
  intros [= <- <-]. exact (HP _ _ Hg _ Hv).
Qed.
Next Obligation.
  intros P now wall s a b ttl c r c' HP Hb. simpl. unfold r_set. unfold_monad.
  destruct (entry_to_string _) as [v|] eqn:Hv; [|by intros [= <- <-]].
  destruct (redis_set_ex _ _ _ _ c) as [x c1] eqn:Hs. apply redis_set_view in Hs.
  assert (r_holds P c1) as HP1.
  { destruct Hs as [Hs|Hs]; [by eapply r_holds_subset|].
    intros k w Hk. eapply lookup_weaken in Hk; [|exact Hs].
    apply lookup_insert_Some in Hk as [[<- <-]|[_ Hk]]; [|by apply HP].
    apply entry_roundtrip in Hv. intros e He. rewrite He in Hv. by injection Hv as ->. }
  by destruct x; intros [= <- <-].
Qed.
Next Obligation.
  intros P now s a c r c' HP. simpl. unfold r_delete. unfold_monad.
  destruct (redis_del now _ c) as [x c1] eqn:Hd. apply redis_del_view in Hd.
  intros [= <- <-]. by eapply r_holds_subset.
Qed.
End redis.

End Redis.

End Cache.
