(* ===== verification/Tags.v ===== *)
(** * Tag validation ([src/src/domain/admin/tags.rs]) *)

From S2P Require Import Prelude.

Module Tags.

Definition is_valid_tag_char (c : ascii) : bool :=
  Str.is_ascii_alphanumeric c || bool_decide (c = "-"%char)
  || bool_decide (c = "_"%char) || bool_decide (c = "."%char).

Definition is_valid_first_char (c : ascii) : bool := Str.is_ascii_alphanumeric c.

Definition tag_error (tag : string) : string :=
  "invalid tag '" +:+ tag +:+
  "': must be key:value format with alphanumeric, hyphen, underscore, or dot characters".

(** [s.chars().next().unwrap()] passed to [is_valid_first_char]. *)
Definition first_char_ok (s : string) : bool :=
  match s with String c _ => is_valid_first_char c | EmptyString => false end.

Definition validate_tag (tag : string) : result string unit :=
  '(key, value) ← ok_or (tag_error tag) (Str.split_once ":" tag);
  _ ← fail_if (Str.is_empty key || Str.is_empty value) (tag_error tag);
  _ ← fail_if (negb (first_char_ok key)) (tag_error tag);
  _ ← fail_if (negb (Str.all_chars is_valid_tag_char key)) (tag_error tag);
  _ ← fail_if (negb (first_char_ok value)) (tag_error tag);
  _ ← fail_if (negb (Str.all_chars is_valid_tag_char value)) (tag_error tag);
  Ok tt.

Definition validate_tags (tags : list string) : result string unit :=
  try_for_each validate_tag tags.

(* ------------------------------------------------------------------ *)
(** ** Specification *)

(** A key or a value: an alphanumeric character followed by tag characters. *)
Definition component (s : string) : Prop :=
  ∃ c s', s = String c s' ∧ is_valid_first_char c = true ∧
          Str.all_chars is_valid_tag_char s' = true.

Definition tag_form (tag : string) : Prop :=
  ∃ k v, tag = k +:+ ":" +:+ v ∧ component k ∧ component v.

Lemma first_char_is_tag_char c : is_valid_first_char c = true → is_valid_tag_char c = true.
Proof. unfold is_valid_first_char, is_valid_tag_char. by intros ->. Qed.

Lemma component_spec s :
  component s ↔ first_char_ok s = true ∧ Str.all_chars is_valid_tag_char s = true.
Proof.
  unfold component. split.
  - intros (c & s' & -> & Hc & Hs). simpl. by rewrite Hs, (first_char_is_tag_char c Hc).
  - destruct s as [|c s']; simpl; [naive_solver|].
    intros [Hc [_ Hs]%andb_true_iff]. eauto.
Qed.

Lemma tag_chars_no_colon s :
  Str.all_chars is_valid_tag_char s = true →
  Str.all_chars (λ x, bool_decide (x ≠ ":"%char)) s = true.
Proof.
  induction s as [|c s IH]; simpl; [done|].
  intros [Hc Hs]%andb_true_iff. rewrite (IH Hs), andb_true_r.
  apply bool_decide_eq_true_2. by intros ->.
Qed.

Lemma validate_tag_cases tag :
  validate_tag tag = Ok tt ∨ validate_tag tag = Err (tag_error tag).
Proof. unfold validate_tag. run_monad; by auto. Qed.

(** [validate_tag] accepts exactly the strings [key:value] whose two parts
    start with an alphanumeric character and contain only alphanumerics,
    hyphens, underscores and dots; in particular a second colon is refused. *)
Lemma validate_tag_spec tag : validate_tag tag = Ok tt ↔ tag_form tag.
Proof.
  unfold validate_tag, tag_form. rewrite bind_Ok. setoid_rewrite ok_or_Ok. split.
  - intros ([k v] & Hs%split_once_Some & H). destruct Hs as [-> _].
    repeat (rewrite bind_Ok in H; setoid_rewrite fail_if_Ok in H; destruct H as (_ & ? & H)).
    rewrite !negb_false_iff in *. exists k, v. rewrite !component_spec. done.
  - intros (k & v & -> & [Hk Hk']%component_spec & [Hv Hv']%component_spec).
    exists (k, v). rewrite split_once_Some. split.
    + split; [done|by apply tag_chars_no_colon].
    + rewrite Hk, Hk', Hv, Hv'. by destruct k, v.
Qed.

Lemma validate_tags_Ok tags u : validate_tags tags = Ok u ↔ Forall tag_form tags.
Proof. unfold validate_tags. rewrite try_for_each_Ok. by setoid_rewrite validate_tag_spec. Qed.

(** [validate_tags] accepts a list exactly when every tag is well formed,
    and otherwise reports the first tag that is not. *)
Theorem validate_tags_spec tags :
  (validate_tags tags = Ok tt ↔ Forall tag_form tags) ∧
  (∀ msg, validate_tags tags = Err msg ↔
     ∃ good bad rest, tags = good ++ bad :: rest ∧ Forall tag_form good ∧
       ¬ tag_form bad ∧ msg = tag_error bad).
Proof.
  split.
  - apply validate_tags_Ok.
  - intros msg. unfold validate_tags. rewrite try_for_each_Err. setoid_rewrite validate_tag_spec.
    split; intros (g & b & r & -> & Hg & Hb); exists g, b, r.
    + destruct (validate_tag_cases b) as [|]; [congruence|].
      rewrite <-validate_tag_spec. split_and!; [done|done|congruence|congruence].
    + destruct Hb as [Hb ->]. rewrite <-validate_tag_spec in Hb.
      by destruct (validate_tag_cases b).
Qed.

End Tags.
