(* ===== verification/Http.v ===== *)
(** * The [url] and [reqwest] crates, as the sources use them

    Both are parameters of the components that call them. *)

From S2P Require Import Prelude.

Module Http.

(** What the sources read of [url::Url]. *)
Class UrlLib := {
  Url : Type;
  url_parse : string → result string Url;
  url_scheme : Url → string;
  url_host_str : Url → option string;
  url_query_pairs : Url → list (string * string);
  url_as_str : Url → string
}.

(** An answer of [reqwest]: the status with its rendering, and the body or the
    error of reading it. *)
Record Response : Type := mkResponse {
  resp_status : Z;
  resp_status_text : string;
  resp_text : result string string
}.

Definition is_success (r : Response) : bool := (200 <=? resp_status r)%Z && (resp_status r <=? 299)%Z.

(** [client.get(url).send()], and [response.json::<T>()] for the deserializer of
    [T]. *)
Class HttpClient := {
  http_get : string → result string Response;
  resp_json : ∀ {T : Type}, (json → option T) → Response → result string T
}.

End Http.
