(* ===== verification/Jwt.v ===== *)
(** * JSON web tokens, as the [jsonwebtoken] crate offers them

    The vocabulary of the crate the sources use (algorithms, headers, validation
    options, error kinds) and, for the validators of foreign tokens, the crate as a
    parameter: [Verify.JwtVerify] has one field per function called, [Verify.JwtVerifyLaws]
    what its documentation promises of [decode]. *)

From S2P Require Import Prelude.

Module Jwt.
Local Open Scope Z_scope.

Inductive Algorithm : Type :=
| HS256 | HS384 | HS512 | ES256 | ES384 | RS256 | RS384 | RS512 | PS256 | PS384 | PS512 | EdDSA.

#[export] Instance Algorithm_eq_dec : EqDecision Algorithm.
Proof. solve_decision. Defined.

(** The derived [Debug]. *)
Definition Algorithm_debug (a : Algorithm) : string :=
  match a with
  | HS256 => "HS256" | HS384 => "HS384" | HS512 => "HS512" | ES256 => "ES256" | ES384 => "ES384"
  | RS256 => "RS256" | RS384 => "RS384" | RS512 => "RS512"
  | PS256 => "PS256" | PS384 => "PS384" | PS512 => "PS512" | EdDSA => "EdDSA"
  end.

Record Header : Type := mkHeader { alg : Algorithm; kid : option string }.

#[export] Instance Header_eq_dec : EqDecision Header.
Proof. solve_decision. Defined.

(** The error kinds the sources tell apart, and the text of any other. *)
Inductive JwtError : Type :=
| ExpiredSignature
| InvalidSignatureKind
| InvalidEcdsaKey
| InvalidRsaKey (msg : string)
| OtherJwtError (msg : string).

Definition JwtError_fmt (e : JwtError) : string :=
  match e with
  | ExpiredSignature => "ExpiredSignature"
  | InvalidSignatureKind => "InvalidSignature"
  | InvalidEcdsaKey => "InvalidEcdsaKey"
  | InvalidRsaKey msg => "RSA key invalid: " +:+ msg
  | OtherJwtError msg => msg
  end.

(** [Validation]: the options the sources set. *)
Record Validation : Type := mkValidation {
  algorithms : list Algorithm;
  issuers : option (list string);
  validate_aud : bool;
  validate_exp : bool;
  validate_signature : bool;
  required_spec_claims : list string
}.

(** [Validation::new(alg)] and [Validation::default()] *)
Definition Validation_new (a : Algorithm) : Validation := mkValidation [a] None true true true ["exp"].
Definition Validation_default : Validation := Validation_new HS256.

End Jwt.

Module Verify.
Import Jwt.
Local Open Scope Z_scope.

(* ------------------------------------------------------------------ *)
(** ** Payloads and the derived deserializers

    A payload is the member list of the claims object.  A field that occurs twice
    is refused, as derived deserializers do. *)

Definition payload : Type := list (string * json).

Definition members (k : string) (p : payload) : list json := (filter (λ m, m.1 = k) p).*2.

(** The value of the only member of that name. *)
Definition member (k : string) (p : payload) : option json :=
  match members k p with [v] => Some v | _ => None end.

Definition de_string (v : json) : option string := json_as_str v.
Definition de_u64 (v : json) : option Z :=
  match v with JNum n => if (0 <=? n) && (n <=? u64_max) then Some n else None | _ => None end.
Definition de_strings (v : json) : option (list string) := json_as_array v ≫= mapM json_as_str.

(** A required field, a field with [serde(default)], and an [Option] field. *)
Definition required {T} (k : string) (de : json → option T) (p : payload) : option T := member k p ≫= de.
Definition defaulted {T} (k : string) (de : json → option T) (d : T) (p : payload) : option T :=
  match members k p with [] => Some d | [v] => de v | _ => None end.
Definition optional {T} (k : string) (de : json → option T) (p : payload) : option (option T) :=
  match members k p with
  | [] => Some None
  | [JNull] => Some None
  | [v] => Some <$> de v
  | _ => None
  end.

(** The fields of a nested derived struct: an object, or an array of the values in
    field order, of which the first [min] must be there. *)
Definition struct_fields (min : nat) (names : list string) (v : json) : option payload :=
  match v with
  | JObj o => Some o
  | JArr l => if (min <=? length l)%nat && (length l <=? length names)%nat then Some (zip names l) else None
  | _ => None
  end.

(** The audience: one string or an array of strings ([serde(untagged)]). *)
Inductive OneOrMany : Type := One (s : string) | Many (v : list string).

Definition OneOrMany_default : OneOrMany := Many [].

Definition de_one_or_many (v : json) : option OneOrMany :=
  match v with JStr s => Some (One s) | _ => Many <$> de_strings v end.

Definition into_vec (a : OneOrMany) : list string := match a with One s => [s] | Many v => v end.

(* ------------------------------------------------------------------ *)
(** ** The crate *)

Class JwtVerify := {
  DecodingKey : Type;
  decode_header : string → result string Header;
  from_ec_components : string → string → result string DecodingKey;
  from_rsa_components : string → string → result string DecodingKey;
  from_secret : string → DecodingKey;
  (** [decode::<T>] at a unix time; the first argument is the deserializer of [T] *)
  decode : ∀ {T : Type}, (payload → option T) → Z → string → DecodingKey → Validation → result JwtError T
}.

(** Presence of the claims of [required_spec_claims]: a number for [exp], a string
    for [sub]. *)
Definition has_claim (p : payload) (k : string) : bool :=
  match member k p with
  | Some (JNum _) => bool_decide (k = "exp")
  | Some (JStr _) => bool_decide (k = "sub")
  | _ => false
  end.

(** The documented validation of registered claims: required claims are present,
    an expiry is at most 60 seconds past, an issuer string is one of the list. *)
Definition claims_valid (now : Z) (v : Validation) (p : payload) : bool :=
  forallb (has_claim p) (required_spec_claims v) &&
  (if validate_exp v then match member "exp" p with Some (JNum e) => now <=? e + 60 | _ => true end else true) &&
  match issuers v, member "iss" p with
  | Some l, Some (JStr i) => bool_decide (i ∈ l)
  | _, _ => true
  end.

Class JwtVerifyLaws `{JwtVerify} := {
  (** The payload of a token, and whether a key signed it with one of the
      algorithms. *)
  payload_of : string → option payload;
  verified : DecodingKey → list Algorithm → string → Prop;
  decode_sound : ∀ T (de : payload → option T) now tok k v c, decode de now tok k v = Ok c →
    ∃ p, payload_of tok = Some p ∧ de p = Some c ∧ claims_valid now v p = true ∧
      (validate_signature v = true → verified k (algorithms v) tok);
  decode_complete : ∀ T (de : payload → option T) now tok k v c p,
    validate_aud v = false → payload_of tok = Some p → de p = Some c → claims_valid now v p = true →
    (∀ l, member "iss" p ≠ Some (JArr l)) →
    (validate_signature v = true → verified k (algorithms v) tok) → decode de now tok k v = Ok c
}.

(* ------------------------------------------------------------------ *)
(** ** What the fields and the validation give *)

Lemma defaulted_Some {T} k (de : json → option T) d p x :
  defaulted k de d p = Some x → x = d ∨ ∃ j, member k p = Some j ∧ de j = Some x.
Proof.
  unfold defaulted, member. destruct (members k p) as [|j [|]]; [by intros [= ->]; left| |done]. eauto.
Qed.

Lemma optional_Some {T} k (de : json → option T) p x :
  optional k de p = Some (Some x) → ∃ j, member k p = Some j ∧ de j = Some x.
Proof.
  unfold optional, member. destruct (members k p) as [|j [|]]; [done| |].
  - destruct j; try done; intros (y & Hy & [= ->])%fmap_Some; eauto.
  - by destruct j.
Qed.

Lemma optional_string k p s :
  optional k de_string p = Some (Some s) → member k p = Some (JStr s).
Proof. intros (j & Hj & Hs)%optional_Some. destruct j; try done. by injection Hs as ->. Qed.

Lemma claims_valid_exp now v p :
  claims_valid now v p = true → "exp" ∈ required_spec_claims v → validate_exp v = true →
  ∃ e, member "exp" p = Some (JNum e) ∧ now ≤ e + 60.
Proof.
  unfold claims_valid. intros [[Hreq Hexp]%andb_true_iff _]%andb_true_iff Hin Hv. rewrite Hv in Hexp.
  apply list_elem_of_In in Hin. pose proof (proj1 (forallb_forall _ _) Hreq _ Hin) as Hc.
  unfold has_claim in Hc. destruct (member "exp" p) as [[]|]; try done. exists n. split; [done|lia].
Qed.

Lemma claims_valid_iss now v p l i :
  claims_valid now v p = true → issuers v = Some l → member "iss" p = Some (JStr i) → i ∈ l.
Proof.
  unfold claims_valid. intros [_ Hi]%andb_true_iff Hl Hm. rewrite Hl, Hm in Hi. by apply bool_decide_eq_true in Hi.
Qed.

(* ------------------------------------------------------------------ *)
(** ** An engine with a table of tokens, for the witnesses *)

Module ToyVerify.

(** A token: its header, its payload and the key that signed it. *)
Record toy_token : Type := mkToyToken { tt_header : Header; tt_payload : payload; tt_key : string }.

Section toy.
Variable table : list (string * toy_token).

Definition toy_find (t : string) : option toy_token := snd ∘ snd <$> list_find (λ e, e.1 = t) table.

Definition toy_verified (k : string) (algs : list Algorithm) (t : string) : bool :=
  match toy_find t with
  | Some tok => bool_decide (tt_key tok = k) && bool_decide (alg (tt_header tok) ∈ algs)
  | None => false
  end.

Definition toy_verify : JwtVerify := {|
  DecodingKey := string;
  decode_header := λ t, ok_or "InvalidToken" (tt_header <$> toy_find t);
  from_ec_components := λ x y, Ok (x +:+ y);
  from_rsa_components := λ n e, Ok (n +:+ e);
  from_secret := id;
  decode := λ T de now t k v,
    match toy_find t with
    | None => Err (OtherJwtError "InvalidToken")
    | Some tok =>
        if validate_signature v && negb (toy_verified k (algorithms v) t) then Err InvalidSignatureKind
        else c ← ok_or (OtherJwtError "JSON error") (de (tt_payload tok));
             if claims_valid now v (tt_payload tok) then Ok c else Err ExpiredSignature
    end
|}.

Definition toy_verify_laws : @JwtVerifyLaws toy_verify.
Proof.
  refine {| payload_of := λ t, tt_payload <$> toy_find t;
            verified := λ (k : @DecodingKey toy_verify) algs t, toy_verified k algs t = true |}.
  - intros T de now t k v c. cbv [decode toy_verify]. destruct (toy_find t) as [tok|]; [|done].
    destruct (validate_signature v && _) eqn:E; [done|].
    intros (c' & Hc%ok_or_Ok & Hv)%bind_Ok. destruct (claims_valid _ _ _) eqn:Hcv; [|done].
    injection Hv as ->. exists (tt_payload tok). split_and!; [done..|]. intros Hs. rewrite Hs in E.
    by apply negb_false_iff in E.
  - intros T de now t k v c p _ (tok & Ht & ->)%fmap_Some Hde Hcv _ Hs. cbv [decode toy_verify].
    rewrite Ht. destruct (validate_signature v); [rewrite Hs by done|]; cbn; by rewrite Hde, Hcv.
Defined.
End toy.
End ToyVerify.

End Verify.
