(* ===== verification/Identity.v ===== *)
(** * Authenticated identities ([src/src/domain/identity/])

    The identity types and errors of [mod.rs], the subject of [subject.rs], the
    [identity] claim of [claims.rs] and the dispatcher of [dispatcher.rs].  The
    validators are the fields of the dispatcher's record: functions from the
    presented token to an identity. *)

From S2P Require Import Prelude.

Module Identity.

Record SpireIdentity : Type := mkSpire {
  spiffe_id : string;
  trust_domain : string;
  environment : string;
  region : string;
  audience : list string
}.

Inductive SpireAuthSource : Type := JwtSvid | MtlsCert.

Record OidcIdentity : Type := mkOidc {
  oidc_email : string;
  idp_prefix : string;
  claims : gmap string (list string);
  oidc_subject : string
}.

Record AwsStsIdentity : Type := mkAws {
  account_id : string;
  role_arn : string;
  role_name : string;
  role_path : string;
  session_name : string
}.

Record GcpIdentity : Type := mkGcp {
  project_id : string;
  gcp_email : string;
  zone : string;
  unique_id : string
}.

Inductive AuthenticatedIdentity : Type :=
| Spire (i : SpireIdentity)
| Oidc (i : OidcIdentity)
| AwsSts (i : AwsStsIdentity)
| Gcp (i : GcpIdentity).

Inductive IdentityError : Type :=
| UnknownTokenType (t : string)
| IssuerNotFound (iss : string)
| InvalidSignature (detail : string)
| TokenExpired
| AudienceMismatch (aud : string)
| KeysStale (source : string)
| InvalidPresignedUrl (detail : string)
| UpstreamCallFailed (detail : string)
| NotAllowed (detail : string)
| MissingClaim (claim : string).

#[export] Instance IdentityError_eq_dec : EqDecision IdentityError.
Proof. solve_decision. Defined.

Definition IdentityError_fmt (e : IdentityError) : string :=
  match e with
  | UnknownTokenType t => "unknown subject_token_type: " +:+ t
  | IssuerNotFound iss => "token issuer does not match any configured source: " +:+ iss
  | InvalidSignature detail => "token signature verification failed: " +:+ detail
  | TokenExpired => "token has expired"
  | AudienceMismatch aud => "token audience not in allowed list: " +:+ aud
  | KeysStale source => "JWKS stale for source: " +:+ source
  | InvalidPresignedUrl detail => "invalid presigned URL: " +:+ detail
  | UpstreamCallFailed detail => "upstream identity call failed: " +:+ detail
  | NotAllowed detail => "identity not in allowlist: " +:+ detail
  | MissingClaim claim => "missing required claim: " +:+ claim
  end.

(* ------------------------------------------------------------------ *)
(** ** [subject.rs] *)

Definition format_subject (identity : AuthenticatedIdentity) : string :=
  match identity with
  | Spire spire => spiffe_id spire
  | Oidc oidc => "human:" +:+ oidc_email oidc
  | AwsSts aws => "aws:" +:+ account_id aws +:+ ":" +:+ role_name aws
  | Gcp gcp => "gcp:" +:+ project_id gcp +:+ ":" +:+ gcp_email gcp
  end.

(* ------------------------------------------------------------------ *)
(** ** [claims.rs] *)

(** [claims.values().flat_map(..)], in the map's iteration order. *)
Definition flat_claims `{HashIter} (c : gmap string (list string)) : list string :=
  mjoin (hash_iter (map_to_list c)).*2.

Definition build_identity_claim `{HashIter} (identity : AuthenticatedIdentity) : json :=
  match identity with
  | Spire spire =>
      JObj [("type", JStr "workload"); ("spiffe_id", JStr (spiffe_id spire))]
  | Oidc oidc =>
      JObj [("type", JStr "human"); ("email", JStr (oidc_email oidc));
            ("idp", JStr (idp_prefix oidc));
            ("groups", JArr (JStr <$> flat_claims (claims oidc)))]
  | AwsSts aws =>
      JObj [("type", JStr "aws_role"); ("account_id", JStr (account_id aws));
            ("role_arn", JStr (role_arn aws))]
  | Gcp gcp =>
      JObj [("type", JStr "gcp_workload"); ("project_id", JStr (project_id gcp));
            ("email", JStr (gcp_email gcp))]
  end.

(* ------------------------------------------------------------------ *)
(** ** [svid/mod.rs]: the claims and errors of the SPIRE validator *)

Record SvidClaims : Type := mkSvidClaims {
  svid_spiffe_id : string;
  svid_trust_domain : string;
  svid_environment : string;
  svid_region : string;
  svid_audience : list string;
  svid_expires_at : Z
}.

Inductive SvidError : Type :=
| SignatureInvalid (msg : string)
| SvidExpired
| UnknownTrustDomain (domain : string)
| InvalidAudience
| MalformedToken (msg : string).

(* ------------------------------------------------------------------ *)
(** ** [dispatcher.rs] *)

Definition TOKEN_TYPE_SPIRE : string := "urn:ietf:params:oauth:token-type:jwt".
Definition TOKEN_TYPE_OIDC : string := "urn:quartermaster:token-type:oidc".
Definition TOKEN_TYPE_AWS_STS : string := "urn:quartermaster:token-type:aws-presigned-sts".
Definition TOKEN_TYPE_GCP : string := "urn:quartermaster:token-type:gcp-identity".

Record DefaultIdentityDispatcher : Type := mkDispatcher {
  spire_validator : option (string → result SvidError SvidClaims);
  oidc_validator : option (string → result IdentityError OidcIdentity);
  aws_sts_validator : option (string → result IdentityError AwsStsIdentity);
  gcp_validator : option (string → result IdentityError GcpIdentity)
}.

Definition map_svid_error (e : SvidError) : IdentityError :=
  match e with
  | SignatureInvalid msg => InvalidSignature msg
  | SvidExpired => TokenExpired
  | UnknownTrustDomain domain => IssuerNotFound domain
  | InvalidAudience => AudienceMismatch "SVID audience mismatch"
  | MalformedToken msg => InvalidSignature msg
  end.

Definition spire_of_claims (c : SvidClaims) : SpireIdentity :=
  {| spiffe_id := svid_spiffe_id c; trust_domain := svid_trust_domain c;
     environment := svid_environment c; region := svid_region c;
     audience := svid_audience c |}.

Definition validate (d : DefaultIdentityDispatcher) (subject_token subject_token_type : string) :
    result IdentityError AuthenticatedIdentity :=
  if bool_decide (subject_token_type = TOKEN_TYPE_SPIRE) then
    validator ← ok_or (UnknownTokenType subject_token_type) (spire_validator d);
    claims ← map_err map_svid_error (validator subject_token);
    Ok (Spire (spire_of_claims claims))
  else if bool_decide (subject_token_type = TOKEN_TYPE_OIDC) then
    validator ← ok_or (UnknownTokenType subject_token_type) (oidc_validator d);
    identity ← validator subject_token;
    Ok (Oidc identity)
  else if bool_decide (subject_token_type = TOKEN_TYPE_AWS_STS) then
    validator ← ok_or (UnknownTokenType subject_token_type) (aws_sts_validator d);
    identity ← validator subject_token;
    Ok (AwsSts identity)
  else if bool_decide (subject_token_type = TOKEN_TYPE_GCP) then
    validator ← ok_or (UnknownTokenType subject_token_type) (gcp_validator d);
    identity ← validator subject_token;
    Ok (Gcp identity)
  else Err (UnknownTokenType subject_token_type).

(* ------------------------------------------------------------------ *)
(** ** Properties *)

(** What the subject string is meant to name. *)
Inductive principal_name : Type :=
| PWorkload (spiffe : string)
| PHuman (email : string)
| PAws (account role : string)
| PGcp (project email : string).

Definition name_of (i : AuthenticatedIdentity) : principal_name :=
  match i with
  | Spire s => PWorkload (spiffe_id s)
  | Oidc o => PHuman (oidc_email o)
  | AwsSts a => PAws (account_id a) (role_name a)
  | Gcp g => PGcp (project_id g) (gcp_email g)
  end.

Definition no_colon (s : string) : bool := Str.all_chars (λ c, bool_decide (c ≠ ":"%char)) s.

(** The shapes the validators produce: a SPIFFE URI, a numeric account, a
    project without a colon. *)
Definition well_shaped (i : AuthenticatedIdentity) : bool :=
  match i with
  | Spire s => Str.starts_with "spiffe://" (spiffe_id s)
  | Oidc _ => true
  | AwsSts a => no_colon (account_id a)
  | Gcp g => no_colon (project_id g)
  end.

(** The first colon separates two fields unambiguously. *)
Lemma colon_split_inj a b a' b' :
  no_colon a = true → no_colon a' = true →
  a +:+ ":" +:+ b = a' +:+ ":" +:+ b' → a = a' ∧ b = b'.
Proof.
  intros Ha Ha' H.
  assert (Str.split_once ":" (a +:+ ":" +:+ b) = Some (a, b)) as E1.
  { apply split_once_Some. done. }
  assert (Str.split_once ":" (a' +:+ ":" +:+ b') = Some (a', b')) as E2.
  { apply split_once_Some. done. }
  rewrite H, E2 in E1. by injection E1.
Qed.

(** Two identities have the same subject only if they name the same
    principal: SPIFFE IDs, human e-mails, AWS (account, role) pairs and GCP
    (project, e-mail) pairs never collide, within a source or across sources.
    (The subject forgets the IdP of a human and the path of a role.) *)
Theorem format_subject_injective i j :
  well_shaped i = true → well_shaped j = true →
  format_subject i = format_subject j → name_of i = name_of j.
Proof.
  assert (∀ s, Str.starts_with "spiffe://" s = true →
            ∃ r, s = String "s" ("piffe://" +:+ r)) as Hs.
  { intros s [r ->]%starts_with_spec. exists r. done. }
  destruct i as [s|o|a|g], j as [s'|o'|a'|g']; simpl; intros Hi Hj H;
    try (apply Hs in Hi as [r Hr]); try (apply Hs in Hj as [r' Hr']); try congruence;
    rewrite ?Hr, ?Hr', ?app_cons in H; try discriminate H.
  - by apply (inj (String.append "human:")) in H as ->.
  - apply (inj (String.append "aws:")), colon_split_inj in H as [-> ->]; done.
  - apply (inj (String.append "gcp:")), colon_split_inj in H as [-> ->]; done.
Qed.

Lemma format_subject_injective_witness :
  name_of (AwsSts (mkAws "123456789012" "arn" "billing" "/" "s1")) =
  name_of (AwsSts (mkAws "123456789012" "arn2" "billing" "/x/" "s2")).
Proof.
  apply (format_subject_injective
           (AwsSts (mkAws "123456789012" "arn" "billing" "/" "s1"))
           (AwsSts (mkAws "123456789012" "arn2" "billing" "/x/" "s2")));
    by vm_compute.
Defined.

(** The source type an identity claims. *)
Definition token_type_of (i : AuthenticatedIdentity) : string :=
  match i with
  | Spire _ => TOKEN_TYPE_SPIRE
  | Oidc _ => TOKEN_TYPE_OIDC
  | AwsSts _ => TOKEN_TYPE_AWS_STS
  | Gcp _ => TOKEN_TYPE_GCP
  end.

(** Some configured validator of the identity's own source accepted the token. *)
Definition vouched (d : DefaultIdentityDispatcher) (tok : string) (i : AuthenticatedIdentity) : Prop :=
  match i with
  | Spire s => ∃ v c, spire_validator d = Some v ∧ v tok = Ok c ∧ s = spire_of_claims c
  | Oidc o => ∃ v, oidc_validator d = Some v ∧ v tok = Ok o
  | AwsSts a => ∃ v, aws_sts_validator d = Some v ∧ v tok = Ok a
  | Gcp g => ∃ v, gcp_validator d = Some v ∧ v tok = Ok g
  end.

(** The dispatcher authenticates a token exactly when the validator of the
    declared token type is configured and accepts it; the identity is of that
    type (no type confusion), and an unknown or unconfigured type is
    [UnknownTokenType]. *)
Theorem dispatch_exact d tok tt i :
  validate d tok tt = Ok i ↔ tt = token_type_of i ∧ vouched d tok i.
Proof.
  unfold validate. split.
  - repeat (case_bool_decide; [subst|]); [..|done]; rewrite bind_Ok; setoid_rewrite ok_or_Ok;
      intros (v & Hv & Hk); apply bind_Ok in Hk as (x & Hx & [= <-]); split; try done.
    + apply map_err_Ok in Hx. by exists v, x.
    + by exists v.
    + by exists v.
    + by exists v.
  - intros [-> H]. destruct i; simpl in H.
    + destruct H as (v & c & Hv & Hc & ->).
      rewrite bool_decide_eq_true_2 by done. rewrite Hv. simpl. by rewrite Hc.
    + destruct H as (v & Hv & Hc). simpl. rewrite Hv. simpl. by rewrite Hc.
    + destruct H as (v & Hv & Hc). simpl. rewrite Hv. simpl. by rewrite Hc.
    + destruct H as (v & Hv & Hc). simpl. rewrite Hv. simpl. by rewrite Hc.
Qed.

End Identity.
