(* ===== verification/PathPattern.v ===== *)
(** * SPIFFE path patterns ([src/src/domain/identity/path_pattern.rs])

    The [regex] crate is a parameter: compilation, the capture names of a
    pattern and the captures of a match. *)

From S2P Require Import Prelude.

Module PathPattern.

Record PathPatternConfig : Type := mkPathPatternConfig { pattern : string }.

Inductive PathPatternError : Type :=
| InvalidRegex (pattern reason : string)
| InvalidCaptureName (pattern name reason : string)
| NoCaptures (pattern : string).

Definition PathPatternError_fmt (e : PathPatternError) : string :=
  match e with
  | InvalidRegex pattern reason =>
      "invalid path pattern regex '" +:+ pattern +:+ "': " +:+ reason
  | InvalidCaptureName pattern name reason =>
      "capture group '" +:+ name +:+ "' in pattern '" +:+ pattern +:+
      "' is not a valid Cedar attribute name: " +:+ reason
  | NoCaptures pattern =>
      "path pattern '" +:+ pattern +:+
      "' has no named capture groups — it will match but extract no attributes"
  end.

(** [regex::Regex]. *)
Class RegexLib := {
  Regex : Type;
  regex_new : string → result string Regex;
  regex_as_str : Regex → string;
  regex_capture_names : Regex → list (option string);
  regex_is_match : Regex → string → bool;
  regex_captures : Regex → string → option (gmap string string)
}.

Definition CAPTURE_NAME_PATTERN : string := "^[a-zA-Z_][a-zA-Z0-9_]*$".

(** What that pattern means. *)
Definition is_name_start (c : ascii) : bool :=
  Str.is_ascii_lowercase c || Str.is_ascii_uppercase c || bool_decide (c = "_"%char).
Definition is_name_char (c : ascii) : bool := is_name_start c || Str.is_ascii_digit c.
Definition attribute_name (s : string) : bool :=
  match s with
  | EmptyString => false
  | String c s' => is_name_start c && Str.all_chars is_name_char s'
  end.

(** The documented behaviour of the crate the matcher relies on. *)
Class RegexLaws `{RegexLib} := {
  regex_new_as_str : ∀ p r, regex_new p = Ok r → regex_as_str r = p;
  regex_name_validator :
    ∃ r, regex_new CAPTURE_NAME_PATTERN = Ok r ∧ ∀ s, regex_is_match r s = attribute_name s
}.

Section matcher.
Context `{RegexLib}.

Record CompiledPattern : Type := mkCompiled {
  regex : Regex;
  capture_names : list string
}.

Record PathPatternMatcher : Type := mkMatcher {
  patterns : list CompiledPattern;
  trust_domain : string
}.

(** The body of the loop over the configured patterns. *)
Definition compile_one (valid : string → bool) (config : PathPatternConfig)
    (acc : list CompiledPattern * list PathPatternError) :
    list CompiledPattern * list PathPatternError :=
  let '(patterns, errors) := acc in
  match regex_new (pattern config) with
  | Err e => (patterns, errors ++ [InvalidRegex (pattern config) e])
  | Ok r =>
      let names := omap id (regex_capture_names r) in
      let bad := filter (λ n, valid n = false) names in
      (patterns ++ [mkCompiled r names],
       errors ++ ((λ n, InvalidCaptureName (pattern config) n
                          "must match [a-zA-Z_][a-zA-Z0-9_]*") <$> bad))
  end.

(** [expect] on the constant validator pattern panics: [None]. *)
Definition compile (td : string) (configs : list PathPatternConfig) :
    option (result (list PathPatternError) PathPatternMatcher) :=
  match regex_new CAPTURE_NAME_PATTERN with
  | Err _ => None
  | Ok name_validator =>
      let '(patterns, errors) :=
        foldl (λ acc config, compile_one (regex_is_match name_validator) config acc)
          ([], []) configs in
      Some (if bool_decide (errors = []) then Ok (mkMatcher patterns td) else Err errors)
  end.

Fixpoint extract_from (ps : list CompiledPattern) (path : string) : gmap string string :=
  match ps with
  | [] => ∅
  | compiled :: ps' =>
      match regex_captures (regex compiled) path with
      | Some caps =>
          foldl (λ result name, match caps !! name with
                                | Some m => <[name := m]> result
                                | None => result
                                end) ∅ (capture_names compiled)
      | None => extract_from ps' path
      end
  end.

Definition extract (m : PathPatternMatcher) (spiffe_id : string) : gmap string string :=
  match Str.strip_prefix ("spiffe://" +:+ trust_domain m) spiffe_id with
  | None => ∅
  | Some path => extract_from (patterns m) path
  end.

Definition warnings (m : PathPatternMatcher) : list PathPatternError :=
  (λ p, NoCaptures (regex_as_str (regex p))) <$> filter (λ p, capture_names p = []) (patterns m).

(* ------------------------------------------------------------------ *)
(** ** Lemmas *)

Lemma compile_fold valid configs ps es :
  ∃ ps' es',
    foldl (λ acc config, compile_one valid config acc) (ps, es) configs = (ps ++ ps', es ++ es') ∧
    (es' = [] → Forall2 (λ config p, regex_new (pattern config) = Ok (regex p) ∧
                 capture_names p = omap id (regex_capture_names (regex p)) ∧
                 Forall (λ n, valid n = true) (capture_names p)) configs ps').
Proof.
  revert ps es. induction configs as [|config configs IH]; intros ps es; simpl.
  - exists [], []. rewrite !app_nil_r. by repeat constructor.
  - destruct (regex_new (pattern config)) as [r|e] eqn:Hr.
    + set (names := omap id (regex_capture_names r)).
      set (bad := (λ n, InvalidCaptureName (pattern config) n
                          "must match [a-zA-Z_][a-zA-Z0-9_]*") <$> filter (λ n, valid n = false) names).
      destruct (IH (ps ++ [mkCompiled r names]) (es ++ bad)) as (ps' & es' & -> & Hps).
      exists (mkCompiled r names :: ps'), (bad ++ es'). split; [by rewrite <-!app_assoc|].
      intros [Hb He]%app_nil. constructor; [|by apply Hps]. simpl.
      split_and!; [done|done|]. apply fmap_nil_inv in Hb.
      apply bool_filter_nil in Hb. eapply Forall_impl; [done|].
      intros n. simpl. by destruct (valid n).
    + destruct (IH ps (es ++ [InvalidRegex (pattern config) e])) as (ps' & es' & -> & Hps).
      exists ps', (InvalidRegex (pattern config) e :: es'). by rewrite <-app_assoc.
Qed.

Lemma fold_captures (caps : gmap string string) names (acc : gmap string string) k :
  foldl (λ result name, match caps !! name with
                        | Some m => <[name := m]> result
                        | None => result end) acc names !! k =
  if decide (k ∈ names) then match caps !! k with Some v => Some v | None => acc !! k end
  else acc !! k.
Proof.
  revert acc. induction names as [|n names IH]; intros acc; [done|]. cbn [foldl]. rewrite IH.
  assert ((match caps !! n with Some m => <[n:=m]> acc | None => acc end : gmap _ _) !! k
          = if decide (k = n) then match caps !! k with Some v => Some v | None => acc !! k end
            else acc !! k) as ->.
  { destruct (decide (k = n)) as [->|]; destruct (caps !! n) eqn:E; rewrite ?lookup_insert_eq, ?lookup_insert_ne by done; done. }
  repeat case_decide; try set_solver; destruct (caps !! k); done.
Qed.

(** The pattern [extract] uses: the first that matches. *)
Lemma extract_from_Some ps path k v :
  extract_from ps path !! k = Some v ↔
  ∃ ps1 p ps2 caps, ps = ps1 ++ p :: ps2 ∧
    Forall (λ q, regex_captures (regex q) path = None) ps1 ∧
    regex_captures (regex p) path = Some caps ∧ k ∈ capture_names p ∧ caps !! k = Some v.
Proof.
  induction ps as [|p ps IH]; simpl.
  - rewrite lookup_empty. split; [done|]. intros ([|??] & ? & ? & ? & ? & _); done.
  - destruct (regex_captures (regex p) path) as [caps|] eqn:Hp.
    + rewrite fold_captures, lookup_empty. split.
      * case_decide; [|done]. destruct (caps !! k) eqn:Hk; [|done]. intros [= ->].
        exists [], p, ps, caps. naive_solver.
      * intros ([|q ps1] & p' & ps2 & caps' & ? & Hn & Hc & Hk & Hv); simplify_eq/=.
        -- rewrite decide_True by done. by rewrite Hv.
        -- apply Forall_cons in Hn as [Hn _]. congruence.
    + rewrite IH. split.
      * intros (ps1 & p' & ps2 & caps & -> & Hn & ?). exists (p :: ps1), p', ps2, caps.
        split; [done|]. split; [by constructor|done].
      * intros ([|q ps1] & p' & ps2 & caps & ? & Hn & Hc & Hk & Hv); simplify_eq/=.
        apply Forall_cons in Hn as [_ Hn]. by exists ps1, p', ps2, caps.
Qed.

Context `{!RegexLaws}.

Lemma compile_cases td configs :
  (∃ es, es ≠ [] ∧ compile td configs = Some (Err es)) ∨
  (∃ ps, compile td configs = Some (Ok (mkMatcher ps td)) ∧
    Forall2 (λ config p, regex_new (pattern config) = Ok (regex p) ∧
      capture_names p = omap id (regex_capture_names (regex p)) ∧
      Forall (λ n, attribute_name n = true) (capture_names p)) configs ps).
Proof.
  destruct regex_name_validator as (r & Hr & Hv). unfold compile. rewrite Hr.
  destruct (compile_fold (regex_is_match r) configs [] []) as (ps & es & -> & Hps).
  rewrite !app_nil_l. case_bool_decide as He; subst.
  - right. exists ps. split; [done|]. eapply Forall2_impl; [by apply Hps|].
    intros c p (? & ? & ?). split_and!; [done..|]. by setoid_rewrite <-Hv.
  - left. eauto.
Qed.

(** The attributes a compiled matcher extracts from a SPIFFE ID are valid
    Cedar attribute names, are captured by the first configured pattern that
    matches the path, and come only from IDs that begin with the matcher's
    trust domain; compilation itself never panics. *)
Theorem extract_attributes td configs :
  compile td configs ≠ None ∧
  ∀ m id k v, compile td configs = Some (Ok m) → extract m id !! k = Some v →
    attribute_name k = true ∧
    ∃ path cs1 config cs2 r caps,
      id = "spiffe://" +:+ td +:+ path ∧ configs = cs1 ++ config :: cs2 ∧
      Forall (λ c, ∃ q, regex_new (pattern c) = Ok q ∧ regex_captures q path = None) cs1 ∧
      regex_new (pattern config) = Ok r ∧ regex_captures r path = Some caps ∧ caps !! k = Some v.
Proof.
  destruct (compile_cases td configs) as [(es & _ & ->)|(ps & -> & Hps)]; [naive_solver|].
  split; [done|]. intros m id k v [= <-] Hx. unfold extract in Hx. simpl in Hx.
  destruct (Str.strip_prefix _ id) as [path|] eqn:Hp; [|by rewrite lookup_empty in Hx].
  apply strip_prefix_Some in Hp as ->.
  apply extract_from_Some in Hx as (ps1 & p & ps2 & caps & -> & Hn & Hc & Hk & Hv).
  apply Forall2_app_inv_r in Hps as (cs1 & cs2 & H1 & H2 & ->).
  apply Forall2_cons_inv_r in H2 as (config & cs3 & (Hr & _ & Hnames) & _ & ->).
  split; [by eapply Forall_forall in Hnames|].
  exists path, cs1, config, cs3, (regex p), caps. rewrite str_app_assoc.
  split_and!; try done. clear -H1 Hn. induction H1 as [|c q cs qs (Hq & _) _ IH]; [done|].
  apply Forall_cons in Hn as [Hq' Hn]. constructor; eauto.
Qed.
End matcher.

(** A small instance: literal patterns, [*] capturing the whole path as [path]. *)
#[local] Instance toy_regex : RegexLib := {|
  Regex := string;
  regex_new := λ p, if bool_decide (p = "(") then Err "unclosed group" else Ok p;
  regex_as_str := id;
  regex_capture_names := λ r, if bool_decide (r = "*") then [Some "path"] else [None];
  regex_is_match := λ r s,
    if bool_decide (r = CAPTURE_NAME_PATTERN) then attribute_name s else bool_decide (r = s);
  regex_captures := λ r s, if bool_decide (r = "*") then Some {["path" := s]}
                           else if bool_decide (r = s) then Some ∅ else None
|}.

#[local] Instance toy_regex_laws : RegexLaws.
Proof.
  split.
  - intros p r. simpl. by case_bool_decide; intros [= ->].
  - exists CAPTURE_NAME_PATTERN. done.
Qed.

Definition toy_matcher : PathPatternMatcher :=
  mkMatcher [@mkCompiled toy_regex "/x" []; @mkCompiled toy_regex "*" ["path"]] "td".

Lemma extract_attributes_witness :
  extract toy_matcher "spiffe://td/ns/a" !! "path" = Some "/ns/a" ∧ attribute_name "path" = true.
Proof.
  split; [by vm_compute|].
  destruct (extract_attributes "td" [mkPathPatternConfig "/x"; mkPathPatternConfig "*"]) as [_ H].
  refine (proj1 (H toy_matcher "spiffe://td/ns/a" "path" "/ns/a" _ _)).
  - reflexivity.
  - reflexivity.
Defined.

End PathPattern.
