(* ===== verification/IdentityConfig.v ===== *)
(** * Identity source configuration ([src/src/config/identity.rs])

    The configuration records, the startup validation and the duration parser.
    [url::Url::parse] is a parameter: the parse error of a string, if any. *)

From S2P Require Import Prelude PathPattern.

Module IdentityConfig.
Import PathPattern.

Record SpireSourceConfig : Type := mkSpireSource {
  spire_trust_domain : string;
  jwks_path : string;
  spire_audience : string;
  x509_bundle_path : option string;
  path_patterns : list PathPatternConfig
}.

Record ImplicitClaimConfig : Type := mkImplicitClaim {
  claim : string;
  cfg_billet_prefix : string;
  cfg_in_tokens : bool
}.

Record OidcSourceConfig : Type := mkOidcSource {
  prefix : string;
  issuer : string;
  client_ids : list string;
  jwks_refresh_interval : Z;
  max_staleness : Z;
  implicit_claims : list ImplicitClaimConfig
}.

Record AwsStsSourceConfig : Type := mkAwsSource {
  aws_enabled : bool;
  allowed_accounts : option (list string)
}.

Record GcpSourceConfig : Type := mkGcpSource {
  gcp_enabled : bool;
  gcp_audience : string;
  allowed_projects : option (list string);
  gcp_jwks_refresh_interval : Z;
  gcp_max_staleness : Z
}.

Record IdentityConfig : Type := mkIdentityConfig {
  spire : option SpireSourceConfig;
  oidc : list OidcSourceConfig;
  aws_sts : option AwsStsSourceConfig;
  gcp : option GcpSourceConfig
}.

Inductive IdentityConfigError : Type :=
| NoSourcesConfigured
| DuplicateOidcPrefix (prefix : string)
| DuplicateBilletPrefix (prefix : string)
| InvalidPrefix (prefix context : string)
| InvalidIssuerUrl (prefix issuer reason : string).

Definition IdentityConfigError_fmt (e : IdentityConfigError) : string :=
  match e with
  | NoSourcesConfigured => "at least one identity source must be configured"
  | DuplicateOidcPrefix prefix => "duplicate OIDC IdP prefix: '" +:+ prefix +:+ "'"
  | DuplicateBilletPrefix prefix =>
      "duplicate implicit claim billet_prefix: '" +:+ prefix +:+ "'"
  | InvalidPrefix prefix context =>
      "invalid prefix '" +:+ prefix +:+ "' (" +:+ context +:+
      "): must match pattern [a-z0-9][a-z0-9-]*"
  | InvalidIssuerUrl prefix issuer reason =>
      "invalid OIDC issuer URL for prefix '" +:+ prefix +:+ "': '" +:+ issuer +:+
      "' (" +:+ reason +:+ ")"
  end.

Definition prefix_first (b : ascii) : bool := Str.is_ascii_lowercase b || Str.is_ascii_digit b.
Definition prefix_rest (b : ascii) : bool :=
  Str.is_ascii_lowercase b || Str.is_ascii_digit b || bool_decide (b = "-"%char).

Definition is_valid_prefix (prefix : string) : bool :=
  match prefix with
  | EmptyString => false
  | String first rest => if negb (prefix_first first) then false else Str.all_chars prefix_rest rest
  end.

(** [for x in l { if !seen.insert(x) { return Err(dup(x)) } }] *)
Fixpoint check_unique (dup : string → IdentityConfigError) (seen : gset string)
    (l : list string) : result IdentityConfigError unit :=
  match l with
  | [] => Ok tt
  | x :: l' => if bool_decide (x ∈ seen) then Err (dup x) else check_unique dup ({[x]} ∪ seen) l'
  end.

(** The billet prefixes of all sources, in the order of the nested loops. *)
Definition billet_prefixes (sources : list OidcSourceConfig) : list string :=
  sources ≫= λ source, cfg_billet_prefix <$> implicit_claims source.

Definition check_source_prefixes (source : OidcSourceConfig) : result IdentityConfigError unit :=
  _ ← fail_if (negb (is_valid_prefix (prefix source)))
        (InvalidPrefix (prefix source)
           ("OIDC IdP prefix for issuer '" +:+ issuer source +:+ "'"));
  try_for_each (λ mapping,
    fail_if (negb (is_valid_prefix (cfg_billet_prefix mapping)))
      (InvalidPrefix (cfg_billet_prefix mapping)
         ("billet_prefix for claim '" +:+ claim mapping +:+ "' in OIDC IdP '" +:+
          prefix source +:+ "'"))) (implicit_claims source).

Lemma elem_of_billet_prefixes p sources :
  p ∈ billet_prefixes sources ↔
  ∃ s, s ∈ sources ∧ p ∈ cfg_billet_prefix <$> implicit_claims s.
Proof. unfold billet_prefixes. rewrite list_elem_of_bind. naive_solver. Qed.

Section validate.
Context (url_parse_error : string → option string).

Definition check_issuer (source : OidcSourceConfig) : result IdentityConfigError unit :=
  match url_parse_error (issuer source) with
  | Some e => Err (InvalidIssuerUrl (prefix source) (issuer source) e)
  | None => Ok tt
  end.

Definition validate (c : IdentityConfig) : result IdentityConfigError unit :=
  let has_spire := bool_decide (is_Some (spire c)) in
  let has_oidc := negb (bool_decide (oidc c = [])) in
  let has_aws_sts := default false (aws_enabled <$> aws_sts c) in
  let has_gcp := default false (gcp_enabled <$> gcp c) in
  _ ← fail_if (negb has_spire && negb has_oidc && negb has_aws_sts && negb has_gcp)
        NoSourcesConfigured;
  _ ← check_unique DuplicateOidcPrefix ∅ (prefix <$> oidc c);
  _ ← check_unique DuplicateBilletPrefix ∅ (billet_prefixes (oidc c));
  _ ← try_for_each check_source_prefixes (oidc c);
  try_for_each check_issuer (oidc c).

(* ------------------------------------------------------------------ *)

(** The five checks, as properties of the configuration. *)
Record config_ok (c : IdentityConfig) : Prop := {
  ok_source : is_Some (spire c) ∨ oidc c ≠ [] ∨
    (∃ a, aws_sts c = Some a ∧ aws_enabled a = true) ∨
    (∃ g, gcp c = Some g ∧ gcp_enabled g = true);
  ok_unique_idp : NoDup (prefix <$> oidc c);
  ok_unique_billet : NoDup (billet_prefixes (oidc c));
  ok_idp_prefix : ∀ s, s ∈ oidc c → is_valid_prefix (prefix s) = true;
  ok_billet_prefix : ∀ p, p ∈ billet_prefixes (oidc c) → is_valid_prefix p = true;
  ok_issuer : ∀ s, s ∈ oidc c → url_parse_error (issuer s) = None
}.

Lemma check_unique_Ok dup seen l u :
  check_unique dup seen l = Ok u ↔ NoDup l ∧ ∀ x, x ∈ l → x ∉ seen.
Proof.
  destruct u. revert seen. induction l as [|x l IH]; intros seen; simpl.
  - split; [|done]. intros _. split; [constructor|]. set_solver.
  - rewrite NoDup_cons. case_bool_decide as Hx.
    + split; [done|]. set_solver.
    + rewrite IH. set_solver.
Qed.

Lemma check_source_prefixes_Ok s u :
  check_source_prefixes s = Ok u ↔
  is_valid_prefix (prefix s) = true ∧
  ∀ p, p ∈ cfg_billet_prefix <$> implicit_claims s → is_valid_prefix p = true.
Proof.
  unfold check_source_prefixes. rewrite bind_Ok. setoid_rewrite fail_if_Ok.
  setoid_rewrite try_for_each_Ok. setoid_rewrite fail_if_Ok.
  setoid_rewrite negb_false_iff. setoid_rewrite Forall_forall.
  setoid_rewrite list_elem_of_fmap. split.
  - intros (_ & H1 & H2). split; [done|]. intros p (m & -> & Hm). eauto.
  - intros [H1 H2]. exists tt. split; [done|]. eauto.
Qed.

Lemma has_source_spec c :
  negb (bool_decide (is_Some (spire c))) && negb (negb (bool_decide (oidc c = [])))
    && negb (default false (aws_enabled <$> aws_sts c))
    && negb (default false (gcp_enabled <$> gcp c)) = false ↔
  is_Some (spire c) ∨ oidc c ≠ [] ∨
    (∃ a, aws_sts c = Some a ∧ aws_enabled a = true) ∨
    (∃ g, gcp c = Some g ∧ gcp_enabled g = true).
Proof.
  rewrite !andb_false_iff, !negb_false_iff, negb_true_iff, bool_decide_eq_true, bool_decide_eq_false.
  destruct (aws_sts c) as [a|], (gcp c) as [g|]; simpl; naive_solver.
Qed.

Lemma check_issuer_Ok s u : check_issuer s = Ok u ↔ url_parse_error (issuer s) = None.
Proof. unfold check_issuer. destruct u, (url_parse_error _); naive_solver. Qed.

(** Startup validation accepts a configuration exactly when some source is
    enabled, IdP prefixes and billet prefixes are unique and well formed, and
    every issuer is a URL. *)
Theorem validate_spec c : validate c = Ok tt ↔ config_ok c.
Proof.
  unfold validate. rewrite bind_Ok. setoid_rewrite bind_Ok. setoid_rewrite bind_Ok.
  setoid_rewrite bind_Ok. setoid_rewrite fail_if_Ok. setoid_rewrite has_source_spec.
  setoid_rewrite check_unique_Ok. setoid_rewrite try_for_each_Ok.
  setoid_rewrite Forall_forall. setoid_rewrite check_source_prefixes_Ok.
  setoid_rewrite check_issuer_Ok. split.
  - intros (_ & Hs & _ & [Hu _] & _ & [Hb _] & _ & Hp & Hi).
    split; [done..| | |done].
    + intros s Hin. by apply Hp.
    + intros p (s & Hin & Hmem)%elem_of_billet_prefixes. by eapply Hp.
  - intros [Hs Hu Hb Hp Hbp Hi]. exists tt. split; [done|]. exists tt. split; [set_solver|].
    exists tt. split; [set_solver|]. exists tt. split; [|done].
    intros s Hin. split; [by apply Hp|]. intros p Hmem. apply Hbp, elem_of_billet_prefixes. eauto.
Qed.
End validate.

(* ------------------------------------------------------------------ *)
(** ** Path patterns of the SPIRE source *)

Definition validate_path_patterns `{RegexLib} (c : SpireSourceConfig) :
    option (result (list PathPatternError) (option PathPatternMatcher)) :=
  if bool_decide (path_patterns c = []) then Some (Ok None)
  else match compile (spire_trust_domain c) (path_patterns c) with
       | Some (Ok m) => Some (Ok (Some m))
       | Some (Err e) => Some (Err e)
       | None => None
       end.

(* ------------------------------------------------------------------ *)
(** ** Durations

    A [Duration] is its number of nanoseconds.  The products are on [u64]:
    with overflow checks off (a release build) they wrap. *)

Definition strip_unit (s : string) : string * string :=
  match Str.strip_suffix "ms" s with
  | Some stripped => (stripped, "ms")
  | None =>
  match Str.strip_suffix "s" s with
  | Some stripped => (stripped, "s")
  | None =>
  match Str.strip_suffix "m" s with
  | Some stripped => (stripped, "m")
  | None =>
  match Str.strip_suffix "h" s with
  | Some stripped => (stripped, "h")
  | None =>
  match Str.strip_suffix "d" s with
  | Some stripped => (stripped, "d")
  | None => (s, "s")
  end end end end end.

Definition parse_duration (s0 : string) : result string Z :=
  let s := Str.trim s0 in
  _ ← fail_if (Str.is_empty s) "duration string must not be empty";
  let '(num_str, suffix) := strip_unit s in
  value ← ok_or ("invalid duration value: '" +:+ s +:+ "'") (Str.parse_uint u64_max num_str);
  if bool_decide (suffix = "ms") then Ok (value * 1000000)%Z
  else if bool_decide (suffix = "s") then Ok (secs value)
  else if bool_decide (suffix = "m") then Ok (secs (wrap 64 (value * 60)))
  else if bool_decide (suffix = "h") then Ok (secs (wrap 64 (value * 3600)))
  else if bool_decide (suffix = "d") then Ok (secs (wrap 64 (value * 86400)))
  else Err ("unknown duration suffix in: '" +:+ s +:+ "'").

(** The unit of a suffix, in nanoseconds, and its factor on seconds. *)
Inductive unit_suffix : Type := Ums | Us | Um | Uh | Ud | Ubare.
Definition suffix_text (u : unit_suffix) : string :=
  match u with Ums => "ms" | Us => "s" | Um => "m" | Uh => "h" | Ud => "d" | Ubare => "" end.
Definition suffix_nanos (u : unit_suffix) : Z :=
  match u with
  | Ums => 1000000 | Us | Ubare => secs 1 | Um => secs 60 | Uh => secs 3600 | Ud => secs 86400
  end.
(** The largest count whose product fits in 64 bits. *)
Definition suffix_max (u : unit_suffix) : Z :=
  match u with Ums | Us | Ubare => u64_max | Um => 307445734561825860 | Uh => 5124095576030431
  | Ud => 213503982334601 end.

Lemma strip_suffix_digits p s :
  Str.all_chars Str.is_ascii_digit s = true → Str.all_chars Str.is_ascii_digit p = false →
  Str.strip_suffix p s = None.
Proof.
  intros Hs Hp. destruct (Str.strip_suffix p s) as [r|] eqn:E; [|done].
  apply strip_suffix_Some in E as ->. by rewrite all_chars_app, Hp, andb_false_r in Hs.
Qed.

Lemma strip_unit_printed n u :
  strip_unit (pretty (n : N) +:+ suffix_text u) =
  (pretty n, match u with Ubare => "s" | _ => suffix_text u end).
Proof.
  pose proof (pretty_N_digits n) as Hd. unfold strip_unit.
  assert (∀ x, Str.is_ascii_digit x = false → x ≠ "s"%char →
    Str.strip_suffix "ms" (pretty n +:+ String x EmptyString) = None) as Hms.
  { intros x Hx Hs. destruct (Str.strip_suffix _ _) as [r|] eqn:E; [|done].
    apply strip_suffix_Some in E. change "ms" with ("m" +:+ "s") in E.
    rewrite str_app_assoc in E.
    assert (Str.strip_suffix "s" (pretty n +:+ String x "") = Some (r +:+ "m")) as E'
      by by apply strip_suffix_Some.
    by rewrite strip_suffix_last, bool_decide_eq_false_2 in E' by done. }
  destruct u; cbn [suffix_text].
  - by rewrite (proj2 (strip_suffix_Some "ms" (pretty n +:+ "ms") (pretty n))).
  - destruct (Str.strip_suffix "ms" (pretty n +:+ "s")) as [r|] eqn:E.
    + apply strip_suffix_Some in E. change "ms" with ("m" +:+ "s") in E.
      rewrite str_app_assoc in E.
      assert (Str.strip_suffix "s" (pretty n +:+ "s") = Some (r +:+ "m")) as E'
        by by apply strip_suffix_Some.
      rewrite strip_suffix_last, bool_decide_eq_true_2 in E' by done. injection E' as E'.
      rewrite E', all_chars_app, andb_false_r in Hd. done.
    + by rewrite strip_suffix_last.
  - by rewrite Hms, !strip_suffix_last.
  - by rewrite Hms, !strip_suffix_last.
  - by rewrite Hms, !strip_suffix_last.
  - rewrite app_empty_r. by rewrite !strip_suffix_digits.
Qed.

(** A printed count with a unit suffix parses to that many units whenever
    the product fits in 64 bits. *)
Lemma parse_duration_roundtrip (n : N) u :
  (Z.of_N n ≤ suffix_max u)%Z →
  parse_duration (pretty n +:+ suffix_text u) = Ok (Z.of_N n * suffix_nanos u)%Z.
Proof.
  intros Hn. unfold parse_duration.
  assert (Z.of_N n ≤ u64_max)%Z as Hn' by (destruct u; unfold suffix_max, u64_max in *; lia).
  pose proof (pretty_N_nonempty n) as Hne.
  rewrite trim_graphic.
  2:{ rewrite all_chars_app. unfold pretty, pretty_N.
      destruct (decide _); [by destruct u|]. rewrite pretty_go_chars; [by destruct u| |done].
      intros y Hy. destruct (pretty_N_char_digit y Hy) as [_ Hc]. unfold is_graphic. rewrite Hc.
      apply andb_true_iff. split; apply N.leb_le; lia. }
  assert (Str.is_empty (pretty n +:+ suffix_text u) = false) as ->.
  { apply bool_decide_eq_false_2. destruct (pretty n); [done|]. by rewrite app_cons. }
  simpl fail_if. cbn [mbind result_bind]. rewrite strip_unit_printed, parse_uint_pretty by done.
  simpl ok_or. cbn [mbind result_bind]. unfold secs, wrap.
  destruct u; cbn; unfold suffix_max, u64_max in *; f_equal; unfold secs;
    rewrite ?Z.mod_small by lia; lia.
Qed.

Lemma parse_duration_roundtrip_witness : parse_duration "24h" = Ok (24 * suffix_nanos Uh)%Z.
Proof. apply (parse_duration_roundtrip 24 Uh). by vm_compute. Defined.

(** Past that bound the product wraps silently: [213503982334602d] is read
    as less than a day. *)
Theorem parse_duration_overflow :
  parse_duration "213503982334602d" = Ok (secs 61184)%Z.
Proof. vm_compute. reflexivity. Qed.

End IdentityConfig.
