(* ===== verification/Config.v ===== *)
(** * Application configuration ([src/src/config/mod.rs], [src/src/config/backends.rs])

    The configuration records with their defaults, startup validation, and loading
    from a TOML file or from the environment.  The environment, the file system and
    the TOML parser are arguments; URL parsing is that of [IdentityConfig]. *)

From S2P Require Import Prelude PathPattern IdentityConfig.

Module Config.
Local Open Scope Z_scope.

(* ------------------------------------------------------------------ *)
(** ** Audit sinks ([src/src/domain/audit/config.rs]) *)

Inductive SinkConfig : Type :=
| SinkStdout
| SinkFile (path : string) (max_size_mb max_files : Z)
| SinkKinesisFirehose (stream_name region : string)
| SinkGcpPubSub (project topic : string).

Record AuditConfig : Type := mkAuditConfig {
  buffer_capacity : Z;
  sinks : list SinkConfig
}.

Definition default_buffer_capacity : Z := 10000.
Definition default_sinks : list SinkConfig := [SinkStdout].
Definition AuditConfig_default : AuditConfig := mkAuditConfig default_buffer_capacity default_sinks.

(* ------------------------------------------------------------------ *)
(** ** Backends ([backends.rs]) *)

Inductive DataStoreBackend : Type := Dynamodb | Firestore | Local.

Record DynamoDbConfig : Type := mkDynamoDb {
  db_region : string;
  db_billets_table : string;
  db_policies_table : string
}.

Record FirestoreConfig : Type := mkFirestore {
  fs_project : string;
  fs_collection_prefix : string
}.

Record LocalStoreConfig : Type := mkLocalStore { ls_path : string }.

Record DataStoreConfig : Type := mkDataStoreConfig {
  ds_backend : DataStoreBackend;
  ds_dynamodb : option DynamoDbConfig;
  ds_firestore : option FirestoreConfig;
  ds_local : option LocalStoreConfig;
  ds_policy_sync_interval_secs : Z
}.

Inductive SigningBackend : Type := Memory | KmsDelegated.

Record MemorySigningConfig : Type := mkMemorySigning { ms_key_path : string }.
Record AwsKmsConfig : Type := mkAwsKms { kms_key_arn : string; kms_region : string }.
Record GcpKmsConfig : Type := mkGcpKms { kms_key_name : string }.

Record KmsDelegatedConfig : Type := mkKmsDelegated {
  rotation_interval : string;
  key_overlap : string;
  ephemeral_algorithm : string;
  aws_kms : option AwsKmsConfig;
  gcp_kms : option GcpKmsConfig
}.

Record SigningBackendConfig : Type := mkSigningBackend {
  sb_backend : SigningBackend;
  sb_memory : option MemorySigningConfig;
  sb_kms_delegated : option KmsDelegatedConfig
}.

Definition default_datastore_backend : DataStoreBackend := Local.
Definition default_signing_backend : SigningBackend := Memory.
Definition default_collection_prefix : string := "quartermaster".
Definition default_local_path : string := "/var/lib/quartermaster/data".
Definition default_rotation_interval : string := "6h".
Definition default_key_overlap : string := "24h".
Definition default_ephemeral_algorithm : string := "ES256".

(* ------------------------------------------------------------------ *)
(** ** The configuration ([mod.rs]) *)

Record SpireConfig : Type := mkSpireConfig {
  trust_domain : string;
  trust_bundle_path : string
}.

Record DynamoConfig : Type := mkDynamoConfig {
  dynamo_region : string;
  policies_table : string;
  billets_table : string;
  policy_sync_interval_secs : Z
}.

Record SigningConfig : Type := mkSigningConfig {
  signing_algorithm : string;
  signing_key_path : string
}.

Record CaConfig : Type := mkCaConfig {
  ca_key_path : string;
  ca_cert_path : string;
  ca_ttl_secs : Z;
  include_billets_ou : bool
}.

Inductive CacheBackend : Type := CacheMemory | CacheRedis.

#[export] Instance CacheBackend_eq_dec : EqDecision CacheBackend.
Proof. solve_decision. Defined.

Record CacheConfig : Type := mkCacheConfig {
  cache_backend : CacheBackend;
  cache_ttl_secs : Z
}.

Record RedisConfig : Type := mkRedisConfig { redis_url : string }.
Record RateConfig : Type := mkRateConfig { requests_per_minute : Z }.
Record TlsConfig : Type := mkTlsConfig { tls_cert_path : string; tls_key_path : string }.

Record ServerConfig : Type := mkServerConfig {
  host : string;
  port : Z;
  admin_addr : option string;
  tls : option TlsConfig
}.

Record Config : Type := mkConfig {
  issuer : string;
  token_ttl_secs : Z;
  spire : option SpireConfig;
  dynamo : option DynamoConfig;
  signing : SigningConfig;
  ca : CaConfig;
  cache : CacheConfig;
  redis : option RedisConfig;
  rate : RateConfig;
  server : ServerConfig;
  audit : option AuditConfig;
  datastore : option DataStoreConfig;
  signing_backend : option SigningBackendConfig;
  ca_backend : option SigningBackendConfig;
  identity : option IdentityConfig.IdentityConfig;
  system_billets : list string;
  billet_claims : list string
}.

Definition default_policies_table : string := "quartermaster-policies".
Definition default_billets_table : string := "quartermaster-billets".
Definition default_policy_sync_interval_secs : Z := 30.
Definition default_algorithm : string := "ES256".
Definition default_ttl_secs : Z := 300.
Definition default_requests_per_minute : Z := 10.
Definition default_system_billets : list string := ["quartermaster-admin"; "quartermaster-guardrails"].
Definition default_host : string := "0.0.0.0".
Definition default_port : Z := 8080.

Record ConfigError : Type := mkConfigError { message : string }.

Definition ConfigError_fmt (e : ConfigError) : string := "configuration error: " +:+ message e.

(** [if cond { return Err(ConfigError { message }) }] *)
Definition refuse_if (cond : bool) (msg : string) : result ConfigError unit := fail_if cond (mkConfigError msg).

Definition blank (s : string) : bool := Str.is_empty (Str.trim s).

(** [if let Some(ref x) = o { f(x)? }] *)
Definition check_some {A} (o : option A) (f : A → result ConfigError unit) : result ConfigError unit :=
  match o with Some a => f a | None => Ok tt end.

Definition valid_algorithms : list string :=
  ["ES256"; "ES384"; "RS256"; "RS384"; "RS512"; "PS256"; "PS384"; "PS512"].

Definition validate_datastore_config (config : DataStoreConfig) : result ConfigError unit :=
  match ds_backend config with
  | Dynamodb =>
      match ds_dynamodb config with
      | None => Err (mkConfigError "datastore.dynamodb configuration is required when backend is 'dynamodb'")
      | Some dynamo => refuse_if (blank (db_region dynamo)) "datastore.dynamodb.region must not be empty"
      end
  | Firestore =>
      match ds_firestore config with
      | None => Err (mkConfigError "datastore.firestore configuration is required when backend is 'firestore'")
      | Some fs => refuse_if (blank (fs_project fs)) "datastore.firestore.project must not be empty"
      end
  | Local => Ok tt
  end.

Definition validate_signing_backend_config (config : SigningBackendConfig) (section : string) :
    result ConfigError unit :=
  match sb_backend config with
  | Memory =>
      match sb_memory config with
      | None => Err (mkConfigError (section +:+ ".memory configuration is required when backend is 'memory'"))
      | Some mem => refuse_if (blank (ms_key_path mem)) (section +:+ ".memory.key_path must not be empty")
      end
  | KmsDelegated =>
      match sb_kms_delegated config with
      | None => Err (mkConfigError
                       (section +:+ ".kms_delegated configuration is required when backend is 'kms_delegated'"))
      | Some kms =>
          _ ← refuse_if (bool_decide (aws_kms kms = None) && bool_decide (gcp_kms kms = None))
                (section +:+ ".kms_delegated must have either aws_kms or gcp_kms configured");
          _ ← check_some (aws_kms kms) (λ aws,
                _ ← refuse_if (blank (kms_key_arn aws)) (section +:+ ".kms_delegated.aws_kms.key_arn must not be empty");
                refuse_if (blank (kms_region aws)) (section +:+ ".kms_delegated.aws_kms.region must not be empty"));
          check_some (gcp_kms kms) (λ gcp,
            refuse_if (blank (kms_key_name gcp)) (section +:+ ".kms_delegated.gcp_kms.key_name must not be empty"))
      end
  end.

(** The interval [main] gives to policy synchronisation. *)
Definition resolve_policy_sync_interval (config : Config) : Z :=
  match datastore config with
  | Some ds => ds_policy_sync_interval_secs ds
  | None =>
      match dynamo config with
      | Some dynamo => policy_sync_interval_secs dynamo
      | None => 30
      end
  end.

Section load.
(** The parse error of a URL, if any. *)
Context (url_parse_error : string → option string).

Definition validate (c : Config) : result ConfigError unit :=
  _ ← refuse_if (blank (issuer c)) "issuer must not be empty";
  _ ← check_some (spire c) (λ spire,
        refuse_if (blank (trust_domain spire)) "spire.trust_domain must not be empty");
  _ ← refuse_if (negb (bool_decide (signing_algorithm (signing c) ∈ valid_algorithms)))
        ("signing.algorithm '" +:+ signing_algorithm (signing c) +:+ "' is not valid; must be one of: " +:+
         Str.join ", " valid_algorithms);
  _ ← refuse_if (ca_ttl_secs (ca c) =? 0) "ca.ttl_secs must be greater than 0";
  _ ← refuse_if (token_ttl_secs c =? 0) "token_ttl_secs must be greater than 0";
  _ ← refuse_if (cache_ttl_secs (cache c) =? 0) "cache.ttl_secs must be greater than 0";
  _ ← check_some (dynamo c) (λ dynamo,
        _ ← refuse_if (policy_sync_interval_secs dynamo =? 0)
              "dynamo.policy_sync_interval_secs must be greater than 0";
        refuse_if (blank (dynamo_region dynamo)) "dynamo.region must not be empty");
  _ ← refuse_if (requests_per_minute (rate c) =? 0) "rate.requests_per_minute must be greater than 0";
  _ ← refuse_if (bool_decide (cache_backend (cache c) = CacheRedis) && bool_decide (redis c = None))
        "redis configuration is required when cache.backend is 'redis'";
  _ ← check_some (datastore c) validate_datastore_config;
  _ ← check_some (signing_backend c) (λ sb, validate_signing_backend_config sb "signing_backend");
  _ ← check_some (ca_backend c) (λ cb, validate_signing_backend_config cb "ca_backend");
  check_some (identity c) (λ identity,
    map_err (λ err, mkConfigError ("identity: " +:+ IdentityConfig.IdentityConfigError_fmt err))
      (IdentityConfig.validate url_parse_error identity)).

(** [std::env::var] *)
Context (env : string → option string).

Definition env_required (key : string) : result ConfigError string :=
  ok_or (mkConfigError ("required environment variable '" +:+ key +:+ "' is not set")) (env key).

Definition env_or_default (key d : string) : string := default d (env key).

(** [parse::<T>()] for an unsigned type with that maximum. *)
Definition env_parse_or_default (max : Z) (key : string) (d : Z) : result ConfigError Z :=
  match env key with
  | Some val => ok_or (mkConfigError ("environment variable '" +:+ key +:+ "' has invalid value '" +:+ val +:+ "'"))
                  (Str.parse_uint max val)
  | None => Ok d
  end.

Definition u16_max : Z := 65535.

(** [usize] and [u64] have the same width. *)
Definition from_env : result ConfigError Config :=
  issuer ← env_required "QM_ISSUER";
  trust_domain ← env_required "QM_SPIRE_TRUST_DOMAIN";
  trust_bundle_path ← env_required "QM_SPIRE_TRUST_BUNDLE_PATH";
  let spire := mkSpireConfig trust_domain trust_bundle_path in
  region ← env_required "QM_DYNAMO_REGION";
  interval ← env_parse_or_default u64_max "QM_DYNAMO_POLICY_SYNC_INTERVAL_SECS" default_policy_sync_interval_secs;
  let dynamo := mkDynamoConfig region (env_or_default "QM_DYNAMO_POLICIES_TABLE" default_policies_table)
                  (env_or_default "QM_DYNAMO_BILLETS_TABLE" default_billets_table) interval in
  signing_key ← env_required "QM_SIGNING_KEY_PATH";
  let signing := mkSigningConfig (env_or_default "QM_SIGNING_ALGORITHM" default_algorithm) signing_key in
  ca_key ← env_required "QM_CA_KEY_PATH";
  ca_cert ← env_required "QM_CA_CERT_PATH";
  ca_ttl ← env_parse_or_default u64_max "QM_CA_TTL_SECS" default_ttl_secs;
  let ca := mkCaConfig ca_key ca_cert ca_ttl false in
  cache_ttl ← env_parse_or_default u64_max "QM_CACHE_TTL_SECS" default_ttl_secs;
  let cache := mkCacheConfig
                 (if bool_decide (env_or_default "QM_CACHE_BACKEND" "memory" = "redis") then CacheRedis else CacheMemory)
                 cache_ttl in
  let redis := mkRedisConfig <$> env "QM_REDIS_URL" in
  rpm ← env_parse_or_default u32_max "QM_RATE_REQUESTS_PER_MINUTE" default_requests_per_minute;
  let rate := mkRateConfig rpm in
  port ← env_parse_or_default u16_max "QM_SERVER_PORT" default_port;
  let server := mkServerConfig (env_or_default "QM_SERVER_HOST" default_host) port None None in
  ttl ← env_parse_or_default u64_max "QM_TOKEN_TTL_SECS" default_ttl_secs;
  let config := mkConfig issuer ttl (Some spire) (Some dynamo) signing ca cache redis rate server
                  None None None None None default_system_billets [] in
  _ ← validate config;
  Ok config.

(** [std::fs::read_to_string] and [toml::from_str] *)
Context (read_to_string : string → result string string).
Context (toml_from_str : string → result string Config).

Definition from_toml_file (path : string) : result ConfigError Config :=
  content ← map_err (λ e, mkConfigError ("failed to read config file '" +:+ path +:+ "': " +:+ e))
              (read_to_string path);
  config ← map_err (λ e, mkConfigError ("failed to parse config file '" +:+ path +:+ "': " +:+ e))
             (toml_from_str content);
  _ ← validate config;
  Ok config.

Definition load : result ConfigError Config :=
  match env "QM_CONFIG_PATH" with
  | Some path => from_toml_file path
  | None => from_env
  end.
End load.

(* ------------------------------------------------------------------ *)
(** ** Properties *)

Lemma refuse_if_Ok cond msg u : refuse_if cond msg = Ok u ↔ cond = false.
Proof. apply fail_if_Ok. Qed.

Lemma check_some_Ok {A} (o : option A) f u : check_some o f = Ok u ↔ ∀ a, o = Some a → f a = Ok tt.
Proof. destruct u, o as [a|]; cbn; naive_solver. Qed.

Definition nonblank (s : string) : Prop := Str.trim s ≠ "".

Lemma blank_false s : blank s = false ↔ nonblank s.
Proof. apply bool_decide_eq_false. Qed.

(** What a data store section must have for its backend. *)
Definition datastore_ok (d : DataStoreConfig) : Prop :=
  match ds_backend d with
  | Dynamodb => ∃ dynamo, ds_dynamodb d = Some dynamo ∧ nonblank (db_region dynamo)
  | Firestore => ∃ fs, ds_firestore d = Some fs ∧ nonblank (fs_project fs)
  | Local => True
  end.

(** What a signing section must have: a key, or a key service that is named. *)
Definition signing_ok (s : SigningBackendConfig) : Prop :=
  match sb_backend s with
  | Memory => ∃ mem, sb_memory s = Some mem ∧ nonblank (ms_key_path mem)
  | KmsDelegated => ∃ kms, sb_kms_delegated s = Some kms ∧ (is_Some (aws_kms kms) ∨ is_Some (gcp_kms kms)) ∧
      (∀ aws, aws_kms kms = Some aws → nonblank (kms_key_arn aws) ∧ nonblank (kms_region aws)) ∧
      (∀ gcp, gcp_kms kms = Some gcp → nonblank (kms_key_name gcp))
  end.

Lemma validate_datastore_config_Ok d u : validate_datastore_config d = Ok u ↔ datastore_ok d.
Proof.
  unfold validate_datastore_config, datastore_ok. destruct (ds_backend d).
  - destruct (ds_dynamodb d); [rewrite refuse_if_Ok, blank_false|]; naive_solver.
  - destruct (ds_firestore d); [rewrite refuse_if_Ok, blank_false|]; naive_solver.
  - by destruct u.
Qed.

Lemma validate_signing_backend_config_Ok s sec u : validate_signing_backend_config s sec = Ok u ↔ signing_ok s.
Proof.
  unfold validate_signing_backend_config, signing_ok. destruct (sb_backend s).
  - destruct (sb_memory s); [rewrite refuse_if_Ok, blank_false|]; naive_solver.
  - destruct (sb_kms_delegated s) as [kms|]; [|naive_solver].
    repeat setoid_rewrite bind_Ok. repeat setoid_rewrite check_some_Ok. repeat setoid_rewrite bind_Ok.
    repeat setoid_rewrite refuse_if_Ok. repeat setoid_rewrite blank_false. setoid_rewrite andb_false_iff.
    repeat setoid_rewrite bool_decide_eq_false. repeat setoid_rewrite not_eq_None_Some. split.
    + intros (_ & H0 & _ & Ha & Hg). exists kms. split_and!; try done.
      intros aws (_ & ? & ?)%Ha. done.
    + intros (kms' & [= <-] & H0 & Ha & Hg). exists tt. split; [done|]. exists tt. split; [|done].
      intros aws [? ?]%Ha. by exists tt.
Qed.

Section valid.
Context (url_parse_error : string → option string).

(** A configuration the service can start with. *)
Record config_valid (c : Config) : Prop := {
  cv_issuer : nonblank (issuer c);
  cv_spire : ∀ s, spire c = Some s → nonblank (trust_domain s);
  cv_algorithm : signing_algorithm (signing c) ∈ valid_algorithms;
  cv_ca_ttl : ca_ttl_secs (ca c) ≠ 0;
  cv_token_ttl : token_ttl_secs c ≠ 0;
  cv_cache_ttl : cache_ttl_secs (cache c) ≠ 0;
  cv_dynamo : ∀ d, dynamo c = Some d → policy_sync_interval_secs d ≠ 0 ∧ nonblank (dynamo_region d);
  cv_rate : requests_per_minute (rate c) ≠ 0;
  cv_redis : cache_backend (cache c) = CacheRedis → is_Some (redis c);
  cv_datastore : ∀ d, datastore c = Some d → datastore_ok d;
  cv_signing : ∀ s, signing_backend c = Some s ∨ ca_backend c = Some s → signing_ok s;
  cv_identity : ∀ i, identity c = Some i → IdentityConfig.config_ok url_parse_error i
}.

Lemma validate_valid c u : validate url_parse_error c = Ok u ↔ config_valid c.
Proof.
  destruct u. unfold validate.
  repeat setoid_rewrite bind_Ok. repeat setoid_rewrite check_some_Ok. repeat setoid_rewrite bind_Ok.
  repeat setoid_rewrite refuse_if_Ok. repeat setoid_rewrite blank_false.
  setoid_rewrite validate_datastore_config_Ok.
  setoid_rewrite validate_signing_backend_config_Ok. setoid_rewrite map_err_Ok.
  setoid_rewrite IdentityConfig.validate_spec. setoid_rewrite negb_false_iff.
  setoid_rewrite bool_decide_eq_true. setoid_rewrite andb_false_iff. setoid_rewrite bool_decide_eq_false.
  repeat setoid_rewrite Z.eqb_neq. setoid_rewrite not_eq_None_Some. split.
  - intros (_ & H1 & _ & H2 & _ & H3 & _ & H4 & _ & H5 & _ & H6 & _ & H7 & _ & H8 & _ & H9 & _ & H10 & _ & H11 & _ & H12 & H13).
    split; try done.
    + intros d (_ & ? & ?)%H7. done.
    + intros Hr. destruct H9; [done|]. done.
    + intros s [?|?]; auto.
  - intros [H1 H2 H3 H4 H5 H6 H7 H8 H9 H10 H11 H12].
    repeat match goal with |- ∃ _ : unit, _ => exists tt | |- _ ∧ _ => split end; auto.
    + intros d [? ?]%H7. by exists tt.
    + destruct (decide (cache_backend (cache c) = CacheRedis)); auto.
Qed.

Lemma from_env_validated env c : from_env url_parse_error env = Ok c → config_valid c.
Proof.
  unfold from_env. intros Hc. repeat (apply bind_Ok in Hc as (? & ? & Hc)). injection Hc as <-.
  match goal with Hval : validate _ _ = Ok _ |- _ => by apply validate_valid in Hval end.
Qed.

Lemma from_toml_file_Ok read parse path c :
  from_toml_file url_parse_error read parse path = Ok c ↔
  (∃ content, read path = Ok content ∧ parse content = Ok c) ∧ config_valid c.
Proof.
  unfold from_toml_file. split.
  - intros (content & Hr%map_err_Ok & Hc)%bind_Ok. apply bind_Ok in Hc as (c' & Hp%map_err_Ok & Hc).
    apply bind_Ok in Hc as (u & Hv%validate_valid & [= <-]). eauto.
  - intros [(content & Hr & Hp) Hv%(validate_valid _ tt)]. apply bind_Ok. exists content. split; [by apply map_err_Ok|].
    apply bind_Ok. exists c. split; [by apply map_err_Ok|]. apply bind_Ok. by exists tt.
Qed.

Lemma load_valid env read parse c : load url_parse_error env read parse = Ok c → config_valid c.
Proof.
  unfold load. destruct (env "QM_CONFIG_PATH") as [path|]; [by intros [_ ?]%from_toml_file_Ok|apply from_env_validated].
Qed.

(** The service starts with a configuration exactly when it is valid and comes from
    the file that [QM_CONFIG_PATH] names or, when that is not set, from the
    environment. *)
Theorem load_validated env read parse c :
  load url_parse_error env read parse = Ok c ↔
  config_valid c ∧
  match env "QM_CONFIG_PATH" with
  | Some path => ∃ content, read path = Ok content ∧ parse content = Ok c
  | None => from_env url_parse_error env = Ok c
  end.
Proof.
  split; [intros Hc; split; [by eapply load_valid|]; revert Hc|intros [Hv Hc]; revert Hc]; unfold load;
    destruct (env "QM_CONFIG_PATH") as [path|]; try done.
  - by intros [? _]%from_toml_file_Ok.
  - intros Hc. by apply from_toml_file_Ok.
Qed.

(** The environment that spells a configuration. *)
Fixpoint assoc (l : list (string * string)) (k : string) : option string :=
  match l with [] => None | (k', v) :: l' => if String.eqb k k' then Some v else assoc l' k end.

Definition env_of (c : Config) (s : SpireConfig) (d : DynamoConfig) : string → option string :=
  let num z := pretty (Z.to_N z) in
  assoc ([("QM_ISSUER", issuer c); ("QM_TOKEN_TTL_SECS", num (token_ttl_secs c));
          ("QM_SPIRE_TRUST_DOMAIN", trust_domain s); ("QM_SPIRE_TRUST_BUNDLE_PATH", trust_bundle_path s);
          ("QM_DYNAMO_REGION", dynamo_region d); ("QM_DYNAMO_POLICIES_TABLE", policies_table d);
          ("QM_DYNAMO_BILLETS_TABLE", billets_table d);
          ("QM_DYNAMO_POLICY_SYNC_INTERVAL_SECS", num (policy_sync_interval_secs d));
          ("QM_SIGNING_ALGORITHM", signing_algorithm (signing c)); ("QM_SIGNING_KEY_PATH", signing_key_path (signing c));
          ("QM_CA_KEY_PATH", ca_key_path (ca c)); ("QM_CA_CERT_PATH", ca_cert_path (ca c));
          ("QM_CA_TTL_SECS", num (ca_ttl_secs (ca c)));
          ("QM_CACHE_BACKEND", match cache_backend (cache c) with CacheRedis => "redis" | CacheMemory => "memory" end);
          ("QM_CACHE_TTL_SECS", num (cache_ttl_secs (cache c)));
          ("QM_RATE_REQUESTS_PER_MINUTE", num (requests_per_minute (rate c)));
          ("QM_SERVER_HOST", host (server c)); ("QM_SERVER_PORT", num (port (server c)))] ++
         match redis c with Some r => [("QM_REDIS_URL", redis_url r)] | None => [] end).

(** The configurations the environment can spell: numbers of the declared widths,
    no section without a variable. *)
Record env_shaped (c : Config) (s : SpireConfig) (d : DynamoConfig) : Prop := {
  es_spire : spire c = Some s;
  es_dynamo : dynamo c = Some d;
  es_none : audit c = None ∧ datastore c = None ∧ signing_backend c = None ∧ ca_backend c = None ∧
    identity c = None ∧ admin_addr (server c) = None ∧ tls (server c) = None ∧ include_billets_ou (ca c) = false ∧
    system_billets c = default_system_billets ∧ billet_claims c = [];
  es_u64 : 0 ≤ token_ttl_secs c ≤ u64_max ∧ 0 ≤ ca_ttl_secs (ca c) ≤ u64_max ∧
    0 ≤ cache_ttl_secs (cache c) ≤ u64_max ∧ 0 ≤ policy_sync_interval_secs d ≤ u64_max;
  es_small : 0 ≤ requests_per_minute (rate c) ≤ u32_max ∧ 0 ≤ port (server c) ≤ u16_max
}.

Lemma env_parse_num env max key n d :
  env key = Some (pretty (Z.to_N n)) → 0 ≤ n ≤ max → env_parse_or_default env max key d = Ok n.
Proof.
  intros He Hn. unfold env_parse_or_default. rewrite He, parse_uint_pretty by lia. cbn. f_equal. lia.
Qed.

(** [from_env] in an environment that sets every variable, [QM_REDIS_URL] apart. *)
Lemma from_env_all env iss td tb reg pt bt si alg key ck cc ct cb cttl rpm ho po ttl :
  env "QM_ISSUER" = Some iss → env "QM_SPIRE_TRUST_DOMAIN" = Some td →
  env "QM_SPIRE_TRUST_BUNDLE_PATH" = Some tb → env "QM_DYNAMO_REGION" = Some reg →
  env "QM_DYNAMO_POLICIES_TABLE" = Some pt → env "QM_DYNAMO_BILLETS_TABLE" = Some bt →
  env_parse_or_default env u64_max "QM_DYNAMO_POLICY_SYNC_INTERVAL_SECS" default_policy_sync_interval_secs = Ok si →
  env "QM_SIGNING_ALGORITHM" = Some alg → env "QM_SIGNING_KEY_PATH" = Some key →
  env "QM_CA_KEY_PATH" = Some ck → env "QM_CA_CERT_PATH" = Some cc →
  env_parse_or_default env u64_max "QM_CA_TTL_SECS" default_ttl_secs = Ok ct →
  env "QM_CACHE_BACKEND" = Some cb →
  env_parse_or_default env u64_max "QM_CACHE_TTL_SECS" default_ttl_secs = Ok cttl →
  env_parse_or_default env u32_max "QM_RATE_REQUESTS_PER_MINUTE" default_requests_per_minute = Ok rpm →
  env "QM_SERVER_HOST" = Some ho →
  env_parse_or_default env u16_max "QM_SERVER_PORT" default_port = Ok po →
  env_parse_or_default env u64_max "QM_TOKEN_TTL_SECS" default_ttl_secs = Ok ttl →
  let c := mkConfig iss ttl (Some (mkSpireConfig td tb)) (Some (mkDynamoConfig reg pt bt si))
             (mkSigningConfig alg key) (mkCaConfig ck cc ct false)
             (mkCacheConfig (if bool_decide (cb = "redis") then CacheRedis else CacheMemory) cttl)
             (mkRedisConfig <$> env "QM_REDIS_URL") (mkRateConfig rpm) (mkServerConfig ho po None None)
             None None None None None default_system_billets [] in
  from_env url_parse_error env = (_ ← validate url_parse_error c; Ok c).
Proof.
  intros E1 E2 E3 E4 E5 E6 E7 E8 E9 E10 E11 E12 E13 E14 E15 E16 E17 E18. unfold from_env, env_required, env_or_default.
  rewrite E1; cbn [ok_or mbind result_bind]. rewrite E2; cbn [ok_or mbind result_bind].
  rewrite E3; cbn [ok_or mbind result_bind]. rewrite E4, E5, E6, E7; cbn [ok_or mbind result_bind].
  rewrite E8, E9; cbn [ok_or mbind result_bind]. rewrite E10; cbn [ok_or mbind result_bind].
  rewrite E11, E12, E13, E14, E15, E16, E17, E18. reflexivity.
Qed.

(** Every valid configuration that uses only settings with a variable is read
    back from the environment that spells it. *)
Theorem config_env_roundtrip c s d :
  env_shaped c s d → config_valid c → from_env url_parse_error (env_of c s d) = Ok c.
Proof.
  intros [Hs Hd Hnone (N1 & N2 & N3 & N4) [N5 N6]] Hv%(validate_valid _ tt).
  destruct c as [iss ttl sp dy [alg key] [ck cc ct ou] [cb cttl] rd [rpm] [ho po aa tl] au ds sb cab idc sys bc].
  destruct s as [td tb], d as [reg pt bt si]. cbn in * |-.
  destruct Hnone as (-> & -> & -> & -> & -> & -> & -> & -> & -> & ->). subst sp dy.
  erewrite from_env_all; [|first [reflexivity | by apply env_parse_num]..].
  destruct cb, rd as [[url]|]; apply bind_Ok; exists tt; (split; [exact Hv | reflexivity]).
Qed.
End valid.

(* ------------------------------------------------------------------ *)
(** ** Witnesses *)

Definition demo_spire : SpireConfig := mkSpireConfig "example.org" "/etc/qm/bundle.pem".
Definition demo_dynamo : DynamoConfig := mkDynamoConfig "eu-west-1" "policies" "billets" 45.

Definition demo_config : Config :=
  mkConfig "https://qm.example.org" 600 (Some demo_spire) (Some demo_dynamo) (mkSigningConfig "RS384" "/etc/qm/key.pem")
    (mkCaConfig "/etc/qm/ca.key" "/etc/qm/ca.crt" 3600 false) (mkCacheConfig CacheRedis 120)
    (Some (mkRedisConfig "redis://cache")) (mkRateConfig 20) (mkServerConfig "127.0.0.1" 8443 None None)
    None None None None None default_system_billets [].

Definition demo_env : string → option string := env_of demo_config demo_spire demo_dynamo.

Lemma demo_config_valid : config_valid (λ _, None) demo_config.
Proof. apply (validate_valid _ _ tt). vm_compute. reflexivity. Qed.

Lemma config_env_roundtrip_witness : from_env (λ _, None) demo_env = Ok demo_config.
Proof.
  apply config_env_roundtrip; [|exact demo_config_valid].
  split; vm_compute; repeat split; discriminate.
Defined.

(** A zero interval is refused in the [dynamo] section and accepted in the
    [datastore] section that replaces it. *)
Definition with_datastore (ds : DataStoreConfig) : Config :=
  mkConfig (issuer demo_config) (token_ttl_secs demo_config) None None (signing demo_config) (ca demo_config)
    (cache demo_config) (redis demo_config) (rate demo_config) (server demo_config)
    None (Some ds) None None None default_system_billets [].

Lemma datastore_interval_unchecked :
  let c := with_datastore (mkDataStoreConfig Local None None None 0) in
  validate (λ _, None) c = Ok tt ∧ resolve_policy_sync_interval c = 0.
Proof. vm_compute. done. Qed.

End Config.
