(* ===== verification/Implicit.v ===== *)
(** * Implicit billets ([src/src/domain/identity/implicit.rs]) *)

From S2P Require Import Prelude PathPattern IdentityConfig.

Module Implicit.
Import IdentityConfig.

Record ImplicitClaimMapping : Type := mkMapping {
  claim_name : string;
  billet_prefix : string;
  in_tokens : bool
}.

Record ImplicitBilletResult : Type := mkImplicitResult {
  token_billets : list string;
  all_billets : list string
}.

Definition empty_result : ImplicitBilletResult := mkImplicitResult [] [].

Record ImplicitBilletMapper : Type := mkMapper {
  mappings : gmap string (list ImplicitClaimMapping);
  reserved_prefixes : gset string
}.

Definition mapping_of (claim_config : ImplicitClaimConfig) : ImplicitClaimMapping :=
  {| claim_name := claim claim_config;
     billet_prefix := cfg_billet_prefix claim_config;
     in_tokens := cfg_in_tokens claim_config |}.

(** The body of the loop over the sources. *)
Definition add_source (m : ImplicitBilletMapper) (source : OidcSourceConfig) : ImplicitBilletMapper :=
  let source_mappings := mapping_of <$> implicit_claims source in
  let reserved := list_to_set (cfg_billet_prefix <$> implicit_claims source) ∪ reserved_prefixes m in
  mkMapper
    (if bool_decide (source_mappings = []) then mappings m
     else <[prefix source := source_mappings]> (mappings m))
    reserved.

Definition from_config (oidc_sources : list OidcSourceConfig) : ImplicitBilletMapper :=
  foldl add_source (mkMapper ∅ ∅) oidc_sources.

Definition push_billet (in_tok : bool) (billet : string) (r : ImplicitBilletResult) :
    ImplicitBilletResult :=
  mkImplicitResult (if in_tok then token_billets r ++ [billet] else token_billets r)
    (all_billets r ++ [billet]).

(** The loop over one claim mapping. *)
Definition derive_one (claims : gmap string (list string)) (r : ImplicitBilletResult)
    (mapping : ImplicitClaimMapping) : ImplicitBilletResult :=
  match claims !! claim_name mapping with
  | Some values =>
      foldl (λ r value,
        push_billet (in_tokens mapping) (billet_prefix mapping +:+ ":" +:+ value) r) r values
  | None => r
  end.

Definition derive_billets (m : ImplicitBilletMapper) (idp_prefix : string)
    (claims : gmap string (list string)) : ImplicitBilletResult :=
  match mappings m !! idp_prefix with
  | None => empty_result
  | Some claim_mappings => foldl (derive_one claims) empty_result claim_mappings
  end.

Definition has_reserved_prefix (reserved : gset string) (billet : string) : bool :=
  existsb (λ prefix, Str.starts_with (prefix +:+ ":") billet) (elements reserved).

(** [for b in token_billets { if !result.contains(b) { result.push(b) } }] *)
Definition push_new (result : list string) (b : string) : list string :=
  if bool_decide (b ∈ result) then result else result ++ [b].

Definition assemble_token_billets (cedar_billets : list string)
    (implicit_result : ImplicitBilletResult) (reserved : gset string) : list string :=
  let filtered_cedar := filter (λ b, has_reserved_prefix reserved b = false) cedar_billets in
  foldl push_new filtered_cedar (token_billets implicit_result).

(* ------------------------------------------------------------------ *)
(** ** Lemmas *)

Lemma has_reserved_prefix_spec reserved b :
  has_reserved_prefix reserved b = true ↔ ∃ p r, p ∈ reserved ∧ b = p +:+ ":" +:+ r.
Proof.
  unfold has_reserved_prefix. rewrite existsb_exists. setoid_rewrite starts_with_spec. split.
  - intros (p & Hp%list_elem_of_In%elem_of_elements & r & ->).
    exists p, r. by rewrite str_app_assoc.
  - intros (p & r & Hp & ->). exists p. split; [by apply list_elem_of_In, elem_of_elements|].
    exists r. by rewrite str_app_assoc.
Qed.

Lemma foldl_push_new l bs : ∃ ext,
  foldl push_new l bs = l ++ ext ∧ (∀ b, b ∈ l ++ ext ↔ b ∈ l ∨ b ∈ bs) ∧ (NoDup l → NoDup (l ++ ext)).
Proof.
  revert l. induction bs as [|b bs IH]; intros l; simpl.
  - exists []. rewrite app_nil_r. set_solver.
  - destruct (IH (push_new l b)) as (ext & -> & Hin & Hnd). unfold push_new in *.
    case_bool_decide as Hb.
    + exists ext. set_solver.
    + exists (b :: ext). rewrite <-app_assoc in *. simpl in *. split_and!; [done| |].
      * intros x. rewrite Hin. set_solver.
      * intros Hl. apply Hnd. apply NoDup_app. split_and!; [done| |apply NoDup_singleton]. set_solver.
Qed.

Lemma foldl_push_billet m r values :
  foldl (λ r v, push_billet (in_tokens m) (billet_prefix m +:+ ":" +:+ v) r) r values =
  mkImplicitResult
    (token_billets r ++ if in_tokens m then (λ v, billet_prefix m +:+ ":" +:+ v) <$> values else [])
    (all_billets r ++ ((λ v, billet_prefix m +:+ ":" +:+ v) <$> values)).
Proof.
  revert r. induction values as [|v values IH]; intros r; simpl.
  - destruct r, (in_tokens m); simpl; by rewrite !app_nil_r.
  - rewrite IH. simpl. destruct (in_tokens m); by rewrite <-?app_assoc.
Qed.

(** The billets of a list of mappings, in order. *)
Definition mapping_billets (claims : gmap string (list string)) (m : ImplicitClaimMapping) : list string :=
  (λ v, billet_prefix m +:+ ":" +:+ v) <$> default [] (claims !! claim_name m).

Lemma derive_one_eq claims r m :
  derive_one claims r m =
  mkImplicitResult (token_billets r ++ if in_tokens m then mapping_billets claims m else [])
    (all_billets r ++ mapping_billets claims m).
Proof.
  unfold derive_one, mapping_billets. destruct (claims !! claim_name m); simpl.
  - apply foldl_push_billet.
  - destruct r, (in_tokens m); simpl; by rewrite !app_nil_r.
Qed.

Lemma foldl_derive_one claims r ms :
  foldl (derive_one claims) r ms =
  mkImplicitResult
    (token_billets r ++ (filter (λ m, in_tokens m = true) ms ≫= mapping_billets claims))
    (all_billets r ++ (ms ≫= mapping_billets claims)).
Proof.
  revert r. induction ms as [|m ms IH]; intros r; cbn [foldl].
  - destruct r. cbn. by rewrite !app_nil_r.
  - rewrite IH, derive_one_eq, filter_cons. cbn [token_billets all_billets].
    destruct (in_tokens m) eqn:Ht; case_decide; try done; rewrite ?bind_cons, <-?app_assoc; done.
Qed.

(** The mappings an IdP is configured with. *)
Definition mappings_for (sources : list OidcSourceConfig) (idp : string) : list ImplicitClaimMapping :=
  filter (λ s, prefix s = idp) sources ≫= λ s, mapping_of <$> implicit_claims s.

Lemma from_config_snoc sources s :
  from_config (sources ++ [s]) = add_source (from_config sources) s.
Proof. unfold from_config. by rewrite foldl_snoc. Qed.

Lemma from_config_mappings sources idp :
  NoDup (prefix <$> sources) →
  default [] (mappings (from_config sources) !! idp) = mappings_for sources idp.
Proof.
  unfold mappings_for. induction sources as [|s sources IH] using rev_ind; intros Hnd; [done|].
  rewrite fmap_app in Hnd. apply NoDup_app in Hnd as (Hnd & Hs & _).
  rewrite from_config_snoc, filter_app, bind_app, filter_cons. cbn [mappings add_source].
  destruct (decide (prefix s = idp)) as [<-|Hk].
  - assert (filter (λ s', prefix s' = prefix s) sources = []) as Hnil.
    { apply bool_filter_nil, Forall_forall. intros s' Hs' Heq. eapply Hs; [|by apply list_elem_of_here].
      rewrite <-Heq. by apply list_elem_of_fmap_2. }
    rewrite Hnil in *. cbn in *. rewrite app_nil_r.
    case_bool_decide as Hm; [by rewrite IH, Hm|]. by rewrite lookup_insert_eq.
  - cbn. rewrite app_nil_r, <-IH by done. case_bool_decide; [done|]. by rewrite lookup_insert_ne.
Qed.

Lemma from_config_reserved sources :
  reserved_prefixes (from_config sources) = list_to_set (billet_prefixes sources).
Proof.
  induction sources as [|s sources IH] using rev_ind; [done|].
  rewrite from_config_snoc. cbn [reserved_prefixes add_source]. rewrite IH.
  unfold billet_prefixes. rewrite bind_app. cbn. set_solver.
Qed.

Lemma derive_billets_eq sources idp claims :
  NoDup (prefix <$> sources) →
  derive_billets (from_config sources) idp claims =
  mkImplicitResult
    (filter (λ m, in_tokens m = true) (mappings_for sources idp) ≫= mapping_billets claims)
    (mappings_for sources idp ≫= mapping_billets claims).
Proof.
  intros Hnd. rewrite <-from_config_mappings by done. unfold derive_billets.
  destruct (mappings (from_config sources) !! idp); [|done]. by rewrite foldl_derive_one.
Qed.

(** A claim mapping [c] of IdP [idp] turns value [v] of the claims into [b]. *)
Definition derives (sources : list OidcSourceConfig) (idp : string)
    (claims : gmap string (list string)) (c : ImplicitClaimConfig) (b : string) : Prop :=
  ∃ s v vs, s ∈ sources ∧ prefix s = idp ∧ c ∈ implicit_claims s ∧
    claims !! claim c = Some vs ∧ v ∈ vs ∧ b = cfg_billet_prefix c +:+ ":" +:+ v.

Lemma elem_of_mapping_billets claims m b :
  b ∈ mapping_billets claims m ↔
  ∃ v vs, claims !! claim_name m = Some vs ∧ v ∈ vs ∧ b = billet_prefix m +:+ ":" +:+ v.
Proof.
  unfold mapping_billets. rewrite list_elem_of_fmap.
  destruct (claims !! claim_name m) as [vs|]; cbn; [naive_solver|].
  split; [|naive_solver]. intros (v & _ & Hv). by apply not_elem_of_nil in Hv.
Qed.

Lemma elem_of_mappings_for sources idp m :
  m ∈ mappings_for sources idp ↔
  ∃ s c, s ∈ sources ∧ prefix s = idp ∧ c ∈ implicit_claims s ∧ m = mapping_of c.
Proof.
  unfold mappings_for. rewrite list_elem_of_bind. setoid_rewrite list_elem_of_filter.
  setoid_rewrite list_elem_of_fmap. naive_solver.
Qed.

Lemma derive_billets_elem sources idp claims b :
  NoDup (prefix <$> sources) →
  (b ∈ all_billets (derive_billets (from_config sources) idp claims) ↔
   ∃ c, derives sources idp claims c b) ∧
  (b ∈ token_billets (derive_billets (from_config sources) idp claims) ↔
   ∃ c, derives sources idp claims c b ∧ cfg_in_tokens c = true).
Proof.
  intros Hnd. rewrite derive_billets_eq by done. cbn. rewrite !list_elem_of_bind.
  setoid_rewrite list_elem_of_filter. setoid_rewrite elem_of_mappings_for.
  setoid_rewrite elem_of_mapping_billets. unfold derives. split; split.
  - intros (m & (v & vs & Hc & Hv & ->) & s & c & Hs & Hp & Hm & ->). by exists c, s, v, vs.
  - intros (c & s & v & vs & Hs & Hp & Hm & Hc & Hv & ->). exists (mapping_of c).
    split; [by exists v, vs|by exists s, c].
  - intros (m & (v & vs & Hc & Hv & ->) & Ht & s & c & Hs & Hp & Hm & ->). exists c.
    by split; [exists s, v, vs|].
  - intros (c & (s & v & vs & Hs & Hp & Hm & Hc & Hv & ->) & Ht). exists (mapping_of c).
    split; [by exists v, vs|]. split; [done|by exists s, c].
Qed.

Lemma assemble_elem cedar r reserved b :
  b ∈ assemble_token_billets cedar r reserved ↔
  (b ∈ cedar ∧ has_reserved_prefix reserved b = false) ∨ b ∈ token_billets r.
Proof.
  unfold assemble_token_billets.
  destruct (foldl_push_new (filter (λ b, has_reserved_prefix reserved b = false) cedar)
              (token_billets r)) as (ext & -> & Hin & _).
  rewrite Hin, list_elem_of_filter. naive_solver.
Qed.

Lemma prefix_no_colon p : is_valid_prefix p = true →
  Str.all_chars (λ c, bool_decide (c ≠ ":"%char)) p = true.
Proof.
  assert (∀ s, Str.all_chars prefix_rest s = true →
    Str.all_chars (λ c, bool_decide (c ≠ ":"%char)) s = true) as Hrest.
  { induction s as [|c s IH]; cbn; [done|]. intros [Hc Hs]%andb_true_iff. rewrite IH by done.
    rewrite bool_decide_eq_true_2; [done|]. by intros ->. }
  destruct p as [|c p]; cbn; [done|]. destruct (prefix_first c) eqn:Hc; cbn; [|done].
  intros H. rewrite Hrest by done. rewrite bool_decide_eq_true_2; [done|]. by intros ->.
Qed.

(** C15: with a validated configuration, a billet of an assembled token whose
    name begins with a reserved prefix and a colon was derived, for the
    identity's own IdP, from a claim mapped to that very prefix and marked for
    tokens; Cedar policies cannot mint it, nor can another mapping. *)
Theorem reserved_billets_come_from_claims url_err cfg cedar idp claims p rest :
  config_ok url_err cfg →
  p ∈ billet_prefixes (oidc cfg) →
  p +:+ ":" +:+ rest ∈
    assemble_token_billets cedar (derive_billets (from_config (oidc cfg)) idp claims)
      (reserved_prefixes (from_config (oidc cfg))) →
  ∃ s c vs, s ∈ oidc cfg ∧ prefix s = idp ∧ c ∈ implicit_claims s ∧
    cfg_billet_prefix c = p ∧ cfg_in_tokens c = true ∧
    claims !! claim c = Some vs ∧ rest ∈ vs.
Proof.
  intros Hok Hp [[_ Hr]|Ht]%assemble_elem.
  - rewrite from_config_reserved in Hr. exfalso. apply not_true_iff_false in Hr. destruct Hr.
    apply has_reserved_prefix_spec. exists p, rest. split; [by apply elem_of_list_to_set|done].
  - apply derive_billets_elem in Ht; [|by eapply ok_unique_idp].
    destruct Ht as (c & (s & v & vs & Hs & Hi & Hc & Hl & Hv & Heq) & Htok).
    assert (cfg_billet_prefix c ∈ billet_prefixes (oidc cfg)) as Hcp.
    { apply elem_of_billet_prefixes. exists s. split; [done|by apply list_elem_of_fmap_2]. }
    assert (Str.split_once ":" (p +:+ ":" +:+ rest) = Some (p, rest)) as E1.
    { apply split_once_Some. split; [done|]. apply prefix_no_colon; eapply ok_billet_prefix; eauto. }
    assert (Str.split_once ":" (cfg_billet_prefix c +:+ ":" +:+ v) = Some (cfg_billet_prefix c, v)) as E2.
    { apply split_once_Some. split; [done|]. apply prefix_no_colon; eapply ok_billet_prefix; eauto. }
    rewrite Heq, E2 in E1. injection E1 as <- <-. by exists s, c, vs.
Qed.

Definition demo_config : IdentityConfig :=
  mkIdentityConfig None
    [mkOidcSource "okta" "https://okta" ["client"] 0 0
       [mkImplicitClaim "groups" "okta-group" true; mkImplicitClaim "roles" "okta-role" false]]
    None None.

Definition demo_claims : gmap string (list string) := {["groups" := ["sre"]; "roles" := ["root"]]}.

Lemma demo_config_ok : config_ok (λ _, None) demo_config.
Proof.
  split.
  - right. by left.
  - compute_decide.
  - compute_decide.
  - intros s ->%list_elem_of_singleton. done.
  - intros p Hp. unfold billet_prefixes in Hp. cbn in Hp.
    apply elem_of_cons in Hp as [-> | ->%list_elem_of_singleton]; done.
  - done.
Qed.

Lemma reserved_billets_come_from_claims_witness :
  ∃ s c vs, s ∈ oidc demo_config ∧ prefix s = "okta" ∧ c ∈ implicit_claims s ∧
    cfg_billet_prefix c = "okta-group" ∧ cfg_in_tokens c = true ∧
    demo_claims !! claim c = Some vs ∧ "sre" ∈ vs.
Proof.
  apply (reserved_billets_come_from_claims (λ _, None) demo_config
           ["okta-group:admin"; "reader"] "okta" demo_claims "okta-group" "sre").
  - exact demo_config_ok.
  - compute_decide.
  - compute_decide.
Defined.

(** Token assembly keeps exactly the Cedar billets without a reserved
    prefix and adds the implicit token billets; the Cedar part comes first and
    in order, and no repetition is introduced. *)
Theorem assemble_token_billets_spec cedar r reserved :
  (∀ b, b ∈ assemble_token_billets cedar r reserved ↔
     (b ∈ cedar ∧ ¬ ∃ p rest, p ∈ reserved ∧ b = p +:+ ":" +:+ rest) ∨ b ∈ token_billets r) ∧
  (∃ ext, assemble_token_billets cedar r reserved =
     filter (λ b, has_reserved_prefix reserved b = false) cedar ++ ext) ∧
  (NoDup cedar → NoDup (assemble_token_billets cedar r reserved)).
Proof.
  split_and!.
  - intros b. rewrite assemble_elem, <-not_true_iff_false, has_reserved_prefix_spec. done.
  - unfold assemble_token_billets. edestruct foldl_push_new as (ext & -> & _). eauto.
  - intros Hnd. unfold assemble_token_billets. edestruct foldl_push_new as (ext & -> & _ & H).
    by apply H, NoDup_filter.
Qed.

Lemma assemble_token_billets_spec_witness :
  NoDup (assemble_token_billets ["okta-group:admin"; "reader"]
           (derive_billets (from_config (oidc demo_config)) "okta" demo_claims)
           (reserved_prefixes (from_config (oidc demo_config)))).
Proof.
  apply assemble_token_billets_spec. compute_decide.
Defined.

End Implicit.
