(* ===== verification/AwsSts.v ===== *)
(** * AWS callers ([src/src/domain/identity/aws_sts.rs])

    ARN parsing, validation of presigned [GetCallerIdentity] URLs, extraction from
    the XML answer and the validator.  The [url] crate ([UrlLib]) and the HTTP
    client ([HttpClient]) are parameters. *)

From S2P Require Import Prelude Http Identity PathPattern IdentityConfig.

Module AwsSts.
Import Http.
Import Identity.
Import IdentityConfig.

Record IamRoleArn : Type := mkIamRole {
  iam_account_id : string;
  iam_role_name : string;
  iam_role_path : string
}.

Record AssumedRoleArn : Type := mkAssumedRole {
  ar_account_id : string;
  ar_role_name : string;
  ar_session_name : string
}.

Definition region_char (b : ascii) : bool :=
  Str.is_ascii_lowercase b || Str.is_ascii_digit b || bool_decide (b = "-"%char).

Definition validate_sts_host (host : string) : result IdentityError unit :=
  let refuse := Err (InvalidPresignedUrl
    ("host must be sts.amazonaws.com or sts.<region>.amazonaws.com, got '" +:+ host +:+ "'")) in
  if bool_decide (host = "sts.amazonaws.com") then Ok tt
  else match Str.strip_prefix "sts." host with
       | Some rest =>
           match Str.strip_suffix ".amazonaws.com" rest with
           | Some region =>
               if negb (Str.is_empty region) && Str.all_chars region_char region then Ok tt else refuse
           | None => refuse
           end
       | None => refuse
       end.

Section url.
Context `{UrlLib}.

Definition is_action (p : string * string) : bool :=
  bool_decide (p.1 = "Action") && bool_decide (p.2 = "GetCallerIdentity").

Definition validate_action_param (url : Url) : result IdentityError unit :=
  fail_if (negb (existsb is_action (url_query_pairs url)))
    (InvalidPresignedUrl "query parameters must include Action=GetCallerIdentity").

Definition validate_presigned_url (presigned_url : string) : result IdentityError Url :=
  url ← map_err (λ e, InvalidPresignedUrl ("failed to parse URL: " +:+ e)) (url_parse presigned_url);
  _ ← fail_if (bool_decide (url_scheme url ≠ "https"))
        (InvalidPresignedUrl ("URL scheme must be https, got '" +:+ url_scheme url +:+ "'"));
  host ← ok_or (InvalidPresignedUrl "URL has no host") (url_host_str url);
  _ ← validate_sts_host host;
  _ ← validate_action_param url;
  Ok url.
End url.

(* ------------------------------------------------------------------ *)
(** ** The XML answer *)

Definition extract_xml_element (xml tag : string) : option string :=
  let open_tag := "<" +:+ tag +:+ ">" in
  let close_tag := "</" +:+ tag +:+ ">" in
  '(_, rest) ← Str.find_str open_tag xml;
  '(content, _) ← Str.find_str close_tag rest;
  Some (Str.trim content).

Definition parse_get_caller_identity_xml (xml : string) : result IdentityError (string * string * string) :=
  account ← ok_or (UpstreamCallFailed "missing <Account> in STS response") (extract_xml_element xml "Account");
  arn ← ok_or (UpstreamCallFailed "missing <Arn> in STS response") (extract_xml_element xml "Arn");
  user_id ← ok_or (UpstreamCallFailed "missing <UserId> in STS response") (extract_xml_element xml "UserId");
  Ok (account, arn, user_id).

(* ------------------------------------------------------------------ *)
(** ** ARNs *)

(** The prefix common to both parsers: six colon-separated parts, of which it
    returns the account and the resource. *)
Definition arn_parts (expected_service arn : string) : result IdentityError (string * string) :=
  let parts := Str.splitn 6 ":" arn in
  match parts with
  | [prefix; partition; service; _; account_id; resource] =>
      _ ← fail_if (bool_decide (prefix ≠ "arn"))
            (InvalidPresignedUrl ("malformed ARN: expected 'arn' prefix, got '" +:+ prefix +:+ "'"));
      _ ← fail_if (bool_decide (partition ≠ "aws"))
            (InvalidPresignedUrl ("malformed ARN: expected 'aws' partition, got '" +:+ partition +:+ "'"));
      _ ← fail_if (bool_decide (service ≠ expected_service))
            (InvalidPresignedUrl ("malformed ARN: expected '" +:+ expected_service +:+
                                  "' service, got '" +:+ service +:+ "'"));
      _ ← fail_if (Str.is_empty account_id) (InvalidPresignedUrl "malformed ARN: account_id is empty");
      Ok (account_id, resource)
  | _ => Err (InvalidPresignedUrl ("malformed ARN: expected 6 colon-separated parts, got " +:+
                                   pretty (length parts)))
  end.

Definition parse_iam_role_arn (arn : string) : result IdentityError IamRoleArn :=
  '(account_id, resource) ← arn_parts "iam" arn;
  role_suffix ← ok_or (InvalidPresignedUrl
                  ("malformed IAM role ARN: resource must start with 'role/', got '" +:+ resource +:+ "'"))
                (Str.strip_prefix "role/" resource);
  _ ← fail_if (Str.is_empty role_suffix) (InvalidPresignedUrl "malformed IAM role ARN: role name is empty");
  let segments := Str.split "/" role_suffix in
  let role_name := default "" (last segments) in
  _ ← fail_if (Str.is_empty role_name)
        (InvalidPresignedUrl "malformed IAM role ARN: role name is empty (trailing slash)");
  let role_path := if (1 <? length segments)%nat
                   then "/" +:+ Str.join "/" (take (length segments - 1) segments) +:+ "/" else "/" in
  Ok (mkIamRole account_id role_name role_path).

Definition parse_assumed_role_arn (arn : string) : result IdentityError AssumedRoleArn :=
  '(account_id, resource) ← arn_parts "sts" arn;
  assumed_suffix ← ok_or (InvalidPresignedUrl
      ("malformed assumed role ARN: resource must start with 'assumed-role/', got '" +:+ resource +:+ "'"))
    (Str.strip_prefix "assumed-role/" resource);
  '(role_name, session_name) ←
    ok_or (InvalidPresignedUrl "malformed assumed role ARN: missing session_name after role_name")
      (Str.split_once "/" assumed_suffix);
  _ ← fail_if (Str.is_empty role_name) (InvalidPresignedUrl "malformed assumed role ARN: role_name is empty");
  _ ← fail_if (Str.is_empty session_name)
        (InvalidPresignedUrl "malformed assumed role ARN: session_name is empty");
  Ok (mkAssumedRole account_id role_name session_name).

(* ------------------------------------------------------------------ *)
(** ** The validator *)

(** Step 4 of [validate]: role and session of the caller's ARN. *)
Definition role_and_session (arn : string) : result IdentityError (string * string) :=
  if Str.contains ":assumed-role/" arn then
    parsed ← parse_assumed_role_arn arn;
    Ok (ar_role_name parsed, ar_session_name parsed)
  else if Str.contains ":user/" arn then
    let resource := default "" (last (Str.splitn 6 ":" arn)) in
    let user_name := default resource (Str.strip_prefix "user/" resource) in
    let name := default user_name (last (Str.split "/" user_name)) in
    Ok (name, "")
  else if Str.contains ":role/" arn then
    parsed ← parse_iam_role_arn arn;
    Ok (iam_role_name parsed, "")
  else Err (InvalidPresignedUrl ("unsupported ARN format: " +:+ arn)).

Section validator.
Context `{UrlLib, HttpClient}.

Definition read_sts_response (response : Response) : result IdentityError string :=
  if negb (is_success response) then
    let body := match resp_text response with Ok body => body | Err _ => "" end in
    Err (UpstreamCallFailed ("STS returned HTTP " +:+ resp_status_text response +:+ ": " +:+ body))
  else map_err (λ e, UpstreamCallFailed ("failed to read STS response body: " +:+ e)) (resp_text response).

Definition validate (config : AwsStsSourceConfig) (presigned_url : string) :
    result IdentityError AwsStsIdentity :=
  url ← validate_presigned_url presigned_url;
  response ← map_err (λ e, UpstreamCallFailed ("HTTP request to STS failed: " +:+ e)) (http_get (url_as_str url));
  body ← read_sts_response response;
  '(account, arn, _) ← parse_get_caller_identity_xml body;
  '(role_name, session_name) ← role_and_session arn;
  _ ← match allowed_accounts config with
      | Some allowed =>
          fail_if (negb (bool_decide (account ∈ allowed)))
            (NotAllowed ("AWS account '" +:+ account +:+ "' is not in the allowed accounts list"))
      | None => Ok tt
      end;
  Ok (mkAws account arn role_name "/" session_name).
End validator.

(* ------------------------------------------------------------------ *)
(** ** Properties *)

Lemma splitn_cons n c s x y l :
  Str.splitn (S (S n)) c s = x :: y :: l ↔
  ∃ b, s = x +:+ String c b ∧ free_of c x = true ∧ Str.splitn (S n) c b = y :: l.
Proof.
  unfold free_of. change (Str.splitn (S (S n)) c s) with
    (match Str.split_once c s with Some (a, b) => a :: Str.splitn (S n) c b | None => [s] end).
  destruct (Str.split_once c s) as [[a b]|] eqn:E.
  - apply split_once_Some in E as [-> Ha]. split.
    + intros [= -> Hl]. by exists b.
    + intros (b' & He & Hx & Hl).
      assert (Str.split_once c (a +:+ String c b) = Some (x, b')) as E'.
      { apply split_once_Some. split; [exact He|exact Hx]. }
      rewrite (proj2 (split_once_Some c _ a b) (conj eq_refl Ha)) in E'.
      injection E' as -> ->. by rewrite Hl.
  - split; [done|]. intros (b & -> & Hx & _).
    by rewrite (proj2 (split_once_Some c _ x b) (conj eq_refl Hx)) in E.
Qed.

(** [arn:aws:<service>:<region>:<account>:<resource>] *)
Definition arn_text (service region account resource : string) : string :=
  "arn:aws:" +:+ service +:+ ":" +:+ region +:+ ":" +:+ account +:+ ":" +:+ resource.

Lemma arn_parts_spec service arn account resource :
  free_of ":" service = true →
  arn_parts service arn = Ok (account, resource) ↔
  ∃ region, arn = arn_text service region account resource ∧ free_of ":" region = true ∧
    free_of ":" account = true ∧ account ≠ "".
Proof.
  intros Hs. unfold arn_parts, arn_text. split.
  - destruct (Str.splitn 6 ":" arn) as [|pr [|pa [|se [|re [|ac [|rs [|]]]]]]] eqn:E; try done.
    apply splitn_cons in E as (b1 & -> & H1 & E). apply splitn_cons in E as (b2 & -> & H2 & E).
    apply splitn_cons in E as (b3 & -> & H3 & E). apply splitn_cons in E as (b4 & -> & H4 & E).
    apply splitn_cons in E as (b5 & -> & H5 & E). injection E as ->.
    repeat setoid_rewrite bind_Ok. repeat setoid_rewrite fail_if_Ok.
    intros (_ & Hp & _ & Hpa & _ & Hse & _ & Hac & [= -> ->]).
    apply bool_decide_eq_false in Hp, Hpa, Hse, Hac.
    apply dec_stable in Hp, Hpa, Hse. subst. by exists re.
  - intros (re & -> & Hr & Ha & Hne).
    assert (Str.splitn 6 ":" ("arn:aws:" +:+ service +:+ ":" +:+ re +:+ ":" +:+ account +:+ ":" +:+ resource)
            = ["arn"; "aws"; service; re; account; resource]) as ->.
    { repeat (apply splitn_cons; eexists; split; [reflexivity|split; [done|]]). done. }
    cbn. rewrite (bool_decide_eq_false_2 (service ≠ service)) by (intros ?; done).
    unfold Str.is_empty. by rewrite bool_decide_eq_false_2.
Qed.

(** An IAM path: [/], or text between two slashes. *)
Definition is_role_path (path : string) : Prop := path = "/" ∨ ∃ q, path = "/" +:+ q +:+ "/".

(** The computed path and name spell the resource... *)
Lemma role_segments suf :
  let segments := Str.split "/" suf in
  let path := if (1 <? length segments)%nat
              then "/" +:+ Str.join "/" (take (length segments - 1) segments) +:+ "/" else "/" in
  let name := default "" (last segments) in
  path +:+ name = "/" +:+ suf ∧ is_role_path path ∧ free_of "/" name = true.
Proof.
  cbn zeta. destruct (split_last "/" suf) as [[Hf ->]|(q & n & -> & Hf & ->)].
  - split_and!; [done|by left|done].
  - rewrite last_snoc, length_app, Nat.add_sub, take_app_length, join_split.
    rewrite (proj2 (Nat.ltb_lt _ _)).
    2:{ pose proof (split_non_nil "/" q). destruct (Str.split "/" q); [done|cbn; lia]. }
    split_and!; [|right; by exists q|done]. by rewrite <-!str_app_assoc.
Qed.

(** ... and a resource is spelled in one way. *)
Lemma role_path_unique path n path' n' :
  is_role_path path → is_role_path path' → free_of "/" n = true → free_of "/" n' = true →
  path +:+ n = path' +:+ n' → path = path' ∧ n = n'.
Proof.
  assert (∀ q, is_role_path q → ∃ p, q = p +:+ "/") as Hend.
  { intros q [->|[p ->]]; [by exists ""|]. exists ("/" +:+ p). by rewrite <-str_app_assoc. }
  intros (p & ->)%Hend (p' & ->)%Hend Hn Hn' He. rewrite <-!str_app_assoc in He.
  assert (n = n') as <-; [|by rewrite !str_app_assoc in He; apply str_app_inj_r in He].
  apply (f_equal (Str.split "/")) in He.
  change ("/" +:+ n) with (String "/" n) in He. change ("/" +:+ n') with (String "/" n') in He.
  rewrite !split_app, (split_free _ n), (split_free _ n') in He by done. by apply app_inj_tail in He as [_ ->].
Qed.

Lemma parse_iam_role_arn_spec arn p :
  parse_iam_role_arn arn = Ok p ↔
  ∃ region, arn = arn_text "iam" region (iam_account_id p) ("role" +:+ iam_role_path p +:+ iam_role_name p) ∧
    free_of ":" region = true ∧ free_of ":" (iam_account_id p) = true ∧ iam_account_id p ≠ "" ∧
    is_role_path (iam_role_path p) ∧ free_of "/" (iam_role_name p) = true ∧ iam_role_name p ≠ "".
Proof.
  unfold parse_iam_role_arn. split.
  - intros ([ac rs] & (re & -> & Hre & Hac & Hne)%arn_parts_spec & Hk)%bind_Ok; [|done].
    apply bind_Ok in Hk as (suf & Hsuf%ok_or_Ok%strip_prefix_Some & Hk). subst rs.
    apply bind_Ok in Hk as ([] & _ & Hk). apply bind_Ok in Hk as ([] & Hn%fail_if_Ok & [= <-]).
    apply bool_decide_eq_false in Hn. destruct (role_segments suf) as (He & Hp & Hf).
    exists re. cbn [iam_account_id iam_role_name iam_role_path]. split_and!; try done. by rewrite He.
  - intros (re & -> & Hre & Hac & Hne & Hp & Hf & Hn). destruct p as [ac n path].
    cbn [iam_account_id iam_role_name iam_role_path] in *. apply bind_Ok.
    exists (ac, "role" +:+ path +:+ n). split; [apply arn_parts_spec; [done|by exists re]|].
    assert (∃ suf, path +:+ n = "/" +:+ suf ∧ suf ≠ "") as (suf & He & Hs).
    { destruct Hp as [->|[q ->]]; [by exists n|]. exists (q +:+ "/" +:+ n).
      split; [by rewrite <-!str_app_assoc|by destruct q]. }
    apply bind_Ok. exists suf. split; [by apply ok_or_Ok, strip_prefix_Some; rewrite He|].
    destruct (role_segments suf) as (He' & Hp' & Hf').
    destruct (role_path_unique _ _ _ _ Hp' Hp Hf' Hf) as [-> ->]; [by rewrite He|].
    unfold Str.is_empty. by rewrite !bool_decide_eq_false_2.
Qed.

Lemma parse_assumed_role_arn_spec arn p :
  parse_assumed_role_arn arn = Ok p ↔
  ∃ region, arn = arn_text "sts" region (ar_account_id p)
                    ("assumed-role/" +:+ ar_role_name p +:+ "/" +:+ ar_session_name p) ∧
    free_of ":" region = true ∧ free_of ":" (ar_account_id p) = true ∧ ar_account_id p ≠ "" ∧
    free_of "/" (ar_role_name p) = true ∧ ar_role_name p ≠ "" ∧ ar_session_name p ≠ "".
Proof.
  unfold parse_assumed_role_arn. split.
  - intros ([ac rs] & (re & -> & Hre & Hac & Hne)%arn_parts_spec & Hk)%bind_Ok; [|done].
    apply bind_Ok in Hk as (suf & Hsuf%ok_or_Ok%strip_prefix_Some & Hk). subst rs.
    apply bind_Ok in Hk as ([r n] & [-> Hf]%ok_or_Ok%split_once_Some & Hk).
    apply bind_Ok in Hk as ([] & Hr%fail_if_Ok%bool_decide_eq_false & Hk).
    apply bind_Ok in Hk as ([] & Hn%fail_if_Ok%bool_decide_eq_false & [= <-]). by exists re.
  - intros (re & -> & Hre & Hac & Hne & Hf & Hr & Hn). destruct p as [ac r n].
    cbn [ar_account_id ar_role_name ar_session_name] in *. apply bind_Ok.
    eexists (ac, _). split; [apply arn_parts_spec; [done|by exists re]|]. apply bind_Ok.
    exists (r +:+ "/" +:+ n). split; [by apply ok_or_Ok, strip_prefix_Some|]. apply bind_Ok.
    exists (r, n). split; [by apply ok_or_Ok, split_once_Some|].
    unfold Str.is_empty. by rewrite !bool_decide_eq_false_2.
Qed.

(** The ARN parsers accept exactly the documented ARNs and take them apart
    without loss: an accepted ARN is spelled by the account, path, name and
    session returned (and a region, which is ignored), the fields are non-empty
    and free of the separators, and every such spelling is accepted. *)
Theorem arn_parsers_exact :
  (∀ arn p, parse_iam_role_arn arn = Ok p ↔
     ∃ region, arn = arn_text "iam" region (iam_account_id p) ("role" +:+ iam_role_path p +:+ iam_role_name p) ∧
       free_of ":" region = true ∧ free_of ":" (iam_account_id p) = true ∧ iam_account_id p ≠ "" ∧
       is_role_path (iam_role_path p) ∧ free_of "/" (iam_role_name p) = true ∧ iam_role_name p ≠ "") ∧
  (∀ arn p, parse_assumed_role_arn arn = Ok p ↔
     ∃ region, arn = arn_text "sts" region (ar_account_id p)
                       ("assumed-role/" +:+ ar_role_name p +:+ "/" +:+ ar_session_name p) ∧
       free_of ":" region = true ∧ free_of ":" (ar_account_id p) = true ∧ ar_account_id p ≠ "" ∧
       free_of "/" (ar_role_name p) = true ∧ ar_role_name p ≠ "" ∧ ar_session_name p ≠ "").
Proof. split; [exact parse_iam_role_arn_spec|exact parse_assumed_role_arn_spec]. Qed.

(** A text contains [:p] when a part after its first colon starts with [p]. *)
Lemma contains_colon p s :
  free_of ":" p = true →
  Str.contains (":" +:+ p) s = existsb (Str.starts_with p) (tail (Str.split ":" s)).
Proof.
  intros Hp. induction s as [|a s IH].
  { unfold Str.contains, Str.find_str. cbn. done. }
  assert (Str.contains (":" +:+ p) (String a s) =
          (bool_decide (a = ":"%char) && Str.starts_with p s) || Str.contains (":" +:+ p) s) as ->.
  { unfold Str.contains, Str.starts_with.
    change (Str.find_str (":" +:+ p) (String a s)) with
      (match Str.strip_prefix (":" +:+ p) (String a s) with
       | Some r => Some ("", r)
       | None => prod_map (String a) id <$> Str.find_str (":" +:+ p) s end).
    change (Str.strip_prefix (":" +:+ p) (String a s)) with
      (if bool_decide (":"%char = a) then Str.strip_prefix p s else None).
    rewrite (bool_decide_ext (":"%char = a) (a = ":"%char)) by (split; by intros ->).
    case_bool_decide; [destruct (Str.strip_prefix p s)|]; [done|..]; cbn;
      by destruct (Str.find_str (":" +:+ p) s). }
  rewrite IH. cbn. case_bool_decide as Ha.
  - cbn. destruct (Str.split ":" s) as [|h t] eqn:E; [by apply split_non_nil in E|]. cbn.
    f_equal. pose proof (join_split ":" s) as Hj. rewrite E in Hj. subst s.
    apply eq_true_iff_eq. rewrite !starts_with_spec. destruct t as [|h' t]; [done|].
    rewrite join_cons by done. split.
    + intros [r Hr]. apply str_app_eq_app in Hr as [(q & -> & Hq)|(q & -> & Hq)]; [by exists q|].
      destruct q as [|x q]; [exists ""; by rewrite !app_empty_r|]. exfalso.
      rewrite !app_cons in Hq. injection Hq as <- Hq.
      unfold free_of in Hp. rewrite all_chars_app in Hp. cbn in Hp. by rewrite andb_false_r in Hp.
    + intros [r ->]. exists (r +:+ ":" +:+ Str.join ":" (h' :: t)). by rewrite <-!str_app_assoc.
  - cbn. destruct (Str.split ":" s) as [|h t] eqn:E; [by apply split_non_nil in E|done].
Qed.

(** The ARNs of the callers the validator supports, with role (or user) and
    session; separators do not occur inside fields. *)
Inductive names_caller : string → string → string → Prop :=
| assumed_caller re ac r s :
    Forall (λ x, free_of ":" x = true ∧ free_of "/" x = true) [re; ac; r] → free_of ":" s = true →
    ac ≠ "" → r ≠ "" → s ≠ "" →
    names_caller (arn_text "sts" re ac ("assumed-role/" +:+ r +:+ "/" +:+ s)) r s
| user_caller re ac path n :
    Forall (λ x, free_of ":" x = true ∧ free_of "/" x = true) [re; ac; n] →
    is_role_path path → free_of ":" path = true →
    names_caller (arn_text "iam" re ac ("user" +:+ path +:+ n)) n ""
| role_caller re ac path n :
    Forall (λ x, free_of ":" x = true ∧ free_of "/" x = true) [re; ac; n] →
    is_role_path path → free_of ":" path = true → ac ≠ "" → n ≠ "" →
    names_caller (arn_text "iam" re ac ("role" +:+ path +:+ n)) n "".

Lemma arn_split service re ac rs :
  free_of ":" service = true → free_of ":" re = true → free_of ":" ac = true → free_of ":" rs = true →
  Str.split ":" (arn_text service re ac rs) = ["arn"; "aws"; service; re; ac; rs].
Proof.
  intros H1 H2 H3 H4. unfold arn_text.
  change ("arn:aws:" +:+ service +:+ ":" +:+ re +:+ ":" +:+ ac +:+ ":" +:+ rs)
    with ("arn" +:+ String ":" ("aws" +:+ String ":" (service +:+ String ":" (re +:+ String ":"
            (ac +:+ String ":" rs))))).
  rewrite !split_app, (split_free _ service), (split_free _ re), (split_free _ ac), (split_free _ rs) by done.
  done.
Qed.

Lemma contains_kind kind service re ac rs :
  free_of ":" kind = true → service = "sts" ∨ service = "iam" →
  free_of ":" re = true → free_of "/" re = true → free_of ":" ac = true → free_of "/" ac = true →
  free_of ":" rs = true →
  Str.contains (":" +:+ kind +:+ "/") (arn_text service re ac rs) = Str.starts_with (kind +:+ "/") rs.
Proof.
  intros Hk Hs Hr Hr' Ha Ha' Hrs. rewrite contains_colon.
  2:{ unfold free_of in *. rewrite all_chars_app, Hk. done. }
  assert (free_of ":" service = true ∧ free_of "/" service = true) as [Hs1 Hs2] by (destruct Hs; by subst).
  rewrite arn_split by done. cbn [existsb tail].
  assert (∀ x, free_of "/" x = true → Str.starts_with (kind +:+ "/") x = false) as Hn.
  { intros x Hx. apply not_true_iff_false. intros [r ->]%starts_with_spec.
    unfold free_of in Hx. rewrite !all_chars_app in Hx. cbn in Hx. by rewrite andb_false_r in Hx. }
  rewrite !Hn by done. cbn. by rewrite orb_false_r.
Qed.

Lemma role_suffix path n :
  is_role_path path → free_of "/" n = true →
  ∃ suf, path +:+ n = "/" +:+ suf ∧ last (Str.split "/" suf) = Some n.
Proof.
  intros Hp Hn. assert (∃ suf, path +:+ n = "/" +:+ suf) as [suf He].
  { destruct Hp as [->|[q ->]]; [by exists n|]. exists (q +:+ "/" +:+ n). by rewrite <-!str_app_assoc. }
  exists suf. split; [done|]. destruct (role_segments suf) as (He' & Hp' & Hf').
  destruct (role_path_unique _ _ _ _ Hp' Hp Hf' Hn) as [_ Hl]; [by rewrite He|]. revert Hl.
  destruct (last (Str.split "/" suf)) as [x|] eqn:El; cbn; [by intros ->|].
  apply last_None in El. by apply split_non_nil in El.
Qed.

Lemma names_caller_sound arn r s : names_caller arn r s → role_and_session arn = Ok (r, s).
Proof.
  unfold role_and_session. change ":assumed-role/" with (":" +:+ "assumed-role" +:+ "/").
  change ":user/" with (":" +:+ "user" +:+ "/"). change ":role/" with (":" +:+ "role" +:+ "/").
  destruct 1 as [re ac r s Hf Hs Ha Hr Hn|re ac path n Hf Hp Hpc|re ac path n Hf Hp Hpc Ha Hn];
    rewrite !Forall_cons in Hf; destruct Hf as ([Hre Hre'] & [Hac Hac'] & [Hx Hx'] & _);
    rewrite !contains_kind by (try done; auto; unfold free_of in *; by rewrite !all_chars_app, ?Hpc, ?Hx, ?Hs).
  - rewrite (proj2 (parse_assumed_role_arn_spec _ (mkAssumedRole ac r s))) by (by exists re). done.
  - destruct (role_suffix path n Hp Hx') as (suf & -> & Hl).
    assert (Str.splitn 6 ":" (arn_text "iam" re ac ("user" +:+ "/" +:+ suf)) =
            ["arn"; "aws"; "iam"; re; ac; "user" +:+ "/" +:+ suf]) as ->.
    { repeat (apply splitn_cons; eexists; split; [reflexivity|split; [done|]]). done. }
    change ("user" +:+ "/" +:+ suf) with ("user/" +:+ suf).
    change (default "" (last ["arn"; "aws"; "iam"; re; ac; "user/" +:+ suf])) with ("user/" +:+ suf).
    rewrite (proj2 (strip_prefix_Some "user/" ("user/" +:+ suf) suf) eq_refl). cbn [default from_option id].
    by rewrite Hl.
  - rewrite (proj2 (parse_iam_role_arn_spec _ (mkIamRole ac n path))) by (by exists re).
    by destruct (role_suffix path n Hp Hx') as (suf & -> & _).
Qed.

Definition sts_host (host : string) : Prop :=
  host = "sts.amazonaws.com" ∨
  ∃ region, host = "sts." +:+ region +:+ ".amazonaws.com" ∧ region ≠ "" ∧
    Str.all_chars region_char region = true.

Lemma validate_sts_host_spec host u : validate_sts_host host = Ok u ↔ sts_host host.
Proof.
  destruct u. unfold validate_sts_host, sts_host. case_bool_decide as Hh; [split; auto|]. split.
  - destruct (Str.strip_prefix "sts." host) as [rest|] eqn:E1; [|done].
    destruct (Str.strip_suffix ".amazonaws.com" rest) as [region|] eqn:E2; [|done].
    apply strip_prefix_Some in E1 as ->. apply strip_suffix_Some in E2 as ->.
    destruct (negb _ && _) eqn:E; [|done]. apply andb_true_iff in E as [Hne Hall].
    apply negb_true_iff, bool_decide_eq_false in Hne. intros _. right. by exists region.
  - intros [?|(region & -> & Hne & Hall)]; [done|].
    rewrite (proj2 (strip_prefix_Some _ _ _) eq_refl), (proj2 (strip_suffix_Some _ _ _) eq_refl).
    unfold Str.is_empty. by rewrite bool_decide_eq_false_2, Hall.
Qed.

Section validator_spec.
Context `{UrlLib, HttpClient}.

Lemma validate_presigned_url_spec u url :
  validate_presigned_url u = Ok url ↔
  url_parse u = Ok url ∧ url_scheme url = "https" ∧
  (∃ host, url_host_str url = Some host ∧ sts_host host) ∧ ("Action", "GetCallerIdentity") ∈ url_query_pairs url.
Proof.
  assert (∀ l, existsb is_action l = true ↔ ("Action", "GetCallerIdentity") ∈ l) as Hex.
  { intros l. rewrite existsb_exists. setoid_rewrite <-list_elem_of_In. unfold is_action. split.
    - intros ([k v] & Hin & [Hk Hv]%andb_true_iff). cbn in Hk, Hv.
      apply bool_decide_eq_true in Hk, Hv. by subst.
    - intros Hin. by exists ("Action", "GetCallerIdentity"). }
  unfold validate_presigned_url, validate_action_param. repeat setoid_rewrite bind_Ok.
  setoid_rewrite map_err_Ok. setoid_rewrite ok_or_Ok. repeat setoid_rewrite fail_if_Ok.
  setoid_rewrite validate_sts_host_spec. split.
  - intros (x & Hu & _ & Hs & h & Hh & _ & Hst & _ & Ha & [= ->]).
    apply bool_decide_eq_false, dec_stable in Hs. apply negb_false_iff, Hex in Ha. split_and!; eauto.
  - intros (Hu & Hs & (h & Hh & Hst) & Ha). exists url. split; [done|]. exists tt.
    split; [apply bool_decide_eq_false; naive_solver|]. exists h. split; [done|]. exists tt. split; [done|].
    exists tt. split; [by apply negb_false_iff, Hex|done].
Qed.

Lemma read_sts_response_spec r body :
  read_sts_response r = Ok body ↔ is_success r = true ∧ resp_text r = Ok body.
Proof.
  unfold read_sts_response. destruct (is_success r); cbn; [rewrite map_err_Ok|]; naive_solver.
Qed.

Lemma validate_inv config u i :
  validate config u = Ok i →
  ∃ url response body, validate_presigned_url u = Ok url ∧ http_get (url_as_str url) = Ok response ∧
    is_success response = true ∧ resp_text response = Ok body ∧
    extract_xml_element body "Account" = Some (account_id i) ∧
    extract_xml_element body "Arn" = Some (role_arn i) ∧
    role_and_session (role_arn i) = Ok (role_name i, session_name i) ∧ role_path i = "/" ∧
    ∀ allowed, allowed_accounts config = Some allowed → account_id i ∈ allowed.
Proof.
  unfold validate, parse_get_caller_identity_xml.
  intros (url & Hu & Hk)%bind_Ok. apply bind_Ok in Hk as (resp & Hr%map_err_Ok & Hk).
  apply bind_Ok in Hk as (body & [Hok Hb]%read_sts_response_spec & Hk).
  apply bind_Ok in Hk as ([[ac arn] uid] & Hx & Hk).
  apply bind_Ok in Hx as (ac' & Hac%ok_or_Ok & Hx). apply bind_Ok in Hx as (arn' & Harn%ok_or_Ok & Hx).
  apply bind_Ok in Hx as (uid' & _ & [= -> -> ->]).
  apply bind_Ok in Hk as ([r s] & Hrs & Hk). apply bind_Ok in Hk as ([] & Hall & [= <-]).
  exists url, resp, body. split_and!; try done.
  intros l Hl. rewrite Hl in Hall. by apply fail_if_Ok, negb_false_iff, bool_decide_eq_true in Hall.
Qed.

(** C10: an AWS identity is accepted only for an HTTPS URL of an STS host of
    [amazonaws.com] that asks for [GetCallerIdentity], after STS
    answered it with a success; account and ARN are those of the answer, the
    account is an allowed one, and role and session are those the ARN spells. *)
Theorem aws_identity_sound config u i :
  validate config u = Ok i →
  (∃ url host response body,
     url_parse u = Ok url ∧ url_scheme url = "https" ∧ url_host_str url = Some host ∧ sts_host host ∧
     ("Action", "GetCallerIdentity") ∈ url_query_pairs url ∧
     http_get (url_as_str url) = Ok response ∧ is_success response = true ∧ resp_text response = Ok body ∧
     extract_xml_element body "Account" = Some (account_id i) ∧
     extract_xml_element body "Arn" = Some (role_arn i)) ∧
  (∀ allowed, allowed_accounts config = Some allowed → account_id i ∈ allowed) ∧
  (∀ r s, names_caller (role_arn i) r s → role_name i = r ∧ session_name i = s).
Proof.
  intros (url & resp & body & (Hu & Hs & (h & Hh & Hst) & Ha)%validate_presigned_url_spec & Hr & Hok & Hb
          & Hac & Harn & Hrs & Hp & Hall)%validate_inv. split_and!; [|exact Hall|].
  - exists url, h, resp, body. by split_and!.
  - intros r' s' Hn%names_caller_sound. rewrite Hn in Hrs. by injection Hrs.
Qed.
End validator_spec.

(* ------------------------------------------------------------------ *)
(** ** A URL and its answer for the witnesses *)

Module DemoSts.

Definition demo_url : string := "https://sts.eu-west-1.amazonaws.com/?Action=GetCallerIdentity".
Definition demo_arn : string := "arn:aws:sts::123456789012:assumed-role/billing/s1".
Definition demo_body : string :=
  "<R><Account> 123456789012 </Account><Arn>" +:+ demo_arn +:+ "</Arn><UserId>AROA:s1</UserId></R>".

#[export] Instance demo_urls : UrlLib := {|
  Url := string * string * list (string * string) * string;
  url_parse := λ s,
    if bool_decide (s = demo_url)
    then Ok ("https", "sts.eu-west-1.amazonaws.com", [("Action", "GetCallerIdentity")], s)
    else Err "relative URL without a base";
  url_scheme := λ '(scheme, _, _, _), scheme;
  url_host_str := λ '(_, host, _, _), Some host;
  url_query_pairs := λ '(_, _, query, _), query;
  url_as_str := λ '(_, _, _, s), s
|}.

#[export] Instance demo_http : HttpClient := {|
  http_get := λ s, if bool_decide (s = demo_url) then Ok (mkResponse 200 "200 OK" (Ok demo_body))
                   else Err "dns error";
  resp_json := λ T de r, Err "not JSON"
|}.

End DemoSts.

#[local] Existing Instance DemoSts.demo_urls.
#[local] Existing Instance DemoSts.demo_http.

Lemma aws_identity_sound_witness :
  let i := mkAws "123456789012" DemoSts.demo_arn "billing" "/" "s1" in
  validate (mkAwsSource true (Some ["123456789012"])) DemoSts.demo_url = Ok i ∧
  ∀ r s, names_caller (role_arn i) r s → role_name i = r ∧ session_name i = s.
Proof.
  intros i.
  assert (validate (mkAwsSource true (Some ["123456789012"])) DemoSts.demo_url = Ok i) as H by by vm_compute.
  split; [exact H|]. exact (proj2 (proj2 (aws_identity_sound _ _ _ H))).
Defined.

(** The path of an IAM role is parsed but not kept in the identity. *)
Lemma role_path_dropped :
  (∃ p, parse_iam_role_arn "arn:aws:iam::123456789012:role/team/app" = Ok p ∧ iam_role_path p = "/team/") ∧
  ∀ `{UrlLib, HttpClient} config u i, validate config u = Ok i → role_path i = "/".
Proof.
  split; [eexists; split; by vm_compute|].
  intros ?? config u i (? & ? & ? & _ & _ & _ & _ & _ & _ & _ & Hp & _)%validate_inv. exact Hp.
Qed.

(** An IAM user and a role of the same name are one subject: callers with either ARN get
    the same [sub] claim, rate limit and cached billets. *)
Lemma user_role_same_subject :
  let user := "arn:aws:iam::123456789012:user/deploy" in
  let role := "arn:aws:sts::123456789012:assumed-role/deploy/s1" in
  ∃ n s s', role_and_session user = Ok (n, s) ∧ role_and_session role = Ok (n, s') ∧
    format_subject (AwsSts (mkAws "123456789012" user n "/" s)) = format_subject (AwsSts (mkAws "123456789012" role n "/" s')).
Proof. exists "deploy", "", "s1". split_and!; by vm_compute. Qed.

End AwsSts.
