(* ===== verification/Mtls.v ===== *)
(** * X.509-SVIDs of mTLS clients ([src/src/domain/identity/mtls.rs])

    The [x509-parser] crate is a parameter ([X509Lib]): one field per function the
    sources call.  Bytes are strings of 8-bit characters. *)

From S2P Require Import Prelude Identity.

Module Mtls.
Import Identity.

Inductive GeneralName : Type := URI (uri : string) | OtherName.

Inductive ParsedExtension : Type := SubjectAlternativeName (general_names : list GeneralName) | OtherExtension.

Record Pem : Type := mkPem { label : string; contents : string }.

Class X509Lib := {
  X509Certificate : Type;
  X509Name : Type;
  PublicKey : Type;
  ASN1Time : Type;
  X509Name_eq_dec :: EqDecision X509Name;
  pem_blocks : string → list (result string Pem);
  from_der : string → result string X509Certificate;
  cert_issuer : X509Certificate → X509Name;
  cert_subject : X509Certificate → X509Name;
  public_key : X509Certificate → PublicKey;
  verify_signature : X509Certificate → PublicKey → bool;
  from_timestamp : Z → option ASN1Time;
  is_valid_at : X509Certificate → ASN1Time → bool;
  (** whether the extension is a subject alternative name, and its content *)
  extensions : X509Certificate → list (bool * ParsedExtension)
}.

Inductive MtlsError : Type := InvalidTrustBundle (msg : string) | InvalidCertificate (msg : string).

Definition MtlsError_fmt (e : MtlsError) : string :=
  match e with
  | InvalidTrustBundle msg => "invalid trust bundle: " +:+ msg
  | InvalidCertificate msg => "invalid certificate: " +:+ msg
  end.

(** A trust anchor is the DER text of its certificate. *)
Record MtlsValidator : Type := mkMtlsValidator {
  trust_anchors : list string;
  mtls_trust_domain : string
}.

(** The loop over the segments of the path; it advances by two after a keyword
    with a value. *)
Fixpoint scan_segments (environment region : string) (segments : list string) : string * string :=
  match segments with
  | [] => (environment, region)
  | x :: rest =>
      if bool_decide (x = "env") || bool_decide (x = "environment") then
        match rest with
        | v :: rest' => scan_segments v region rest'
        | [] => (environment, region)
        end
      else if bool_decide (x = "region") then
        match rest with
        | v :: rest' => scan_segments environment v rest'
        | [] => (environment, region)
        end
      else scan_segments environment region rest
  end.

Definition parse_spiffe_path_segments (path : string) : string * string :=
  scan_segments "" "" (Str.split "/" path).

Section validator.
Context `{X509Lib}.

(** The loop of [from_pem]: blocks with another label are skipped, a block that
    does not parse ends it. *)
Fixpoint collect_anchors (blocks : list (result string Pem)) : result MtlsError (list string) :=
  match blocks with
  | [] => Ok []
  | pem :: blocks' =>
      pem ← map_err (λ e, InvalidTrustBundle ("failed to parse PEM block: " +:+ e)) pem;
      if bool_decide (label pem ≠ "CERTIFICATE") then collect_anchors blocks'
      else
        _ ← map_err (λ e, InvalidTrustBundle ("failed to parse certificate DER: " +:+ e))
              (from_der (contents pem));
        rest ← collect_anchors blocks';
        Ok (contents pem :: rest)
  end.

Definition from_pem (ca_pem trust_domain : string) : result MtlsError MtlsValidator :=
  trust_anchors ← collect_anchors (pem_blocks ca_pem);
  match trust_anchors with
  | [] => Err (InvalidTrustBundle "no valid CA certificates found in PEM bundle")
  | _ => Ok (mkMtlsValidator trust_anchors trust_domain)
  end.

(** [now] is the unix time in seconds (0 for a clock before the epoch). *)
Definition is_cert_time_valid (now : Z) (cert : X509Certificate) : bool :=
  match from_timestamp now with
  | Some now_dt => is_valid_at cert now_dt
  | None => false
  end.

Fixpoint verify_anchors (anchors : list string) (cert : X509Certificate) : bool :=
  match anchors with
  | [] => false
  | anchor :: anchors' =>
      match from_der anchor with
      | Err _ => verify_anchors anchors' cert
      | Ok ca_cert =>
          if bool_decide (cert_issuer cert ≠ cert_subject ca_cert) then verify_anchors anchors' cert
          else if verify_signature cert (public_key ca_cert) then true
          else verify_anchors anchors' cert
      end
  end.

Definition verify_chain (v : MtlsValidator) (cert : X509Certificate) : bool :=
  verify_anchors (trust_anchors v) cert.

Definition spiffe_prefix (trust_domain : string) : string := "spiffe://" +:+ trust_domain +:+ "/".

Fixpoint find_spiffe_uri (trust_domain : string) (names : list GeneralName) : option SpireIdentity :=
  match names with
  | [] => None
  | URI uri :: names' =>
      match Str.strip_prefix (spiffe_prefix trust_domain) uri with
      | Some path =>
          let '(environment, region) := parse_spiffe_path_segments path in
          Some (mkSpire uri trust_domain environment region [])
      | None => find_spiffe_uri trust_domain names'
      end
  | OtherName :: names' => find_spiffe_uri trust_domain names'
  end.

Definition extract_spiffe_identity (v : MtlsValidator) (cert : X509Certificate) : option SpireIdentity :=
  '(_, (_, san_ext)) ← list_find (λ ext, ext.1 = true) (extensions cert);
  match san_ext with
  | SubjectAlternativeName general_names => find_spiffe_uri (mtls_trust_domain v) general_names
  | OtherExtension => None
  end.

Definition validate (v : MtlsValidator) (now : Z) (cert_der : string) : option SpireIdentity :=
  match from_der cert_der with
  | Err _ => None
  | Ok cert =>
      if negb (is_cert_time_valid now cert) then None
      else if negb (verify_chain v cert) then None
      else extract_spiffe_identity v cert
  end.

(* ------------------------------------------------------------------ *)
(** ** Properties *)

(** The certificate was issued by an anchor of the bundle. *)
Definition issued_by_bundle (anchors : list string) (cert : X509Certificate) : Prop :=
  ∃ anchor ca, anchor ∈ anchors ∧ from_der anchor = Ok ca ∧
    cert_issuer cert = cert_subject ca ∧ verify_signature cert (public_key ca) = true.

Lemma issued_by_cons a anchors cert :
  issued_by_bundle (a :: anchors) cert ↔ issued_by_bundle [a] cert ∨ issued_by_bundle anchors cert.
Proof.
  unfold issued_by_bundle. split.
  - intros (x & ca & [->|Hx]%elem_of_cons & Hr); [left; exists a, ca|right; exists x, ca]; set_solver.
  - intros [(x & ca & Hx & Hr)|(x & ca & Hx & Hr)]; exists x, ca; set_solver.
Qed.

Lemma verify_anchors_spec anchors cert :
  verify_anchors anchors cert = true ↔ issued_by_bundle anchors cert.
Proof.
  induction anchors as [|a anchors IH]; cbn.
  { split; [done|]. by intros (? & ? & ?%not_elem_of_nil & _). }
  rewrite issued_by_cons, <-IH. unfold issued_by_bundle. setoid_rewrite list_elem_of_singleton.
  destruct (from_der a) as [ca|e] eqn:Ha.
  - case_bool_decide as Hs; [split; [by right|]; intros [(? & ? & -> & Hca & ? & _)|?]; congruence|].
    destruct (verify_signature cert (public_key ca)) eqn:Hv.
    + split; [|done]. intros _. left. by exists a, ca.
    + split; [by right|]. intros [(? & ? & -> & Hca & _ & ?)|?]; congruence.
  - split; [by right|]. intros [(? & ? & -> & Hca & _)|?]; congruence.
Qed.

(** The SAN names of a certificate. *)
Definition san_names (cert : X509Certificate) (names : list GeneralName) : Prop :=
  ∃ pre post, extensions cert = pre ++ (true, SubjectAlternativeName names) :: post ∧ ∀ e, e ∈ pre → e.1 = false.

(** [uri] is the first SAN URI of the trust domain. *)
Definition first_spiffe_uri (td : string) (names : list GeneralName) (uri path : string) : Prop :=
  uri = spiffe_prefix td +:+ path ∧
  ∃ pre post, names = pre ++ URI uri :: post ∧ ∀ p, URI (spiffe_prefix td +:+ p) ∉ pre.

Lemma find_spiffe_uri_spec td names i :
  find_spiffe_uri td names = Some i ↔
  ∃ uri path, first_spiffe_uri td names uri path ∧
    i = mkSpire uri td (parse_spiffe_path_segments path).1 (parse_spiffe_path_segments path).2 [].
Proof.
  assert (∀ n names uri path, (∀ p, n ≠ URI (spiffe_prefix td +:+ p)) →
            first_spiffe_uri td (n :: names) uri path ↔ first_spiffe_uri td names uri path) as Hskip.
  { intros n l uri path Hn. unfold first_spiffe_uri. split; intros (-> & pre & post & Hl & Hpre).
    - destruct pre as [|n' pre]; [injection Hl as -> _; by destruct (Hn path)|].
      injection Hl as -> ->. split; [done|]. exists pre, post. set_solver.
    - subst l. split; [done|]. exists (n :: pre), post. split; [done|]. intros p.
      rewrite not_elem_of_cons. naive_solver. }
  induction names as [|[uri|] names IH]; cbn.
  - split; [done|]. by intros (? & ? & (_ & [|??] & ? & [=] & _) & _).
  - destruct (Str.strip_prefix (spiffe_prefix td) uri) as [path|] eqn:E.
    + apply strip_prefix_Some in E as ->. destruct (parse_spiffe_path_segments path) as [e r] eqn:Hp. split.
      * intros [= <-]. exists (spiffe_prefix td +:+ path), path. rewrite Hp. split; [|done].
        split; [done|]. exists [], names. split; [done|]. intros p. apply not_elem_of_nil.
      * intros (uri & path' & (-> & pre & post & Hl & Hpre) & ->).
        destruct pre as [|n pre]; [|injection Hl as <- _; by destruct (Hpre path); left].
        injection Hl as Hl _. apply (inj (String.append _)) in Hl as <-. by rewrite Hp.
    + rewrite IH. setoid_rewrite Hskip; [done|].
      intros p [= ->]. by rewrite (proj2 (strip_prefix_Some _ _ p) eq_refl) in E.
  - rewrite IH. by setoid_rewrite Hskip.
Qed.

Lemma extract_spiffe_identity_spec v cert i :
  extract_spiffe_identity v cert = Some i ↔
  ∃ names, san_names cert names ∧ find_spiffe_uri (mtls_trust_domain v) names = Some i.
Proof.
  unfold extract_spiffe_identity, san_names. split.
  - intros ([n [b ext]] & Hf & Hk)%bind_Some. destruct ext as [names|]; [|done].
    apply list_find_Some in Hf as (Hn & Hb & Hlt). cbn in Hb. subst b. exists names. split; [|done].
    exists (take n (extensions cert)), (drop (S n) (extensions cert)).
    split; [by rewrite take_drop_middle|]. intros e (k & He)%list_elem_of_lookup.
    apply lookup_take_Some in He as [He Hk']. apply not_true_iff_false. by eapply Hlt.
  - intros (names & (pre & post & He & Hpre) & Hf). apply bind_Some.
    exists (length pre, (true, SubjectAlternativeName names)). split; [|done].
    apply list_find_Some. rewrite He. split_and!; [by apply list_lookup_middle|done|].
    intros k [b e] Hk Hlt. rewrite lookup_app_l in Hk by done.
    apply list_elem_of_lookup_2 in Hk. apply Hpre in Hk. cbn in *. congruence.
Qed.

(** C9: a client certificate authenticates exactly when it parses, is valid now,
    is signed by a certificate of the configured bundle that its issuer names, and
    its subject alternative names contain a SPIFFE URI of the configured trust
    domain; the identity is the first such URI, in that trust domain. *)
Theorem mtls_validate_exact v now der i :
  validate v now der = Some i ↔
  ∃ cert names uri path,
    from_der der = Ok cert ∧ is_cert_time_valid now cert = true ∧
    issued_by_bundle (trust_anchors v) cert ∧ san_names cert names ∧
    first_spiffe_uri (mtls_trust_domain v) names uri path ∧
    i = mkSpire uri (mtls_trust_domain v) (parse_spiffe_path_segments path).1
          (parse_spiffe_path_segments path).2 [].
Proof.
  unfold validate, verify_chain. setoid_rewrite <-verify_anchors_spec. split.
  - destruct (from_der der) as [cert|] eqn:Hd; [|done].
    destruct (is_cert_time_valid now cert) eqn:Ht; [|done]. cbn.
    destruct (verify_anchors _ cert) eqn:Hc; [|done]. cbn.
    intros (names & Hn & (uri & path & Hu & ->)%find_spiffe_uri_spec)%extract_spiffe_identity_spec.
    by exists cert, names, uri, path.
  - intros (cert & names & uri & path & -> & Ht & Hc & Hn & Hu & ->). rewrite Ht, Hc. cbn.
    apply extract_spiffe_identity_spec. exists names. split; [done|].
    apply find_spiffe_uri_spec. by exists uri, path.
Qed.

(** The anchors of a validator are the certificates of its bundle, all of them. *)
Lemma from_pem_anchors pem td v :
  from_pem pem td = Ok v →
  mtls_trust_domain v = td ∧ trust_anchors v ≠ [] ∧
  ∀ der, der ∈ trust_anchors v ↔ Ok (mkPem "CERTIFICATE" der) ∈ pem_blocks pem.
Proof.
  unfold from_pem. intros (l & Hl & Hk)%bind_Ok. destruct l as [|a l]; [done|]. injection Hk as <-.
  split_and!; [done..|]. cbn. revert Hl. generalize (a :: l). clear a l.
  induction (pem_blocks pem) as [|b bs IH]; intros l; cbn [collect_anchors].
  { intros [= <-] der. by rewrite !elem_of_nil. }
  intros ([lb c] & ->%map_err_Ok & Hk)%bind_Ok der. cbn in Hk. rewrite elem_of_cons.
  case_bool_decide as Hlb.
  - rewrite (IH l Hk). split; [auto|]. intros [[= <- _]|?]; done.
  - subst lb. apply bind_Ok in Hk as (_ & _ & (rest & Hrest & [= <-])%bind_Ok).
    rewrite elem_of_cons, (IH rest Hrest). naive_solver.
Qed.
End validator.

Definition path_keywords : list string := ["env"; "environment"; "region"].

Lemma scan_no_keyword e r segments :
  Forall (λ x, x ∉ path_keywords) segments → scan_segments e r segments = (e, r).
Proof.
  induction 1 as [|x l Hx _ IH]; [done|]. cbn. unfold path_keywords in Hx.
  rewrite !bool_decide_eq_false_2 by set_solver. done.
Qed.

(** The documented path shape gives its environment and region. *)
Lemma parse_documented_path e r rest :
  free_of "/" e = true → free_of "/" r = true →
  Forall (λ x, x ∉ path_keywords) (Str.split "/" rest) →
  parse_spiffe_path_segments ("env/" +:+ e +:+ "/region/" +:+ r +:+ "/" +:+ rest) = (e, r).
Proof.
  intros He Hr Hrest. unfold parse_spiffe_path_segments.
  change ("env/" +:+ e +:+ "/region/" +:+ r +:+ "/" +:+ rest) with
    ("env" +:+ String "/" (e +:+ String "/" ("region" +:+ String "/" (r +:+ String "/" rest)))).
  rewrite !split_app, (split_free _ e), (split_free _ r) by done.
  transitivity (scan_segments e r (Str.split "/" rest)); [done|by apply scan_no_keyword].
Qed.

(* ------------------------------------------------------------------ *)
(** ** One authority and one client certificate for the witness *)

Module DemoX509.

Record toy_cert : Type := mkToy { toy_issuer : string; toy_subject : string; toy_uris : list string }.

Definition toy_parse (der : string) : result string toy_cert :=
  if bool_decide (der = "CA") then Ok (mkToy "root" "root" [])
  else if bool_decide (der = "LEAF")
  then Ok (mkToy "root" "" ["https://x"; "spiffe://td/env/prod/region/eu/workload/app"])
  else Err "invalid DER".

(** Times are seconds, every certificate is valid until 2000, the root signed the leaf. *)
#[export] Instance toy_x509 : X509Lib := {|
  X509Certificate := toy_cert;
  X509Name := string;
  PublicKey := string;
  ASN1Time := Z;
  pem_blocks := λ s, if bool_decide (s = "BUNDLE") then [Ok (mkPem "CERTIFICATE" "CA")] else [Err "no PEM"];
  from_der := toy_parse;
  cert_issuer := toy_issuer;
  cert_subject := toy_subject;
  public_key := toy_subject;
  verify_signature := λ c k, bool_decide (toy_issuer c = k);
  from_timestamp := λ s, Some s;
  is_valid_at := λ _ t, (t <=? 2000)%Z;
  extensions := λ c, [(false, OtherExtension); (true, SubjectAlternativeName (URI <$> toy_uris c))]
|}.

Lemma leaf_accepted :
  validate (mkMtlsValidator ["CA"] "td") 1000 "LEAF" =
  Some (mkSpire "spiffe://td/env/prod/region/eu/workload/app" "td" "prod" "eu" []).
Proof. by vm_compute. Qed.

Lemma leaf_expired : validate (mkMtlsValidator ["CA"] "td") 2001 "LEAF" = None.
Proof. by vm_compute. Qed.

End DemoX509.

End Mtls.
