(* ===== verification/Svid.v ===== *)
(** * SPIRE JWT-SVIDs ([src/src/domain/svid/mod.rs])

    Reading the trust bundle and validating SVIDs against it.  The JWT crate and
    the JSON parser are parameters.  [validate] returns [None] where the code
    panics: [SystemTime] addition overflows beyond [i64] seconds. *)

From S2P Require Import Prelude Identity Jwt Mtls.

Module Svid.
Import Identity.
Import Jwt.
Import Verify.
Local Open Scope Z_scope.

Record RawSvidClaims : Type := mkRawSvid {
  raw_sub : string;
  raw_iss : string;
  raw_aud : OneOrMany;
  raw_exp : Z;
  raw_iat : Z
}.

(** The derived [Deserialize]. *)
Definition de_raw_svid (p : payload) : option RawSvidClaims :=
  sub ← required "sub" de_string p;
  iss ← defaulted "iss" de_string "" p;
  aud ← defaulted "aud" de_one_or_many OneOrMany_default p;
  exp ← defaulted "exp" de_u64 0 p;
  iat ← defaulted "iat" de_u64 0 p;
  Some (mkRawSvid sub iss aud exp iat).

Definition SvidError_fmt (e : SvidError) : string :=
  match e with
  | SignatureInvalid msg => "signature invalid: " +:+ msg
  | SvidExpired => "token expired"
  | UnknownTrustDomain domain => "unknown trust domain: " +:+ domain
  | InvalidAudience => "invalid audience"
  | MalformedToken msg => "malformed token: " +:+ msg
  end.

(** [v.get(k).and_then(|x| x.as_str()).unwrap_or(d)] *)
Definition str_or (d k : string) (v : json) : string := default d (json_get k v ≫= json_as_str).

Definition parse_alg (alg_str : string) : option Algorithm :=
  if bool_decide (alg_str = "ES256") then Some ES256 else
  if bool_decide (alg_str = "ES384") then Some ES384 else
  if bool_decide (alg_str = "RS256") then Some RS256 else
  if bool_decide (alg_str = "RS384") then Some RS384 else
  if bool_decide (alg_str = "RS512") then Some RS512 else
  if bool_decide (alg_str = "PS256") then Some PS256 else
  if bool_decide (alg_str = "PS384") then Some PS384 else
  if bool_decide (alg_str = "PS512") then Some PS512 else None.

Definition extract_trust_domain (spiffe_id : string) : option string :=
  rest ← Str.strip_prefix "spiffe://" spiffe_id; head (Str.split "/" rest).

(** The largest [tv_sec] of a [SystemTime]. *)
Definition i64_max : Z := 9223372036854775807.

Section svid.
Context `{JwtVerify}.
(** [serde_json::from_str::<Value>] *)
Context (json_from_str : string → result string json).

Record TrustBundleKey : Type := mkBundleKey {
  bk_kid : string;
  bk_algorithm : Algorithm;
  bk_decoding_key : DecodingKey
}.

Record SpireValidator : Type := mkSpireValidator {
  trust_bundle_keys : list TrustBundleKey;
  sv_trust_domain : string;
  quartermaster_issuer : string
}.

(** One round of the loop of [parse_jwks]; [None]: the key is skipped. *)
Definition parse_jwk (key : json) : result SvidError (option TrustBundleKey) :=
  let kid := str_or "" "kid" key in
  match parse_alg (str_or "ES256" "alg" key) with
  | None => Ok None
  | Some algorithm =>
      let kty := str_or "" "kty" key in
      if bool_decide (kty = "EC") then
        let crv := str_or "P-256" "crv" key in
        decoding_key ← map_err (λ e, MalformedToken ("failed to construct EC key (kid=" +:+ kid +:+
                                                     ", crv=" +:+ crv +:+ "): " +:+ e))
                         (from_ec_components (str_or "" "x" key) (str_or "" "y" key));
        Ok (Some (mkBundleKey kid algorithm decoding_key))
      else if bool_decide (kty = "RSA") then
        decoding_key ← map_err (λ e, MalformedToken ("failed to construct RSA key (kid=" +:+ kid +:+ "): " +:+ e))
                         (from_rsa_components (str_or "" "n" key) (str_or "" "e" key));
        Ok (Some (mkBundleKey kid algorithm decoding_key))
      else Ok None
  end.

Definition parse_jwks (jwks_json : string) : result SvidError (list TrustBundleKey) :=
  jwks ← map_err (λ e, MalformedToken ("failed to parse JWKS: " +:+ e)) (json_from_str jwks_json);
  keys ← ok_or (MalformedToken "JWKS missing 'keys' array") (json_get "keys" jwks ≫= json_as_array);
  bundle_keys ← try_map parse_jwk keys;
  Ok (omap (M := list) id bundle_keys).

Definition find_key (v : SpireValidator) (kid : string) : option TrustBundleKey :=
  snd <$> list_find (λ k, bk_kid k = kid) (trust_bundle_keys v).

Definition svid_validation (algorithm : Algorithm) : Validation :=
  let v := Validation_new algorithm in
  mkValidation (algorithms v) (issuers v) false true (validate_signature v) ["sub"; "exp"].

Definition map_decode_error (e : JwtError) : SvidError :=
  match e with
  | ExpiredSignature => SvidExpired
  | InvalidSignatureKind | InvalidEcdsaKey | InvalidRsaKey _ => SignatureInvalid (JwtError_fmt e)
  | _ => MalformedToken ("JWT decode failed: " +:+ JwtError_fmt e)
  end.

(** Steps 1-3: the claims of a token signed by the bundle. *)
Definition decode_svid (v : SpireValidator) (now : Z) (raw_token : string) : result SvidError RawSvidClaims :=
  header ← map_err (λ e, MalformedToken ("failed to decode JWT header: " +:+ e)) (decode_header raw_token);
  let kid := default "" (kid header) in
  bundle_key ← ok_or (SignatureInvalid ("no matching key found in trust bundle for kid '" +:+ kid +:+ "'"))
                 (find_key v kid);
  map_err map_decode_error
    (decode de_raw_svid now raw_token (bk_decoding_key bundle_key) (svid_validation (bk_algorithm bundle_key))).

(** Steps 5-8. *)
Definition check_claims (v : SpireValidator) (expires_at : Z) (raw : RawSvidClaims) : result SvidError SvidClaims :=
  let expected_issuer_prefix := "spiffe://" +:+ sv_trust_domain v in
  _ ← fail_if (negb (Str.starts_with expected_issuer_prefix (raw_iss raw))) (UnknownTrustDomain (raw_iss raw));
  let audiences := into_vec (raw_aud raw) in
  _ ← fail_if (negb (bool_decide (quartermaster_issuer v ∈ audiences))) InvalidAudience;
  let spiffe_id := raw_sub raw in
  let trust_domain := default (sv_trust_domain v) (extract_trust_domain spiffe_id) in
  let path_after_domain := default "" (Str.strip_prefix ("spiffe://" +:+ trust_domain +:+ "/") spiffe_id) in
  let segments := Str.split "/" path_after_domain in
  Ok (mkSvidClaims spiffe_id trust_domain (default "" (head segments)) (default "" (segments !! 1%nat))
        audiences expires_at).

(** [now] is the unix time; step 4 adds [exp] seconds to the epoch. *)
Definition validate (v : SpireValidator) (now : Z) (raw_token : string) : option (result SvidError SvidClaims) :=
  match decode_svid v now raw_token with
  | Err e => Some (Err e)
  | Ok raw_claims =>
      if i64_max <? raw_exp raw_claims then None
      else Some (check_claims v (raw_exp raw_claims) raw_claims)
  end.

(* ------------------------------------------------------------------ *)
(** ** Properties *)

Lemma parse_jwk_Some key bk :
  parse_jwk key = Ok (Some bk) →
  bk_kid bk = str_or "" "kid" key ∧ parse_alg (str_or "ES256" "alg" key) = Some (bk_algorithm bk) ∧
  ((str_or "" "kty" key = "EC" ∧
      from_ec_components (str_or "" "x" key) (str_or "" "y" key) = Ok (bk_decoding_key bk)) ∨
   (str_or "" "kty" key = "RSA" ∧
      from_rsa_components (str_or "" "n" key) (str_or "" "e" key) = Ok (bk_decoding_key bk))).
Proof.
  unfold parse_jwk. destruct (parse_alg _) as [a|]; [|done]. repeat case_bool_decide; [..|done];
    intros (dk & Hdk%map_err_Ok & [= <-])%bind_Ok; auto.
Qed.

(** The keys of a bundle are entries of its [keys] array. *)
Lemma parse_jwks_sound text bks bk :
  parse_jwks text = Ok bks → bk ∈ bks →
  ∃ jwks keys key, json_from_str text = Ok jwks ∧ json_get "keys" jwks = Some (JArr keys) ∧ key ∈ keys ∧
    parse_jwk key = Ok (Some bk).
Proof.
  unfold parse_jwks. intros (jwks & Hj%map_err_Ok & Hk)%bind_Ok.
  apply bind_Ok in Hk as (keys & Hkeys%ok_or_Ok & Hk). apply bind_Ok in Hk as (l & Hl%try_map_Ok & [= <-]).
  intros (x & Hx & Hbk)%list_elem_of_omap. cbn in Hbk. subst x.
  apply bind_Some in Hkeys as (ks & Hks & Ha). destruct ks; try done. injection Ha as ->.
  apply list_elem_of_lookup in Hx as [n Hn]. destruct (Forall2_lookup_r _ _ _ _ _ Hl Hn) as (key & Hkey & Hp).
  exists jwks, keys, key. split_and!; try done. by eapply list_elem_of_lookup_2.
Qed.

Lemma find_key_Some v kid bk :
  find_key v kid = Some bk → bk ∈ trust_bundle_keys v ∧ bk_kid bk = kid.
Proof.
  unfold find_key. intros ([n k] & (Hn & Hk & _)%list_find_Some & ->)%fmap_Some.
  split; [by eapply list_elem_of_lookup_2|done].
Qed.

Lemma check_claims_Ok v ex raw c :
  check_claims v ex raw = Ok c →
  Str.starts_with ("spiffe://" +:+ sv_trust_domain v) (raw_iss raw) = true ∧
  quartermaster_issuer v ∈ into_vec (raw_aud raw) ∧
  svid_spiffe_id c = raw_sub raw ∧ svid_audience c = into_vec (raw_aud raw) ∧ svid_expires_at c = ex ∧
  svid_trust_domain c = default (sv_trust_domain v) (extract_trust_domain (raw_sub raw)).
Proof.
  unfold check_claims. intros ([] & Hi%fail_if_Ok%negb_false_iff & Hk)%bind_Ok.
  apply bind_Ok in Hk as ([] & Ha%fail_if_Ok%negb_false_iff%bool_decide_eq_true & [= <-]). done.
Qed.

Context `{!JwtVerifyLaws}.

Lemma decode_svid_inv v now tok raw :
  decode_svid v now tok = Ok raw →
  ∃ header bk p, decode_header tok = Ok header ∧ bk ∈ trust_bundle_keys v ∧
    bk_kid bk = default "" (kid header) ∧ verified (bk_decoding_key bk) [bk_algorithm bk] tok ∧
    payload_of tok = Some p ∧ member "sub" p = Some (JStr (raw_sub raw)) ∧
    member "exp" p = Some (JNum (raw_exp raw)) ∧ now ≤ raw_exp raw + 60 ∧
    (raw_iss raw = "" ∨ member "iss" p = Some (JStr (raw_iss raw))) ∧
    (raw_aud raw = Many [] ∨ ∃ j, member "aud" p = Some j ∧ de_one_or_many j = Some (raw_aud raw)).
Proof.
  unfold decode_svid. intros (h & Hh%map_err_Ok & Hk)%bind_Ok.
  apply bind_Ok in Hk as (bk & [Hbk Hkid]%ok_or_Ok%find_key_Some & Hd%map_err_Ok).
  apply decode_sound in Hd as (p & Hp & Hde & Hv & Hs). exists h, bk, p. unfold claims_valid in Hv.
  apply andb_true_iff in Hv as [[Hreq Hexp]%andb_true_iff _]. cbn in Hreq, Hexp, Hs.
  unfold de_raw_svid in Hde. apply bind_Some in Hde as (sub & Hsub & Hde).
  apply bind_Some in Hde as (iss & Hiss & Hde). apply bind_Some in Hde as (aud & Haud & Hde).
  apply bind_Some in Hde as (ex & Hex & Hde). apply bind_Some in Hde as (iat & _ & [= <-]). cbn.
  apply bind_Some in Hsub as (j & Hj & Hsub). destruct j; try done. injection Hsub as ->.
  unfold has_claim in Hreq. rewrite Hj in Hreq.
  assert (member "exp" p = Some (JNum ex)) as He.
  { destruct (member "exp" p) as [[]|] eqn:E; cbn in Hreq; try done.
    unfold defaulted in Hex. unfold member in E. destruct (members "exp" p) as [|j' [|]]; try done.
    injection E as ->. cbn in Hex. by destruct (_ && _); [injection Hex as ->|]. }
  split_and!; try done; [by apply Hs| | |].
  - rewrite He in Hexp. lia.
  - apply defaulted_Some in Hiss as [->|(x & Hx & Hs')]; [by left|right]. destruct x; try done.
    by injection Hs' as ->.
  - apply defaulted_Some in Haud as [->|?]; auto.
Qed.

(** C7: an accepted SVID was signed, with the pinned algorithm, by the key of the
    trust bundle that its header names; its payload carries the SPIFFE ID returned,
    an issuer that starts with the configured trust domain, an audience that
    contains this service and an expiry that has not passed (60 s leeway). *)
Theorem svid_validate_sound v now tok c :
  validate v now tok = Some (Ok c) →
  ∃ header bk p iss, decode_header tok = Ok header ∧ bk ∈ trust_bundle_keys v ∧
    bk_kid bk = default "" (kid header) ∧ verified (bk_decoding_key bk) [bk_algorithm bk] tok ∧
    payload_of tok = Some p ∧ member "sub" p = Some (JStr (svid_spiffe_id c)) ∧
    member "exp" p = Some (JNum (svid_expires_at c)) ∧ now ≤ svid_expires_at c + 60 ∧
    member "iss" p = Some (JStr ("spiffe://" +:+ sv_trust_domain v +:+ iss)) ∧
    (∃ aud, member "aud" p = Some aud ∧ into_vec <$> de_one_or_many aud = Some (svid_audience c)) ∧
    quartermaster_issuer v ∈ svid_audience c.
Proof.
  unfold validate. destruct (decode_svid v now tok) as [raw|] eqn:E; [|done].
  destruct (_ <? _); [done|]. intros [= (Hi & Ha & Hsub & Haud & Hex & _)%check_claims_Ok].
  apply decode_svid_inv in E as (h & bk & p & Hh & Hbk & Hkid & Hver & Hp & Hs & He & Hnow & Hiss & Had).
  apply starts_with_spec in Hi as [iss Hi]. exists h, bk, p, iss.
  rewrite Hsub, Haud, Hex. split_and!; try done.
  - destruct Hiss as [He'|Hm]; [by rewrite He' in Hi|]. by rewrite Hm, Hi, str_app_assoc.
  - destruct Had as [He'|(j & Hj & Hde)]; [rewrite He' in Ha; by apply not_elem_of_nil in Ha|].
    exists j. by rewrite Hde.
Qed.

(** A panic needs a token signed by the bundle that expires after [i64] seconds. *)
Lemma svid_panic_signed v now tok :
  validate v now tok = None →
  ∃ bk p e, bk ∈ trust_bundle_keys v ∧ verified (bk_decoding_key bk) [bk_algorithm bk] tok ∧
    payload_of tok = Some p ∧ member "exp" p = Some (JNum e) ∧ i64_max < e.
Proof.
  unfold validate. destruct (decode_svid v now tok) as [raw|] eqn:E; [|done].
  destruct (Z.ltb_spec i64_max (raw_exp raw)); [|done]. intros _.
  apply decode_svid_inv in E as (h & bk & p & _ & Hbk & _ & Hver & Hp & _ & He & _).
  by exists bk, p, (raw_exp raw).
Qed.
End svid.

(* ------------------------------------------------------------------ *)
(** ** A bundle and its tokens *)

Module DemoSvid.
Import ToyVerify.

Definition svid_of (iss sub : string) (exp : Z) : toy_token :=
  mkToyToken (mkHeader ES256 (Some "k1"))
    [("sub", JStr sub); ("iss", JStr iss); ("aud", JArr [JStr "https://qm"]); ("exp", JNum exp)] "XY".

Definition demo_table : list (string * toy_token) :=
  [("svid", svid_of "spiffe://td" "spiffe://td/env/prod/region/eu/workload/app" 1900);
   ("other", svid_of "spiffe://td.elsewhere.org" "spiffe://other.org/admin" 1900);
   ("far", svid_of "spiffe://td" "spiffe://td/app" 9223372036854775808)].

#[export] Instance demo_verify : JwtVerify := toy_verify demo_table.
#[export] Instance demo_verify_laws : JwtVerifyLaws := toy_verify_laws demo_table.

Definition demo_bundle : json :=
  JObj [("keys", JArr [JObj [("kid", JStr "k1"); ("kty", JStr "EC"); ("x", JStr "X"); ("y", JStr "Y")];
                       JObj [("kid", JStr "k2"); ("alg", JStr "none")]])].

Lemma demo_bundle_parses :
  parse_jwks (λ _, Ok demo_bundle) "bundle" = Ok [mkBundleKey "k1" ES256 ("XY" : DecodingKey)].
Proof. by vm_compute. Qed.

Definition demo_validator : SpireValidator :=
  mkSpireValidator [mkBundleKey "k1" ES256 ("XY" : DecodingKey)] "td" "https://qm".

End DemoSvid.

#[local] Existing Instance DemoSvid.demo_verify.
#[local] Existing Instance DemoSvid.demo_verify_laws.

Lemma svid_validate_sound_witness :
  let c := mkSvidClaims "spiffe://td/env/prod/region/eu/workload/app" "td" "env" "prod" ["https://qm"] 1900 in
  validate DemoSvid.demo_validator 1000 "svid" = Some (Ok c) ∧
  ∃ bk, bk ∈ trust_bundle_keys DemoSvid.demo_validator ∧
    verified (bk_decoding_key bk) [bk_algorithm bk] "svid".
Proof.
  intros c. assert (validate DemoSvid.demo_validator 1000 "svid" = Some (Ok c)) as H by by vm_compute.
  split; [exact H|].
  destruct (svid_validate_sound DemoSvid.demo_validator 1000 "svid" c H)
    as (h & bk & p & iss & _ & Hbk & _ & Hv & _).
  exists bk. split; [exact Hbk|exact Hv].
Defined.

(** The issuer is compared by a bare prefix and the subject not at all: an SVID of
    issuer [td.elsewhere.org] for a workload of [other.org] is accepted by the
    validator of [td], with the trust domain of its subject. *)
Lemma svid_foreign_domain_accepted :
  validate DemoSvid.demo_validator 1000 "other" =
  Some (Ok (mkSvidClaims "spiffe://other.org/admin" "other.org" "admin" "" ["https://qm"] 1900)).
Proof. by vm_compute. Qed.

(** The panic is reachable. *)
Lemma svid_far_expiry_panics : validate DemoSvid.demo_validator 1000 "far" = None.
Proof. by vm_compute. Qed.

(** The same SPIFFE ID has another environment and region as a JWT-SVID than as an
    X.509-SVID. *)
Lemma svid_mtls_disagree :
  ∃ c i, validate DemoSvid.demo_validator 1000 "svid" = Some (Ok c) ∧
    @Mtls.validate Mtls.DemoX509.toy_x509 (Mtls.mkMtlsValidator ["CA"] "td") 1000 "LEAF" = Some i ∧
    svid_spiffe_id c = spiffe_id i ∧
    (svid_environment c, svid_region c) = ("env", "prod") ∧ (environment i, region i) = ("prod", "eu").
Proof. eexists _, _. split; [by vm_compute|]. split; [by vm_compute|]. by vm_compute. Qed.

End Svid.
