(* ===== verification/Oidc.v ===== *)
(** * OIDC ID tokens ([src/src/domain/identity/oidc.rs])

    The validator of human identities over a key provider (the [JwksProvider]
    trait) and the JWT crate, which are parameters. *)

From S2P Require Import Prelude Identity PathPattern IdentityConfig Jwt.

Module Oidc.
Import Identity.
Import IdentityConfig.
Import Jwt.
Import Verify.
Local Open Scope Z_scope.

Record UnverifiedClaims : Type := mkUnverified { u_iss : option string }.

Record OidcTokenClaims : Type := mkOidcClaims {
  t_iss : option string;
  t_sub : option string;
  t_aud : OneOrMany;
  t_exp : option Z;
  t_email : option string;
  t_extra : gmap string json
}.

Definition de_unverified (p : payload) : option UnverifiedClaims :=
  iss ← optional "iss" de_string p; Some (mkUnverified iss).

(** [#\[serde(flatten)\]]: the members that are no field, the last of a name. *)
Definition named_fields : list string := ["iss"; "sub"; "aud"; "exp"; "email"].
Definition flatten_extra (p : payload) : gmap string json :=
  list_to_map (reverse (filter (λ m, m.1 ∉ named_fields) p)).

Definition de_oidc (p : payload) : option OidcTokenClaims :=
  iss ← optional "iss" de_string p;
  sub ← optional "sub" de_string p;
  aud ← defaulted "aud" de_one_or_many OneOrMany_default p;
  exp ← optional "exp" de_u64 p;
  email ← optional "email" de_string p;
  Some (mkOidcClaims iss sub aud exp email (flatten_extra p)).

(** [AudienceClaim::contains] *)
Definition aud_contains (a : OneOrMany) (target : string) : bool :=
  match a with
  | One s => bool_decide (s = target)
  | Many v => existsb (λ s, bool_decide (s = target)) v
  end.

Definition aud_text (a : OneOrMany) : string :=
  match a with One s => s | Many v => Str.join ", " v end.

Definition extract_claim_values (claims : gmap string json) (claim_name : string) : list string :=
  match claims !! claim_name with
  | Some (JArr arr) => omap json_as_str arr
  | Some (JStr s) => [s]
  | _ => []
  end.

(** The loop of step 9. *)
Fixpoint extract_claims (extra : gmap string json) (implicit : list ImplicitClaimConfig)
    (extracted : gmap string (list string)) : gmap string (list string) :=
  match implicit with
  | [] => extracted
  | i :: implicit' =>
      let values := extract_claim_values extra (claim i) in
      extract_claims extra implicit'
        (if bool_decide (values = []) then extracted else <[claim i := values]> extracted)
  end.

(** The algorithms of step 5. *)
Definition supported_algorithm (a : Algorithm) : option Algorithm :=
  match a with
  | RS256 | RS384 | RS512 | ES256 | ES384 | PS256 | PS384 | PS512 => Some a
  | _ => None
  end.

Section oidc.
Context `{JwtVerify}.

(** The [JwksProvider] trait. *)
Definition JwksProvider : Type := string → result IdentityError (list DecodingKey).

Record DefaultOidcValidator : Type := mkOidcValidator {
  configs : list OidcSourceConfig;
  jwks_provider : JwksProvider
}.

Definition find_source_by_issuer (v : DefaultOidcValidator) (iss : string) : option OidcSourceConfig :=
  snd <$> list_find (λ c, issuer c = iss) (configs v).

(** The keys in order, for the claims of a deserializer; [last_error] is that of
    the last key tried. *)
Fixpoint verify_loop {T} (de : payload → option T) (now : Z) (token : string) (validation : Validation)
    (last_error : option JwtError) (keys : list DecodingKey) : result IdentityError T :=
  match keys with
  | [] => Err (InvalidSignature (match last_error with
                                 | Some e => "no matching key found: " +:+ JwtError_fmt e
                                 | None => "no keys available"
                                 end))
  | key :: keys' =>
      match decode de now token key validation with
      | Ok data => Ok data
      | Err e => verify_loop de now token validation (Some e) keys'
      end
  end.

Definition try_verify_with_keys (now : Z) (token : string) (keys : list DecodingKey) (validation : Validation) :
    result IdentityError OidcTokenClaims := verify_loop de_oidc now token validation None keys.

Definition insecure_validation : Validation :=
  let v := Validation_default in mkValidation (algorithms v) (issuers v) false false false (required_spec_claims v).

Definition source_validation (algorithm : Algorithm) (iss : string) : Validation :=
  let v := Validation_new algorithm in
  mkValidation (algorithms v) (Some [iss]) false true (validate_signature v) (required_spec_claims v).

Definition validate (v : DefaultOidcValidator) (now : Z) (token : string) : result IdentityError OidcIdentity :=
  header ← map_err (λ e, InvalidSignature ("failed to decode JWT header: " +:+ e)) (decode_header token);
  unverified ← map_err (λ e, InvalidSignature ("failed to decode token claims: " +:+ JwtError_fmt e))
                 (decode de_unverified now token (from_secret "") insecure_validation);
  iss ← ok_or (MissingClaim "iss") (u_iss unverified);
  source ← ok_or (IssuerNotFound iss) (find_source_by_issuer v iss);
  keys ← jwks_provider v (prefix source);
  _ ← fail_if (bool_decide (length keys = 0%nat)) (KeysStale (prefix source));
  algorithm ← ok_or (InvalidSignature ("unsupported algorithm: " +:+ Algorithm_debug (alg header)))
                (supported_algorithm (alg header));
  claims ← try_verify_with_keys now token keys (source_validation algorithm iss);
  _ ← fail_if (negb (existsb (aud_contains (t_aud claims)) (client_ids source)))
        (AudienceMismatch (aud_text (t_aud claims)));
  email ← ok_or (MissingClaim "email") (t_email claims);
  subject ← ok_or (MissingClaim "sub") (t_sub claims);
  Ok (mkOidc email (prefix source) (extract_claims (t_extra claims) (implicit_claims source) ∅) subject).

(* ------------------------------------------------------------------ *)
(** ** Properties *)

Lemma verify_loop_Ok {T} (de : payload → option T) now tok v le keys c :
  verify_loop de now tok v le keys = Ok c → ∃ key, key ∈ keys ∧ decode de now tok key v = Ok c.
Proof.
  revert le. induction keys as [|k keys IH]; intros le; cbn; [done|].
  destruct (decode de now tok k v) as [c'|] eqn:E.
  - intros [= <-]. exists k. split; [left|done].
  - intros (key & Hin & Hd)%IH. exists key. split; [by right|done].
Qed.

Lemma aud_contains_spec a t : aud_contains a t = true ↔ t ∈ into_vec a.
Proof.
  destruct a as [s|v]; cbn.
  - rewrite bool_decide_eq_true, list_elem_of_singleton. naive_solver.
  - rewrite existsb_exists. setoid_rewrite bool_decide_eq_true. setoid_rewrite <-list_elem_of_In. naive_solver.
Qed.

(** The configured claims that have values, and no others. *)
Lemma extract_claims_lookup extra implicit m k :
  extract_claims extra implicit m !! k =
  if bool_decide (k ∈ claim <$> implicit ∧ extract_claim_values extra k ≠ [])
  then Some (extract_claim_values extra k) else m !! k.
Proof.
  revert m. induction implicit as [|i l IH]; intros m; cbn [extract_claims fmap list_fmap].
  { rewrite bool_decide_eq_false_2; [done|]. by intros [?%not_elem_of_nil _]. }
  rewrite IH. change (list_fmap _ _ claim l) with (claim <$> l).
  destruct (decide (k = claim i)) as [->|Hne].
  - destruct (decide (extract_claim_values extra (claim i) = [])) as [He|He].
    + rewrite !(bool_decide_eq_false_2 (_ ∧ _)) by (by intros [_ ?]). by rewrite bool_decide_eq_true_2.
    + rewrite (bool_decide_eq_true_2 (_ ∈ _ :: _ ∧ _)) by (split; [left|done]).
      rewrite (bool_decide_eq_false_2 (_ = [])) by done.
      case_bool_decide; [done|]. by rewrite lookup_insert_eq.
  - assert ((k ∈ claim <$> l ∧ extract_claim_values extra k ≠ []) ↔
            (k ∈ claim i :: (claim <$> l) ∧ extract_claim_values extra k ≠ [])) as Hiff
      by (rewrite elem_of_cons; naive_solver).
    rewrite (bool_decide_ext _ _ Hiff).
    destruct (bool_decide (k ∈ claim i :: (claim <$> l) ∧ _)); [done|].
    destruct (bool_decide (_ = [])); [done|]. by rewrite lookup_insert_ne.
Qed.

Context `{!JwtVerifyLaws}.

(** The claims of a verified token, in terms of its payload. *)
Lemma decode_oidc_inv now tok key a iss c :
  decode de_oidc now tok key (source_validation a iss) = Ok c →
  ∃ p, payload_of tok = Some p ∧ verified key [a] tok ∧ (∃ e, member "exp" p = Some (JNum e) ∧ now ≤ e + 60) ∧
    (∀ s, t_sub c = Some s → member "sub" p = Some (JStr s)) ∧
    (∀ s, t_email c = Some s → member "email" p = Some (JStr s)) ∧
    (∀ x, x ∈ into_vec (t_aud c) → ∃ aud, member "aud" p = Some aud ∧ de_one_or_many aud = Some (t_aud c)) ∧
    t_extra c = flatten_extra p.
Proof.
  intros (p & Hp & Hde & Hv & Hs)%decode_sound. exists p. split; [done|]. split; [by apply Hs|].
  split; [eapply claims_valid_exp; [done|left|done]|]. clear Hv Hs. unfold de_oidc in Hde.
  apply bind_Some in Hde as (iss' & _ & Hde). apply bind_Some in Hde as (sub & Hsub & Hde).
  apply bind_Some in Hde as (aud & Haud & Hde). apply bind_Some in Hde as (ex & _ & Hde).
  apply bind_Some in Hde as (em & Hem & [= <-]). cbn. split_and!; [..|done].
  - intros s ->. by apply optional_string.
  - intros s ->. by apply optional_string.
  - intros x Hx. apply defaulted_Some in Haud as [->|?]; [by apply not_elem_of_nil in Hx|done].
Qed.

(** The issuer read before verification is that of the payload. *)
Lemma decode_unverified_inv now tok u iss p :
  decode de_unverified now tok (from_secret "") insecure_validation = Ok u → u_iss u = Some iss →
  payload_of tok = Some p → member "iss" p = Some (JStr iss).
Proof.
  intros (p' & Hp' & Hde & _)%decode_sound Hu Hp. rewrite Hp in Hp'. injection Hp' as <-.
  apply bind_Some in Hde as (i & Hi & [= <-]). cbn in Hu. subst i. by apply optional_string.
Qed.

(** The key of an accepted token was served for the source of its issuer. *)
Lemma validate_key v now tok i :
  validate v now tok = Ok i →
  ∃ source keys key a p, source ∈ configs v ∧ idp_prefix i = prefix source ∧ jwks_provider v (prefix source) = Ok keys ∧
    key ∈ keys ∧ verified key [a] tok ∧ payload_of tok = Some p ∧ member "iss" p = Some (JStr (issuer source)).
Proof.
  unfold validate. intros (h & _ & Hk)%bind_Ok. apply bind_Ok in Hk as (u & Hu%map_err_Ok & Hk).
  apply bind_Ok in Hk as (iss & Hiss%ok_or_Ok & Hk). apply bind_Ok in Hk as (source & Hsource%ok_or_Ok & Hk).
  apply bind_Ok in Hk as (keys & Hkeys & Hk). apply bind_Ok in Hk as ([] & _ & Hk).
  apply bind_Ok in Hk as (a & _ & Hk). apply bind_Ok in Hk as (c & (key & Hkey & Hc)%verify_loop_Ok & Hk).
  apply bind_Ok in Hk as ([] & _ & Hk). apply bind_Ok in Hk as (em & _ & Hk). apply bind_Ok in Hk as (su & _ & [= <-]).
  apply fmap_Some in Hsource as ([n src] & (Hn & Hsi & _)%list_find_Some & ->). cbn [snd] in *.
  apply decode_oidc_inv in Hc as (p & Hp & Hver & _). exists src, keys, key, a, p. split_and!; try done.
  - by eapply list_elem_of_lookup_2.
  - rewrite Hsi. by eapply decode_unverified_inv.
Qed.

(** C8: an accepted ID token names a configured issuer and is signed, with an
    asymmetric algorithm, by a key served for that source; it is not expired, its
    audience contains a client of the source, e-mail and subject are those of the
    payload, and the claims kept are exactly the configured ones with values. *)
Theorem oidc_validate_sound v now tok i :
  validate v now tok = Ok i →
  ∃ source keys key a p aud,
    source ∈ configs v ∧ jwks_provider v (prefix source) = Ok keys ∧ key ∈ keys ∧
    supported_algorithm a = Some a ∧ verified key [a] tok ∧ payload_of tok = Some p ∧
    member "iss" p = Some (JStr (issuer source)) ∧
    (∃ e, member "exp" p = Some (JNum e) ∧ now ≤ e + 60) ∧
    member "aud" p = Some aud ∧ (∃ cid l, cid ∈ client_ids source ∧
       into_vec <$> de_one_or_many aud = Some l ∧ cid ∈ l) ∧
    member "email" p = Some (JStr (oidc_email i)) ∧ member "sub" p = Some (JStr (oidc_subject i)) ∧
    idp_prefix i = prefix source ∧
    ∀ k vs, claims i !! k = Some vs ↔
      k ∈ claim <$> implicit_claims source ∧ vs ≠ [] ∧ vs = extract_claim_values (flatten_extra p) k.
Proof.
  unfold validate. intros (h & Hh%map_err_Ok & Hk)%bind_Ok.
  apply bind_Ok in Hk as (u & Hu%map_err_Ok & Hk). apply bind_Ok in Hk as (iss & Hiss%ok_or_Ok & Hk).
  apply bind_Ok in Hk as (source & Hsource%ok_or_Ok & Hk). apply bind_Ok in Hk as (keys & Hkeys & Hk).
  apply bind_Ok in Hk as ([] & _ & Hk). apply bind_Ok in Hk as (a & Ha%ok_or_Ok & Hk).
  apply bind_Ok in Hk as (c & (key & Hkey & Hc)%verify_loop_Ok & Hk).
  apply bind_Ok in Hk as ([] & Haud%fail_if_Ok%negb_false_iff & Hk).
  apply bind_Ok in Hk as (em & Hem%ok_or_Ok & Hk). apply bind_Ok in Hk as (su & Hsu%ok_or_Ok & [= <-]).
  unfold find_source_by_issuer in Hsource.
  apply fmap_Some in Hsource as ([n src] & (Hn & Hsi & _)%list_find_Some & ->). cbn [snd] in *.
  apply decode_oidc_inv in Hc as (p & Hp & Hver & He & Hcs & Hce & Hca & Hx).
  apply existsb_exists in Haud as (cid & Hcid%list_elem_of_In & Hin%aud_contains_spec).
  destruct (Hca _ Hin) as (aud & Ham & Had).
  exists src, keys, key, a, p, aud. split_and!; try done; [..|].
  - by eapply list_elem_of_lookup_2.
  - by destruct (alg h); cbn in Ha |- *; try discriminate Ha; injection Ha as <-.
  - rewrite Hsi. by eapply decode_unverified_inv.
  - exists cid, (into_vec (t_aud c)). by rewrite Had.
  - by apply Hce.
  - by apply Hcs.
  - intros k vs. cbn. rewrite extract_claims_lookup, lookup_empty, Hx. case_bool_decide; naive_solver.
Qed.
End oidc.

(** The named fields are taken out of the extra claims, so an implicit claim
    configured for one of them never has a value. *)
Lemma named_claim_never_extracted p k : k ∈ named_fields → extract_claim_values (flatten_extra p) k = [].
Proof.
  intros Hk. unfold extract_claim_values, flatten_extra. rewrite (not_elem_of_list_to_map_1 (M := gmap string)); [done|].
  rewrite list_elem_of_fmap. intros ([k' v] & -> & Hin). apply elem_of_reverse, list_elem_of_filter in Hin.
  by destruct Hin as [Hn _].
Qed.

(* ------------------------------------------------------------------ *)
(** ** One identity provider and one token *)

Module DemoOidc.

Definition demo_payload : payload :=
  [("iss", JStr "https://okta"); ("sub", JStr "u1"); ("aud", JStr "client"); ("exp", JNum 1900);
   ("email", JStr "ann@corp"); ("groups", JArr [JStr "eng"; JNum 3; JStr "ops"]); ("team", JNull)].

#[export] Instance demo_verify : JwtVerify :=
  ToyVerify.toy_verify [("idt", ToyVerify.mkToyToken (mkHeader RS256 None) demo_payload "NE")].
#[export] Instance demo_verify_laws : JwtVerifyLaws := ToyVerify.toy_verify_laws _.

Definition demo_source : OidcSourceConfig :=
  mkOidcSource "okta" "https://okta" ["other"; "client"] 300 3600
    [mkImplicitClaim "groups" "grp" true; mkImplicitClaim "team" "team" true; mkImplicitClaim "email" "mail" true].

Definition demo_keys : list (@DecodingKey demo_verify) := ["AA"; "NE"].
Definition demo_validator : DefaultOidcValidator := mkOidcValidator [demo_source] (λ _, Ok demo_keys).

Definition ann : OidcIdentity := mkOidc "ann@corp" "okta" {["groups" := ["eng"; "ops"]]} "u1".

End DemoOidc.

#[local] Existing Instance DemoOidc.demo_verify.
#[local] Existing Instance DemoOidc.demo_verify_laws.

Lemma oidc_validate_sound_witness :
  validate DemoOidc.demo_validator 1000 "idt" = Ok DemoOidc.ann ∧
  ∃ key a, key ∈ DemoOidc.demo_keys ∧ verified key [a] "idt".
Proof.
  assert (validate DemoOidc.demo_validator 1000 "idt" = Ok DemoOidc.ann) as H by by vm_compute.
  split; [exact H|].
  destruct (oidc_validate_sound DemoOidc.demo_validator 1000 "idt" DemoOidc.ann H)
    as (source & keys & key & a & p & aud & _ & Hkeys & Hkey & _ & Hv & _).
  injection Hkeys as <-. exists key, a. split; [exact Hkey|exact Hv].
Defined.

(** An expired token and a token for another client are refused. *)
Lemma demo_refused :
  validate DemoOidc.demo_validator 1961 "idt" = Err (InvalidSignature "no matching key found: ExpiredSignature") ∧
  validate (mkOidcValidator [mkOidcSource "okta" "https://okta" ["other"] 300 3600 []] (λ _, Ok DemoOidc.demo_keys))
    1000 "idt" = Err (AudienceMismatch "client").
Proof. split; by vm_compute. Qed.

End Oidc.
