(* ===== verification/Gcp.v ===== *)
(** * GCP identity tokens ([src/src/domain/identity/gcp.rs])

    The validator of Google service accounts over a key provider and the JWT crate,
    which are parameters. *)

From S2P Require Import Prelude Identity PathPattern IdentityConfig Jwt Oidc.

Module Gcp.
Import Identity.
Import IdentityConfig.
Import Jwt.
Import Verify.
Local Open Scope Z_scope.

Definition GOOGLE_SOURCE_ID : string := "google".

Record ComputeEngineClaims : Type := mkComputeEngine {
  ce_project_id : option string;
  ce_zone : option string;
  ce_instance_id : option string;
  ce_instance_name : option string
}.

Record GoogleClaims : Type := mkGoogle { compute_engine : option ComputeEngineClaims }.

Record GcpTokenClaims : Type := mkGcpClaims {
  g_iss : option string;
  g_sub : option string;
  g_aud : OneOrMany;
  g_exp : option Z;
  g_email : option string;
  google : option GoogleClaims
}.

(** The derived deserializers. *)
Definition de_compute_engine (v : json) : option ComputeEngineClaims :=
  p ← struct_fields 4 ["project_id"; "zone"; "instance_id"; "instance_name"] v;
  project_id ← optional "project_id" de_string p;
  zone ← optional "zone" de_string p;
  instance_id ← optional "instance_id" de_string p;
  instance_name ← optional "instance_name" de_string p;
  Some (mkComputeEngine project_id zone instance_id instance_name).

Definition de_google (v : json) : option GoogleClaims :=
  p ← struct_fields 1 ["compute_engine"] v;
  ce ← optional "compute_engine" de_compute_engine p;
  Some (mkGoogle ce).

Definition de_gcp (p : payload) : option GcpTokenClaims :=
  iss ← optional "iss" de_string p;
  sub ← optional "sub" de_string p;
  aud ← defaulted "aud" de_one_or_many OneOrMany_default p;
  exp ← optional "exp" de_u64 p;
  email ← optional "email" de_string p;
  google ← optional "google" de_google p;
  Some (mkGcpClaims iss sub aud exp email google).

Definition gcp_algorithm (a : Algorithm) : option Algorithm :=
  match a with
  | RS256 | RS384 | RS512 | ES256 | ES384 => Some a
  | _ => None
  end.

(** [AudienceClaim::contains] and [to_string_repr] *)
Definition gcp_aud_contains (a : OneOrMany) (target : string) : bool :=
  match a with
  | One s => bool_decide (s = target)
  | Many v => existsb (λ s, bool_decide (s = target)) v
  end.

Definition to_string_repr (a : OneOrMany) : string :=
  match a with One s => s | Many v => Str.join ", " v end.

Definition google_issuer : string := "https://accounts.google.com".

Section gcp.
Context `{JwtVerify}.

Record DefaultGcpValidator : Type := mkGcpValidator {
  gcp_config : GcpSourceConfig;
  gcp_jwks_provider : Oidc.JwksProvider
}.

Definition gcp_try_verify_with_keys (now : Z) (token : string) (keys : list DecodingKey)
    (validation : Validation) : result IdentityError GcpTokenClaims :=
  Oidc.verify_loop de_gcp now token validation None keys.

Definition gcp_validation (algorithm : Algorithm) : Validation :=
  let v := Validation_new algorithm in
  mkValidation (algorithms v) (Some [google_issuer]) false true (validate_signature v) (required_spec_claims v).

Definition validate (v : DefaultGcpValidator) (now : Z) (token : string) : result IdentityError GcpIdentity :=
  header ← map_err (λ e, InvalidSignature ("failed to decode JWT header: " +:+ e)) (decode_header token);
  algorithm ← ok_or (InvalidSignature ("unsupported algorithm: " +:+ Algorithm_debug (alg header)))
                (gcp_algorithm (alg header));
  keys ← gcp_jwks_provider v GOOGLE_SOURCE_ID;
  _ ← fail_if (bool_decide (length keys = 0%nat)) (KeysStale GOOGLE_SOURCE_ID);
  claims ← gcp_try_verify_with_keys now token keys (gcp_validation algorithm);
  _ ← fail_if (negb (gcp_aud_contains (g_aud claims) (gcp_audience (gcp_config v))))
        (AudienceMismatch (to_string_repr (g_aud claims)));
  unique_id ← ok_or (MissingClaim "sub") (g_sub claims);
  email ← ok_or (MissingClaim "email") (g_email claims);
  let ce := google claims ≫= compute_engine in
  project_id ← ok_or (MissingClaim "google.compute_engine.project_id") (ce ≫= ce_project_id);
  zone ← ok_or (MissingClaim "google.compute_engine.zone") (ce ≫= ce_zone);
  _ ← match allowed_projects (gcp_config v) with
      | Some allowed =>
          fail_if (negb (bool_decide (project_id ∈ allowed)))
            (NotAllowed ("GCP project '" +:+ project_id +:+ "' is not in the allowed projects list"))
      | None => Ok tt
      end;
  Ok (mkGcp project_id email zone unique_id).

(* ------------------------------------------------------------------ *)
(** ** Properties *)

Lemma gcp_aud_contains_spec a t : gcp_aud_contains a t = true ↔ t ∈ into_vec a.
Proof. exact (Oidc.aud_contains_spec a t). Qed.

(** The compute-engine claims of a payload. *)
Definition compute_engine_of (p : payload) : option ComputeEngineClaims :=
  g ← member "google" p; g ← de_google g; compute_engine g.

Context `{!JwtVerifyLaws}.

(** The claims of a verified token, in terms of its payload. *)
Lemma decode_gcp_inv now tok key a c :
  decode de_gcp now tok key (gcp_validation a) = Ok c →
  ∃ p, payload_of tok = Some p ∧ verified key [a] tok ∧ (∃ e, member "exp" p = Some (JNum e) ∧ now ≤ e + 60) ∧
    (∀ i, member "iss" p = Some (JStr i) → i = google_issuer) ∧
    (∀ s, g_sub c = Some s → member "sub" p = Some (JStr s)) ∧
    (∀ s, g_email c = Some s → member "email" p = Some (JStr s)) ∧
    (∀ x, x ∈ into_vec (g_aud c) → ∃ aud, member "aud" p = Some aud ∧ de_one_or_many aud = Some (g_aud c)) ∧
    (∀ ce, google c ≫= compute_engine = Some ce → compute_engine_of p = Some ce).
Proof.
  intros (p & Hp & Hde & Hv & Hs)%decode_sound. exists p. split; [done|]. split; [by apply Hs|].
  split; [eapply claims_valid_exp; [done|left|done]|].
  split; [intros i Hi; by apply (claims_valid_iss _ _ _ _ _ Hv eq_refl), list_elem_of_singleton in Hi|].
  clear Hv Hs. unfold de_gcp in Hde.
  apply bind_Some in Hde as (iss' & _ & Hde). apply bind_Some in Hde as (sub & Hsub & Hde).
  apply bind_Some in Hde as (aud & Haud & Hde). apply bind_Some in Hde as (ex & _ & Hde).
  apply bind_Some in Hde as (em & Hem & Hde). apply bind_Some in Hde as (g & Hg & [= <-]). cbn. split_and!.
  - intros s ->. by apply optional_string.
  - intros s ->. by apply optional_string.
  - intros x Hx. apply defaulted_Some in Haud as [->|?]; [by apply not_elem_of_nil in Hx|done].
  - intros ce (g' & -> & Hce)%bind_Some. apply optional_Some in Hg as (j & Hj & Hd).
    unfold compute_engine_of. rewrite Hj. cbn. by rewrite Hd.
Qed.

(** The key of an accepted token was served for Google. *)
Lemma gcp_validate_key v now tok i :
  validate v now tok = Ok i →
  ∃ keys key a, gcp_jwks_provider v GOOGLE_SOURCE_ID = Ok keys ∧ key ∈ keys ∧ verified key [a] tok.
Proof.
  unfold validate. intros (h & _ & Hk)%bind_Ok. apply bind_Ok in Hk as (a & _ & Hk).
  apply bind_Ok in Hk as (keys & Hkeys & Hk). apply bind_Ok in Hk as ([] & _ & Hk).
  apply bind_Ok in Hk as (c & (key & Hkey & Hc)%Oidc.verify_loop_Ok & _).
  apply decode_gcp_inv in Hc as (p & _ & Hver & _). by exists keys, key, a.
Qed.

(** C12: an accepted Google token is signed by a key served for Google, with an
    asymmetric algorithm, and not expired; it is addressed to this service, its
    issuer (if any) is Google's, the identity's fields are those of the payload and
    its project is an allowed one. *)
Theorem gcp_validate_sound v now tok i :
  validate v now tok = Ok i →
  ∃ keys key a p aud l,
    gcp_jwks_provider v GOOGLE_SOURCE_ID = Ok keys ∧ key ∈ keys ∧ gcp_algorithm a = Some a ∧
    verified key [a] tok ∧ payload_of tok = Some p ∧
    (∀ iss, member "iss" p = Some (JStr iss) → iss = google_issuer) ∧
    (∃ e, member "exp" p = Some (JNum e) ∧ now ≤ e + 60) ∧
    member "aud" p = Some aud ∧ into_vec <$> de_one_or_many aud = Some l ∧ gcp_audience (gcp_config v) ∈ l ∧
    member "sub" p = Some (JStr (unique_id i)) ∧ member "email" p = Some (JStr (gcp_email i)) ∧
    (∃ ce, compute_engine_of p = Some ce ∧ ce_project_id ce = Some (project_id i) ∧ ce_zone ce = Some (zone i)) ∧
    ∀ allowed, allowed_projects (gcp_config v) = Some allowed → project_id i ∈ allowed.
Proof.
  unfold validate. intros (h & Hh%map_err_Ok & Hk)%bind_Ok. apply bind_Ok in Hk as (a & Ha%ok_or_Ok & Hk).
  apply bind_Ok in Hk as (keys & Hkeys & Hk). apply bind_Ok in Hk as ([] & _ & Hk).
  apply bind_Ok in Hk as (c & (key & Hkey & Hc)%Oidc.verify_loop_Ok & Hk).
  apply bind_Ok in Hk as ([] & Haud%fail_if_Ok%negb_false_iff%gcp_aud_contains_spec & Hk).
  apply bind_Ok in Hk as (su & Hsu%ok_or_Ok & Hk). apply bind_Ok in Hk as (em & Hem%ok_or_Ok & Hk).
  apply bind_Ok in Hk as (pr & (ce & Hce & Hpr)%ok_or_Ok%bind_Some & Hk).
  apply bind_Ok in Hk as (zo & (ce' & Hce' & Hzo)%ok_or_Ok%bind_Some & Hk).
  apply bind_Ok in Hk as ([] & Hall & [= <-]). rewrite Hce in Hce'. injection Hce' as <-.
  apply decode_gcp_inv in Hc as (p & Hp & Hver & He & Hi & Hcs & Hcem & Hca & Hcce).
  destruct (Hca _ Haud) as (aud & Ham & Had).
  exists keys, key, a, p, aud, (into_vec (g_aud c)). cbn. split_and!; try done.
  - by destruct (alg h); cbn in Ha |- *; try discriminate Ha; injection Ha as <-.
  - by rewrite Had.
  - by apply Hcs.
  - by apply Hcem.
  - exists ce. split; [by apply Hcce|done].
  - intros l Hl. rewrite Hl in Hall. by apply fail_if_Ok, negb_false_iff, bool_decide_eq_true in Hall.
Qed.
End gcp.

(* ------------------------------------------------------------------ *)
(** ** Two tokens of Google *)

Module DemoGcp.

Definition instance : json :=
  JObj [("compute_engine", JObj [("project_id", JStr "prj"); ("zone", JStr "eu-1"); ("instance_id", JStr "7")])].

Definition demo_payload : payload :=
  [("iss", JStr google_issuer); ("sub", JStr "42"); ("aud", JStr "qm"); ("exp", JNum 1900);
   ("email", JStr "sa@prj"); ("google", instance)].

(** [bare] has no issuer. *)
#[export] Instance demo_verify : JwtVerify :=
  ToyVerify.toy_verify [("idt", ToyVerify.mkToyToken (mkHeader RS256 None) demo_payload "NE");
                        ("bare", ToyVerify.mkToyToken (mkHeader RS256 None) (tail demo_payload) "NE")].
#[export] Instance demo_verify_laws : JwtVerifyLaws := ToyVerify.toy_verify_laws _.

Definition demo_keys : list (@DecodingKey demo_verify) := ["NE"].
Definition demo_validator : DefaultGcpValidator :=
  mkGcpValidator (mkGcpSource true "qm" (Some ["prj"]) 300 3600) (λ _, Ok demo_keys).

Definition account : GcpIdentity := mkGcp "prj" "sa@prj" "eu-1" "42".

End DemoGcp.

#[local] Existing Instance DemoGcp.demo_verify.
#[local] Existing Instance DemoGcp.demo_verify_laws.

Lemma gcp_validate_sound_witness :
  validate DemoGcp.demo_validator 1000 "idt" = Ok DemoGcp.account ∧
  ∃ key a, key ∈ DemoGcp.demo_keys ∧ verified key [a] "idt".
Proof.
  assert (validate DemoGcp.demo_validator 1000 "idt" = Ok DemoGcp.account) as H by by vm_compute.
  split; [exact H|].
  destruct (gcp_validate_sound DemoGcp.demo_validator 1000 "idt" DemoGcp.account H)
    as (keys & key & a & p & aud & l & Hkeys & Hkey & _ & Hv & _).
  injection Hkeys as <-. exists key, a. split; [exact Hkey|exact Hv].
Defined.

(** The issuer is compared only when the token has one. *)
Lemma gcp_missing_issuer_accepted : validate DemoGcp.demo_validator 1000 "bare" = Ok DemoGcp.account.
Proof. by vm_compute. Qed.

End Gcp.
