(* ===== verification/Jwks.v ===== *)
(** * The key sets of the JWT sources ([src/src/domain/identity/jwks.rs])

    Fetching and refreshing the keys of each source and serving them while they are
    fresh.  The HTTP client and the JWT crate are parameters; times and durations
    have the unit of the configuration.

    A refresh writes the keys and its time under two locks, and [get_keys] reads
    them under two locks: the transition system at the end interleaves them. *)

From S2P Require Import Prelude Http Identity PathPattern IdentityConfig Jwt.

Module Jwks.
Import Http.
Import Identity.
Import Verify.
Local Open Scope Z_scope.

Definition GOOGLE_JWKS_URL : string := "https://www.googleapis.com/oauth2/v3/certs".

Record OidcDiscoveryDocument : Type := mkDiscovery { jwks_uri : string }.

Record JwkKey : Type := mkJwk {
  kty : string;
  jwk_kid : option string;
  jwk_alg : option string;
  key_use : option string;
  n : option string;
  e : option string;
  crv : option string;
  x : option string;
  y : option string
}.

Record JwksDocument : Type := mkJwksDoc { doc_keys : list JwkKey }.

(** The derived deserializers. *)
Definition de_discovery (v : json) : option OidcDiscoveryDocument :=
  p ← struct_fields 1 ["jwks_uri"] v;
  uri ← required "jwks_uri" de_string p;
  Some (mkDiscovery uri).

Definition de_jwk (v : json) : option JwkKey :=
  p ← struct_fields 1 ["kty"; "kid"; "alg"; "use"; "n"; "e"; "crv"; "x"; "y"] v;
  kty ← required "kty" de_string p;
  kid ← optional "kid" de_string p;
  alg ← optional "alg" de_string p;
  key_use ← optional "use" de_string p;
  n ← optional "n" de_string p;
  e ← optional "e" de_string p;
  crv ← optional "crv" de_string p;
  x ← optional "x" de_string p;
  y ← optional "y" de_string p;
  Some (mkJwk kty kid alg key_use n e crv x y).

Definition de_jwks (v : json) : option JwksDocument :=
  p ← struct_fields 1 ["keys"] v;
  l ← required "keys" json_as_array p;
  keys ← mapM de_jwk l;
  Some (mkJwksDoc keys).

(** [s.trim_end_matches(c)] *)
Fixpoint trim_end_matches (c : ascii) (s : string) : string :=
  match s with
  | "" => ""
  | String a s' =>
      match trim_end_matches c s' with
      | "" => if bool_decide (a = c) then "" else String a ""
      | t => String a t
      end
  end.

Definition well_known : string := "/.well-known/openid-configuration".

Section jwks.
Context `{JwtVerify}.

Record JwksSource : Type := mkJwksSource {
  keys : list DecodingKey;
  jwks_url : string;
  refresh_interval : Z;
  max_staleness : Z;
  last_refresh : option Z
}.

(** [JwksManager]: the sources by identifier. *)
Abbreviation JwksManager := (gmap string JwksSource).

Definition new_source (url : string) (refresh staleness : Z) : JwksSource :=
  mkJwksSource [] url refresh staleness None.

Definition add_oidc (sources : JwksManager) (oidc : IdentityConfig.OidcSourceConfig) : JwksManager :=
  <[IdentityConfig.prefix oidc :=
      new_source (trim_end_matches "/" (IdentityConfig.issuer oidc) +:+ well_known)
        (IdentityConfig.jwks_refresh_interval oidc) (IdentityConfig.max_staleness oidc)]> sources.

Definition from_config (config : IdentityConfig.IdentityConfig) : JwksManager :=
  let sources := foldl add_oidc ∅ (IdentityConfig.oidc config) in
  match IdentityConfig.gcp config with
  | Some gcp =>
      if IdentityConfig.gcp_enabled gcp then
        <["google" := new_source GOOGLE_JWKS_URL (IdentityConfig.gcp_jwks_refresh_interval gcp)
                        (IdentityConfig.gcp_max_staleness gcp)]> sources
      else sources
  | None => sources
  end.

(** One key of the document; [None]: it is skipped. *)
Definition jwk_decoding_key (jwk : JwkKey) : option DecodingKey :=
  if match key_use jwk with Some use => bool_decide (use ≠ "sig") | None => false end then None
  else if bool_decide (kty jwk = "RSA") then
    match n jwk, e jwk with
    | Some n, Some e => match from_rsa_components n e with Ok key => Some key | Err _ => None end
    | _, _ => None
    end
  else if bool_decide (kty jwk = "EC") then
    match x jwk, y jwk, crv jwk with
    | Some x, Some y, Some _ => match from_ec_components x y with Ok key => Some key | Err _ => None end
    | _, _, _ => None
    end
  else None.

Section fetch.
Context `{HttpClient}.

Definition actual_jwks_url (source_id jwks_url : string) : result string string :=
  if Str.contains well_known jwks_url then
    response ← map_err (λ e, "failed to fetch OIDC discovery for " +:+ source_id +:+ ": " +:+ e) (http_get jwks_url);
    _ ← fail_if (negb (is_success response))
          ("OIDC discovery returned " +:+ resp_status_text response +:+ " for " +:+ source_id);
    discovery ← map_err (λ e, "failed to parse OIDC discovery for " +:+ source_id +:+ ": " +:+ e)
                  (resp_json de_discovery response);
    Ok (jwks_uri discovery)
  else Ok jwks_url.

Definition fetch_keys (source_id jwks_url : string) : result string (list DecodingKey) :=
  url ← actual_jwks_url source_id jwks_url;
  response ← map_err (λ e, "failed to fetch JWKS for " +:+ source_id +:+ ": " +:+ e) (http_get url);
  _ ← fail_if (negb (is_success response))
        ("JWKS endpoint returned " +:+ resp_status_text response +:+ " for " +:+ source_id);
  jwks ← map_err (λ e, "failed to parse JWKS for " +:+ source_id +:+ ": " +:+ e) (resp_json de_jwks response);
  Ok (omap jwk_decoding_key (doc_keys jwks)).

End fetch.

(** The two writes of a successful refresh. *)
Definition set_keys (new_keys : list DecodingKey) (s : JwksSource) : JwksSource :=
  mkJwksSource new_keys (jwks_url s) (refresh_interval s) (max_staleness s) (last_refresh s).
Definition set_last_refresh (now : Z) (s : JwksSource) : JwksSource :=
  mkJwksSource (keys s) (jwks_url s) (refresh_interval s) (max_staleness s) (Some now).

(** [refresh_source], run without interruption. *)
Definition refresh_source `{HttpClient} (source_id : string) (now : Z) (m : JwksManager) : JwksManager :=
  match m !! source_id with
  | None => m
  | Some s =>
      match fetch_keys source_id (jwks_url s) with
      | Ok new_keys => alter (set_last_refresh now) source_id (alter (set_keys new_keys) source_id m)
      | Err _ => m
      end
  end.

Definition is_stale (m : JwksManager) (now : Z) (source_id : string) : bool :=
  match m !! source_id with
  | Some source => match last_refresh source with
                   | Some last => max_staleness source <? now - last
                   | None => true
                   end
  | None => true
  end.

(** The first half of [get_keys], under the lock of the refresh time... *)
Definition check_fresh (m : JwksManager) (now : Z) (source_id : string) : result IdentityError unit :=
  source ← ok_or (KeysStale ("unknown source: " +:+ source_id)) (m !! source_id);
  match last_refresh source with
  | Some last => fail_if (max_staleness source <? now - last) (KeysStale source_id)
  | None => Err (KeysStale source_id)
  end.

(** ... and the second, under the lock of the keys. *)
Definition read_keys (m : JwksManager) (source_id : string) : list DecodingKey :=
  match m !! source_id with Some source => keys source | None => [] end.

Definition get_keys (m : JwksManager) (now : Z) (source_id : string) : result IdentityError (list DecodingKey) :=
  _ ← check_fresh m now source_id; Ok (read_keys m source_id).

(* ------------------------------------------------------------------ *)
(** ** Properties *)

(** What happens at the locks: a fetch that gave keys, and the end of its refresh.
    A failed fetch changes nothing. *)
Inductive event : Type :=
| Fetched (source_id : string) (new_keys : list DecodingKey)
| Refreshed (source_id : string) (now : Z).

(** The manager and the sources whose refresh is between its two writes: there is
    one refresh task per source.  The network may answer differently each time. *)
Definition state : Type := JwksManager * gset string.

Inductive step : state → event → state → Prop :=
| step_fetched (client : HttpClient) m pending id s new_keys :
    m !! id = Some s → id ∉ pending → fetch_keys id (jwks_url s) = Ok new_keys →
    step (m, pending) (Fetched id new_keys) (alter (set_keys new_keys) id m, {[id]} ∪ pending)
| step_refreshed m pending id now :
    id ∈ pending → step (m, pending) (Refreshed id now) (alter (set_last_refresh now) id m, pending ∖ {[id]}).

Inductive steps (m0 : JwksManager) : list event → state → Prop :=
| steps_nil : steps m0 [] (m0, ∅)
| steps_snoc tr st ev st' : steps m0 tr st → step st ev st' → steps m0 (tr ++ [ev]) st'.

(** A refresh without interruption is the two steps. *)
Lemma refresh_source_steps `{HttpClient} m0 tr m pending id now s new_keys :
  steps m0 tr (m, pending) → m !! id = Some s → id ∉ pending → fetch_keys id (jwks_url s) = Ok new_keys →
  steps m0 (tr ++ [Fetched id new_keys; Refreshed id now]) (refresh_source id now m, pending).
Proof.
  intros Hst Hm Hp Hf. change [Fetched id new_keys; Refreshed id now] with ([Fetched id new_keys] ++ [Refreshed id now]).
  rewrite app_assoc. eapply steps_snoc.
  - eapply steps_snoc; [done|]. by eapply step_fetched.
  - unfold refresh_source. rewrite Hm, Hf.
    replace pending with (({[id]} ∪ pending) ∖ {[id]}) at 2 by set_solver. apply step_refreshed. set_solver.
Qed.

(** The last fetch of a source in a trace gave these keys. *)
Definition newest (tr : list event) (id : string) (ks : list DecodingKey) : Prop :=
  ∃ a b, tr = a ++ Fetched id ks :: b ∧ ∀ ks', Fetched id ks' ∉ b.

(** A refresh of the source ended at that time, after its fetch. *)
Definition completed (tr : list event) (id : string) (t : Z) : Prop :=
  ∃ c ks d post, tr = c ++ Fetched id ks :: d ++ Refreshed id t :: post.

(** The state of a source [s] that started as [s0], after a trace. *)
Record source_ok (tr : list event) (id : string) (s0 s : JwksSource) : Prop := {
  ok_url : jwks_url s = jwks_url s0;
  ok_staleness : max_staleness s = max_staleness s0;
  ok_keys : ∀ ks, Fetched id ks ∈ tr → newest tr id (keys s);
  ok_refresh : ∀ t, last_refresh s = Some t → last_refresh s0 = Some t ∨ completed tr id t
}.

Record inv (m0 : JwksManager) (tr : list event) (st : state) : Prop := {
  inv_source : ∀ id s, st.1 !! id = Some s → ∃ s0, m0 !! id = Some s0 ∧ source_ok tr id s0 s;
  inv_dom : ∀ id, is_Some (m0 !! id) → is_Some (st.1 !! id);
  inv_pending : ∀ id, id ∈ st.2 → ∃ ks, Fetched id ks ∈ tr;
  inv_fetched : ∀ id ks, Fetched id ks ∈ tr → ∃ (client : HttpClient) s0,
    m0 !! id = Some s0 ∧ fetch_keys id (jwks_url s0) = Ok ks
}.

Lemma newest_snoc tr id ks : newest (tr ++ [Fetched id ks]) id ks.
Proof. exists tr, []. split; [done|]. intros ?. apply not_elem_of_nil. Qed.

Lemma completed_app tr l id t : completed tr id t → completed (tr ++ l) id t.
Proof.
  intros (c & ks & d & post & ->). exists c, ks, d, (post ++ l).
  rewrite <-app_assoc. cbn. by rewrite <-app_assoc.
Qed.

Lemma completed_snoc tr id ks t : Fetched id ks ∈ tr → completed (tr ++ [Refreshed id t]) id t.
Proof.
  intros (c & d & ->)%list_elem_of_split. exists c, ks, d, []. by rewrite <-app_assoc.
Qed.

Lemma source_ok_other tr ev id s0 s :
  (∀ ks, ev ≠ Fetched id ks) → source_ok tr id s0 s → source_ok (tr ++ [ev]) id s0 s.
Proof.
  intros Hev [Hu Hx Hk Hr]. split; try done.
  - intros ks. rewrite elem_of_app, list_elem_of_singleton. intros [Hin|Heq]; [|by destruct (Hev ks)].
    destruct (Hk ks Hin) as (a & b & -> & Hb). exists a, (b ++ [ev]). split; [by rewrite <-app_assoc|].
    intros ks'. rewrite elem_of_app, list_elem_of_singleton. intros [?|?]; [by eapply Hb|by eapply Hev].
  - intros t [?|?]%Hr; [by left|right; by apply completed_app].
Qed.

Lemma inv_fetched_snoc m0 tr ev st st' :
  inv m0 tr st → step st ev st' →
  ∀ id ks, Fetched id ks ∈ tr ++ [ev] → ∃ (client : HttpClient) s0,
    m0 !! id = Some s0 ∧ fetch_keys id (jwks_url s0) = Ok ks.
Proof.
  intros [IHs IHd IHp IHf] Hstep id ks. rewrite elem_of_app, list_elem_of_singleton. intros [Hin|<-]; [by apply IHf|].
  inversion Hstep as [client m pending id' s ks' Hm Hp Hf|]; subst. cbn in *.
  destruct (IHs _ _ Hm) as (s0 & H0 & Hok). exists client, s0. split; [done|]. by rewrite <-(ok_url _ _ _ _ Hok).
Qed.

Lemma jwks_step_inv m0 tr ev st st' : inv m0 tr st → step st ev st' → inv m0 (tr ++ [ev]) st'.
Proof.
  intros Hinv Hstep. pose proof (inv_fetched_snoc _ _ _ _ _ Hinv Hstep) as Hfs.
  destruct Hinv as [IHs IHd IHp IHf]. split; [| | |done]; clear Hfs;
    destruct Hstep as [client m pending id s ks Hm Hp Hf|m pending id now Hp]; cbn [fst snd] in *; intros id'.
  - intros s'. destruct (decide (id = id')) as [<-|Hne].
    + rewrite lookup_alter_eq, Hm. intros [= <-]. destruct (IHs id s Hm) as (s0 & H0 & [Hu Hx Hk Hr]).
      exists s0. split; [done|]. split; try done; [intros; apply newest_snoc|].
      intros t [?|?]%Hr; [by left|right; by apply completed_app].
    + rewrite lookup_alter_ne by done. intros (s0 & H0 & Hok)%IHs. exists s0. split; [done|].
      apply source_ok_other; [naive_solver|done].
  - intros s'. destruct (decide (id = id')) as [<-|Hne].
    + rewrite lookup_alter_eq. intros (s & Hm & ->)%fmap_Some. destruct (IHs id s Hm) as (s0 & H0 & Hok).
      exists s0. split; [done|]. apply (source_ok_other _ (Refreshed id now)) in Hok; [|done].
      destruct Hok as [Hu Hx Hk _], (IHp id Hp) as [ks Hks]. split; try done.
      intros t [= <-]. right. by eapply completed_snoc.
    + rewrite lookup_alter_ne by done. intros (s0 & H0 & Hok)%IHs. exists s0. split; [done|].
      by apply source_ok_other.
  - intros ?%IHd. by apply lookup_alter_is_Some.
  - intros ?%IHd. by apply lookup_alter_is_Some.
  - intros [->%elem_of_singleton|[ks' Hin]%IHp]%elem_of_union; [exists ks|exists ks']; set_solver.
  - intros [[ks' Hin]%IHp _]%elem_of_difference. exists ks'. set_solver.
Qed.

Lemma steps_inv m0 tr st : steps m0 tr st → inv m0 tr st.
Proof.
  induction 1 as [|tr st ev st' _ IH Hstep]; [|by eapply jwks_step_inv].
  split; cbn; [|done|set_solver|by intros ?? ?%not_elem_of_nil].
  intros id s Hs. exists s. split; [done|]. split; auto. by intros ? ?%not_elem_of_nil.
Qed.

(** New sources have never been refreshed. *)
Lemma from_config_new config id s : from_config config !! id = Some s → last_refresh s = None ∧ keys s = [].
Proof.
  assert (∀ l (m : JwksManager), (∀ id s, m !! id = Some s → last_refresh s = None ∧ keys s = []) →
            ∀ id s, foldl add_oidc m l !! id = Some s → last_refresh s = None ∧ keys s = []) as Hfold.
  { induction l as [|o l IH]; intros m Hm; [done|]. cbn. apply IH. intros id' s'. unfold add_oidc.
    intros [[_ <-]|[_ ?]]%lookup_insert_Some; [done|by eapply Hm]. }
  unfold from_config. destruct (IdentityConfig.gcp config) as [g|]; [destruct (IdentityConfig.gcp_enabled g)|];
    [intros [[_ <-]|[_ Hs]]%lookup_insert_Some; [done|]|intros Hs|intros Hs];
    (eapply Hfold; [|exact Hs]); intros ??; by rewrite lookup_empty.
Qed.

Lemma check_fresh_Ok m now id u :
  check_fresh m now id = Ok u ↔
  ∃ s t, m !! id = Some s ∧ last_refresh s = Some t ∧ now - t ≤ max_staleness s.
Proof.
  unfold check_fresh. split.
  - intros (s & Hs%ok_or_Ok & Hk)%bind_Ok. destruct (last_refresh s) as [t|] eqn:Ht; [|done].
    apply fail_if_Ok, Z.ltb_ge in Hk. by exists s, t.
  - intros (s & t & Hs & Ht & Hle). rewrite Hs. cbn. rewrite Ht, (proj2 (Z.ltb_ge _ _)) by done. by destruct u.
Qed.

(** The newest fetch is at or after any other one. *)
Lemma newest_after tr c id ks1 rest ks :
  tr = c ++ Fetched id ks1 :: rest → newest tr id ks →
  ∃ a b, tr = c ++ a ++ Fetched id ks :: b ∧ ∀ ks', Fetched id ks' ∉ b.
Proof.
  intros -> (a & b & He & Hb). apply app_eq_app in He as (k & [[-> Hk]|[-> Hk]]).
  - destruct k as [|ev k]; [exists [], b; rewrite app_nil_r; cbn in *; by rewrite Hk|]. injection Hk as -> ->.
    destruct (Hb ks1). apply elem_of_app. right. left.
  - exists k, b. by rewrite Hk.
Qed.

(** What the manager answers, however its refreshes interleave with the two locks of
    [get_keys]: a provider of keys over the sources [m0] of the start. *)
Definition provided_by (m0 : JwksManager) (provider : string → result IdentityError (list DecodingKey)) : Prop :=
  ∀ id ks, provider id = Ok ks → ∃ tr1 tr2 m1 p1 m2 p2 now,
    steps m0 tr1 (m1, p1) ∧ steps m0 (tr1 ++ tr2) (m2, p2) ∧ check_fresh m1 now id = Ok tt ∧ ks = read_keys m2 id.

(** The keys of a key document, and of the one that a discovery document names. *)
Definition published_at (client : HttpClient) (url : string) (ks : list DecodingKey) : Prop :=
  ∃ r doc, http_get url = Ok r ∧ is_success r = true ∧ resp_json de_jwks r = Ok doc ∧
    ks = omap jwk_decoding_key (doc_keys doc).

Definition discovered_at (client : HttpClient) (url : string) (ks : list DecodingKey) : Prop :=
  ∃ r d, http_get url = Ok r ∧ is_success r = true ∧ resp_json de_discovery r = Ok d ∧ published_at client (jwks_uri d) ks.

Lemma fetch_keys_published client id url ks : fetch_keys (H0 := client) id url = Ok ks →
  if Str.contains well_known url then discovered_at client url ks else published_at client url ks.
Proof.
  assert (∀ u r, (response ← map_err (λ e, "failed to fetch JWKS for " +:+ id +:+ ": " +:+ e) (http_get u);
      _ ← fail_if (negb (is_success response)) ("JWKS endpoint returned " +:+ resp_status_text response +:+ " for " +:+ id);
      jwks ← map_err (λ e, "failed to parse JWKS for " +:+ id +:+ ": " +:+ e) (resp_json de_jwks response);
      Ok (omap jwk_decoding_key (doc_keys jwks))) = Ok r → published_at client u r) as Hp.
  { intros u r (resp & Hr%map_err_Ok & Hk)%bind_Ok. apply bind_Ok in Hk as ([] & Hs%fail_if_Ok%negb_false_iff & Hk).
    apply bind_Ok in Hk as (doc & Hd%map_err_Ok & [= <-]). by exists resp, doc. }
  unfold fetch_keys, actual_jwks_url. intros (u & Hu & Hk)%bind_Ok. apply Hp in Hk.
  destruct (Str.contains well_known url); [|by injection Hu as ->].
  apply bind_Ok in Hu as (resp & Hr%map_err_Ok & Hu). apply bind_Ok in Hu as ([] & Hs%fail_if_Ok%negb_false_iff & Hu).
  apply bind_Ok in Hu as (d & Hd%map_err_Ok & [= <-]). by exists resp, d.
Qed.

(** Keys that are served were fetched from the source's own address. *)
Lemma provided_fetched m0 provider id ks :
  (∀ i s, m0 !! i = Some s → last_refresh s = None) → provided_by m0 provider → provider id = Ok ks →
  ∃ s (client : HttpClient), m0 !! id = Some s ∧ fetch_keys id (jwks_url s) = Ok ks.
Proof.
  intros Hnew Hp Hks. destruct (Hp _ _ Hks) as (tr1 & tr2 & m1 & p1 & m2 & p2 & now & S1%steps_inv & S2%steps_inv & Hf & ->).
  apply check_fresh_Ok in Hf as (s1 & t & Hs1 & Ht & _).
  destruct (inv_source _ _ _ S1 id s1 Hs1) as (s & Hs & [_ _ _ Hr]).
  destruct (Hr t Ht) as [Hn|(c & ks1 & d & post & Htr)]; [by rewrite (Hnew _ _ Hs) in Hn|].
  destruct (inv_dom _ _ _ S2 id) as [s2 Hs2]; [by exists s|]. cbn in Hs2.
  destruct (inv_source _ _ _ S2 id s2 Hs2) as (s' & Hs' & [_ _ Hk _]). simplify_eq.
  destruct (Hk ks1) as (a & b & Htr' & _).
  { rewrite !elem_of_app. left. right. left. }
  destruct (inv_fetched _ _ _ S2 id (keys s2)) as (client & s0 & Hs0 & Hfetch).
  { rewrite Htr', elem_of_app. right. left. }
  simplify_eq. eexists _, client. split; [exact Hs|]. unfold read_keys. by rewrite Hs2.
Qed.

(** C24: keys are served only while they are fresh: whatever the interleaving of
    [get_keys] with the refreshes, a refresh of the source was completed at most
    the configured staleness ago, the keys are those of the newest fetch from the
    source's own URL, and that fetch is not older than the completed refresh. *)
Theorem served_keys_fresh config tr1 tr2 m1 p1 m2 p2 now id :
  steps (from_config config) tr1 (m1, p1) → steps (from_config config) (tr1 ++ tr2) (m2, p2) →
  check_fresh m1 now id = Ok tt →
  ∃ s c ks1 d t post a b, from_config config !! id = Some s ∧
    tr1 = c ++ Fetched id ks1 :: d ++ Refreshed id t :: post ∧ now - t ≤ max_staleness s ∧
    tr1 ++ tr2 = c ++ a ++ Fetched id (read_keys m2 id) :: b ∧ (∀ ks, Fetched id ks ∉ b) ∧
    ∃ client : HttpClient, fetch_keys id (jwks_url s) = Ok (read_keys m2 id).
Proof.
  intros H1%steps_inv H2%steps_inv (s1 & t & Hs1 & Ht & Hle)%check_fresh_Ok.
  destruct (inv_source _ _ _ H1 id s1 Hs1) as (s & Hs & [Hu Hx _ Hr]).
  destruct (Hr t Ht) as [Hn|(c & ks1 & d & post & Htr)].
  { destruct (from_config_new _ _ _ Hs). congruence. }
  destruct (inv_dom _ _ _ H2 id) as [s2 Hs2]; [by exists s|]. cbn in Hs2.
  destruct (inv_source _ _ _ H2 id s2 Hs2) as (s' & Hs' & [_ _ Hk _]). simplify_eq.
  assert (Fetched id ks1 ∈ (c ++ Fetched id ks1 :: d ++ Refreshed id t :: post) ++ tr2) as Hin.
  { rewrite !elem_of_app. left. right. left. }
  pose proof (Hk ks1 Hin) as Hnew. rewrite <-app_assoc in Hnew. cbn [app] in Hnew.
  destruct (newest_after _ _ _ _ _ _ eq_refl Hnew) as (a & b & Hab & Hb).
  assert (read_keys m2 id = keys s2) as Hread by (unfold read_keys; by rewrite Hs2).
  exists s, c, ks1, d, t, post, a, b. rewrite Hread. split_and!; try done; [by rewrite <-Hx| |].
  - by rewrite <-app_assoc.
  - destruct (inv_fetched _ _ _ H2 id (keys s2)) as (client & s0 & H0 & Hf); [|simplify_eq; by exists client].
    rewrite <-app_assoc. cbn [app]. rewrite Hab, !elem_of_app. right. right. left.
Qed.
End jwks.

(* ------------------------------------------------------------------ *)
(** ** Google's keys, fetched once *)

Module DemoJwks.

#[export] Instance no_tokens : JwtVerify := ToyVerify.toy_verify [].

Definition ne_key : @DecodingKey no_tokens := "NE".

Definition google_keys : json :=
  JObj [("keys", JArr [JObj [("kty", JStr "RSA"); ("use", JStr "sig"); ("n", JStr "N"); ("e", JStr "E")];
                       JObj [("kty", JStr "RSA"); ("use", JStr "enc"); ("n", JStr "M"); ("e", JStr "E")]])].

#[export] Instance google_http : HttpClient := {|
  http_get := λ _, Ok (mkResponse 200 "200 OK" (Ok ""));
  resp_json := λ T de _, ok_or "error decoding response body" (de google_keys)
|}.

Definition demo_config : IdentityConfig.IdentityConfig :=
  IdentityConfig.mkIdentityConfig None [] None (Some (IdentityConfig.mkGcpSource true "qm" None 300 3600)).

Definition google_source : JwksSource := new_source GOOGLE_JWKS_URL 300 3600.

Lemma demo_fetch : fetch_keys "google" GOOGLE_JWKS_URL = Ok [ne_key].
Proof. by vm_compute. Qed.

Definition demo_manager : gmap string JwksSource := refresh_source "google" 100 (from_config demo_config).

Lemma demo_steps :
  steps (from_config demo_config) [Fetched "google" [ne_key]; Refreshed "google" 100] (demo_manager, ∅).
Proof.
  apply (refresh_source_steps (from_config demo_config) [] (from_config demo_config) ∅ "google" 100
           google_source [ne_key]); [constructor|by vm_compute|set_solver|exact demo_fetch].
Qed.

End DemoJwks.

#[local] Existing Instance DemoJwks.no_tokens.

Lemma served_keys_fresh_witness :
  ∃ s (client : HttpClient),
    from_config DemoJwks.demo_config !! "google" = Some s ∧
    fetch_keys "google" (jwks_url s) = Ok (read_keys DemoJwks.demo_manager "google").
Proof.
  destruct (served_keys_fresh DemoJwks.demo_config
              [Fetched "google" [DemoJwks.ne_key]; Refreshed "google" 100] []
              DemoJwks.demo_manager ∅ DemoJwks.demo_manager ∅ 3700 "google"
              DemoJwks.demo_steps DemoJwks.demo_steps)
    as (s & c & ks1 & d & t & post & a & b & Hs & _ & _ & _ & _ & client & Hf); [by vm_compute|].
  exists s, client. split; [exact Hs|exact Hf].
Defined.

End Jwks.
