(* ===== verification/JwksTasks.v ===== *)
(** * The refresh tasks of the issuers' keys ([JwksManager::start_refresh_tasks] of
    [src/src/domain/identity/jwks.rs])

    One task per source: a refresh at once, then one per tick of a [tokio] interval,
    whose ticks are multiples of the period after its creation and wait for a refresh
    that is late.  How long a refresh takes and what the network answers are arguments;
    [Jwks] has the refresh itself and its interleaving with readers. *)

From S2P Require Import Prelude Http Jwt Identity IdentityConfig Jwks.

Module JwksTasks.
Import Http Verify Jwks.
Local Open Scope Z_scope.

Section tasks.
Context `{JwtVerify}.

(** One turn of a task: how long the refresh takes, and the network as it finds it. *)
Record Turn : Type := mkTurn { duration : Z; client : HttpClient }.

(** The loop, from tick [k] of an interval created at [base]; [free] is when the task is
    back at its [tick].  Each refresh with the instant it ends. *)
Fixpoint loop (base interval : Z) (k : nat) (free : Z) (turns : list Turn) : list (Z * HttpClient) :=
  match turns with
  | [] => []
  | t :: turns' =>
      let fin := Z.max (base + Z.of_nat k * interval) free + duration t in
      (fin, client t) :: loop base interval (S k) fin turns'
  end.

(** The task of a source that starts at [start].  [tokio::time::interval] panics on a
    zero period: then the task ends after its first refresh. *)
Definition refresh_task (interval start : Z) (turns : list Turn) : list (Z * HttpClient) :=
  match turns with
  | [] => []
  | t :: turns' =>
      let base := start + duration t in
      (base, client t) :: (if interval =? 0 then [] else loop base interval 1 base turns')
  end.

(** The manager at an instant: the refreshes that ended by then. *)
Definition manager_at (m : gmap string JwksSource) (id : string) (refreshes : list (Z * HttpClient)) (now : Z) : gmap string JwksSource :=
  foldl (λ m r, @refresh_source _ r.2 id r.1 m) m (filter (λ r, r.1 ≤ now) refreshes).

(** [start_refresh_tasks]: a task for each source, with its own turns. *)
Definition start_refresh_tasks (m : gmap string JwksSource) (start : Z) (turns : string → list Turn) : gmap string (list (Z * HttpClient)) :=
  map_imap (λ id source, Some (refresh_task (refresh_interval source) start (turns id))) m.

(* ------------------------------------------------------------------ *)
(** ** Availability *)

(** The network answers a fetch of the source. *)
Definition answers (id url : string) (c : HttpClient) : Prop := is_ok (@fetch_keys _ c id url) = true.

Lemma refresh_fresh (m : gmap string JwksSource) id s c t : m !! id = Some s → answers id (jwks_url s) c →
  ∃ ks, @fetch_keys _ c id (jwks_url s) = Ok ks ∧
    @refresh_source _ c id t m !! id = Some (mkJwksSource ks (jwks_url s) (refresh_interval s) (max_staleness s) (Some t)).
Proof.
  intros Hm Ha. unfold answers in Ha. unfold refresh_source. rewrite Hm.
  destruct (fetch_keys id (jwks_url s)) as [ks|e]; [|done]. exists ks. split; [done|].
  by rewrite lookup_alter_eq, lookup_alter_eq, Hm.
Qed.

(** After refreshes that were all answered, the last one counts. *)
Lemma refreshes_last (l : list (Z * HttpClient)) t c : ∀ (m : gmap string JwksSource) id s,
  m !! id = Some s → Forall (λ r, answers id (jwks_url s) r.2) (l ++ [(t, c)]) →
  ∃ ks, @fetch_keys _ c id (jwks_url s) = Ok ks ∧
    foldl (λ m r, @refresh_source _ r.2 id r.1 m) m (l ++ [(t, c)]) !! id =
      Some (mkJwksSource ks (jwks_url s) (refresh_interval s) (max_staleness s) (Some t)).
Proof.
  induction l as [|[t' c'] l IH]; intros m id s Hm Hall; cbn [app foldl] in *; apply Forall_cons in Hall as [Ha Hall].
  - by apply refresh_fresh.
  - destruct (refresh_fresh m id s c' t' Hm Ha) as (ks & _ & Hs). by destruct (IH _ _ _ Hs Hall) as (ks' & Hks & Hs'); eauto.
Qed.

(** Each refresh ends between the one before it and [G] later. *)
Fixpoint spaced (G prev : Z) (l : list (Z * HttpClient)) : Prop :=
  match l with
  | [] => True
  | r :: l' => prev ≤ r.1 ≤ prev + G ∧ spaced G r.1 l'
  end.

Lemma loop_spaced base interval D turns : ∀ k free,
  0 ≤ interval → base + Z.of_nat k * interval ≤ free + interval → Forall (λ t, 0 ≤ duration t ≤ D) turns →
  spaced (interval + D) free (loop base interval k free turns).
Proof.
  induction turns as [|t turns IH]; intros k free Hi Hf Hd; [done|]. apply Forall_cons in Hd as [Ht Hd].
  cbn [loop spaced fst]. split; [lia|]. apply IH; [done|lia|done].
Qed.

Lemma spaced_later G l : ∀ prev now, spaced G prev l → now < prev → filter (λ r, r.1 ≤ now) l = [].
Proof.
  induction l as [|r l IH]; intros prev now Hs Hn; [done|]. destruct Hs as [Hr Hs]. rewrite filter_cons_False by lia.
  apply (IH r.1); [done|lia].
Qed.

(** The last refresh that ended is at most [G] old, while another one is to come. *)
Lemma spaced_latest G l : ∀ p now, spaced G p.1 l → 0 ≤ G → p.1 ≤ now → (∃ r, r ∈ p :: l ∧ now ≤ r.1) →
  ∃ l1 t c, filter (λ r, r.1 ≤ now) (p :: l) = l1 ++ [(t, c)] ∧ t ≤ now ∧ now - t ≤ G.
Proof.
  induction l as [|r l IH]; intros p now Hs HG Hp Hlater.
  - destruct Hlater as (r & ->%list_elem_of_singleton & Hr). exists [], p.1, p.2. rewrite filter_cons_True by done.
    rewrite <-surjective_pairing. split_and!; [done|done|lia].
  - destruct Hs as [Hr Hs]. rewrite filter_cons_True by done. destruct (decide (r.1 ≤ now)) as [Hle|Hgt].
    + destruct (IH r now Hs HG Hle) as (l1 & t & c & -> & Ht & Hn).
      { destruct Hlater as (x & [->|Hx]%elem_of_cons & Hnx); [exists r; split; [left|lia]|by exists x]. }
      by exists (p :: l1), t, c.
    + rewrite filter_cons_False by done. rewrite (spaced_later G l r.1) by (done || lia).
      exists [], p.1, p.2. rewrite <-surjective_pairing. split_and!; [done|done|lia].
Qed.

Lemma loop_clients base interval turns : ∀ k free, (loop base interval k free turns).*2 = client <$> turns.
Proof. induction turns as [|t turns IH]; intros k free; [done|]. cbn. by rewrite IH. Qed.

Lemma task_answers id url interval start turns :
  Forall (λ t, answers id url (client t)) turns → Forall (λ r, answers id url r.2) (refresh_task interval start turns).
Proof.
  destruct turns as [|t turns]; [done|]. intros [Ht Hs]%Forall_cons. apply Forall_cons. split; [done|].
  case_match; [done|]. apply Forall_forall. intros r Hr%(list_elem_of_fmap_2 snd). rewrite loop_clients in Hr.
  apply list_elem_of_fmap in Hr as (t' & -> & Hin). rewrite Forall_forall in Hs. by apply Hs.
Qed.

(** C25: while the task of a source runs, an issuer that answers within [D] is always
    available, if the staleness allowed covers the refresh interval and [D]: from the
    first refresh on, at any instant before the end of a later one, readers get the keys
    of the last refresh that ended, however irregular the delays are. *)
Theorem keys_stay_available (m : gmap string JwksSource) id s start t0 turns D now :
  m !! id = Some s → 0 < refresh_interval s → refresh_interval s + D ≤ max_staleness s →
  Forall (λ t, 0 ≤ duration t ≤ D ∧ answers id (jwks_url s) (client t)) (t0 :: turns) →
  let refreshes := refresh_task (refresh_interval s) start (t0 :: turns) in
  start + duration t0 ≤ now → (∃ r, r ∈ refreshes ∧ now ≤ r.1) →
  ∃ ks t c, (t, c) ∈ refreshes ∧ t ≤ now ∧ @fetch_keys _ c id (jwks_url s) = Ok ks ∧
    get_keys (manager_at m id refreshes now) now id = Ok ks.
Proof.
  intros Hm Hi HD Hall refreshes Hnow Hlater.
  assert (Forall (λ t, 0 ≤ duration t ≤ D) (t0 :: turns)) as Hd by (eapply Forall_impl; [exact Hall|by intros ? []]).
  assert (Forall (λ r, answers id (jwks_url s) r.2) refreshes) as Ha.
  { apply task_answers. eapply Forall_impl; [exact Hall|by intros ? []]. }
  apply Forall_cons in Hd as [Hd0 Hd]. set (base := start + duration t0) in *.
  assert (refreshes = (base, client t0) :: loop base (refresh_interval s) 1 base turns) as Hr.
  { unfold refreshes, refresh_task. fold base. by rewrite (proj2 (Z.eqb_neq _ _)) by lia. }
  destruct (spaced_latest (refresh_interval s + D) (loop base (refresh_interval s) 1 base turns) (base, client t0) now)
    as (l1 & t & c & Hf & Ht & Hn); [apply loop_spaced; [lia|lia|done]|lia|done|by rewrite <-Hr|].
  rewrite <-Hr in Hf.
  assert ((t, c) ∈ filter (λ r, r.1 ≤ now) refreshes) as Hin by (rewrite Hf, elem_of_app, list_elem_of_singleton; by right).
  apply list_elem_of_filter in Hin as [_ Hin].
  destruct (refreshes_last l1 t c m id s Hm) as (ks & Hks & Hs).
  { rewrite <-Hf. rewrite Forall_forall in Ha |- *. intros r [_ Hin']%list_elem_of_filter. by apply Ha. }
  exists ks, t, c. split_and!; try done. unfold get_keys, manager_at. rewrite Hf.
  rewrite (proj2 (check_fresh_Ok _ now id tt)); [cbn; unfold read_keys; by rewrite Hs|].
  eexists _, t. split; [exact Hs|]. split; [done|]. cbn. lia.
Qed.

(** With a zero interval the task ends after its first refresh: the keys are gone for
    good once they are stale. *)
Lemma zero_interval_goes_stale (m : gmap string JwksSource) id s start turns now :
  m !! id = Some s → last_refresh s = None → refresh_interval s = 0 →
  (∀ t, head turns = Some t → start + duration t + max_staleness s < now) →
  is_ok (get_keys (manager_at m id (refresh_task (refresh_interval s) start turns) now) now id) = false.
Proof.
  intros Hm Hl Hi Hnow. rewrite Hi. unfold get_keys, manager_at.
  destruct turns as [|t turns]; cbn [refresh_task Z.eqb]; [|specialize (Hnow t eq_refl); rewrite filter_cons; case_decide].
  all: cbn [filter list_filter foldl fst snd]; unfold check_fresh.
  2: unfold refresh_source; rewrite Hm; destruct (fetch_keys id (jwks_url s));
     [rewrite lookup_alter_eq, lookup_alter_eq, Hm; cbn; by rewrite (proj2 (Z.ltb_lt _ _)) by lia|].
  all: by rewrite Hm; cbn; rewrite Hl.
Qed.
End tasks.

(* ------------------------------------------------------------------ *)
(** ** Witness: Google's keys, and a period that is not checked *)

#[local] Existing Instance DemoJwks.no_tokens.

Definition demo_turns : list Turn := [mkTurn 1 DemoJwks.google_http; mkTurn 40 DemoJwks.google_http].
Definition demo_refreshes : list (Z * HttpClient) := refresh_task 300 0 demo_turns.

Lemma keys_stay_available_witness :
  ∃ ks, get_keys (manager_at (from_config DemoJwks.demo_config) "google" demo_refreshes 250) 250 "google" = Ok ks.
Proof.
  destruct (keys_stay_available (from_config DemoJwks.demo_config) "google" DemoJwks.google_source 0
    (mkTurn 1 DemoJwks.google_http) [mkTurn 40 DemoJwks.google_http] 60 250) as (ks & _ & _ & _ & _ & _ & Hk).
  - reflexivity.
  - reflexivity.
  - vm_compute. discriminate.
  - repeat constructor; vm_compute; discriminate.
  - vm_compute. discriminate.
  - exists (341, DemoJwks.google_http). split; [right; left|vm_compute; discriminate].
  - exists ks. exact Hk.
Defined.

Definition zero_interval : IdentityConfig.IdentityConfig :=
  IdentityConfig.mkIdentityConfig None [] None (Some (IdentityConfig.mkGcpSource true "qm" None 0 3600)).

Lemma zero_interval_accepted :
  IdentityConfig.parse_duration "0s" = Ok 0 ∧
  IdentityConfig.validate (λ _, None) zero_interval = Ok tt ∧
  refresh_task 0 0 demo_turns = [(1, DemoJwks.google_http)].
Proof. split_and!; [vm_compute; reflexivity|vm_compute; reflexivity|reflexivity]. Qed.

End JwksTasks.
