(* ===== verification/DataStore.v ===== *)
(** * The data store interface ([src/src/datastore/mod.rs])

    The records, the errors and the [DataStore] trait.  [DataStoreLaws] is the
    contract the administration and synchronisation code is proved against: a
    store is seen as two finite maps, an operation that fails changes neither,
    and one that succeeds makes the change its name says. *)

From S2P Require Import Prelude.

Module DataStore.

Inductive DataStoreError : Type :=
| NotFound (msg : string)
| Conflict (msg : string)
| Internal (msg : string).

#[export] Instance DataStoreError_eq_dec : EqDecision DataStoreError.
Proof. solve_decision. Defined.

Definition DataStoreError_fmt (e : DataStoreError) : string :=
  match e with
  | NotFound msg => "not found: " +:+ msg
  | Conflict msg => "conflict: " +:+ msg
  | Internal msg => "internal error: " +:+ msg
  end.

Record BilletRecord : Type := mkBillet {
  name : string;
  description : string;
  associated_aws_roles : list string;
  associated_gcp_sas : list string;
  tags : list string;
  created_at : string;
  updated_at : string
}.

Record PolicyRecord : Type := mkPolicy {
  billet_name : string;
  policy_id : string;
  statement : string;
  pdescription : string;
  pcreated_at : string;
  pupdated_at : string
}.

Record EphemeralKeyRecord : Type := mkKey {
  key_id : string;
  public_key_pem : string;
  private_key_encrypted : list Z;
  kms_attestation : list Z;
  algorithm : string;
  kcreated_at : string;
  kexpires_at : string;
  purpose : string
}.

#[export] Instance BilletRecord_eq_dec : EqDecision BilletRecord.
Proof. solve_decision. Defined.
#[export] Instance PolicyRecord_eq_dec : EqDecision PolicyRecord.
Proof. solve_decision. Defined.
#[export] Instance EphemeralKeyRecord_eq_dec : EqDecision EphemeralKeyRecord.
Proof. solve_decision. Defined.

Definition policy_key (r : PolicyRecord) : string * string := (billet_name r, policy_id r).

(** The trait.  [get_active_ephemeral_keys] reads the clock: its last argument is the
    instant as text. *)
Class DataStore (D : Type) := {
  create_billet : BilletRecord → M D DataStoreError unit;
  get_billet : string → M D DataStoreError (option BilletRecord);
  update_billet : BilletRecord → M D DataStoreError unit;
  delete_billet_cascade : string → M D DataStoreError Z;
  list_billets : M D DataStoreError (list BilletRecord);
  create_policy : PolicyRecord → M D DataStoreError unit;
  get_policy : string → string → M D DataStoreError (option PolicyRecord);
  update_policy : PolicyRecord → M D DataStoreError unit;
  delete_policy : string → string → M D DataStoreError unit;
  list_policies_for_billet : string → M D DataStoreError (list PolicyRecord);
  list_all_policies : M D DataStoreError (list PolicyRecord);
  put_ephemeral_key : EphemeralKeyRecord → M D DataStoreError unit;
  get_active_ephemeral_keys : string → string → M D DataStoreError (list EphemeralKeyRecord);
  delete_expired_ephemeral_keys : string → string → M D DataStoreError Z;
  ping : M D DataStoreError unit
}.

(** Records are filed under their own names. *)
Definition keyed (b : gmap string BilletRecord) (p : gmap (string * string) PolicyRecord) : Prop :=
  map_Forall (λ k r, name r = k) b ∧ map_Forall (λ k r, policy_key r = k) p.

(** An update that keeps everything but the creation time. *)
Definition same_policy (r r' : PolicyRecord) : Prop :=
  policy_key r = policy_key r' ∧ statement r = statement r' ∧
  pdescription r = pdescription r' ∧ pupdated_at r = pupdated_at r'.

Definition remove_policies (n : string) (p : gmap (string * string) PolicyRecord) :
    gmap (string * string) PolicyRecord :=
  filter (λ kv, kv.1.1 ≠ n) p.

Class DataStoreLaws (D : Type) `{DataStore D} := {
  ds_ok : D → Prop;
  ds_billets : D → gmap string BilletRecord;
  ds_policies : D → gmap (string * string) PolicyRecord;

  ds_keyed : ∀ d, ds_ok d → keyed (ds_billets d) (ds_policies d);

  (** Reading changes nothing. *)
  get_billet_spec : ∀ n d r d', ds_ok d → get_billet n d = (r, d') →
    ds_ok d' ∧ ds_billets d' = ds_billets d ∧ ds_policies d' = ds_policies d ∧
    ∀ o, r = Ok o → o = ds_billets d !! n;
  list_billets_spec : ∀ d r d', ds_ok d → list_billets d = (r, d') →
    ds_ok d' ∧ ds_billets d' = ds_billets d ∧ ds_policies d' = ds_policies d ∧
    ∀ l, r = Ok l → l ≡ₚ (map_to_list (ds_billets d)).*2;
  get_policy_spec : ∀ b i d r d', ds_ok d → get_policy b i d = (r, d') →
    ds_ok d' ∧ ds_billets d' = ds_billets d ∧ ds_policies d' = ds_policies d ∧
    ∀ o, r = Ok o → o = ds_policies d !! (b, i);
  list_policies_for_billet_spec : ∀ b d r d', ds_ok d → list_policies_for_billet b d = (r, d') →
    ds_ok d' ∧ ds_billets d' = ds_billets d ∧ ds_policies d' = ds_policies d ∧
    ∀ l, r = Ok l → l ≡ₚ filter (λ p, billet_name p = b) (map_to_list (ds_policies d)).*2;
  list_all_policies_spec : ∀ d r d', ds_ok d → list_all_policies d = (r, d') →
    ds_ok d' ∧ ds_billets d' = ds_billets d ∧ ds_policies d' = ds_policies d ∧
    ∀ l, r = Ok l → l ≡ₚ (map_to_list (ds_policies d)).*2;

  (** Writing is all or nothing. *)
  create_billet_spec : ∀ rec d r d', ds_ok d → create_billet rec d = (r, d') →
    ds_ok d' ∧ ds_policies d' = ds_policies d ∧
    match r with
    | Ok _ => ds_billets d !! name rec = None ∧ ds_billets d' = <[name rec := rec]> (ds_billets d)
    | Err e => ds_billets d' = ds_billets d ∧
               (∀ m, e = Conflict m → is_Some (ds_billets d !! name rec))
    end;
  update_billet_spec : ∀ rec d r d', ds_ok d → update_billet rec d = (r, d') →
    ds_ok d' ∧ ds_policies d' = ds_policies d ∧
    match r with
    | Ok _ => is_Some (ds_billets d !! name rec) ∧ ds_billets d' = <[name rec := rec]> (ds_billets d)
    | Err e => ds_billets d' = ds_billets d ∧
               (∀ m, e = NotFound m → ds_billets d !! name rec = None)
    end;
  delete_billet_cascade_spec : ∀ n d r d', ds_ok d → delete_billet_cascade n d = (r, d') →
    ds_ok d' ∧
    match r with
    | Ok _ => is_Some (ds_billets d !! n) ∧ ds_billets d' = delete n (ds_billets d) ∧
              ds_policies d' = remove_policies n (ds_policies d)
    | Err e => ds_billets d' = ds_billets d ∧ ds_policies d' = ds_policies d ∧
               (∀ m, e = NotFound m → ds_billets d !! n = None)
    end;
  create_policy_spec : ∀ rec d r d', ds_ok d → create_policy rec d = (r, d') →
    ds_ok d' ∧ ds_billets d' = ds_billets d ∧
    match r with
    | Ok _ => ds_policies d !! policy_key rec = None ∧
              ds_policies d' = <[policy_key rec := rec]> (ds_policies d)
    | Err e => ds_policies d' = ds_policies d ∧
               (∀ m, e = Conflict m → is_Some (ds_policies d !! policy_key rec))
    end;
  update_policy_spec : ∀ rec d r d', ds_ok d → update_policy rec d = (r, d') →
    ds_ok d' ∧ ds_billets d' = ds_billets d ∧
    match r with
    | Ok _ => is_Some (ds_policies d !! policy_key rec) ∧
              ∃ rec', same_policy rec rec' ∧
                ds_policies d' = <[policy_key rec := rec']> (ds_policies d)
    | Err e => ds_policies d' = ds_policies d ∧
               (∀ m, e = NotFound m → ds_policies d !! policy_key rec = None)
    end;
  delete_policy_spec : ∀ b i d r d', ds_ok d → delete_policy b i d = (r, d') →
    ds_ok d' ∧ ds_billets d' = ds_billets d ∧
    match r with
    | Ok _ => is_Some (ds_policies d !! (b, i)) ∧ ds_policies d' = delete (b, i) (ds_policies d)
    | Err e => ds_policies d' = ds_policies d ∧
               (∀ m, e = NotFound m → ds_policies d !! (b, i) = None)
    end
}.

End DataStore.
