(* ===== verification/DynamoApi.v ===== *)
(** * The client of Amazon DynamoDB, as [src/src/datastore/dynamodb.rs] uses it

    The crate [aws_sdk_dynamodb] and the service behind it are parameters:
    [DynamoClient] has the calls of the store, [DynamoLaws] the documented effect of
    the requests it makes.  A call that reports an error may still have been carried
    out (a time-out), a set comes back in any order, and a listing comes in pages.  No
    read of the store asks for strong consistency, so reads are eventually consistent:
    they show items that are or were stored ([seen]), and the current table only once
    its writes have settled ([settled]).  [ToyDynamo] is a service that satisfies the
    laws, [LaggingDynamo] one whose reads lag behind its writes. *)

From S2P Require Import Prelude.

Module DynamoApi.

Inductive AttributeValue : Type :=
| AvS (s : string)
| AvL (l : list AttributeValue)
| AvSs (l : list string)
| AvB (bytes : list Z)
| AvOther (text : string).

Definition as_s (v : AttributeValue) : option string := match v with AvS s => Some s | _ => None end.
Definition as_l (v : AttributeValue) : option (list AttributeValue) := match v with AvL l => Some l | _ => None end.
Definition as_ss (v : AttributeValue) : option (list string) := match v with AvSs l => Some l | _ => None end.
Definition as_b (v : AttributeValue) : option (list Z) := match v with AvB b => Some b | _ => None end.

Abbreviation Item := (gmap string AttributeValue).
Abbreviation Values := (list (string * AttributeValue)).

Record Condition : Type := mkCondition {
  condition_expression : string;
  expression_attribute_names : list (string * string)
}.

Record Page : Type := mkPage {
  items : option (list Item);
  last_evaluated_key : option Item
}.

(** The calls; an error is the text of the [SdkError].  A batch is a list of delete
    requests, answered with the requests left undone, by table.  [table_size] is not a
    call: it bounds the number of items a listing shows, and so the number of pages. *)
Class DynamoClient (D : Type) := {
  put_item : string → Item → option Condition → M D string unit;
  get_item : string → Item → M D string (option Item);
  update_item : string → Item → string → Values → option Condition → M D string unit;
  delete_item : string → Item → M D string unit;
  batch_write_item : string → list Item → M D string (option (gmap string (list Item)));
  scan : string → option Item → M D string Page;
  query : string → string → option string → Values → option Item → M D string Page;
  describe_table : string → M D string unit;
  table_size : D → string → nat
}.

(* ------------------------------------------------------------------ *)
(** ** What the calls do *)

(** The value of the key attributes, and the item reduced to them. *)
Definition item_key (schema : list string) (it : Item) : option (list string) :=
  mapM (λ a, it !! a ≫= as_s) schema.
Definition key_part (schema : list string) (it : Item) : Item := filter (λ kv, kv.1 ∈ schema) it.

(** Values as they come back: sets have no order. *)
Definition av_sim (v w : AttributeValue) : Prop :=
  match v, w with AvSs l, AvSs k => l ≡ₚ k | _, _ => v = w end.
Definition stored_as (it it' : Item) : Prop := ∀ a, option_Forall2 av_sim (it !! a) (it' !! a).

(** A listing resumes after the item whose key it is given. *)
Definition starts_at (all : list Item) (schema : list string) (start : option Item) (i : nat) : Prop :=
  match start with
  | None => i = 0
  | Some k => ∃ j it, all !! j = Some it ∧ key_part schema it = k ∧ i = S j
  end.

(** A page evaluates some items from there on, at least one if there are more, and
    has those of them that pass the filter. *)
Definition page_law (all : list Item) (keep : Item → bool) (schema : list string) (start : option Item) (p : Page) : Prop :=
  ∀ i, starts_at all schema start i → ∃ n,
    default [] (items p) = filter (λ it, keep it = true) (take n (drop i all)) ∧
    ((last_evaluated_key p = None ∧ length all ≤ i + n) ∨
     ∃ k m it, last_evaluated_key p = Some k ∧ k ≠ ∅ ∧ n = S m ∧ all !! (i + m) = Some it ∧ key_part schema it = k).

Definition billet_update : string :=
  "SET description = :desc, associated_aws_roles = :roles, associated_gcp_sas = :sas, updated_at = :ts, created_at = if_not_exists(created_at, :cat)".
Definition billet_update_tags : string := billet_update +:+ ", tags = :tags".
Definition policy_update : string := "SET statement = :stmt, description = :desc, updated_at = :ts".

Definition set_billet (desc roles sas ts cat : AttributeValue) (it : Item) : Item :=
  <["description" := desc]> (<["associated_aws_roles" := roles]> (<["associated_gcp_sas" := sas]>
    (<["updated_at" := ts]> (<["created_at" := default cat (it !! "created_at")]> it)))).

(** The deployed tables: their key attributes and contents, and the order in which a
    scan ([None]) or a query (a key condition with its values) reads them; what reads may
    still show, whether all writes to a table have reached all its replicas, and how many
    pages a listing may have after a key; and the meaning of expressions. *)
Class DynamoTables (D : Type) := {
  schema : string → list string;
  table : D → string → gmap (list string) Item;
  seen : D → string → Item → Prop;
  settled : D → string → Prop;
  pages_left : D → string → option (string * Values) → option Item → nat;
  rows : D → string → option (string * Values) → list Item;
  condition_holds : Condition → Item → bool;
  apply_update : string → Values → Item → Item;
  filter_holds : string → Values → Item → bool
}.

Section tables.
Context `{DynamoTables D}.

(** Nothing was written; reads may show less of the past. *)
Definition same_data (d d' : D) : Prop := ∀ t,
  table d' t = table d t ∧ (∀ q, rows d' t q = rows d t q) ∧ (∀ it, seen d' t it → seen d t it) ∧
  (settled d t → settled d' t) ∧ ∀ q k, pages_left d' t q k ≤ pages_left d t q k.

(** One table was written; reads show what they showed before, or what is there now. *)
Definition changed (d d' : D) (t : string) (f : gmap (list string) Item → gmap (list string) Item) : Prop :=
  ∀ t', table d' t' = (if decide (t' = t) then f (table d t') else table d t') ∧
    ∀ it, seen d' t' it → seen d t' it ∨ ∃ k, table d' t' !! k = Some it.

(** What a page of a listing shows. *)
Definition shows (d : D) (t : string) (q : option (string * Values)) (keep : Item → bool) (start : option Item) (p : Page) : Prop :=
  Forall (λ it, seen d t it ∧ keep it = true) (default [] (items p)) ∧
  (∀ k, last_evaluated_key p = Some k → k ≠ ∅ → pages_left d t q (Some k) < pages_left d t q start) ∧
  (settled d t → page_law (rows d t q) keep (schema t) start p).

Definition cond_ok (c : option Condition) (o : option Item) : Prop :=
  match c with Some c => condition_holds c (default ∅ o) = true | None => True end.
End tables.

Class DynamoLaws (D : Type) `{DynamoClient D, DynamoTables D} : Prop := {
  table_keyed : ∀ d t k it, table d t !! k = Some it → item_key (schema t) it = Some k;
  seen_current : ∀ d t k it, table d t !! k = Some it → seen d t it;
  table_size_law : ∀ d t q, pages_left d t q None ≤ table_size d t;
  rows_scan : ∀ d t, rows d t None ≡ₚ (map_to_list (table d t)).*2;
  rows_query : ∀ d t a ph v rest, head (schema t) = Some a →
    (a, ph) ∈ [("billet_name", ":bn"); ("purpose", ":p")] →
    rows d t (Some (a +:+ " = " +:+ ph, (ph, AvS v) :: rest)) ≡ₚ
      filter (λ it, it !! a ≫= as_s = Some v) (map_to_list (table d t)).*2;

  (** The expressions of the store. *)
  billet_absent : ∀ it, condition_holds (mkCondition "attribute_not_exists(#n)" [("#n", "name")]) it =
    bool_decide (it !! "name" = None);
  billet_present : ∀ it, condition_holds (mkCondition "attribute_exists(#n)" [("#n", "name")]) it =
    bool_decide (is_Some (it !! "name"));
  policy_absent : ∀ it,
    condition_holds (mkCondition "attribute_not_exists(billet_name) AND attribute_not_exists(policy_id)" []) it =
    bool_decide (it !! "billet_name" = None ∧ it !! "policy_id" = None);
  policy_present : ∀ it, condition_holds (mkCondition "attribute_exists(billet_name)" []) it =
    bool_decide (is_Some (it !! "billet_name"));
  update_billet_law : ∀ desc roles sas ts cat it,
    apply_update billet_update [(":desc", desc); (":roles", roles); (":sas", sas); (":ts", ts); (":cat", cat)] it =
    set_billet desc roles sas ts cat it;
  update_tags_law : ∀ desc roles sas ts cat tags it,
    apply_update billet_update_tags
      [(":desc", desc); (":roles", roles); (":sas", sas); (":ts", ts); (":cat", cat); (":tags", tags)] it =
    <["tags" := tags]> (set_billet desc roles sas ts cat it);
  update_policy_law : ∀ stmt desc ts it,
    apply_update policy_update [(":stmt", stmt); (":desc", desc); (":ts", ts)] it =
    <["statement" := stmt]> (<["description" := desc]> (<["updated_at" := ts]> it));
  filter_active : ∀ p now it, filter_holds "expires_at > :now" [(":p", p); (":now", AvS now)] it =
    match it !! "expires_at" with Some (AvS e) => String.ltb now e | _ => false end;
  filter_expired : ∀ p before it, filter_holds "expires_at <= :before" [(":p", p); (":before", AvS before)] it =
    match it !! "expires_at" with Some (AvS e) => String.leb e before | _ => false end;

  (** Reads, eventually consistent. *)
  get_item_law : ∀ t key k d r d', item_key (schema t) key = Some k → get_item t key d = (r, d') →
    same_data d d' ∧ ∀ o, r = Ok o →
      (∀ it, o = Some it → seen d t it ∧ item_key (schema t) it = Some k) ∧ (settled d t → o = table d t !! k);
  scan_law : ∀ t start d r d', scan t start d = (r, d') →
    same_data d d' ∧ ∀ p, r = Ok p → shows d t None (λ _, true) start p;
  query_law : ∀ t kc f vs start d r d', query t kc f vs start d = (r, d') →
    same_data d d' ∧ ∀ p, r = Ok p →
      shows d t (Some (kc, vs)) (λ it, match f with Some f => filter_holds f vs it | None => true end) start p;
  query_match : ∀ t a ph v rest f start d p d', head (schema t) = Some a →
    (a, ph) ∈ [("billet_name", ":bn"); ("purpose", ":p")] →
    query t (a +:+ " = " +:+ ph) f ((ph, AvS v) :: rest) start d = (Ok p, d') →
    Forall (λ it, it !! a ≫= as_s = Some v) (default [] (items p));
  describe_table_law : ∀ t d r d', describe_table t d = (r, d') → same_data d d';

  (** Writes. *)
  put_item_law : ∀ t it c k d r d', item_key (schema t) it = Some k → put_item t it c d = (r, d') →
    outcome r (changed d d' t (λ m, m))
      (cond_ok c (table d t !! k) ∧ ∃ it', stored_as it it' ∧ changed d d' t <[k := it']>);
  update_item_law : ∀ t key e vs c k d r d', item_key (schema t) key = Some k → update_item t key e vs c d = (r, d') →
    outcome r (changed d d' t (λ m, m))
      (cond_ok c (table d t !! k) ∧
       ∃ it', stored_as (apply_update e vs (default key (table d t !! k))) it' ∧ changed d d' t <[k := it']>);
  delete_item_law : ∀ t key k d r d', item_key (schema t) key = Some k → delete_item t key d = (r, d') →
    outcome r (changed d d' t (λ m, m)) (changed d d' t (delete k));
  (** A batch of at most 25 requests is carried out in part, or refused: always if it asks
      twice for an item. *)
  batch_law : ∀ t reqs ks d r d', Forall2 (λ it k, item_key (schema t) it = Some k) reqs ks → length reqs ≤ 25 →
    batch_write_item t reqs d = (r, d') →
    ∃ gone, gone ⊆ ks ∧ changed d d' t (filter (λ kv, kv.1 ∉ gone)) ∧
      ∀ u, r = Ok u → ∀ k, k ∈ ks → k ∈ gone ∨
        ∃ it, it ∈ default [] (u ≫= (.!! t)) ∧ item_key (schema t) it = Some k
}.

(* ------------------------------------------------------------------ *)
(** ** Keys of items *)

Section keys.
Context (sch : list string).

Lemma key_part_lookup it a : a ∈ sch → key_part sch it !! a = it !! a.
Proof.
  intros Ha. unfold key_part. destruct (it !! a) as [v|] eqn:Hv.
  - by apply map_lookup_filter_Some.
  - apply map_lookup_filter_None. by left.
Qed.

Lemma item_key_part it : item_key sch (key_part sch it) = item_key sch it.
Proof.
  unfold item_key. apply Forall_mapM_ext, Forall_forall. intros a Ha. by rewrite key_part_lookup.
Qed.

Lemma item_key_lookup it k a : item_key sch it = Some k → a ∈ sch → is_Some (it !! a).
Proof.
  unfold item_key. intros Hk Ha. apply mapM_Some_1 in Hk. apply list_elem_of_lookup in Ha as [i Hi].
  destruct (Forall2_lookup_l _ _ _ _ _ Hk Hi) as (y & _ & Hy). destruct (it !! a); [done|discriminate].
Qed.
End keys.

(* ------------------------------------------------------------------ *)
(** ** A service that satisfies the laws

    Pages have one item; a write whose item would not have the key it is filed under is refused. *)

Module ToyDynamo.

Abbreviation ToyTables := (gmap string (gmap (list string) Item)).

Definition toy_schema (t : string) : list string :=
  if bool_decide (t = "policies") then ["billet_name"; "policy_id"]
  else if bool_decide (t = "qm-keys") then ["purpose"; "key_id"] else ["name"].

Definition raw (d : ToyTables) (t : string) : gmap (list string) Item := default ∅ (d !! t).

Definition toy_table (d : ToyTables) (t : string) : gmap (list string) Item :=
  filter (λ kv, item_key (toy_schema t) kv.2 = Some kv.1) (raw d t).

Definition toy_condition (c : Condition) (it : Item) : bool :=
  let e := condition_expression c in
  if bool_decide (e = "attribute_not_exists(#n)") then bool_decide (it !! "name" = None)
  else if bool_decide (e = "attribute_exists(#n)") then bool_decide (is_Some (it !! "name"))
  else if bool_decide (e = "attribute_exists(billet_name)") then bool_decide (is_Some (it !! "billet_name"))
  else bool_decide (it !! "billet_name" = None ∧ it !! "policy_id" = None).

Definition val (vs : Values) (ph : string) : AttributeValue :=
  match list_find (λ p, p.1 = ph) vs with Some (_, p) => p.2 | None => AvOther "" end.

Definition toy_update (e : string) (vs : Values) (it : Item) : Item :=
  let b := set_billet (val vs ":desc") (val vs ":roles") (val vs ":sas") (val vs ":ts") (val vs ":cat") it in
  if bool_decide (e = billet_update) then b
  else if bool_decide (e = billet_update_tags) then <["tags" := val vs ":tags"]> b
  else <["statement" := val vs ":stmt"]> (<["description" := val vs ":desc"]> (<["updated_at" := val vs ":ts"]> it)).

Definition toy_filter (f : string) (vs : Values) (it : Item) : bool :=
  match it !! "expires_at", (if bool_decide (f = "expires_at > :now") then val vs ":now" else val vs ":before") with
  | Some (AvS e), AvS w => if bool_decide (f = "expires_at > :now") then String.ltb w e else String.leb e w
  | _, _ => false
  end.

Definition toy_rows (d : ToyTables) (t : string) (q : option (string * Values)) : list Item :=
  let all := (map_to_list (toy_table d t)).*2 in
  match q with
  | Some (_, (_, v) :: _) =>
      match as_s v, head (toy_schema t) with
      | Some v, Some a => filter (λ it, it !! a ≫= as_s = Some v) all
      | _, _ => []
      end
  | Some (_, []) => []
  | None => all
  end.

Definition toy_rest (all : list Item) (sch : list string) (start : option Item) : list Item :=
  match start with
  | None => all
  | Some k => match list_find (λ it, item_key sch it = item_key sch k) all with
              | Some (j, _) => drop (S j) all
              | None => []
              end
  end.

#[export] Instance toy_tables : DynamoTables ToyTables := {|
  schema := toy_schema;
  table := toy_table;
  seen := λ d t it, ∃ k, toy_table d t !! k = Some it;
  settled := λ _ _, True;
  pages_left := λ d t q start, length (toy_rest (toy_rows d t q) (toy_schema t) start);
  rows := toy_rows;
  condition_holds := toy_condition;
  apply_update := toy_update;
  filter_holds := toy_filter
|}.

Definition toy_page (all : list Item) (keep : Item → bool) (sch : list string) (start : option Item) : Page :=
  match toy_rest all sch start with
  | [] => mkPage None None
  | it :: _ => mkPage (Some (filter (λ it, keep it = true) [it])) (Some (key_part sch it))
  end.

Definition toy_write (t : string) (k : list string) (it : Item) (c : option Condition) (d : ToyTables) :
    result string unit * ToyTables :=
  if match c with Some c => toy_condition c (default ∅ (toy_table d t !! k)) | None => true end &&
     bool_decide (item_key (toy_schema t) it = Some k)
  then (Ok tt, <[t := <[k := it]> (raw d t)]> d)
  else (Err "service error", d).

Definition toy_remove (t : string) (ks : list (list string)) (d : ToyTables) : ToyTables :=
  <[t := filter (λ kv, kv.1 ∉ ks) (raw d t)]> d.

Definition with_key {A} (t : string) (it : Item) (f : list string → ToyTables → result string A * ToyTables) :
    M ToyTables string A := λ d,
  match item_key (toy_schema t) it with Some k => f k d | None => (Err "service error", d) end.

#[export] Instance toy_client : DynamoClient ToyTables := {|
  put_item t it c := with_key t it (λ k, toy_write t k it c);
  get_item t key := with_key t key (λ k d, (Ok (toy_table d t !! k), d));
  update_item t key e vs c := with_key t key (λ k d, toy_write t k (toy_update e vs (default key (toy_table d t !! k))) c d);
  delete_item t key := with_key t key (λ k d, (Ok tt, toy_remove t [k] d));
  batch_write_item t reqs := λ d, (Ok None, toy_remove t (omap (item_key (toy_schema t)) reqs) d);
  scan t start := λ d, (Ok (toy_page (toy_rows d t None) (λ _, true) (toy_schema t) start), d);
  query t kc f vs start := λ d,
    (Ok (toy_page (toy_rows d t (Some (kc, vs))) (λ it, match f with Some f => toy_filter f vs it | None => true end)
           (toy_schema t) start), d);
  describe_table t := λ d, (Ok tt, d);
  table_size d t := size (toy_table d t)
|}.

Lemma toy_table_insert d t m t' :
  toy_table (<[t := m]> d) t' =
    if decide (t' = t) then filter (λ kv, item_key (toy_schema t') kv.2 = Some kv.1) m else toy_table d t'.
Proof.
  unfold toy_table, raw. destruct (decide (t' = t)) as [->|Ht]; [by rewrite lookup_insert_eq|by rewrite lookup_insert_ne].
Qed.

(** Reads of this service are up to date. *)
Lemma toy_changed (d d' : ToyTables) t f :
  (∀ t', toy_table d' t' = if decide (t' = t) then f (toy_table d t') else toy_table d t') → changed d d' t f.
Proof. intros Ht t'. split; [apply Ht|]. intros it Hit. by right. Qed.

Lemma toy_unchanged d t : changed (d : ToyTables) d t (λ m, m).
Proof. apply toy_changed. intros t'. by destruct (decide (t' = t)). Qed.

Lemma toy_remove_changed t ks d : changed d (toy_remove t ks d) t (filter (λ kv, kv.1 ∉ ks)).
Proof.
  apply toy_changed. intros t'. cbn. unfold toy_remove. rewrite toy_table_insert. destruct (decide (t' = t)) as [->|]; [|done].
  unfold toy_table. rewrite !map_filter_filter. apply map_filter_ext. naive_solver.
Qed.

Lemma toy_write_outcome t k it c d r d' : toy_write t k it c d = (r, d') →
  outcome r (changed d d' t (λ m, m)) (cond_ok c (table d t !! k) ∧ changed d d' t <[k := it]>).
Proof.
  unfold toy_write. destruct (match c with Some _ => _ | None => _ end) eqn:Hc; cbn [andb].
  - case_bool_decide as Hk; intros [= <- <-]; cbn.
    + split; [by destruct c|]. apply toy_changed. intros t'. rewrite toy_table_insert.
      destruct (decide (t' = t)) as [->|]; [|done]. by rewrite map_filter_insert_True.
    + left. apply toy_unchanged.
  - intros [= <- <-]. cbn. left. apply toy_unchanged.
Qed.

Lemma stored_as_refl it : stored_as it it.
Proof. intros a. destruct (it !! a) as [[]|]; constructor; cbn; done. Qed.

(** A listing in which each item has a key of its own. *)
Definition distinct_keys (sch : list string) (all : list Item) : Prop :=
  NoDup (item_key sch <$> all) ∧ Forall (λ it, is_Some (item_key sch it)) all.

Lemma find_key sch all j it : distinct_keys sch all → all !! j = Some it →
  list_find (λ x, item_key sch x = item_key sch (key_part sch it)) all = Some (j, it).
Proof.
  intros [Hnd _] Hj. apply list_find_Some. split_and!; [done|by rewrite item_key_part|].
  intros i y Hi Hlt Heq. rewrite item_key_part in Heq.
  assert (i = j); [|lia]. eapply (NoDup_lookup _ i j (item_key sch y) Hnd); rewrite list_lookup_fmap; [by rewrite Hi|].
  rewrite Hj, Heq. done.
Qed.

Lemma toy_page_law all keep sch start :
  sch ≠ [] → distinct_keys sch all → page_law all keep sch start (toy_page all keep sch start).
Proof.
  intros Hs Hd i Hi. unfold toy_page.
  assert (toy_rest all sch start = drop i all) as ->.
  { unfold toy_rest. destruct start as [k|]; [|by cbn in Hi; subst i]. destruct Hi as (j & it & Hj & <- & ->).
    by rewrite (find_key sch all j it Hd Hj). }
  destruct (drop i all) as [|it rest] eqn:Hr.
  - exists 0. split; [done|]. left. split; [done|]. apply (f_equal length) in Hr. rewrite length_drop in Hr. cbn in Hr. lia.
  - exists 1. split; [by cbn [take items default]|]. right. exists (key_part sch it), 0, it.
    assert (all !! (i + 0) = Some it) as Hit by (by rewrite <-lookup_drop, Hr).
    split_and!; [done| |done|done|done]. destruct Hd as [_ Hd].
    destruct (Forall_lookup_1 _ _ _ _ Hd Hit) as [k Hk]. destruct sch as [|a sch]; [done|].
    assert (a ∈ a :: sch) as Ha by left. destruct (item_key_lookup _ it k a Hk Ha) as [v Hv]. intros He.
    rewrite <-(key_part_lookup _ it a Ha), He in Hv. done.
Qed.

(** One item a page. *)
Lemma toy_rest_next all sch start it rest : distinct_keys sch all → toy_rest all sch start = it :: rest →
  it ∈ all ∧ toy_rest all sch (Some (key_part sch it)) = rest.
Proof.
  intros Hd Hr. assert (∃ i, drop i all = it :: rest) as [i Hi].
  { unfold toy_rest in Hr. destruct start as [k|]; [|by exists 0]. destruct (list_find _ all) as [[j y]|]; [by exists (S j)|done]. }
  assert (all !! i = Some it) as Hit by (rewrite <-(Nat.add_0_r i), <-lookup_drop, Hi; done).
  split; [by eapply list_elem_of_lookup_2|]. cbn. rewrite (find_key sch all i it Hd Hit).
  change (S i) with (1 + i). rewrite Nat.add_comm, <-drop_drop, Hi. done.
Qed.

Lemma toy_page_shows d t q keep start :
  distinct_keys (toy_schema t) (toy_rows d t q) → toy_schema t ≠ [] → (∀ it, it ∈ toy_rows d t q → ∃ k, toy_table d t !! k = Some it) →
  shows d t q keep start (toy_page (toy_rows d t q) keep (toy_schema t) start).
Proof.
  intros Hd Hne Hin. split_and!; [| |intros _; by apply toy_page_law]; unfold toy_page;
    destruct (toy_rest _ _ start) as [|it rest] eqn:Hr; try done;
    destruct (toy_rest_next _ _ _ _ _ Hd Hr) as [Hit Hnext].
  - cbn [items default]. apply Forall_forall. intros x [Hk ->%list_elem_of_singleton]%list_elem_of_filter. split; [by apply Hin|done].
  - cbn. intros k [= <-] _. cbn in Hnext |- *. rewrite Hr, Hnext. cbn. lia.
Qed.

Lemma toy_schema_nonempty t : toy_schema t ≠ [].
Proof. unfold toy_schema. by repeat case_bool_decide. Qed.

Lemma toy_keyed d t k it : toy_table d t !! k = Some it → item_key (toy_schema t) it = Some k.
Proof. by intros [_ ?]%map_lookup_filter_Some. Qed.

Lemma toy_rows_distinct d t q : distinct_keys (toy_schema t) (toy_rows d t q).
Proof.
  assert (distinct_keys (toy_schema t) (map_to_list (toy_table d t)).*2) as Hall.
  { split.
    - rewrite <-list_fmap_compose. rewrite (list_fmap_ext _ (Some ∘ fst)).
      + rewrite (list_fmap_compose fst Some). apply (NoDup_fmap_2 Some), NoDup_fst_map_to_list.
      + intros i [k it] Hi. cbn. apply list_elem_of_lookup_2, elem_of_map_to_list in Hi. by eapply toy_keyed.
    - apply Forall_fmap, Forall_forall. intros [k it] Hin%elem_of_map_to_list. cbn. eexists. by eapply toy_keyed. }
  assert (∀ P `{∀ it, Decision (P it)} l, distinct_keys (toy_schema t) l → distinct_keys (toy_schema t) (filter P l)) as Hf.
  { intros P ? l [Hn Hl]. split; [by apply NoDup_fmap_filter|].
    rewrite Forall_forall in Hl |- *. intros it [_ Hin]%list_elem_of_filter. by apply Hl. }
  assert (distinct_keys (toy_schema t) []) by (split; constructor).
  unfold toy_rows. destruct q as [[kc [|[ph v] vs]]|]; [done| |done].
  destruct (as_s v); [|done]. destruct (head (toy_schema t)); [|done]. by apply Hf.
Qed.

Lemma toy_rows_current d t q it : it ∈ toy_rows d t q → ∃ k, toy_table d t !! k = Some it.
Proof.
  assert (∀ x, x ∈ (map_to_list (toy_table d t)).*2 → ∃ k, toy_table d t !! k = Some x) as Hall.
  { intros x ([k y] & -> & Hy%elem_of_map_to_list)%list_elem_of_fmap. by exists k. }
  unfold toy_rows. destruct q as [[kc [|[ph v] vs]]|]; [by intros ?%not_elem_of_nil| |apply Hall].
  destruct (as_s v); [|by intros ?%not_elem_of_nil]. destruct (head (toy_schema t)); [|by intros ?%not_elem_of_nil].
  intros [_ ?]%list_elem_of_filter. by apply Hall.
Qed.

Lemma toy_shows d t q keep start : shows d t q keep start (toy_page (toy_rows d t q) keep (toy_schema t) start).
Proof. apply toy_page_shows; [apply toy_rows_distinct|apply toy_schema_nonempty|apply toy_rows_current]. Qed.

Lemma with_key_eq {A} (t : string) (it : Item) (k : list string) (f : list string → ToyTables → result string A * ToyTables) (d : ToyTables) :
  item_key (toy_schema t) it = Some k → with_key t it f d = f k d.
Proof. unfold with_key. by intros ->. Qed.

Lemma rows_size d t q : length (toy_rows d t q) ≤ size (toy_table d t).
Proof.
  rewrite <-length_map_to_list, <-(length_fmap snd). unfold toy_rows. destruct q as [[kc [|[ph v] vs]]|]; cbn [length]; try lia.
  destruct (as_s v); cbn; [|lia]. destruct (head (toy_schema t)); cbn; [|lia]. apply length_filter.
Qed.

Lemma toy_get_law t key k d r d' : item_key (toy_schema t) key = Some k → get_item t key (d : ToyTables) = (r, d') →
  d' = d ∧ r = Ok (toy_table d t !! k).
Proof. intros Hk Hg. cbn in Hg. rewrite (with_key_eq _ _ _ _ _ Hk) in Hg. by injection Hg as <- <-. Qed.

Lemma toy_page_match all (P : Item → Prop) keep sch start : Forall P all → Forall P (default [] (items (toy_page all keep sch start))).
Proof.
  intros Hall. unfold toy_page. destruct (toy_rest all sch start) as [|it rest] eqn:Hr; [constructor|].
  cbn [items default from_option]. apply Forall_forall. intros x [_ ->%list_elem_of_singleton]%list_elem_of_filter.
  rewrite Forall_forall in Hall. apply Hall. unfold toy_rest in Hr.
  destruct start as [k|]; [|rewrite Hr; left]. destruct (list_find _ all) as [[j y]|]; [|done].
  apply (list_elem_of_lookup_2 _ (S j + 0)). rewrite <-lookup_drop, Hr. done.
Qed.

Lemma toy_query_match d t a ph v rest keep start kc : head (toy_schema t) = Some a →
  Forall (λ it, it !! a ≫= as_s = Some v)
    (default [] (items (toy_page (toy_rows d t (Some (kc, (ph, AvS v) :: rest))) keep (toy_schema t) start))).
Proof.
  intros Ha. apply toy_page_match. unfold toy_rows. cbn [as_s]. rewrite Ha. apply Forall_forall.
  by intros it [? _]%list_elem_of_filter.
Qed.

#[export] Instance toy_laws : DynamoLaws ToyTables.
Proof.
  split; intros; cbn [put_item get_item update_item delete_item batch_write_item scan query describe_table toy_client
                      schema table toy_tables] in *.
  - by eapply toy_keyed.
  - by exists k.
  - apply rows_size.
  - done.
  - cbn in *. rewrite H. done.
  - reflexivity.
  - done.
  - done.
  - done.
  - done.
  - done.
  - done.
  - done.
  - done.
  - destruct (toy_get_law _ _ _ _ _ _ H H0) as [-> ->]. split; [done|]. intros o [= <-]. split; [|done].
    intros it Hit. split; [by exists k|by eapply toy_keyed].
  - injection H as <- <-. split; [done|]. intros p [= <-]. apply (toy_shows d t None).
  - injection H as <- <-. split; [done|]. intros p [= <-]. apply (toy_shows d t (Some (kc, vs))).
  - injection H1 as <- <-. exact (toy_query_match d t a ph v rest _ start "" H).
  - by injection H as <- <-.
  - rewrite (with_key_eq _ _ _ _ _ H) in H0. apply toy_write_outcome in H0. destruct r; naive_solver eauto using stored_as_refl.
  - rewrite (with_key_eq _ _ _ _ _ H) in H0. apply toy_write_outcome in H0. destruct r; naive_solver eauto using stored_as_refl.
  - rewrite (with_key_eq _ _ _ _ _ H) in H0. injection H0 as <- <-. cbn [outcome]. apply toy_changed. intros t'.
    destruct (toy_remove_changed t [k] d t') as [Ht _]. cbn in Ht. rewrite Ht. destruct (decide (t' = t)) as [->|]; [|done].
    apply map_eq. intros j. apply option_eq. intros x.
    rewrite map_lookup_filter_Some, lookup_delete_Some, list_elem_of_singleton. naive_solver.
  - injection H1 as <- <-. exists ks. split_and!; [done| |by intros u _ k Hk; left].
    assert (omap (item_key (toy_schema t)) reqs = ks) as ->; [|apply toy_remove_changed].
    clear -H. induction H as [|it k reqs ks Hk _ IH]; [done|]. cbn. rewrite Hk. by f_equal.
Qed.

End ToyDynamo.

(* ------------------------------------------------------------------ *)
(** ** A service whose reads lag behind

    Writes go to the first copy of the tables and reads are answered from the second,
    which has not seen them yet. *)

Module LaggingDynamo.
Import ToyDynamo.

Record LagTables : Type := mkLag { leader : ToyTables; replica : ToyTables }.

#[export] Instance lag_tables : DynamoTables LagTables := {|
  schema := toy_schema;
  table d := toy_table (leader d);
  seen d t it := (∃ k, toy_table (leader d) t !! k = Some it) ∨ ∃ k, toy_table (replica d) t !! k = Some it;
  settled d t := toy_table (replica d) t = toy_table (leader d) t;
  pages_left d t q start := length (toy_rest (toy_rows (replica d) t q) (toy_schema t) start);
  rows d := toy_rows (leader d);
  condition_holds := toy_condition;
  apply_update := toy_update;
  filter_holds := toy_filter
|}.

Definition write {A} (m : M ToyTables string A) : M LagTables string A :=
  λ d, match m (leader d) with (r, l) => (r, mkLag l (replica d)) end.
Definition read {A} (m : M ToyTables string A) : M LagTables string A :=
  λ d, match m (replica d) with (r, _) => (r, d) end.

#[export] Instance lag_client : DynamoClient LagTables := {|
  put_item t it c := write (put_item t it c);
  get_item t key := read (get_item t key);
  update_item t key e vs c := write (update_item t key e vs c);
  delete_item t key := write (delete_item t key);
  batch_write_item t reqs := write (batch_write_item t reqs);
  scan t start := read (scan t start);
  query t kc f vs start := read (query t kc f vs start);
  describe_table t := read (describe_table t);
  table_size d t := size (toy_table (replica d) t)
|}.

Lemma write_inv {A} (m : M ToyTables string A) d r d' :
  write m d = (r, d') → m (leader d) = (r, leader d') ∧ replica d' = replica d.
Proof. unfold write. destruct (m (leader d)) as [x l] eqn:E. by intros [= <- <-]. Qed.

Lemma read_inv {A} (m : M ToyTables string A) d r d' :
  read m d = (r, d') → d' = d ∧ ∃ l, m (replica d) = (r, l).
Proof. unfold read. destruct (m (replica d)) as [x l] eqn:E. intros [= <- <-]. eauto. Qed.

Lemma lag_changed d d' t f :
  replica d' = replica d → changed (leader d) (leader d') t f → changed d d' t f.
Proof.
  intros Hr Hc t'. split; [apply Hc|]. cbn. rewrite Hr. intros it [[k Hk]|?]; [right; by exists k|left; by right].
Qed.

Lemma lag_shows d t q keep start p : shows (replica d) t q keep start p → shows d t q keep start p.
Proof.
  intros (Hf & Hk & Hp). split_and!; [|done|].
  - eapply Forall_impl; [exact Hf|]. intros it [Hs ?]. split; [by right|done].
  - intros Heq. specialize (Hp I). cbn in *. unfold toy_rows in *. by rewrite Heq in Hp.
Qed.

#[export] Instance lag_laws : DynamoLaws LagTables.
Proof.
  destruct toy_laws as [tk sc ts rs rq ba bp pa pp ub ut up fa fe gl sl ql qm dl wl ul xl bl].
  split; intros; cbn [put_item get_item update_item delete_item batch_write_item scan query describe_table lag_client] in *;
    try match goal with Hw : write _ _ = _ |- _ => apply write_inv in Hw as [Hw Hrep] end;
    try match goal with Hw : read _ _ = _ |- _ => apply read_inv in Hw as [-> [l Hw]] end.
  - exact (tk (leader d) t k it H).
  - left. by exists k.
  - exact (ts (replica d) t q).
  - exact (rs (leader d) t).
  - exact (rq (leader d) t a ph v rest H H0).
  - exact (ba it).
  - exact (bp it).
  - exact (pa it).
  - exact (pp it).
  - exact (ub desc roles sas ts0 cat it).
  - exact (ut desc roles sas ts0 cat tags it).
  - exact (up stmt desc ts0 it).
  - exact (fa p now it).
  - exact (fe p before it).
  - split; [done|]. intros o Ho. destruct (toy_get_law _ _ _ _ _ _ H H0) as [_ ->]. injection Ho as <-. split.
    + intros it Hit. split; [right; by exists k|by eapply toy_keyed].
    + intros Heq. cbn in Heq |- *. by rewrite Heq.
  - split; [done|]. intros p ->. apply lag_shows. by destruct (sl _ _ _ _ _ H) as [_ Hp]; apply Hp.
  - split; [done|]. intros p ->. apply lag_shows. by destruct (ql _ _ _ _ _ _ _ _ H) as [_ Hp]; apply Hp.
  - exact (qm _ _ _ _ _ _ _ _ _ _ H H0 H1).
  - done.
  - specialize (wl _ _ _ _ _ _ _ H H0). revert wl. apply outcome_mono; [by apply lag_changed|].
    intros (Hc & it' & Hit & Hch). split; [exact Hc|]. exists it'. split; [done|]. by apply lag_changed.
  - specialize (ul _ _ _ _ _ _ _ _ _ H H0). revert ul. apply outcome_mono; [by apply lag_changed|].
    intros (Hc & it' & Hit & Hch). split; [exact Hc|]. exists it'. split; [done|]. by apply lag_changed.
  - specialize (xl _ _ _ _ _ _ H H0). revert xl. by apply outcome_mono; apply lag_changed.
  - destruct (bl _ _ _ _ _ _ H H0 H1) as (gone & Hsub & Hch & Hok). exists gone. split; [done|].
    split; [by apply lag_changed|done].
Qed.

End LaggingDynamo.

End DynamoApi.
