(* ===== verification/Dynamo.v ===== *)
(** * The DynamoDB store ([src/src/datastore/dynamodb.rs])

    Every operation of the store, over the client of [DynamoApi].  The theorems say
    what each does to the tables of a service that satisfies [DynamoLaws].  Listings
    read every page the service offers; reads are eventually consistent, so what they
    return is or was stored, and it is the table, each record once, only when its writes
    have settled.  A cascade deletes the policies its listing shows and leaves other
    billets alone; a policy it does not see yet is orphaned
    ([DemoDynamo.cascade_misses_new_policy]).  The contract [DataStore.DataStoreLaws]
    does not hold of this store; the differences are the lemmas at the end. *)

From S2P Require Import Prelude DataStore DynamoApi Config.

Module Dynamo.
Import DataStore DynamoApi.

(* ------------------------------------------------------------------ *)
(** ** Items *)

Definition get_string (item : Item) (key : string) : option string := item !! key ≫= as_s.

Definition get_string_list (item : Item) (key : string) : list string :=
  match item !! key ≫= as_l with Some l => omap as_s l | None => [] end.

Definition get_string_set (item : Item) (key : string) : list string := default [] (item !! key ≫= as_ss).

Definition get_binary (item : Item) (key : string) : list Z := default [] (item !! key ≫= as_b).

Definition map_sdk_error (msg : string) : DataStoreError :=
  if Str.contains "ConditionalCheckFailed" msg || Str.contains "ConditionalCheckFailedException" msg then Conflict msg
  else if Str.contains "ResourceNotFoundException" msg || Str.contains "ResourceNotFound" msg then NotFound msg
  else Internal msg.

Record DynamoDataStore : Type := mkDynamo {
  billets_table : string;
  policies_table : string;
  keys_table : string
}.

(** [s.trim_end_matches(p)] for a string: removes the suffix as often as it is there. *)
Definition trim_end_matches (p s : string) : string := Str.trim_with (Str.strip_suffix p) (String.length s) s.

Definition new (config : Config.DynamoDbConfig) : DynamoDataStore :=
  let prefix := trim_end_matches "-billets" (Config.db_billets_table config) in
  mkDynamo (Config.db_billets_table config) (Config.db_policies_table config) (prefix +:+ "-keys").

Definition item_to_billet (item : Item) : BilletRecord :=
  mkBillet (default "" (get_string item "name")) (default "" (get_string item "description"))
    (get_string_list item "associated_aws_roles") (get_string_list item "associated_gcp_sas")
    (get_string_set item "tags") (default "" (get_string item "created_at")) (default "" (get_string item "updated_at")).

Definition item_to_policy (item : Item) : PolicyRecord :=
  mkPolicy (default "" (get_string item "billet_name")) (default "" (get_string item "policy_id"))
    (default "" (get_string item "statement")) (default "" (get_string item "description"))
    (default "" (get_string item "created_at")) (default "" (get_string item "updated_at")).

Definition item_to_key (item : Item) : EphemeralKeyRecord :=
  mkKey (default "" (get_string item "key_id")) (default "" (get_string item "public_key_pem"))
    (get_binary item "private_key_encrypted") (get_binary item "kms_attestation")
    (default "" (get_string item "algorithm")) (default "" (get_string item "created_at"))
    (default "" (get_string item "expires_at")) (default "" (get_string item "purpose")).

(** The items of [create_billet], [create_policy] and [put_ephemeral_key]. *)
Definition billet_item (record : BilletRecord) : Item :=
  let item := list_to_map [("name", AvS (name record)); ("description", AvS (description record));
                ("associated_aws_roles", AvL (AvS <$> associated_aws_roles record));
                ("associated_gcp_sas", AvL (AvS <$> associated_gcp_sas record));
                ("created_at", AvS (created_at record)); ("updated_at", AvS (updated_at record))] in
  if bool_decide (tags record = []) then item else <["tags" := AvSs (tags record)]> item.

Definition policy_item (record : PolicyRecord) : Item :=
  list_to_map [("billet_name", AvS (billet_name record)); ("policy_id", AvS (policy_id record));
               ("statement", AvS (statement record)); ("description", AvS (pdescription record));
               ("created_at", AvS (pcreated_at record)); ("updated_at", AvS (pupdated_at record))].

Definition key_item (record : EphemeralKeyRecord) : Item :=
  list_to_map [("purpose", AvS (purpose record)); ("key_id", AvS (key_id record));
               ("public_key_pem", AvS (public_key_pem record));
               ("private_key_encrypted", AvB (private_key_encrypted record));
               ("kms_attestation", AvB (kms_attestation record)); ("algorithm", AvS (algorithm record));
               ("created_at", AvS (kcreated_at record)); ("expires_at", AvS (kexpires_at record))].

Definition billet_key (n : string) : Item := {["name" := AvS n]}.
Definition policy_key_item (b i : string) : Item := {["billet_name" := AvS b; "policy_id" := AvS i]}.

(* ------------------------------------------------------------------ *)
(** ** Operations *)

Section operations.
Context `{DynamoClient D} (st : DynamoDataStore).

Definition call {A} (m : M D string A) : M D DataStoreError A := m_map_err map_sdk_error m.

(** [for x in l { f(x).await?; }] *)
Fixpoint for_each {A} (f : A → M D DataStoreError unit) (l : list A) : M D DataStoreError unit :=
  match l with
  | [] => mret tt
  | x :: l' => _ ← f x; for_each f l'
  end.

(** The loop of the listings: pages until there is no key to go on from. *)
Fixpoint collect {B} (fuel : nat) (f : Item → option B) (fetch : option Item → M D string Page) (start : option Item) :
    M D DataStoreError (list B) :=
  match fuel with
  | O => throw (Internal "")
  | S fuel' =>
      resp ← call (fetch start);
      let records := omap f (default [] (items resp)) in
      match last_evaluated_key resp with
      | Some key =>
          if bool_decide (size key = 0) then mret records
          else rest ← collect fuel' f fetch (Some key); mret (records ++ rest)
      | None => mret records
      end
  end.

Definition list_pages {B} (t : string) (f : Item → option B) (fetch : option Item → M D string Page) :
    M D DataStoreError (list B) :=
  d ← get_st; collect (S (table_size d t)) f fetch None.

Definition d_create_billet (record : BilletRecord) : M D DataStoreError unit :=
  call (put_item (billets_table st) (billet_item record) (Some (mkCondition "attribute_not_exists(#n)" [("#n", "name")]))).

Definition d_get_billet (n : string) : M D DataStoreError (option BilletRecord) :=
  resp ← call (get_item (billets_table st) (billet_key n));
  mret (item_to_billet <$> resp).

Definition d_update_billet (record : BilletRecord) : M D DataStoreError unit :=
  let values := [(":desc", AvS (description record)); (":roles", AvL (AvS <$> associated_aws_roles record));
                 (":sas", AvL (AvS <$> associated_gcp_sas record)); (":ts", AvS (updated_at record));
                 (":cat", AvS (created_at record))] in
  let condition := Some (mkCondition "attribute_exists(#n)" [("#n", "name")]) in
  if bool_decide (tags record = []) then
    call (update_item (billets_table st) (billet_key (name record))
            "SET description = :desc, associated_aws_roles = :roles, associated_gcp_sas = :sas, updated_at = :ts, created_at = if_not_exists(created_at, :cat)"
            values condition)
  else
    call (update_item (billets_table st) (billet_key (name record))
            "SET description = :desc, associated_aws_roles = :roles, associated_gcp_sas = :sas, updated_at = :ts, created_at = if_not_exists(created_at, :cat), tags = :tags"
            (values ++ [(":tags", AvSs (tags record))]) condition).

Definition d_list_billets : M D DataStoreError (list BilletRecord) :=
  list_pages (billets_table st) (Some ∘ item_to_billet) (scan (billets_table st)).

Definition d_create_policy (record : PolicyRecord) : M D DataStoreError unit :=
  call (put_item (policies_table st) (policy_item record)
          (Some (mkCondition "attribute_not_exists(billet_name) AND attribute_not_exists(policy_id)" []))).

Definition d_get_policy (b i : string) : M D DataStoreError (option PolicyRecord) :=
  resp ← call (get_item (policies_table st) (policy_key_item b i));
  mret (item_to_policy <$> resp).

Definition d_update_policy (record : PolicyRecord) : M D DataStoreError unit :=
  call (update_item (policies_table st) (policy_key_item (billet_name record) (policy_id record))
          "SET statement = :stmt, description = :desc, updated_at = :ts"
          [(":stmt", AvS (statement record)); (":desc", AvS (pdescription record)); (":ts", AvS (pupdated_at record))]
          (Some (mkCondition "attribute_exists(billet_name)" []))).

Definition d_delete_policy (b i : string) : M D DataStoreError unit :=
  call (delete_item (policies_table st) (policy_key_item b i)).

Definition d_list_policies_for_billet (b : string) : M D DataStoreError (list PolicyRecord) :=
  list_pages (policies_table st) (Some ∘ item_to_policy)
    (query (policies_table st) "billet_name = :bn" None [(":bn", AvS b)]).

Definition d_list_all_policies : M D DataStoreError (list PolicyRecord) :=
  list_pages (policies_table st) (Some ∘ item_to_policy) (scan (policies_table st)).

(** The loop over one chunk: the whole chunk is sent again while requests are left
    undone, three times at most.  The back-off is not modelled. *)
Fixpoint delete_chunk (retries_left : nat) (t : string) (delete_requests : list Item) : M D DataStoreError unit :=
  resp ← call (batch_write_item t delete_requests);
  match resp ≫= (.!! t) with
  | Some (_ :: _) =>
      match retries_left with
      | O => throw (Internal "exceeded max retries for BatchWriteItem unprocessed items")
      | S retries_left' => delete_chunk retries_left' t delete_requests
      end
  | _ => mret tt
  end.

Definition d_delete_billet_cascade (n : string) : M D DataStoreError Z :=
  policies ← d_list_policies_for_billet n;
  let policy_count := wrap 32 (Z.of_nat (length policies)) in
  _ ← for_each (λ chunk, delete_chunk 3 (policies_table st) ((λ p, policy_key_item (billet_name p) (policy_id p)) <$> chunk))
        (chunks (length policies) 25 policies);
  _ ← call (delete_item (billets_table st) (billet_key n));
  mret (wrap 32 (policy_count + 1)).

Definition d_put_ephemeral_key (record : EphemeralKeyRecord) : M D DataStoreError unit :=
  call (put_item (keys_table st) (key_item record) None).

Definition d_get_active_ephemeral_keys (purpose_ now : string) : M D DataStoreError (list EphemeralKeyRecord) :=
  list_pages (keys_table st) (Some ∘ item_to_key)
    (query (keys_table st) "purpose = :p" (Some "expires_at > :now") [(":p", AvS purpose_); (":now", AvS now)]).

Definition d_delete_expired_ephemeral_keys (purpose_ before : string) : M D DataStoreError Z :=
  expired_keys ← list_pages (keys_table st) (λ item, get_string item "key_id")
    (query (keys_table st) "purpose = :p" (Some "expires_at <= :before") [(":p", AvS purpose_); (":before", AvS before)]);
  let count := wrap 32 (Z.of_nat (length expired_keys)) in
  _ ← for_each (λ chunk, _ ← call (batch_write_item (keys_table st)
                                ((λ key_id, {["purpose" := AvS purpose_; "key_id" := AvS key_id]}) <$> chunk));
                         mret tt)
        (chunks (length expired_keys) 25 expired_keys);
  mret count.

Definition d_ping : M D DataStoreError unit := call (describe_table (billets_table st)).

#[local] Instance Dynamo_DataStore : DataStore D := {
  create_billet := d_create_billet;
  get_billet := d_get_billet;
  update_billet := d_update_billet;
  delete_billet_cascade := d_delete_billet_cascade;
  list_billets := d_list_billets;
  create_policy := d_create_policy;
  get_policy := d_get_policy;
  update_policy := d_update_policy;
  delete_policy := d_delete_policy;
  list_policies_for_billet := d_list_policies_for_billet;
  list_all_policies := d_list_all_policies;
  put_ephemeral_key := d_put_ephemeral_key;
  get_active_ephemeral_keys := d_get_active_ephemeral_keys;
  delete_expired_ephemeral_keys := d_delete_expired_ephemeral_keys;
  ping := d_ping
}.
End operations.

(* ------------------------------------------------------------------ *)
(** ** Listings *)

Section data.
Context `{DynamoTables D}.

Lemma same_data_refl (d : D) : same_data d d.
Proof. done. Qed.

Lemma same_data_trans (d1 d2 d3 : D) : same_data d1 d2 → same_data d2 d3 → same_data d1 d3.
Proof.
  intros H12 H23 t. destruct (H12 t) as (Ht & Hr & Hs & Hse & Hp), (H23 t) as (Ht' & Hr' & Hs' & Hse' & Hp').
  split; [by rewrite Ht', Ht|]. split; [intros q; by rewrite Hr', Hr|]. split; [by intros it ?%Hs'%Hs|].
  split; [by intros ?%Hse%Hse'|]. intros q k. etrans; [apply Hp'|apply Hp].
Qed.

Lemma changed_id (d d' : D) t : changed d d' t (λ m, m) → ∀ t', table d' t' = table d t'.
Proof. intros Hc t'. rewrite (proj1 (Hc t')). by destruct (decide _). Qed.

Lemma changed_at (d d' : D) t f : changed d d' t f → table d' t = f (table d t).
Proof. intros Hc. rewrite (proj1 (Hc t)). by destruct (decide _). Qed.

Lemma changed_other (d d' : D) t f t' : changed d d' t f → t' ≠ t → table d' t' = table d t'.
Proof. intros Hc Ht. rewrite (proj1 (Hc t')). by destruct (decide _). Qed.
End data.

Lemma call_inv {D A} (m : M D string A) d r d' :
  call m d = (r, d') → ∃ x, m d = (x, d') ∧ r = map_err map_sdk_error x.
Proof. apply m_map_err_inv. Qed.

Section listings.
Context `{DynamoLaws D}.

(** One turn of the loop: an error, the last page, or a page and the rest. *)
Lemma collect_error {B} fuel (f : Item → option B) fetch start (d : D) msg d1 :
  fetch start d = (Err msg, d1) → collect (S fuel) f fetch start d = (Err (map_sdk_error msg), d1).
Proof. intros Hp. cbn [collect]. unfold mbind, M_bind, call, m_map_err. by rewrite Hp. Qed.

Lemma collect_last {B} fuel (f : Item → option B) fetch start (d : D) p d1 :
  fetch start d = (Ok p, d1) → last_evaluated_key p = None →
  collect (S fuel) f fetch start d = (Ok (omap f (default [] (items p))), d1).
Proof. intros Hp Hl. cbn [collect]. unfold mbind, M_bind, call, m_map_err. rewrite Hp. cbn [map_err]. by rewrite Hl. Qed.

Lemma collect_empty {B} fuel (f : Item → option B) fetch start (d : D) p d1 :
  fetch start d = (Ok p, d1) → last_evaluated_key p = Some ∅ →
  collect (S fuel) f fetch start d = (Ok (omap f (default [] (items p))), d1).
Proof. intros Hp Hl. cbn [collect]. unfold mbind, M_bind, call, m_map_err. rewrite Hp. cbn [map_err]. by rewrite Hl. Qed.

Lemma collect_more {B} fuel (f : Item → option B) fetch start (d : D) p d1 key :
  fetch start d = (Ok p, d1) → last_evaluated_key p = Some key → key ≠ ∅ →
  collect (S fuel) f fetch start d =
    match collect fuel f fetch (Some key) d1 with
    | (Ok rest, d2) => (Ok (omap f (default [] (items p)) ++ rest), d2)
    | (Err e, d2) => (Err e, d2)
    end.
Proof.
  intros Hp Hl Hne. cbn [collect]. unfold mbind, M_bind, call, m_map_err. rewrite Hp. cbn [map_err]. rewrite Hl.
  by rewrite bool_decide_false by (by rewrite map_size_empty_iff).
Qed.

Section pages.
Context {B : Type} (t : string) (q : option (string * Values)) (keep : Item → bool) (P : Item → Prop)
  (f : Item → option B) (fetch : option Item → M D string Page).
Hypothesis fetch_ok : ∀ start d r d', fetch start d = (r, d') →
  same_data d d' ∧ ∀ p, r = Ok p → shows d t q keep start p ∧ Forall P (default [] (items p)).

(** A record of an item that a read of the listing may show. *)
Definition shown (d : D) (b : B) : Prop := ∃ it, seen d t it ∧ keep it = true ∧ P it ∧ f it = Some b.

Lemma shown_before d d' b : same_data d d' → shown d' b → shown d b.
Proof. intros Hd (it & Hs & ?). exists it. split; [|done]. by apply (Hd t). Qed.

Lemma shown_page d start p : shows d t q keep start p → Forall P (default [] (items p)) →
  Forall (shown d) (omap f (default [] (items p))).
Proof.
  intros (Hs & _) HP. apply Forall_forall. intros b (it & Hit & Hb)%list_elem_of_omap. exists it.
  rewrite Forall_forall in Hs, HP. specialize (Hs it Hit). specialize (HP it Hit). naive_solver.
Qed.

(** The pages from a key on: with fuel for the pages left the loop ends, whatever the fuel;
    it shows stored items, and once the table has settled all of them, in their order. *)
Lemma collect_spec : ∀ fuel start d r d', pages_left d t q start < fuel →
  collect fuel f fetch start d = (r, d') →
  same_data d d' ∧
  (∀ l, r = Ok l → Forall (shown d) l ∧
     ∀ i, settled d t → starts_at (rows d t q) (schema t) start i →
       l = omap f (filter (λ it, keep it = true) (drop i (rows d t q)))) ∧
  (∀ fuel', fuel ≤ fuel' → collect fuel' f fetch start d = (r, d')).
Proof.
  induction fuel as [|fuel IH]; intros start d r d' Hfuel Hrun; [lia|].
  destruct (fetch start d) as [[p|msg] d1] eqn:Hp; destruct (fetch_ok _ _ _ _ Hp) as [Hd1 Hpage].
  2:{ rewrite (collect_error _ _ _ _ _ _ _ Hp) in Hrun. injection Hrun as <- <-. split_and!; [done|done|].
      intros [|fuel'] Hle; [lia|]. by apply collect_error. }
  destruct (Hpage p eq_refl) as [Hshow HP]. pose proof (shown_page _ _ _ Hshow HP) as Hfirst.
  destruct Hshow as (_ & Hleft & Hlaw).
  destruct (last_evaluated_key p) as [key|] eqn:Hl; [destruct (decide (key = ∅)) as [->|Hne]|].
  - rewrite (collect_empty _ _ _ _ _ _ _ Hp Hl) in Hrun. injection Hrun as <- <-. split_and!; [done| |].
    + intros l [= <-]. split; [done|]. intros i Hset Hi. destruct (Hlaw Hset i Hi) as (n & _ & [[Hn _]|(k & m & it & Hk & Hne & _)]); congruence.
    + intros [|fuel'] Hle; [lia|]. by apply collect_empty.
  - rewrite (collect_more _ _ _ _ _ _ _ _ Hp Hl Hne) in Hrun.
    destruct (collect fuel f fetch (Some key) d1) as [r1 d2] eqn:Hr1. specialize (Hleft key eq_refl Hne).
    pose proof (Hd1 t) as (_ & Hrows & _ & Hset1 & Hpl).
    destruct (IH (Some key) d1 r1 d2 ltac:(specialize (Hpl q (Some key)); lia) Hr1) as (Hd' & Hok & Hf').
    assert (d2 = d') as -> by (by destruct r1; simplify_eq). split_and!; [by eapply same_data_trans| |].
    + intros l ->. destruct r1 as [rest|e]; [|done]. injection Hrun as <-. destruct (Hok rest eq_refl) as [Hrest Hall]. split.
      * apply Forall_app. split; [done|]. eapply Forall_impl; [exact Hrest|]. intros b. by apply shown_before.
      * intros i Hset Hi. destruct (Hlaw Hset i Hi) as (n & Hn & [[Hnone _]|(k & m & it & Hk & _ & -> & Hit & Hkey)]); [congruence|].
        rewrite Hl in Hk. injection Hk as <-. rewrite <-(Hrows q) in Hit.
        rewrite (Hall (i + S m) (Hset1 Hset)) by (exists (i + m), it; split_and!; [done|done|lia]).
        rewrite (Hrows q), Hn, <-omap_app, <-filter_app, <-drop_drop, take_drop. done.
    + intros [|fuel'] Hle; [lia|]. rewrite (collect_more _ _ _ _ _ _ _ _ Hp Hl Hne), Hf' by lia. exact Hrun.
  - rewrite (collect_last _ _ _ _ _ _ _ Hp Hl) in Hrun. injection Hrun as <- <-. split_and!; [done| |].
    + intros l [= <-]. split; [done|]. intros i Hset Hi.
      destruct (Hlaw Hset i Hi) as (n & Hn & [[_ Hend]|(k & m & it & Hk & _)]); [|congruence].
      rewrite Hn, take_ge; [done|]. rewrite length_drop. lia.
    + intros [|fuel'] Hle; [lia|]. by apply collect_last.
Qed.

Lemma list_pages_spec d r d' :
  list_pages t f fetch d = (r, d') →
  same_data d d' ∧
  (∀ l, r = Ok l → Forall (shown d) l ∧ (settled d t → l = omap f (filter (λ it, keep it = true) (rows d t q)))) ∧
  (∀ fuel, table_size d t < fuel → collect fuel f fetch None d = (r, d')).
Proof.
  intros Hrun. pose proof (table_size_law d t q) as Hsize.
  apply (collect_spec (S (table_size d t))) in Hrun as (Hd & Hok & Hfuel); [|lia]. split_and!; [done| |].
  - intros l Hl. destruct (Hok l Hl) as [Hs Hall]. split; [done|]. intros Hset. by apply (Hall 0).
  - intros fuel Hle. apply Hfuel. lia.
Qed.
End pages.

Lemma scan_pages {B} t (f : Item → option B) (d : D) r d' :
  list_pages t f (scan t) d = (r, d') →
  same_data d d' ∧
  (∀ l, r = Ok l → Forall (λ b, ∃ it, seen d t it ∧ f it = Some b) l ∧
     (settled d t → l ≡ₚ omap f (map_to_list (table d t)).*2)) ∧
  (∀ fuel, table_size d t < fuel → collect fuel f (scan t) None d = (r, d')).
Proof.
  intros Hrun. apply (list_pages_spec t None (λ _, true) (λ _, True)) in Hrun as (Hd & Hok & Hfuel).
  - split_and!; [done| |done]. intros l Hl. destruct (Hok l Hl) as [Hs Hall]. split.
    + eapply Forall_impl; [exact Hs|]. intros b (it & ? & _ & _ & ?). by exists it.
    + intros Hset. by rewrite (Hall Hset), filter_all_id, rows_scan by (by apply Forall_true).
  - intros start d1 r1 d2 Hr. destruct (scan_law _ _ _ _ _ Hr) as [Hd Hp]. split; [done|].
    intros p ->. split; [by apply Hp|by apply Forall_true].
Qed.

Lemma query_pages {B} t a ph v rest flt (f : Item → option B) (d : D) r d' :
  head (schema t) = Some a → (a, ph) ∈ [("billet_name", ":bn"); ("purpose", ":p")] →
  let vs := (ph, AvS v) :: rest in
  let fetch := query t (a +:+ " = " +:+ ph) flt vs in
  let keep it := match flt with Some f => filter_holds f vs it | None => true end in
  list_pages t f fetch d = (r, d') →
  same_data d d' ∧
  (∀ l, r = Ok l →
     Forall (λ b, ∃ it, seen d t it ∧ keep it = true ∧ it !! a ≫= as_s = Some v ∧ f it = Some b) l ∧
     (settled d t →
      l ≡ₚ omap f (filter (λ it, keep it = true) (filter (λ it, it !! a ≫= as_s = Some v) (map_to_list (table d t)).*2)))) ∧
  (∀ fuel, table_size d t < fuel → collect fuel f fetch None d = (r, d')).
Proof.
  intros Ha Hph vs fetch keep Hrun.
  apply (list_pages_spec t (Some (a +:+ " = " +:+ ph, vs)) keep (λ it, it !! a ≫= as_s = Some v)) in Hrun as (Hd & Hok & Hfuel).
  - split_and!; [done| |done]. intros l Hl. destruct (Hok l Hl) as [Hs Hall]. split; [done|]. intros Hset.
    rewrite (Hall Hset). unfold vs. by rewrite rows_query.
  - intros start d1 r1 d2 Hr. destruct (query_law _ _ _ _ _ _ _ _ Hr) as [Hd Hp]. split; [done|].
    intros p ->. split; [by apply Hp|]. by eapply query_match.
Qed.
End listings.

(* ------------------------------------------------------------------ *)
(** ** What comes back of an item *)

Section stored.
Context (it it' : Item) (Hst : stored_as it it').

Lemma stored_string a : get_string it' a = get_string it a.
Proof.
  unfold get_string. destruct (Hst a) as [v w Hvw|]; [|done]. destruct v, w; cbn in *; congruence.
Qed.

Lemma stored_list a : get_string_list it' a = get_string_list it a.
Proof.
  unfold get_string_list. destruct (Hst a) as [v w Hvw|]; [|done]. destruct v, w; cbn in *; congruence.
Qed.

Lemma stored_set a : get_string_set it' a ≡ₚ get_string_set it a.
Proof.
  unfold get_string_set. destruct (Hst a) as [v w Hvw|]; [|done]. destruct v, w; cbn in *; try congruence; done.
Qed.
End stored.

Lemma strings_of (l : list string) : omap as_s (AvS <$> l) = l.
Proof. induction l as [|s l IH]; [done|]. cbn. f_equal. exact IH. Qed.

(** The record with other tags: a set comes back in any order. *)
Definition with_tags (b : BilletRecord) (ts : list string) : BilletRecord :=
  mkBillet (name b) (description b) (associated_aws_roles b) (associated_gcp_sas b) ts (created_at b) (updated_at b).

Definition same_billet (b b' : BilletRecord) : Prop := b' = with_tags b (tags b') ∧ tags b' ≡ₚ tags b.

Lemma same_billet_refl b : same_billet b b.
Proof. by destruct b. Qed.

Lemma stored_billet it it' : stored_as it it' → same_billet (item_to_billet it) (item_to_billet it').
Proof.
  intros Hst. split; [|by apply stored_set]. unfold item_to_billet, with_tags. cbn.
  by rewrite !(stored_string it it' Hst), !(stored_list it it' Hst).
Qed.

Lemma stored_policy it it' : stored_as it it' → item_to_policy it' = item_to_policy it.
Proof. intros Hst. unfold item_to_policy. by rewrite !(stored_string it it' Hst). Qed.

Lemma billet_of_item b : item_to_billet (billet_item b) = b.
Proof.
  destruct b as [n desc roles sas ts ca ua]. unfold billet_item, item_to_billet, get_string, get_string_list, get_string_set.
  case_bool_decide as Ht; cbn in Ht; [subst ts|]; cbn [list_to_map foldr uncurry fst snd]; simplify_map_eq;
    cbn [mbind option_bind as_s as_l as_ss default from_option]; by rewrite !strings_of.
Qed.

Lemma policy_of_item p : item_to_policy (policy_item p) = p.
Proof. by destruct p. Qed.

Lemma key_of_item k : item_to_key (key_item k) = k.
Proof. by destruct k. Qed.

(* ------------------------------------------------------------------ *)
(** ** Batches *)

Section batches.
Context `{DynamoLaws D}.

(** Some of the keys are gone from the table, all of them after a success. *)
Definition purged {E A} (t : string) (ks : list (list string)) (d : D) (r : result E A) (d' : D) : Prop :=
  ∃ gone, gone ⊆ ks ∧ changed d d' t (filter (λ kv, kv.1 ∉ gone)) ∧ ∀ a, r = Ok a → ks ⊆ gone.

Lemma filter_changed (d d1 : D) t (g : list (list string)) : changed d d1 t (filter (λ kv, kv.1 ∉ g)) → ∀ t', table d1 t' ⊆ table d t'.
Proof.
  intros Hc t'. rewrite (proj1 (Hc t')). destruct (decide (t' = t)); [apply map_filter_subseteq|done].
Qed.

Lemma changed_trans (d d1 d2 : D) t g1 g2 :
  changed d d1 t (filter (λ kv, kv.1 ∉ g1)) → changed d1 d2 t (filter (λ kv, kv.1 ∉ g2)) →
  changed d d2 t (filter (λ kv, kv.1 ∉ g1 ++ g2)).
Proof.
  intros H1' H2' t'. destruct (H1' t') as [T1 S1], (H2' t') as [T2 S2]. rewrite T2, T1. split.
  - destruct (decide (t' = t)) as [->|]; [|done].
    rewrite map_filter_filter. apply map_filter_ext. intros k it _. cbn. rewrite elem_of_app. tauto.
  - rewrite <-T1, <-T2. intros it [Hit|?]%S2; [|by right]. apply S1 in Hit as [?|[k Hk]]; [by left|].
    left. apply (seen_current d t' k), (lookup_weaken _ _ _ _ Hk). by apply (filter_changed _ _ _ _ H1').
Qed.

Lemma purged_nothing {E A} t (d : D) (a : A) : purged t [] d (Ok (E := E) a) d.
Proof.
  exists []. split_and!; [done| |done]. intros t'. split; [|by left]. destruct (decide (t' = t)); [|done]. symmetry.
  apply map_filter_id. intros k it _. apply not_elem_of_nil.
Qed.

Lemma delete_chunk_purges n t reqs ks (d : D) r d' :
  Forall2 (λ it k, item_key (schema t) it = Some k) reqs ks → length reqs ≤ 25 →
  delete_chunk n t reqs d = (r, d') → purged t ks d r d'.
Proof.
  intros Hks Hlen. revert d. induction n as [|n IH]; intros d Hrun; cbn [delete_chunk] in Hrun;
    apply M_bind_inv in Hrun as [(u & d1 & Hb & Hk)|(e & Hb & ->)]; apply call_inv in Hb as (x & Hb & Hx);
    destruct x as [u'|msg]; try done; injection Hx as ->;
    destruct (batch_law _ _ _ _ _ _ Hks Hlen Hb) as (gone & Hsub & Hch & Hok); try (by exists gone).
  all: destruct (u' ≫= (.!! t)) as [[|it its]|] eqn:Hu.
  all: try (injection Hk as <- <-; exists gone; split_and!; [done|done|];
            intros _ _ k Hin; destruct (Hok u' eq_refl k Hin) as [?|(it & Hit & _)]; [done|];
            rewrite Hu in Hit; by apply not_elem_of_nil in Hit).
  - injection Hk as <- <-. by exists gone.
  - destruct (IH _ Hk) as (gone' & Hsub' & Hch' & Hok'). exists (gone ++ gone'). split_and!.
    + by apply list_subseteq_app_iff_l.
    + by eapply changed_trans.
    + intros a Ha. specialize (Hok' a Ha). set_solver.
Qed.

Lemma for_each_purges {A} t (key : A → list string) (f : list A → M D DataStoreError unit) cs (d : D) r d' :
  (∀ c d r d', length c ≤ 25 → f c d = (r, d') → purged t (key <$> c) d r d') →
  Forall (λ c, length c ≤ 25) cs →
  for_each f cs d = (r, d') → purged t (key <$> concat cs) d r d'.
Proof.
  intros Hf. revert d. induction cs as [|c cs IH]; intros d Hlen Hrun.
  { injection Hrun as <- <-. apply purged_nothing. }
  cbn [concat] in *. rewrite fmap_app.
  apply Forall_cons in Hlen as [Hlc Hlen].
  cbn [for_each] in Hrun. apply M_bind_inv in Hrun as [([] & d1 & Hr & Hk)|(e & Hr & ->)];
    destruct (Hf _ _ _ _ Hlc Hr) as (g1 & Hs1 & Hc1 & Ho1).
  - destruct (IH _ Hlen Hk) as (g2 & Hs2 & Hc2 & Ho2). exists (g1 ++ g2). split_and!.
    + set_solver.
    + by eapply changed_trans.
    + intros a Ha. specialize (Ho1 tt eq_refl). specialize (Ho2 a Ha). set_solver.
  - exists g1. split_and!; [set_solver|done|done].
Qed.
End batches.

(* ------------------------------------------------------------------ *)
(** ** Writes *)

Section contract.
Context `{DynamoLaws D} (st : DynamoDataStore).

(** The tables are deployed with the keys the comments of the source give. *)
Record deployed : Prop := {
  dep_billets : schema (billets_table st) = ["name"];
  dep_policies : schema (policies_table st) = ["billet_name"; "policy_id"];
  dep_keys : schema (keys_table st) = ["purpose"; "key_id"];
  dep_distinct : NoDup [billets_table st; policies_table st; keys_table st]
}.

Definition billet (d : D) (n : string) : option BilletRecord := item_to_billet <$> table d (billets_table st) !! [n].
Definition policy (d : D) (b i : string) : option PolicyRecord := item_to_policy <$> table d (policies_table st) !! [b; i].

(** Reads show no policies but those they showed before, and [new]. *)
Definition fresh (d d' : D) (new : list PolicyRecord) : Prop :=
  ∀ it, seen d' (policies_table st) it → seen d (policies_table st) it ∨ item_to_policy it ∈ new.

(** One record is set or removed, all others stay. *)
Definition sets_billet (d d' : D) (n : string) (o : option BilletRecord) : Prop :=
  (∀ m, billet d' m = if decide (m = n) then o else billet d m) ∧ (∀ b i, policy d' b i = policy d b i) ∧ fresh d d' [].
Definition sets_policy (d d' : D) (b i : string) (o : option PolicyRecord) : Prop :=
  (∀ b' i', policy d' b' i' = if decide (b' = b ∧ i' = i) then o else policy d b' i') ∧ (∀ n, billet d' n = billet d n) ∧
  fresh d d' (option_list o).
Definition same_records (d d' : D) : Prop :=
  (∀ n, billet d' n = billet d n) ∧ (∀ b i, policy d' b i = policy d b i) ∧ fresh d d' [].

Lemma changed_fresh d d' t f new : changed d d' t f →
  (∀ k it, t = policies_table st → f (table d t) !! k = Some it → table d t !! k = Some it ∨ item_to_policy it ∈ new) →
  fresh d d' new.
Proof.
  intros Hc Hf it Hit. destruct (Hc (policies_table st)) as [Ht Hs]. apply Hs in Hit as [?|[k Hk]]; [by left|].
  rewrite Ht in Hk. destruct (decide (policies_table st = t)) as [<-|]; [|left; by eapply seen_current].
  destruct (Hf k it eq_refl Hk) as [?|?]; [left; by eapply seen_current|by right].
Qed.

Lemma changed_other_fresh d d' t f : changed d d' t f → t ≠ policies_table st → fresh d d' [].
Proof. intros Hc Ht. eapply changed_fresh; [exact Hc|]. by intros. Qed.

Context (dep : deployed).

Lemma tables_differ : billets_table st ≠ policies_table st.
Proof. pose proof (dep_distinct dep) as Hd. apply NoDup_cons in Hd as [Hd _]. set_solver. Qed.

Lemma billet_key_of n : item_key (schema (billets_table st)) (billet_key n) = Some [n].
Proof. by rewrite (dep_billets dep). Qed.

Lemma policy_key_of b i : item_key (schema (policies_table st)) (policy_key_item b i) = Some [b; i].
Proof. by rewrite (dep_policies dep). Qed.

Lemma billet_item_key b : item_key (schema (billets_table st)) (billet_item b) = Some [name b].
Proof. rewrite (dep_billets dep). unfold billet_item. by case_bool_decide. Qed.

Lemma policy_item_key p : item_key (schema (policies_table st)) (policy_item p) = Some [billet_name p; policy_id p].
Proof. by rewrite (dep_policies dep). Qed.

Lemma same_view d d' t : changed d d' t (λ m, m) → same_records d d'.
Proof.
  intros Hc. split_and!; [intros; unfold billet, policy; by rewrite (changed_id d d' t Hc)..|].
  eapply changed_fresh; [exact Hc|]. by left.
Qed.

Lemma put_billet_view d d' n it' :
  changed d d' (billets_table st) <[[n] := it']> → sets_billet d d' n (Some (item_to_billet it')).
Proof.
  intros Hc. split_and!; [| |by eapply changed_other_fresh, tables_differ].
  - intros m. unfold billet. rewrite (changed_at _ _ _ _ Hc). destruct (decide (m = n)) as [->|Hm].
    + by rewrite lookup_insert_eq.
    + rewrite lookup_insert_ne by congruence. done.
  - intros b i. unfold policy. by rewrite (changed_other _ _ _ _ _ Hc (not_eq_sym tables_differ)).
Qed.

Lemma put_policy_view d d' b i it' :
  changed d d' (policies_table st) <[[b; i] := it']> → sets_policy d d' b i (Some (item_to_policy it')).
Proof.
  intros Hc. split_and!.
  3:{ eapply changed_fresh; [exact Hc|]. intros k it _ [[_ <-]|[_ ?]]%lookup_insert_Some; [right; left|by left]. }
  - intros b' i'. unfold policy. rewrite (changed_at _ _ _ _ Hc). destruct (decide (b' = b ∧ i' = i)) as [[-> ->]|Hm].
    + by rewrite lookup_insert_eq.
    + rewrite lookup_insert_ne by naive_solver. done.
  - intros n. unfold billet. by rewrite (changed_other _ _ _ _ _ Hc tables_differ).
Qed.

Lemma delete_policy_view d d' b i :
  changed d d' (policies_table st) (delete [b; i]) → sets_policy d d' b i None.
Proof.
  intros Hc. split_and!.
  3:{ eapply changed_fresh; [exact Hc|]. intros k it _ [_ ?]%lookup_delete_Some. by left. }
  - intros b' i'. unfold policy. rewrite (changed_at _ _ _ _ Hc). destruct (decide (b' = b ∧ i' = i)) as [[-> ->]|Hm].
    + by rewrite lookup_delete_eq.
    + rewrite lookup_delete_ne by naive_solver. done.
  - intros n. unfold billet. by rewrite (changed_other _ _ _ _ _ Hc tables_differ).
Qed.

(** The key attributes of a stored item. *)
Lemma billet_row d n it : table d (billets_table st) !! [n] = Some it → get_string it "name" = Some n.
Proof.
  intros Hk%table_keyed. rewrite (dep_billets dep) in Hk. apply mapM_Some_1 in Hk. by inversion_clear Hk.
Qed.

Lemma policy_row d b i it : table d (policies_table st) !! [b; i] = Some it →
  get_string it "billet_name" = Some b ∧ get_string it "policy_id" = Some i.
Proof.
  intros Hk%table_keyed. rewrite (dep_policies dep) in Hk. apply mapM_Some_1 in Hk.
  inversion_clear Hk as [|? ? ? ? Hb Hk']. by inversion_clear Hk'.
Qed.

Lemma outcome_call {A} (m : M D string A) d r d' (P Q : Prop) :
  (∀ x, m d = (x, d') → outcome x P Q) → call m d = (r, d') → outcome r P Q.
Proof. intros Hm (x & Hx & ->)%call_inv. specialize (Hm x Hx). by destruct x. Qed.

Lemma d_create_billet_effect rec d r d' : d_create_billet st rec d = (r, d') →
  outcome r (same_records d d')
    (billet d (name rec) = None ∧ ∃ b', same_billet rec b' ∧ sets_billet d d' (name rec) (Some b')).
Proof.
  apply outcome_call. intros x Hx. apply (put_item_law _ _ _ _ _ _ _ (billet_item_key rec)) in Hx.
  revert Hx. apply outcome_mono; [apply same_view|]. intros [Hc (it' & Hst & Hch)]. cbn in Hc. rewrite billet_absent in Hc.
  apply bool_decide_eq_true in Hc. split.
  - unfold billet. destruct (table d (billets_table st) !! [name rec]) as [it|] eqn:Hit; [|done].
    apply billet_row in Hit. cbn in Hc. unfold get_string in Hit. by rewrite Hc in Hit.
  - exists (item_to_billet it'). split; [|by apply put_billet_view]. rewrite <-(billet_of_item rec) at 1. by apply stored_billet.
Qed.

(** What an update makes of a record: the tags stay when the new ones are empty, and
    the creation time stays when there is one. *)
Definition updated (old rec : BilletRecord) (ca : string) : BilletRecord :=
  mkBillet (name rec) (description rec) (associated_aws_roles rec) (associated_gcp_sas rec)
    (if bool_decide (tags rec = []) then tags old else tags rec) ca (updated_at rec).

Lemma set_billet_record n rec it :
  get_string it "name" = Some n → n = name rec →
  ∃ ca, (ca = created_at (item_to_billet it) ∨ created_at (item_to_billet it) = "" ∧ ca = created_at rec) ∧
    let s := set_billet (AvS (description rec)) (AvL (AvS <$> associated_aws_roles rec)) (AvL (AvS <$> associated_gcp_sas rec))
               (AvS (updated_at rec)) (AvS (created_at rec)) it in
    item_to_billet (if bool_decide (tags rec = []) then s else <["tags" := AvSs (tags rec)]> s) =
      updated (item_to_billet it) rec ca.
Proof.
  intros Hn ->. exists (default "" (as_s (default (AvS (created_at rec)) (it !! "created_at")))). split.
  - unfold item_to_billet, get_string. cbn. destruct (it !! "created_at") as [v|]; cbn; [by left|by right].
  - cbn zeta. unfold item_to_billet, updated, set_billet, get_string, get_string_list, get_string_set in *.
    cbn [tags]. case_bool_decide; simplify_map_eq; cbn [mbind option_bind as_s as_l as_ss default from_option];
      rewrite ?strings_of, ?Hn; reflexivity.
Qed.

Lemma d_update_billet_effect rec d r d' : d_update_billet st rec d = (r, d') →
  outcome r (same_records d d')
    (∃ old ca b', billet d (name rec) = Some old ∧
       (ca = created_at old ∨ created_at old = "" ∧ ca = created_at rec) ∧
       same_billet (updated old rec ca) b' ∧ sets_billet d d' (name rec) (Some b')).
Proof.
  set (s := λ it, set_billet (AvS (description rec)) (AvL (AvS <$> associated_aws_roles rec))
               (AvL (AvS <$> associated_gcp_sas rec)) (AvS (updated_at rec)) (AvS (created_at rec)) it).
  intros Hrun. assert (outcome r (changed d d' (billets_table st) (λ m, m))
    (is_Some (default ∅ (table d (billets_table st) !! [name rec]) !! "name") ∧
     ∃ it', let it := default (billet_key (name rec)) (table d (billets_table st) !! [name rec]) in
       stored_as (if bool_decide (tags rec = []) then s it else <["tags" := AvSs (tags rec)]> (s it)) it' ∧
       changed d d' (billets_table st) <[[name rec] := it']>)) as Ho.
  { revert Hrun. unfold d_update_billet. case_bool_decide; apply outcome_call; intros x Hx;
      apply (update_item_law _ _ _ _ _ _ _ _ _ (billet_key_of (name rec))) in Hx; revert Hx;
      apply outcome_mono; try done; cbn [cond_ok]; rewrite billet_present, bool_decide_eq_true.
    - by setoid_rewrite update_billet_law.
    - by setoid_rewrite update_tags_law. }
  revert Ho. apply outcome_mono; [apply same_view|]. intros [[v Hv] (it' & Hst & Hch)].
  destruct (table d (billets_table st) !! [name rec]) as [it|] eqn:Hit; [|done]. cbn [default from_option id] in *.
  destruct (set_billet_record (name rec) rec it (billet_row _ _ _ Hit) eq_refl) as (ca & Hca & Heq).
  exists (item_to_billet it), ca, (item_to_billet it'). split_and!; [by unfold billet; rewrite Hit|done| |by apply put_billet_view].
  rewrite <-Heq. by apply stored_billet.
Qed.

Lemma d_create_policy_effect rec d r d' : d_create_policy st rec d = (r, d') →
  outcome r (same_records d d')
    (policy d (billet_name rec) (policy_id rec) = None ∧ sets_policy d d' (billet_name rec) (policy_id rec) (Some rec)).
Proof.
  apply outcome_call. intros x Hx. apply (put_item_law _ _ _ _ _ _ _ (policy_item_key rec)) in Hx.
  revert Hx. apply outcome_mono; [apply same_view|]. intros [Hc (it' & Hst & Hch)]. cbn in Hc. rewrite policy_absent in Hc.
  apply bool_decide_eq_true in Hc as [Hc _]. split.
  - unfold policy. destruct (table d (policies_table st) !! _) as [it|] eqn:Hit; [|done].
    apply policy_row in Hit as [Hit _]. cbn in Hc. unfold get_string in Hit. by rewrite Hc in Hit.
  - rewrite <-(policy_of_item rec) at 3. rewrite <-(stored_policy _ _ Hst). by apply put_policy_view.
Qed.

Lemma d_update_policy_effect rec d r d' : d_update_policy st rec d = (r, d') →
  outcome r (same_records d d')
    (∃ old, policy d (billet_name rec) (policy_id rec) = Some old ∧
       sets_policy d d' (billet_name rec) (policy_id rec)
         (Some (mkPolicy (billet_name rec) (policy_id rec) (statement rec) (pdescription rec) (pcreated_at old) (pupdated_at rec)))).
Proof.
  apply outcome_call. intros x Hx.
  apply (update_item_law _ _ _ _ _ _ _ _ _ (policy_key_of (billet_name rec) (policy_id rec))) in Hx.
  revert Hx. apply outcome_mono; [apply same_view|]. intros [Hc (it' & Hst & Hch)]. cbn [cond_ok] in Hc.
  rewrite policy_present in Hc. apply bool_decide_eq_true in Hc as [v Hv].
  destruct (table d (policies_table st) !! _) as [it|] eqn:Hit; [|done]. cbn [default from_option id] in *.
  rewrite (update_policy_law _ _ _ it) in Hst. destruct (policy_row _ _ _ _ Hit) as [Hb Hi].
  exists (item_to_policy it). split; [by unfold policy; rewrite Hit|].
  apply put_policy_view in Hch. rewrite (stored_policy _ _ Hst) in Hch.
  clear v Hv. unfold item_to_policy in Hch at 1.
  unfold get_string in *. rewrite !lookup_insert_ne, Hb, Hi in Hch by done. simplify_map_eq. exact Hch.
Qed.

Lemma d_delete_policy_effect b i d r d' : d_delete_policy st b i d = (r, d') →
  outcome r (same_records d d') (sets_policy d d' b i None).
Proof.
  apply outcome_call. intros x Hx. apply (delete_item_law _ _ _ _ _ _ (policy_key_of b i)) in Hx.
  revert Hx. apply outcome_mono; [apply same_view|apply delete_policy_view].
Qed.

Lemma d_delete_billet_effect n d r d' : call (delete_item (billets_table st) (billet_key n)) d = (r, d') →
  outcome r (same_records d d') (sets_billet d d' n None).
Proof.
  apply outcome_call. intros x Hx. apply (delete_item_law _ _ _ _ _ _ (billet_key_of n)) in Hx.
  revert Hx. apply outcome_mono; [apply same_view|]. intros Hc.
  split_and!; [| |by eapply changed_other_fresh, tables_differ].
  - intros m. unfold billet. rewrite (changed_at _ _ _ _ Hc). destruct (decide (m = n)) as [->|Hm].
    + by rewrite lookup_delete_eq.
    + rewrite lookup_delete_ne by congruence. done.
  - intros b i. unfold policy. by rewrite (changed_other _ _ _ _ _ Hc (not_eq_sym tables_differ)).
Qed.

(** The policies of a billet, as the table has them. *)
Definition policies_of (d : D) (n : string) : list PolicyRecord :=
  item_to_policy <$> filter (λ it, get_string it "billet_name" = Some n) (map_to_list (table d (policies_table st))).*2.

Definition key_of (p : PolicyRecord) : list string := [billet_name p; policy_id p].

Lemma policy_rows d k it : table d (policies_table st) !! k = Some it →
  key_of (item_to_policy it) = k ∧ get_string it "billet_name" = head k.
Proof.
  intros Hk. assert (∃ b i, k = [b; i]) as (b & i & ->).
  { apply table_keyed in Hk. rewrite (dep_policies dep) in Hk. apply mapM_Some_1 in Hk.
    inversion_clear Hk as [|? b ? ? _ Hk']. inversion_clear Hk' as [|? i ? ? _ Hk'']. inversion_clear Hk''. eauto. }
  destruct (policy_row _ _ _ _ Hk) as [Hb Hi]. unfold key_of, item_to_policy. cbn. by rewrite Hb, Hi.
Qed.

Lemma policies_of_keys d n :
  key_of <$> policies_of d n = (filter (λ kv, get_string kv.2 "billet_name" = Some n) (map_to_list (table d (policies_table st)))).*1.
Proof.
  unfold policies_of. rewrite filter_of_fmap, <-!list_fmap_compose. apply list_fmap_ext.
  intros i [k it] Hi%list_elem_of_lookup_2. apply list_elem_of_filter in Hi as [_ Hi%elem_of_map_to_list].
  by apply (policy_rows d).
Qed.

Lemma policies_of_NoDup d n : NoDup (key_of <$> policies_of d n).
Proof. rewrite policies_of_keys. apply NoDup_fmap_filter, NoDup_fst_map_to_list. Qed.

Lemma policies_of_elem d n k : k ∈ key_of <$> policies_of d n ↔ head k = Some n ∧ is_Some (table d (policies_table st) !! k).
Proof.
  rewrite policies_of_keys, list_elem_of_fmap. split.
  - intros ([k' it] & -> & [Hb Hin%elem_of_map_to_list]%list_elem_of_filter). cbn in *.
    destruct (policy_rows _ _ _ Hin) as [_ Hh]. split; [congruence|eauto].
  - intros [Hh [it Hit]]. exists (k, it). split; [done|]. apply list_elem_of_filter. cbn.
    split; [|by apply elem_of_map_to_list]. destruct (policy_rows _ _ _ Hit) as [_ ->]. done.
Qed.

(** The policies listed are of the billet, and all of them once the table has settled. *)
Lemma d_list_policies_for_billet_spec n d r d' : d_list_policies_for_billet st n d = (r, d') →
  same_data d d' ∧ ∀ l, r = Ok l → Forall (λ p, billet_name p = n) l ∧
    (settled d (policies_table st) → l ≡ₚ policies_of d n).
Proof.
  intros Hrun. apply (query_pages (policies_table st) "billet_name" ":bn" n [] None) in Hrun as (Hd & Hok & _).
  - split; [done|]. intros l Hl. destruct (Hok l Hl) as [Hs Hall]. split.
    + eapply Forall_impl; [exact Hs|]. intros p (it & _ & _ & Hn & [= <-]). cbn. unfold get_string. by rewrite Hn.
    + intros Hset. rewrite (Hall Hset), filter_all_id by (by apply Forall_true).
      unfold policies_of, get_string. by rewrite list_fmap_alt.
  - by rewrite (dep_policies dep).
  - left.
Qed.

(** The batches of a cascade remove policies of the listed keys only, and all of them
    if every batch succeeds. *)
Lemma cascade_batches l d r d' :
  for_each (λ chunk, delete_chunk 3 (policies_table st) ((λ p, policy_key_item (billet_name p) (policy_id p)) <$> chunk))
    (chunks (length l) 25 l) d = (r, d') →
  purged (policies_table st) (key_of <$> l) d r d'.
Proof.
  intros Hrun. assert (concat (chunks (length l) 25 l) = l) as Hl by (apply chunks_concat; lia).
  rewrite <-Hl. eapply for_each_purges; [|apply chunks_bound|exact Hrun].
  intros c d1 r1 d2 Hlen. apply delete_chunk_purges; [|by rewrite length_fmap].
  apply Forall2_fmap, Forall_Forall2_diag, Forall_true. intros p. by apply policy_key_of.
Qed.

(** Policies of other billets are not touched, and no policy appears. *)
Lemma purged_policies {E A} (r : result E A) d d' n l :
  Forall (λ p, billet_name p = n) l → purged (policies_table st) (key_of <$> l) d r d' →
  (∀ m, billet d' m = billet d m) ∧
  (∀ b i, b ≠ n → policy d' b i = policy d b i) ∧
  (∀ i, policy d' n i = policy d n i ∨ policy d' n i = None) ∧
  fresh d d' [] ∧
  (∀ a, r = Ok a → l ≡ₚ policies_of d n → ∀ i, policy d' n i = None).
Proof.
  intros Hl (gone & Hsub & Hch & Hok).
  assert (∀ b i, policy d' b i = if decide ([b; i] ∈ gone) then None else policy d b i) as Hp.
  { intros b i. unfold policy. rewrite (changed_at _ _ _ _ Hch). destruct (decide ([b; i] ∈ gone)) as [Hg|Hg].
    - rewrite map_lookup_filter_None_2; [done|]. right. intros it _ Hn. by apply Hn.
    - destruct (table d (policies_table st) !! [b; i]) as [it|] eqn:Hit.
      + by rewrite (map_lookup_filter_Some_2 _ _ _ it).
      + by rewrite map_lookup_filter_None_2 by (by left). }
  split_and!.
  - intros m. unfold billet. by rewrite (changed_other _ _ _ _ _ Hch tables_differ).
  - intros b i Hb. rewrite Hp, decide_False; [done|]. intros (p & Heq & Hin)%Hsub%list_elem_of_fmap.
    rewrite Forall_forall in Hl. injection Heq as -> ->. by apply Hb, Hl.
  - intros i. rewrite Hp. destruct (decide _); eauto.
  - eapply changed_fresh; [exact Hch|]. intros k it _ [? _]%map_lookup_filter_Some. by left.
  - intros a Ha Hall i. rewrite Hp. destruct (decide _) as [|Hg]; [done|]. unfold policy.
    destruct (table d (policies_table st) !! [n; i]) as [it|] eqn:Hit; [|done]. destruct Hg.
    apply (Hok a Ha). rewrite Hall. apply policies_of_elem. eauto.
Qed.

Lemma same_data_records d d' : same_data d d' → same_records d d'.
Proof.
  intros Hd. split_and!; [intros; unfold billet, policy; by rewrite (proj1 (Hd _))..|].
  intros it Hit. left. by apply (Hd (policies_table st)).
Qed.

(** A listing changes nothing and its loop ends, with the same answer for every fuel above
    the bound; what it returns satisfies [from]; and if the table has settled it returns
    each wanted record once, in some order. *)
Definition complete {B} (listing : M D DataStoreError (list B)) (loop : nat → M D DataStoreError (list B))
    (t : string) (d : D) (from : Item → B → Prop) (want : list B) : Prop :=
  ∀ r d', listing d = (r, d') →
    same_data d d' ∧ (∀ fuel, table_size d t < fuel → loop fuel d = (r, d')) ∧
    ∀ l, r = Ok l → Forall (λ b, ∃ it, seen d t it ∧ from it b) l ∧ (settled d t → l ≡ₚ want).

Definition values (d : D) (t : string) : list Item := (map_to_list (table d t)).*2.

Lemma filter_ext_in {A} (P Q : A → Prop) `{∀ x, Decision (P x), ∀ x, Decision (Q x)} (l : list A) :
  Forall (λ x, P x ↔ Q x) l → filter P l = filter Q l.
Proof.
  induction 1 as [|x l Hx _ IH]; [done|]. rewrite !filter_cons, IH. by destruct (decide (P x)), (decide (Q x)); try tauto.
Qed.

Lemma ltb_empty s : String.ltb s "" = false.
Proof. by destruct s. Qed.

Lemma active_keys now p d :
  item_to_key <$> filter (λ it, filter_holds "expires_at > :now" [(":p", AvS p); (":now", AvS now)] it = true)
    (filter (λ it, it !! "purpose" ≫= as_s = Some p) (values d (keys_table st))) =
  filter (λ k, purpose k = p ∧ String.ltb now (kexpires_at k) = true) (item_to_key <$> values d (keys_table st)).
Proof.
  rewrite filter_of_fmap, list_filter_filter. f_equal. apply filter_ext_in, Forall_forall.
  intros it ([k it'] & -> & Hin%elem_of_map_to_list)%list_elem_of_fmap. cbn. rewrite filter_active.
  assert (∃ q, it' !! "purpose" ≫= as_s = Some q) as [q Hq].
  { apply table_keyed in Hin. rewrite (dep_keys dep) in Hin. apply mapM_Some_1 in Hin. inversion_clear Hin. eauto. }
  unfold get_string. rewrite Hq. cbn. destruct (it' !! "expires_at") as [[]|]; cbn; try rewrite ltb_empty; naive_solver.
Qed.

(** C34: the listings of the store end: they read every page and change nothing.  Reads
    are eventually consistent, so a listing may miss the latest writes and show records
    that were removed or replaced, but only records that are or were stored, and only of
    the billet, or of the purpose and expiring later than now.  Once the writes to the
    table have settled it returns each stored record exactly once, and the active keys as
    the file-backed store has them. *)
Theorem dynamo_listing_complete d :
  complete (d_list_billets st) (λ fuel, collect fuel (Some ∘ item_to_billet) (scan (billets_table st)) None)
    (billets_table st) d (λ it b, item_to_billet it = b) (item_to_billet <$> values d (billets_table st)) ∧
  complete (d_list_all_policies st) (λ fuel, collect fuel (Some ∘ item_to_policy) (scan (policies_table st)) None)
    (policies_table st) d (λ it p, item_to_policy it = p) (item_to_policy <$> values d (policies_table st)) ∧
  (∀ n, complete (d_list_policies_for_billet st n)
     (λ fuel, collect fuel (Some ∘ item_to_policy) (query (policies_table st) "billet_name = :bn" None [(":bn", AvS n)]) None)
     (policies_table st) d (λ it p, item_to_policy it = p ∧ billet_name p = n) (policies_of d n)) ∧
  (∀ p now, complete (d_get_active_ephemeral_keys st p now)
     (λ fuel, collect fuel (Some ∘ item_to_key) (query (keys_table st) "purpose = :p" (Some "expires_at > :now")
                                                   [(":p", AvS p); (":now", AvS now)]) None)
     (keys_table st) d (λ it k, item_to_key it = k ∧ purpose k = p ∧ String.ltb now (kexpires_at k) = true)
     (filter (λ k, purpose k = p ∧ String.ltb now (kexpires_at k) = true) (item_to_key <$> values d (keys_table st)))).
Proof.
  split_and!.
  - intros r d' (Hd & Hok & Hf)%scan_pages. split_and!; [done|done|]. intros l Hl. destruct (Hok l Hl) as [Hs Hall]. split.
    + eapply Forall_impl; [exact Hs|]. intros b (it & ? & [= <-]). by exists it.
    + rewrite list_fmap_alt. exact Hall.
  - intros r d' (Hd & Hok & Hf)%scan_pages. split_and!; [done|done|]. intros l Hl. destruct (Hok l Hl) as [Hs Hall]. split.
    + eapply Forall_impl; [exact Hs|]. intros b (it & ? & [= <-]). by exists it.
    + rewrite list_fmap_alt. exact Hall.
  - intros n r d' Hrun. destruct (d_list_policies_for_billet_spec _ _ _ _ Hrun) as [_ Hspec].
    apply (query_pages (policies_table st) "billet_name" ":bn" n [] None) in Hrun as (Hd & Hok & Hfuel);
      [|by rewrite (dep_policies dep)|left]. split_and!; [done|exact Hfuel|]. intros l Hl. split; [|by apply Hspec].
    destruct (Hok l Hl) as [Hs _]. eapply Forall_impl; [exact Hs|]. intros b (it & ? & _ & Hn & [= <-]). exists it.
    split; [done|]. split; [done|]. cbn. unfold get_string. by rewrite Hn.
  - intros p now r d' Hrun. rewrite <-active_keys, list_fmap_alt.
    apply (query_pages (keys_table st) "purpose" ":p" p [(":now", AvS now)] (Some "expires_at > :now")) in Hrun as (Hd & Hok & Hfuel);
      [|by rewrite (dep_keys dep)|right; left]. split_and!; [done|exact Hfuel|]. intros l Hl.
    destruct (Hok l Hl) as [Hs Hall]. split; [|exact Hall].
    eapply Forall_impl; [exact Hs|]. intros b (it & ? & Hk & Hp & [= <-]). exists it. split; [done|]. split; [done|].
    cbn. unfold get_string. rewrite Hp. split; [done|]. rewrite filter_active in Hk.
    destruct (it !! "expires_at") as [[]|]; done.
Qed.

(** The course of a cascade: the listing, the batches, the billet. *)
Lemma cascade_steps n d r d' : d_delete_billet_cascade st n d = (r, d') →
  ∃ d1, same_data d d1 ∧
    ((∃ e, r = Err e ∧ d' = d1) ∨
     ∃ l d2 (r2 : result DataStoreError unit), Forall (λ p, billet_name p = n) l ∧
       (settled d (policies_table st) → l ≡ₚ policies_of d n) ∧ purged (policies_table st) (key_of <$> l) d1 r2 d2 ∧
       ((∃ e, r2 = Err e ∧ r = Err e ∧ d' = d2) ∨
        (r2 = Ok tt ∧ outcome r (same_records d2 d') (sets_billet d2 d' n None) ∧
         ∀ c, r = Ok c → c = wrap 32 (wrap 32 (Z.of_nat (length l)) + 1)))).
Proof.
  intros [(l & d1 & Hl & Hk)|(e & Hl & ->)]%M_bind_inv; apply d_list_policies_for_billet_spec in Hl as [Hd Hl];
    exists d1 || exists d'; (split; [exact Hd|]); [right|left; by exists e].
  destruct (Hl l eq_refl) as [Hn Hall].
  apply M_bind_inv in Hk as [([] & d2 & Hf & Hk)|(e & Hf & ->)]; apply cascade_batches in Hf.
  - exists l, d2, (Ok tt). split_and!; [done..|]. right. split; [done|].
    apply M_bind_inv in Hk as [([] & d3 & Hdel%d_delete_billet_effect & [= <- <-])|(e & Hdel%d_delete_billet_effect & ->)].
    + split; [exact Hdel|by intros c [= <-]].
    + by split.
  - exists l, d', (Err e). split_and!; [done..|]. left. by exists e.
Qed.

(** C33: deleting a billet with its policies never touches another billet or another
    billet's policies, brings back no policy, and on success the billet is gone.  The
    policies it removes are those a query finds, and queries are eventually consistent: if
    the writes to the policies table have settled, all policies of the billet are gone on
    success and the count is theirs; and after an error the billet is still there unless
    every policy of it is gone, so that no policy is left without its billet. *)
Theorem dynamo_cascade n d r d' : d_delete_billet_cascade st n d = (r, d') →
  (∀ m, m ≠ n → billet d' m = billet d m) ∧
  (∀ b i, b ≠ n → policy d' b i = policy d b i) ∧
  (∀ i, policy d' n i = policy d n i ∨ policy d' n i = None) ∧
  (∀ it, seen d' (policies_table st) it → seen d (policies_table st) it) ∧
  (∀ count, r = Ok count → billet d' n = None) ∧
  (settled d (policies_table st) →
   match r with
   | Ok count => (∀ i, policy d' n i = None) ∧ count = wrap 32 (wrap 32 (Z.of_nat (length (policies_of d n))) + 1)
   | Err _ => billet d' n = billet d n ∨ (billet d' n = None ∧ ∀ i, policy d' n i = None)
   end).
Proof.
  intros Hrun. destruct (cascade_steps _ _ _ _ Hrun) as (d1 & Hd & Hcase). pose proof (proj1 (Hd (policies_table st))) as Ht.
  apply same_data_records in Hd as (Hb & Hp & Hf).
  assert (∀ it, seen d1 (policies_table st) it → seen d (policies_table st) it) as Hf1
    by (intros it [?|?%not_elem_of_nil]%Hf; done).
  destruct Hcase as [(e & -> & ->)|(l & d2 & r2 & Hl & Hset & Hpur & Hend)]; [by split_and!; eauto|].
  destruct (purged_policies r2 d1 d2 n l Hl Hpur) as (Hb2 & Ho2 & Hn2 & Hf2 & Hok2).
  assert (policies_of d1 n = policies_of d n) as Hpo by (unfold policies_of; by rewrite Ht). rewrite Hpo in Hok2.
  assert (same_records d2 d' ∨ (r2 = Ok tt ∧ sets_billet d2 d' n None)) as Hlast.
  { destruct Hend as [(e & _ & _ & ->)|(-> & Ho & _)]; [left; split_and!; [done..|by left]|]. destruct r; cbn in Ho; tauto. }
  assert ((∀ b i, policy d' b i = policy d2 b i) ∧ fresh d2 d' [] ∧ ∀ m, billet d' m = billet d2 m ∨ m = n ∧ billet d' m = None ∧ r2 = Ok tt)
    as (Hp3 & Hf3 & Hb3).
  { destruct Hlast as [(Hb3 & Hp3 & Hf3)|(-> & Hb3 & Hp3 & Hf3)]; split_and!; try done; intros m; [by left|].
    rewrite Hb3. destruct (decide (m = n)); [by right|by left]. }
  split_and!.
  - intros m Hm. destruct (Hb3 m) as [->|(? & _)]; [by rewrite Hb2|done].
  - intros b i Hbn. by rewrite Hp3, Ho2, Hp.
  - intros i. rewrite Hp3, <-Hp. apply Hn2.
  - intros it [Hit|?%not_elem_of_nil]%Hf3; [|done]. by destruct (Hf2 it Hit) as [?%Hf1|?%not_elem_of_nil].
  - intros c ->. destruct Hend as [(e & _ & [=] & _)|(_ & (Hb4 & _) & _)]. by rewrite Hb4, decide_True.
  - intros Hs. specialize (Hset Hs). destruct r as [c|e].
    + destruct Hend as [(e & _ & [=] & _)|(-> & _ & Hc)]. split; [intros i; rewrite Hp3; by apply (Hok2 tt)|].
      by rewrite (Hc c eq_refl), Hset.
    + destruct (Hb3 n) as [Hsame|(_ & Hnone & Hr2)]; [left; by rewrite Hsame, Hb2|right].
      split; [done|]. intros i. rewrite Hp3. by apply (Hok2 tt).
Qed.

Lemma d_get_billet_spec n d r d' : d_get_billet st n d = (r, d') →
  same_records d d' ∧ ∀ o, r = Ok o → (∀ b, o = Some b → ∃ it, seen d (billets_table st) it ∧ b = item_to_billet it ∧ name b = n) ∧
    (settled d (billets_table st) → o = billet d n).
Proof.
  intros [(o & d1 & (x & Hx & Ho)%call_inv & [= <- <-])|(e & (x & Hx & _)%call_inv & ->)]%M_bind_inv;
    apply (get_item_law _ _ _ _ _ _ (billet_key_of n)) in Hx as [Hd%same_data_records Hok]; [|done].
  split; [done|]. intros o' [= <-]. destruct x as [x|]; [|done]. injection Ho as ->. destruct (Hok x eq_refl) as [Hs Hset]. split.
  - intros b (it & -> & ->)%fmap_Some. destruct (Hs it eq_refl) as [Hseen Hk]. exists it. split_and!; [done|done|].
    rewrite (dep_billets dep) in Hk. apply mapM_Some_1 in Hk. inversion_clear Hk as [|? ? ? ? Hn _]. cbn. unfold get_string. by rewrite Hn.
  - intros Hse. unfold billet. by rewrite (Hset Hse).
Qed.

Lemma d_get_policy_spec b i d r d' : d_get_policy st b i d = (r, d') →
  same_records d d' ∧ ∀ o, r = Ok o → (∀ p, o = Some p → ∃ it, seen d (policies_table st) it ∧ p = item_to_policy it) ∧
    (settled d (policies_table st) → o = policy d b i).
Proof.
  intros [(o & d1 & (x & Hx & Ho)%call_inv & [= <- <-])|(e & (x & Hx & _)%call_inv & ->)]%M_bind_inv;
    apply (get_item_law _ _ _ _ _ _ (policy_key_of b i)) in Hx as [Hd%same_data_records Hok]; [|done].
  split; [done|]. intros o' [= <-]. destruct x as [x|]; [|done]. injection Ho as ->. destruct (Hok x eq_refl) as [Hs Hset]. split.
  - intros p (it & -> & ->)%fmap_Some. exists it. split; [by apply (Hs it)|done].
  - intros Hse. unfold policy. by rewrite (Hset Hse).
Qed.

(** The exact effect of the single-record operations on the tables.  Creating
    never overwrites and stores the record (its tags as a set); updating a billet
    replaces its fields, except that empty tags leave the old ones and a creation time
    stays; updating a policy keeps its creation time; deleting removes.  An operation
    that reports an error has this effect or none and other records are never touched.
    Reading returns a record of that name that is or was stored, and once the writes to the
    table have settled what is stored. *)
Theorem dynamo_single_record_effects d :
  (∀ n r d', d_get_billet st n d = (r, d') → same_records d d' ∧ ∀ o, r = Ok o →
     (∀ b, o = Some b → ∃ it, seen d (billets_table st) it ∧ b = item_to_billet it ∧ name b = n) ∧
     (settled d (billets_table st) → o = billet d n)) ∧
  (∀ b i r d', d_get_policy st b i d = (r, d') → same_records d d' ∧ ∀ o, r = Ok o →
     (∀ p, o = Some p → ∃ it, seen d (policies_table st) it ∧ p = item_to_policy it) ∧
     (settled d (policies_table st) → o = policy d b i)) ∧
  (∀ rec r d', d_create_billet st rec d = (r, d') → outcome r (same_records d d')
     (billet d (name rec) = None ∧ ∃ b', same_billet rec b' ∧ sets_billet d d' (name rec) (Some b'))) ∧
  (∀ rec r d', d_update_billet st rec d = (r, d') → outcome r (same_records d d')
     (∃ old ca b', billet d (name rec) = Some old ∧
        (ca = created_at old ∨ created_at old = "" ∧ ca = created_at rec) ∧
        same_billet (updated old rec ca) b' ∧ sets_billet d d' (name rec) (Some b'))) ∧
  (∀ rec r d', d_create_policy st rec d = (r, d') → outcome r (same_records d d')
     (policy d (billet_name rec) (policy_id rec) = None ∧ sets_policy d d' (billet_name rec) (policy_id rec) (Some rec))) ∧
  (∀ rec r d', d_update_policy st rec d = (r, d') → outcome r (same_records d d')
     (∃ old, policy d (billet_name rec) (policy_id rec) = Some old ∧
        sets_policy d d' (billet_name rec) (policy_id rec)
          (Some (mkPolicy (billet_name rec) (policy_id rec) (statement rec) (pdescription rec) (pcreated_at old) (pupdated_at rec))))) ∧
  (∀ b i r d', d_delete_policy st b i d = (r, d') → outcome r (same_records d d') (sets_policy d d' b i None)).
Proof.
  split_and!.
  - intros. by eapply d_get_billet_spec.
  - intros. by eapply d_get_policy_spec.
  - intros. by eapply d_create_billet_effect.
  - intros. by eapply d_update_billet_effect.
  - intros. by eapply d_create_policy_effect.
  - intros. by eapply d_update_policy_effect.
  - intros. by eapply d_delete_policy_effect.
Qed.

(** Clearing the tags of a billet is acknowledged and has no effect. *)
Lemma cleared_tags_stay rec d u d' b b' : tags rec = [] →
  d_update_billet st rec d = (Ok u, d') → billet d (name rec) = Some b → billet d' (name rec) = Some b' →
  tags b' ≡ₚ tags b.
Proof.
  intros Ht (old & ca & new & Hold & _ & [_ Hts] & [Hset _])%d_update_billet_effect Hb Hb'.
  rewrite Hset, decide_True in Hb' by done. unfold updated in Hts. rewrite bool_decide_true in Hts by done. by simplify_eq/=.
Qed.
End contract.

(** The texts of [SdkError]: none of them is recognised, so that a refused condition
    is an internal error and never a conflict or a missing record. *)
Definition sdk_error_texts : list string :=
  ["failed to construct request"; "request has timed out"; "dispatch failure"; "response error"; "service error"].

Lemma sdk_errors_internal : Forall (λ msg, map_sdk_error msg = Internal msg) sdk_error_texts.
Proof. repeat constructor; vm_compute; reflexivity. Qed.

(* ------------------------------------------------------------------ *)
(** ** Witnesses *)

Module DemoDynamo.
Import ToyDynamo.

Definition demo_store : DynamoDataStore := new (Config.mkDynamoDb "eu-west-1" "qm-billets" "policies").

Lemma demo_deployed : deployed (D := ToyTables) demo_store.
Proof.
  assert (demo_store = mkDynamo "qm-billets" "policies" "qm-keys") as -> by (vm_compute; reflexivity).
  split; [reflexivity..|]. compute_decide.
Qed.

Definition ops : BilletRecord := mkBillet "ops" "operators" ["arn"] [] ["team"; "prod"] "t0" "t0".
Definition p1 : PolicyRecord := mkPolicy "ops" "p1" "permit" "" "t0" "t0".
Definition p2 : PolicyRecord := mkPolicy "ops" "p2" "forbid" "" "t0" "t0".
Definition p3 : PolicyRecord := mkPolicy "dev" "p3" "permit" "" "t0" "t0".

Definition demo_tables : ToyTables :=
  snd ((_ ← d_create_billet demo_store ops; _ ← d_create_policy demo_store p1; _ ← d_create_policy demo_store p2;
        d_create_policy demo_store p3) (∅ : ToyTables)).

(** Pages of one item: all policies of the billet are listed. *)
Lemma demo_listing : ∃ l, (d_list_policies_for_billet demo_store "ops" demo_tables).1 = Ok l ∧ length l = 2.
Proof. eexists. split; vm_compute; reflexivity. Qed.

(** An update that clears the tags, a deletion of what is not there, and a creation
    that meets an existing name. *)
Definition cleared : BilletRecord := mkBillet "ops" "operators" ["arn"] [] [] "t0" "t1".

Lemma demo_tags_stay :
  (d_update_billet demo_store cleared demo_tables).1 = Ok tt ∧
  tags <$> billet demo_store (d_update_billet demo_store cleared demo_tables).2 "ops" = Some ["team"; "prod"].
Proof. split; vm_compute; reflexivity. Qed.

Lemma deleting_nothing_succeeds :
  (d_delete_policy demo_store "ops" "nope" demo_tables).1 = Ok tt ∧
  (d_delete_billet_cascade demo_store "nope" demo_tables).1 = Ok 1%Z.
Proof. split; vm_compute; reflexivity. Qed.

Lemma existing_name_internal : (d_create_billet demo_store ops demo_tables).1 = Err (Internal "service error").
Proof. vm_compute. reflexivity. Qed.

Lemma dynamo_listing_complete_witness :
  ∃ l, (d_list_policies_for_billet demo_store "ops" demo_tables).1 = Ok l ∧ l ≡ₚ policies_of demo_store demo_tables "ops".
Proof.
  destruct demo_listing as (l & Hl & _). exists l. split; [exact Hl|].
  exact (proj2 (proj2 (proj2 (proj1 (proj2 (proj2 (dynamo_listing_complete demo_store demo_deployed demo_tables))) "ops" _ _
                         (surjective_pairing (d_list_policies_for_billet demo_store "ops" demo_tables)))) l Hl) I).
Defined.

Definition cascaded : ToyTables := (d_delete_billet_cascade demo_store "ops" demo_tables).2.

Lemma demo_count : (d_delete_billet_cascade demo_store "ops" demo_tables).1 = Ok 3%Z.
Proof. vm_compute. reflexivity. Qed.

Lemma demo_cascade : d_delete_billet_cascade demo_store "ops" demo_tables = (Ok 3%Z, cascaded).
Proof. rewrite <-demo_count. apply surjective_pairing. Qed.

Lemma dynamo_cascade_witness :
  billet demo_store cascaded "ops" = None ∧ (∀ i, policy demo_store cascaded "ops" i = None) ∧
  policy demo_store cascaded "dev" "p3" = policy demo_store demo_tables "dev" "p3".
Proof.
  destruct (dynamo_cascade demo_store demo_deployed "ops" demo_tables (Ok 3%Z) cascaded demo_cascade) as (_ & Ho & _ & _ & Hb & Hset).
  split; [by apply (Hb 3%Z)|]. split; [exact (proj1 (Hset I))|]. apply Ho. discriminate.
Defined.

Definition created : ToyTables := (d_create_billet demo_store ops (∅ : ToyTables)).2.

Lemma demo_create : (d_create_billet demo_store ops (∅ : ToyTables)).1 = Ok tt.
Proof. vm_compute. reflexivity. Qed.

Lemma demo_created : d_create_billet demo_store ops (∅ : ToyTables) = (Ok tt, created).
Proof. rewrite <-demo_create. apply surjective_pairing. Qed.

Lemma dynamo_single_record_effects_witness :
  ∃ b', same_billet ops b' ∧ billet demo_store created "ops" = Some b'.
Proof.
  destruct (proj1 (proj2 (proj2 (dynamo_single_record_effects demo_store demo_deployed (∅ : ToyTables)))) ops (Ok tt) created
              demo_created) as (_ & b' & Hb & [Hs _]).
  exists b'. split; [exact Hb|]. rewrite Hs. reflexivity.
Defined.

(** Eventual consistency at work: the policy has been written, the query does not find it
    yet, the cascade succeeds, and the policy is left without its billet.  When a billet of
    that name is created again, the policy is its. *)
Section lag.
Import LaggingDynamo.

Definition lagging : LagTables :=
  snd ((_ ← d_create_billet demo_store ops; d_create_policy demo_store p1) (mkLag ∅ ∅)).

Lemma cascade_misses_new_policy :
  let '(r, d) := d_delete_billet_cascade demo_store "ops" lagging in
  r = Ok 1%Z ∧ billet demo_store d "ops" = None ∧ policy demo_store d "ops" "p1" = Some p1.
Proof. vm_compute. done. Qed.
End lag.
End DemoDynamo.

End Dynamo.
