(* ===== verification/Firestore.v ===== *)
(** * The Firestore store ([src/src/datastore/firestore_store.rs])

    Every operation of the store, over the client of the [firestore] crate, which is a
    parameter ([FirestoreClient], [FirestoreLaws]; [ToyFirestore] satisfies them).
    Documents are filed by name, policies and keys under a joined identifier.  The
    theorems say what a cascade removes and what each operation does to a policy; the
    last lemmas show that the joined identifiers of two billets can be the same. *)

From S2P Require Import Prelude DataStore Config.

Module Firestore.
Import DataStore.

(* ------------------------------------------------------------------ *)
(** ** The client *)

(** Values of fields; [serde] writes a [Vec<u8>] as an array of integers. *)
Inductive FValue : Type := FStr (s : string) | FStrs (l : list string) | FInts (l : list Z).

Abbreviation Doc := (gmap string FValue).

Inductive Filter : Type :=
| FieldEq (field value : string)
| FieldGreaterThan (field value : string)
| FieldLessOrEqual (field value : string).

(** An error is the text of the [FirestoreError].  [fs_update] writes the fields of
    the mask; [fs_list] is [stream_all], which leaves out what it cannot read. *)
Class FirestoreClient (D : Type) := {
  fs_new : string → M D string unit;
  fs_get : string → string → M D string (option Doc);
  fs_insert : string → string → Doc → M D string Doc;
  fs_update : string → string → list string → Doc → M D string Doc;
  fs_delete : string → string → M D string unit;
  fs_query : string → list Filter → M D string (list Doc);
  fs_list : string → option Z → M D string (list Doc);
  fs_begin_transaction : M D string unit;
  fs_commit : list (string * string) → M D string unit;
  fs_decode_error : Doc → string
}.

Definition field_s (doc : Doc) (f : string) : option string :=
  match doc !! f with Some (FStr s) => Some s | _ => None end.
Definition field_strs (doc : Doc) (f : string) : option (list string) :=
  match doc !! f with Some (FStrs l) => Some l | _ => None end.
Definition field_ints (doc : Doc) (f : string) : option (list Z) :=
  match doc !! f with Some (FInts l) => Some l | _ => None end.

Definition satisfies (doc : Doc) (f : Filter) : bool :=
  match f with
  | FieldEq f v => bool_decide (field_s doc f = Some v)
  | FieldGreaterThan f v => match field_s doc f with Some w => String.ltb v w | None => false end
  | FieldLessOrEqual f v => match field_s doc f with Some w => String.leb w v | None => false end
  end.

(** A masked write: the fields of the mask, the others stay. *)
Definition merge (mask : list string) (new old : Doc) : Doc :=
  filter (λ kv, kv.1 ∈ mask) new ∪ filter (λ kv, kv.1 ∉ mask) old.

(** The documents of a collection. *)
Class FirestoreData (D : Type) := docs : D → string → gmap string Doc.

Definition changed `{FirestoreData D} (d d' : D) (c : string) (f : gmap string Doc → gmap string Doc) : Prop :=
  ∀ c', docs d' c' = if decide (c' = c) then f (docs d c') else docs d c'.

Definition same_docs `{FirestoreData D} (d d' : D) : Prop := ∀ c, docs d' c = docs d c.

(** The documented effect of the calls: a write that reports an error may have been
    carried out; a commit is all or nothing; an update creates a missing document. *)
Class FirestoreLaws (D : Type) `{FirestoreClient D, FirestoreData D} : Prop := {
  get_law : ∀ c i d r d', fs_get c i d = (r, d') → same_docs d d' ∧ ∀ o, r = Ok o → o = docs d c !! i;
  insert_law : ∀ c i doc d r d', fs_insert c i doc d = (r, d') →
    outcome r (same_docs d d') (docs d c !! i = None ∧ changed d d' c <[i := doc]>) ∧ ∀ doc', r = Ok doc' → doc' = doc;
  update_law : ∀ c i mask doc d r d', fs_update c i mask doc d = (r, d') →
    let new := merge mask doc (default ∅ (docs d c !! i)) in
    outcome r (same_docs d d') (changed d d' c <[i := new]>) ∧ ∀ doc', r = Ok doc' → doc' = new;
  delete_law : ∀ c i d r d', fs_delete c i d = (r, d') → outcome r (same_docs d d') (changed d d' c (delete i));
  query_law : ∀ c fs d r d', fs_query c fs d = (r, d') → same_docs d d' ∧
    ∀ l, r = Ok l → l ≡ₚ filter (λ doc, forallb (satisfies doc) fs = true) (map_to_list (docs d c)).*2;
  list_law : ∀ c n d r d', fs_list c n d = (r, d') → same_docs d d' ∧
    ∀ l, r = Ok l → l ⊆+ (map_to_list (docs d c)).*2;
  begin_law : ∀ d r d', fs_begin_transaction d = (r, d') → same_docs d d';
  commit_law : ∀ c ids d r d', fs_commit (pair c <$> ids) d = (r, d') →
    outcome r (same_docs d d') (changed d d' c (filter (λ kv, kv.1 ∉ ids)))
}.

(* ------------------------------------------------------------------ *)
(** ** Documents *)

Record FirestoreBilletDoc : Type := mkBilletDoc {
  bd_name : string;
  bd_description : string;
  bd_associated_aws_roles : list string;
  bd_associated_gcp_sas : list string;
  bd_tags : list string;
  bd_created_at : string;
  bd_updated_at : string
}.

Record FirestorePolicyDoc : Type := mkPolicyDoc {
  pd_billet_name : string;
  pd_policy_id : string;
  pd_statement : string;
  pd_description : string;
  pd_created_at : string;
  pd_updated_at : string
}.

Record FirestoreKeyDoc : Type := mkKeyDoc {
  kd_key_id : string;
  kd_public_key_pem : string;
  kd_private_key_encrypted : list Z;
  kd_kms_attestation : list Z;
  kd_algorithm : string;
  kd_created_at : string;
  kd_expires_at : string;
  kd_purpose : string
}.

Record FirestoreDataStore : Type := mkFirestoreStore {
  billets_collection : string;
  policies_collection : string;
  keys_collection : string
}.

Definition new `{FirestoreClient D} (config : Config.FirestoreConfig) : M D DataStoreError FirestoreDataStore :=
  _ ← m_map_err (λ e, Internal ("failed to initialize Firestore: " +:+ e)) (fs_new (Config.fs_project config));
  let prefix := Config.fs_collection_prefix config in
  mret (mkFirestoreStore (prefix +:+ "-billets") (prefix +:+ "-policies") (prefix +:+ "-keys")).

Definition policy_doc_id (b i : string) : string := b +:+ "__" +:+ i.
Definition key_doc_id (purpose_ k : string) : string := purpose_ +:+ "__" +:+ k.

Definition billet_to_doc (r : BilletRecord) : FirestoreBilletDoc :=
  mkBilletDoc (name r) (description r) (associated_aws_roles r) (associated_gcp_sas r) (tags r) (created_at r) (updated_at r).
Definition doc_to_billet (d : FirestoreBilletDoc) : BilletRecord :=
  mkBillet (bd_name d) (bd_description d) (bd_associated_aws_roles d) (bd_associated_gcp_sas d) (bd_tags d)
    (bd_created_at d) (bd_updated_at d).
Definition policy_to_doc (r : PolicyRecord) : FirestorePolicyDoc :=
  mkPolicyDoc (billet_name r) (policy_id r) (statement r) (pdescription r) (pcreated_at r) (pupdated_at r).
Definition doc_to_policy (d : FirestorePolicyDoc) : PolicyRecord :=
  mkPolicy (pd_billet_name d) (pd_policy_id d) (pd_statement d) (pd_description d) (pd_created_at d) (pd_updated_at d).
Definition key_to_doc (r : EphemeralKeyRecord) : FirestoreKeyDoc :=
  mkKeyDoc (key_id r) (public_key_pem r) (private_key_encrypted r) (kms_attestation r) (algorithm r) (kcreated_at r)
    (kexpires_at r) (purpose r).
Definition doc_to_key (d : FirestoreKeyDoc) : EphemeralKeyRecord :=
  mkKey (kd_key_id d) (kd_public_key_pem d) (kd_private_key_encrypted d) (kd_kms_attestation d) (kd_algorithm d)
    (kd_created_at d) (kd_expires_at d) (kd_purpose d).

(** The derived [Serialize] and [Deserialize]. *)
Definition ser_billet (d : FirestoreBilletDoc) : Doc :=
  list_to_map [("name", FStr (bd_name d)); ("description", FStr (bd_description d));
               ("associated_aws_roles", FStrs (bd_associated_aws_roles d)); ("associated_gcp_sas", FStrs (bd_associated_gcp_sas d));
               ("tags", FStrs (bd_tags d)); ("created_at", FStr (bd_created_at d)); ("updated_at", FStr (bd_updated_at d))].
Definition de_billet (doc : Doc) : option FirestoreBilletDoc :=
  n ← field_s doc "name"; desc ← field_s doc "description"; roles ← field_strs doc "associated_aws_roles";
  sas ← field_strs doc "associated_gcp_sas"; ts ← field_strs doc "tags"; ca ← field_s doc "created_at";
  ua ← field_s doc "updated_at"; Some (mkBilletDoc n desc roles sas ts ca ua).
Definition ser_policy (d : FirestorePolicyDoc) : Doc :=
  list_to_map [("billet_name", FStr (pd_billet_name d)); ("policy_id", FStr (pd_policy_id d));
               ("statement", FStr (pd_statement d)); ("description", FStr (pd_description d));
               ("created_at", FStr (pd_created_at d)); ("updated_at", FStr (pd_updated_at d))].
Definition de_policy (doc : Doc) : option FirestorePolicyDoc :=
  b ← field_s doc "billet_name"; i ← field_s doc "policy_id"; stmt ← field_s doc "statement";
  desc ← field_s doc "description"; ca ← field_s doc "created_at"; ua ← field_s doc "updated_at";
  Some (mkPolicyDoc b i stmt desc ca ua).
Definition ser_key (d : FirestoreKeyDoc) : Doc :=
  list_to_map [("key_id", FStr (kd_key_id d)); ("public_key_pem", FStr (kd_public_key_pem d));
               ("private_key_encrypted", FInts (kd_private_key_encrypted d)); ("kms_attestation", FInts (kd_kms_attestation d));
               ("algorithm", FStr (kd_algorithm d)); ("created_at", FStr (kd_created_at d));
               ("expires_at", FStr (kd_expires_at d)); ("purpose", FStr (kd_purpose d))].
Definition de_key (doc : Doc) : option FirestoreKeyDoc :=
  k ← field_s doc "key_id"; pem ← field_s doc "public_key_pem"; priv ← field_ints doc "private_key_encrypted";
  att ← field_ints doc "kms_attestation"; alg ← field_s doc "algorithm"; ca ← field_s doc "created_at";
  ea ← field_s doc "expires_at"; p ← field_s doc "purpose"; Some (mkKeyDoc k pem priv att alg ca ea p).

Definition map_firestore_error (msg : string) : DataStoreError :=
  if Str.contains "NOT_FOUND" msg || Str.contains "NotFound" msg then NotFound msg
  else if Str.contains "ALREADY_EXISTS" msg || Str.contains "AlreadyExists" msg then Conflict msg
  else Internal msg.

(* ------------------------------------------------------------------ *)
(** ** Operations *)

Section operations.
Context `{FirestoreClient D} (st : FirestoreDataStore).

Definition call {A} (m : M D string A) : M D DataStoreError A := m_map_err map_firestore_error m.

(** [.obj()]: what is read or returned has to have the fields of the type. *)
Definition decode {A} (de : Doc → option A) (doc : Doc) : result string A := ok_or (fs_decode_error doc) (de doc).

Definition get_obj {A} (de : Doc → option A) (c i : string) : M D string (option A) :=
  doc ← fs_get c i;
  match doc with
  | Some doc => obj ← lift_res (decode de doc); mret (Some obj)
  | None => mret None
  end.

(** [stream_query_with_errors().await?.try_collect().await?] *)
Definition query_objs {A} (de : Doc → option A) (c : string) (fs : list Filter) : M D DataStoreError (list A) :=
  call (l ← fs_query c fs; lift_res (try_map (decode de) l)).

(** [stream_all().await?.collect().await]: what does not decode is left out. *)
Definition list_objs {A} (de : Doc → option A) (c : string) (page_size : option Z) : M D DataStoreError (list A) :=
  l ← call (fs_list c page_size); mret (omap de l).

Definition insert_obj {A} (de : Doc → option A) (c i : string) (doc : Doc) : M D DataStoreError unit :=
  call (doc' ← fs_insert c i doc; _ ← lift_res (decode de doc'); mret tt).

Definition update_obj {A} (de : Doc → option A) (c i : string) (mask : list string) (doc : Doc) : M D DataStoreError unit :=
  call (doc' ← fs_update c i mask doc; _ ← lift_res (decode de doc'); mret tt).

Definition f_create_billet (record : BilletRecord) : M D DataStoreError unit :=
  existing ← call (get_obj de_billet (billets_collection st) (name record));
  if bool_decide (is_Some existing) then throw (Conflict ("billet '" +:+ name record +:+ "' already exists"))
  else insert_obj de_billet (billets_collection st) (name record) (ser_billet (billet_to_doc record)).

Definition f_get_billet (n : string) : M D DataStoreError (option BilletRecord) :=
  doc ← call (get_obj de_billet (billets_collection st) n);
  mret (doc_to_billet <$> doc).

Definition f_update_billet (record : BilletRecord) : M D DataStoreError unit :=
  update_obj de_billet (billets_collection st) (name record)
    ["description"; "associated_aws_roles"; "associated_gcp_sas"; "tags"; "updated_at"] (ser_billet (billet_to_doc record)).

(** [for chunk in l.chunks(500)]: the deletions of a chunk are one transaction. *)
Fixpoint delete_batches {A} (c : string) (doc_id : A → string) (cs : list (list A)) : M D DataStoreError unit :=
  match cs with
  | [] => mret tt
  | chunk :: cs' =>
      _ ← call fs_begin_transaction;
      _ ← call (fs_commit (pair c <$> (doc_id <$> chunk)));
      delete_batches c doc_id cs'
  end.

Definition f_delete_billet_cascade (n : string) : M D DataStoreError Z :=
  policies ← query_objs de_policy (policies_collection st) [FieldEq "billet_name" n];
  let policy_count := wrap 32 (Z.of_nat (length policies)) in
  _ ← delete_batches (policies_collection st) (λ p, policy_doc_id (pd_billet_name p) (pd_policy_id p))
        (chunks (length policies) 500 policies);
  _ ← call (fs_delete (billets_collection st) n);
  mret (wrap 32 (policy_count + 1)).

Definition f_list_billets : M D DataStoreError (list BilletRecord) :=
  objs ← list_objs de_billet (billets_collection st) None; mret (doc_to_billet <$> objs).

Definition f_create_policy (record : PolicyRecord) : M D DataStoreError unit :=
  let doc_id := policy_doc_id (billet_name record) (policy_id record) in
  existing ← call (get_obj de_policy (policies_collection st) doc_id);
  if bool_decide (is_Some existing)
  then throw (Conflict ("policy '" +:+ billet_name record +:+ "/" +:+ policy_id record +:+ "' already exists"))
  else insert_obj de_policy (policies_collection st) doc_id (ser_policy (policy_to_doc record)).

Definition f_get_policy (b i : string) : M D DataStoreError (option PolicyRecord) :=
  doc ← call (get_obj de_policy (policies_collection st) (policy_doc_id b i));
  mret (doc_to_policy <$> doc).

Definition f_update_policy (record : PolicyRecord) : M D DataStoreError unit :=
  update_obj de_policy (policies_collection st) (policy_doc_id (billet_name record) (policy_id record))
    ["statement"; "description"; "updated_at"] (ser_policy (policy_to_doc record)).

Definition f_delete_policy (b i : string) : M D DataStoreError unit :=
  call (fs_delete (policies_collection st) (policy_doc_id b i)).

Definition f_list_policies_for_billet (b : string) : M D DataStoreError (list PolicyRecord) :=
  objs ← query_objs de_policy (policies_collection st) [FieldEq "billet_name" b]; mret (doc_to_policy <$> objs).

Definition f_list_all_policies : M D DataStoreError (list PolicyRecord) :=
  objs ← list_objs de_policy (policies_collection st) None; mret (doc_to_policy <$> objs).

Definition f_put_ephemeral_key (record : EphemeralKeyRecord) : M D DataStoreError unit :=
  update_obj de_key (keys_collection st) (key_doc_id (purpose record) (key_id record))
    ["key_id"; "public_key_pem"; "private_key_encrypted"; "kms_attestation"; "algorithm"; "created_at"; "expires_at"; "purpose"]
    (ser_key (key_to_doc record)).

Definition f_get_active_ephemeral_keys (purpose_ now : string) : M D DataStoreError (list EphemeralKeyRecord) :=
  objs ← query_objs de_key (keys_collection st) [FieldEq "purpose" purpose_; FieldGreaterThan "expires_at" now];
  mret (doc_to_key <$> objs).

Definition f_delete_expired_ephemeral_keys (purpose_ before : string) : M D DataStoreError Z :=
  objs ← query_objs de_key (keys_collection st) [FieldEq "purpose" purpose_; FieldLessOrEqual "expires_at" before];
  _ ← delete_batches (keys_collection st) (λ k, key_doc_id (kd_purpose k) (kd_key_id k)) (chunks (length objs) 500 objs);
  mret (wrap 32 (Z.of_nat (length objs))).

Definition f_ping : M D DataStoreError unit :=
  _ ← list_objs de_billet (billets_collection st) (Some 1%Z); mret tt.

#[local] Instance FirestoreDataStore_DataStore : DataStore D := {
  create_billet := f_create_billet;
  get_billet := f_get_billet;
  update_billet := f_update_billet;
  delete_billet_cascade := f_delete_billet_cascade;
  list_billets := f_list_billets;
  create_policy := f_create_policy;
  get_policy := f_get_policy;
  update_policy := f_update_policy;
  delete_policy := f_delete_policy;
  list_policies_for_billet := f_list_policies_for_billet;
  list_all_policies := f_list_all_policies;
  put_ephemeral_key := f_put_ephemeral_key;
  get_active_ephemeral_keys := f_get_active_ephemeral_keys;
  delete_expired_ephemeral_keys := f_delete_expired_ephemeral_keys;
  ping := f_ping
}.
End operations.

(* ------------------------------------------------------------------ *)
(** ** Round trips *)

Lemma de_ser_billet b : de_billet (ser_billet b) = Some b.
Proof. by destruct b. Qed.
Lemma de_ser_policy p : de_policy (ser_policy p) = Some p.
Proof. by destruct p. Qed.
Lemma de_ser_key k : de_key (ser_key k) = Some k.
Proof. by destruct k. Qed.

Lemma billet_doc_roundtrip r : doc_to_billet (billet_to_doc r) = r.
Proof. by destruct r. Qed.
Lemma policy_doc_roundtrip r : doc_to_policy (policy_to_doc r) = r.
Proof. by destruct r. Qed.
Lemma key_doc_roundtrip r : doc_to_key (key_to_doc r) = r.
Proof. by destruct r. Qed.

Lemma merge_lookup mask new old f : merge mask new old !! f = if decide (f ∈ mask) then new !! f else old !! f.
Proof.
  unfold merge. destruct (decide (f ∈ mask)) as [Hf|Hf].
  - rewrite lookup_union_l; [|apply map_lookup_filter_None_2; right; intros x _ Hn; by apply Hn].
    destruct (new !! f) as [v|] eqn:Hn; [by apply map_lookup_filter_Some_2|by apply map_lookup_filter_None_2; left].
  - rewrite lookup_union_r; [|apply map_lookup_filter_None_2; right; intros x _ Hn; by apply Hf].
    destruct (old !! f) as [v|] eqn:Ho; [by apply map_lookup_filter_Some_2|by apply map_lookup_filter_None_2; left].
Qed.

Lemma merge_field_s mask new old f : field_s (merge mask new old) f = if decide (f ∈ mask) then field_s new f else field_s old f.
Proof. unfold field_s. rewrite merge_lookup. by destruct (decide _). Qed.

Lemma merge_field_strs mask new old f :
  field_strs (merge mask new old) f = if decide (f ∈ mask) then field_strs new f else field_strs old f.
Proof. unfold field_strs. rewrite merge_lookup. by destruct (decide _). Qed.

(** A decoded document, field by field. *)
Lemma de_billet_Some doc b : de_billet doc = Some b ↔
  field_s doc "name" = Some (bd_name b) ∧ field_s doc "description" = Some (bd_description b) ∧
  field_strs doc "associated_aws_roles" = Some (bd_associated_aws_roles b) ∧
  field_strs doc "associated_gcp_sas" = Some (bd_associated_gcp_sas b) ∧ field_strs doc "tags" = Some (bd_tags b) ∧
  field_s doc "created_at" = Some (bd_created_at b) ∧ field_s doc "updated_at" = Some (bd_updated_at b).
Proof.
  unfold de_billet. rewrite !bind_Some. split; [intros Hd|intros Hd; destruct b; cbn in *].
  - repeat (destruct Hd as (? & ? & Hd); try rewrite bind_Some in Hd). injection Hd as <-. done.
  - destruct Hd as (? & ? & ? & ? & ? & ? & ?). repeat (eexists; rewrite ?bind_Some; split; [done|]). done.
Qed.

Lemma de_policy_Some doc p : de_policy doc = Some p ↔
  field_s doc "billet_name" = Some (pd_billet_name p) ∧ field_s doc "policy_id" = Some (pd_policy_id p) ∧
  field_s doc "statement" = Some (pd_statement p) ∧ field_s doc "description" = Some (pd_description p) ∧
  field_s doc "created_at" = Some (pd_created_at p) ∧ field_s doc "updated_at" = Some (pd_updated_at p).
Proof.
  unfold de_policy. rewrite !bind_Some. split; [intros Hd|intros Hd; destruct p; cbn in *].
  - repeat (destruct Hd as (? & ? & Hd); try rewrite bind_Some in Hd). injection Hd as <-. done.
  - destruct Hd as (? & ? & ? & ? & ? & ?). repeat (eexists; rewrite ?bind_Some; split; [done|]). done.
Qed.

(** What an update makes of a record: everything of the new one but the creation
    time. *)
Definition billet_updated (old : FirestoreBilletDoc) (r : BilletRecord) : BilletRecord :=
  mkBillet (bd_name old) (description r) (associated_aws_roles r) (associated_gcp_sas r) (tags r) (bd_created_at old) (updated_at r).
Definition policy_updated (old : FirestorePolicyDoc) (r : PolicyRecord) : PolicyRecord :=
  mkPolicy (pd_billet_name old) (pd_policy_id old) (statement r) (pdescription r) (pd_created_at old) (pupdated_at r).

Lemma merge_billet old doc r : de_billet doc = Some old →
  de_billet (merge ["description"; "associated_aws_roles"; "associated_gcp_sas"; "tags"; "updated_at"]
               (ser_billet (billet_to_doc r)) doc) = Some (billet_to_doc (billet_updated old r)).
Proof.
  intros (Hn & _ & _ & _ & _ & Hc & _)%de_billet_Some. apply de_billet_Some.
  rewrite !merge_field_s, !merge_field_strs. split_and!; try exact Hn; try exact Hc; reflexivity.
Qed.

Lemma merge_policy old doc r : de_policy doc = Some old →
  de_policy (merge ["statement"; "description"; "updated_at"] (ser_policy (policy_to_doc r)) doc) =
  Some (policy_to_doc (policy_updated old r)).
Proof.
  intros (Hb & Hi & _ & _ & Hc & _)%de_policy_Some. apply de_policy_Some. rewrite !merge_field_s.
  split_and!; try exact Hb; try exact Hi; try exact Hc; reflexivity.
Qed.

(* ------------------------------------------------------------------ *)
(** ** Effects *)

Lemma fs_call_inv {D A} (m : M D string A) d r d' :
  call m d = (r, d') → ∃ x, m d = (x, d') ∧ r = map_err map_firestore_error x.
Proof. apply m_map_err_inv. Qed.

Section data.
Context `{FirestoreData D}.

Lemma same_docs_trans (d1 d2 d3 : D) : same_docs d1 d2 → same_docs d2 d3 → same_docs d1 d3.
Proof. intros H12 H23 c. by rewrite H23, H12. Qed.

Lemma changed_after (d d1 d2 : D) c f : same_docs d d1 → changed d1 d2 c f → changed d d2 c f.
Proof. intros Hs Hc c'. by rewrite (Hc c'), Hs. Qed.

Lemma fs_changed_at (d d' : D) c f : changed d d' c f → docs d' c = f (docs d c).
Proof. intros Hc. rewrite (Hc c). by destruct (decide _). Qed.

Lemma fs_changed_other (d d' : D) c f c' : changed d d' c f → c' ≠ c → docs d' c' = docs d c'.
Proof. intros Hc Hn. rewrite (Hc c'). by destruct (decide _). Qed.

End data.

Section effects.
Context `{FirestoreLaws D} (st : FirestoreDataStore).

Lemma get_obj_spec {A} (de : Doc → option A) c i (d : D) r d' : call (get_obj de c i) d = (r, d') →
  same_docs d d' ∧ ∀ o, r = Ok o → match docs d c !! i with Some doc => de doc = o ∧ is_Some o | None => o = None end.
Proof.
  intros (x & Hx & ->)%fs_call_inv. unfold get_obj in Hx.
  apply M_bind_inv in Hx as [(doc & d1 & Hg & Hx)|(e & Hg & ->)]; apply get_law in Hg as [Hs Hok]; [|done].
  specialize (Hok doc eq_refl). subst doc. destruct (docs d c !! i) as [doc|]; [|injection Hx as <- <-; split; [done|by intros o [= <-]]].
  unfold decode in Hx. destruct (de doc) as [a|] eqn:Hde; cbn in Hx; injection Hx as <- <-; split; try done.
  intros o [= <-]. by eauto.
Qed.

Lemma insert_obj_spec {A} (de : Doc → option A) c i doc (d : D) r d' : insert_obj de c i doc d = (r, d') →
  outcome r (same_docs d d') (docs d c !! i = None ∧ changed d d' c <[i := doc]>).
Proof.
  intros (x & Hx & ->)%fs_call_inv.
  apply M_bind_inv in Hx as [(doc' & d1 & Hi & Hx)|(e & Hi & ->)]; apply insert_law in Hi as [Ho Hd]; [|exact Ho].
  destruct (decode de doc'); injection Hx as <- <-; [exact Ho|by right].
Qed.

Lemma update_obj_spec {A} (de : Doc → option A) c i mask doc (d : D) r d' : update_obj de c i mask doc d = (r, d') →
  outcome r (same_docs d d') (changed d d' c <[i := merge mask doc (default ∅ (docs d c !! i))]>).
Proof.
  intros (x & Hx & ->)%fs_call_inv.
  apply M_bind_inv in Hx as [(doc' & d1 & Hi & Hx)|(e & Hi & ->)]; apply update_law in Hi as [Ho Hd]; [|exact Ho].
  destruct (decode de doc'); injection Hx as <- <-; [exact Ho|by right].
Qed.

Lemma create_obj_effect {A} (de : Doc → option A) c i doc msg (d : D) r d' :
  (existing ← call (get_obj de c i);
   if bool_decide (is_Some existing) then throw (Conflict msg) else insert_obj de c i doc) d = (r, d') →
  outcome r (same_docs d d') (docs d c !! i = None ∧ changed d d' c <[i := doc]>).
Proof.
  intros [(o & d1 & Hg & Hx)|(e & Hg & ->)]%M_bind_inv; apply get_obj_spec in Hg as [Hs Ho]; [|by left].
  specialize (Ho o eq_refl). case_bool_decide as Hb; [injection Hx as <- <-; by left|].
  apply insert_obj_spec in Hx. revert Hx. apply outcome_mono.
  - by apply same_docs_trans.
  - intros [Hn Hc]. split; [by rewrite <-Hs|by eapply changed_after].
Qed.

(** The effect of each operation on one record.  Creating stores the record under
    its identifier and never overwrites a document; updating a record that is there
    replaces everything but its creation time; deleting removes the document; an
    operation that reports an error has this effect or none. *)
Theorem firestore_record_effects (d : D) :
  (∀ rec r d', f_create_billet st rec d = (r, d') → outcome r (same_docs d d')
     (docs d (billets_collection st) !! name rec = None ∧
      changed d d' (billets_collection st) <[name rec := ser_billet (billet_to_doc rec)]>)) ∧
  (∀ rec r d' doc old, docs d (billets_collection st) !! name rec = Some doc → de_billet doc = Some old →
     f_update_billet st rec d = (r, d') → outcome r (same_docs d d')
       (∃ doc', de_billet doc' = Some (billet_to_doc (billet_updated old rec)) ∧
          changed d d' (billets_collection st) <[name rec := doc']>)) ∧
  (∀ rec r d', let id := policy_doc_id (billet_name rec) (policy_id rec) in
     f_create_policy st rec d = (r, d') → outcome r (same_docs d d')
     (docs d (policies_collection st) !! id = None ∧
      changed d d' (policies_collection st) <[id := ser_policy (policy_to_doc rec)]>)) ∧
  (∀ rec r d' doc old, let id := policy_doc_id (billet_name rec) (policy_id rec) in
     docs d (policies_collection st) !! id = Some doc → de_policy doc = Some old →
     f_update_policy st rec d = (r, d') → outcome r (same_docs d d')
       (∃ doc', de_policy doc' = Some (policy_to_doc (policy_updated old rec)) ∧
          changed d d' (policies_collection st) <[id := doc']>)) ∧
  (∀ b i r d', f_delete_policy st b i d = (r, d') → outcome r (same_docs d d')
     (changed d d' (policies_collection st) (delete (policy_doc_id b i)))).
Proof.
  split_and!.
  - intros rec r d'. apply create_obj_effect.
  - intros rec r d' doc old Hdoc Hold Hu. apply update_obj_spec in Hu. rewrite Hdoc in Hu. revert Hu.
    apply outcome_mono; [done|]. intros Hc. eexists. split; [by apply merge_billet|exact Hc].
  - intros rec r d' id. apply create_obj_effect.
  - intros rec r d' doc old id Hdoc Hold Hu. apply update_obj_spec in Hu. fold id in Hu. rewrite Hdoc in Hu. revert Hu.
    apply outcome_mono; [done|]. intros Hc. eexists. split; [by apply merge_policy|exact Hc].
  - intros b i r d' (x & Hx%delete_law & ->)%fs_call_inv. by destruct x.
Qed.

(** Some of the documents are gone, all of them after a success. *)
Definition purged {E A} (c : string) (ids : list string) (d : D) (r : result E A) (d' : D) : Prop :=
  ∃ gone, gone ⊆ ids ∧ changed d d' c (filter (λ kv, kv.1 ∉ gone)) ∧ ∀ a, r = Ok a → ids ⊆ gone.

Lemma same_purge c (d d' : D) : same_docs d d' → changed d d' c (filter (λ kv, kv.1 ∉ [])).
Proof.
  intros Hs c'. rewrite Hs. destruct (decide (c' = c)); [|done]. symmetry. apply map_filter_id.
  intros k doc _. apply not_elem_of_nil.
Qed.

Lemma fs_purge_trans c (d d1 d2 : D) g1 g2 :
  changed d d1 c (filter (λ kv, kv.1 ∉ g1)) → changed d1 d2 c (filter (λ kv, kv.1 ∉ g2)) →
  changed d d2 c (filter (λ kv, kv.1 ∉ g1 ++ g2)).
Proof.
  intros H1' H2' c'. rewrite (H2' c'), (H1' c'). destruct (decide (c' = c)) as [->|]; [|done].
  rewrite map_filter_filter. apply map_filter_ext. intros k doc _. cbn. rewrite elem_of_app. tauto.
Qed.

Lemma delete_batches_purge {A} c (doc_id : A → string) cs (d : D) r d' :
  delete_batches c doc_id cs d = (r, d') → purged c (doc_id <$> concat cs) d r d'.
Proof.
  revert d. induction cs as [|chunk cs IH]; intros d Hrun.
  { injection Hrun as <- <-. exists []. split_and!; [done|by apply same_purge|done]. }
  cbn [delete_batches concat] in *. rewrite fmap_app.
  apply M_bind_inv in Hrun as [(u & d1 & (x & Hb%begin_law & _)%fs_call_inv & Hrun)|(e & (x & Hb%begin_law & _)%fs_call_inv & ->)].
  2:{ exists []. split_and!; [set_solver|by apply same_purge|done]. }
  apply M_bind_inv in Hrun as [(v & d2 & (y & Hc%commit_law & Hy)%fs_call_inv & Hrun)|(e & (y & Hc%commit_law & Hy)%fs_call_inv & ->)].
  - destruct y; [|done]. cbn in Hc. destruct (IH _ Hrun) as (g2 & Hs2 & Hc2 & Ho2).
    exists ((doc_id <$> chunk) ++ g2). split_and!; [set_solver| |intros b Hb2; specialize (Ho2 b Hb2); set_solver].
    eapply fs_purge_trans; [by eapply changed_after|exact Hc2].
  - destruct y; [done|]. destruct Hc as [Hc|Hc].
    + exists []. split_and!; [set_solver|apply same_purge; by eapply same_docs_trans|done].
    + exists (doc_id <$> chunk). split_and!; [set_solver|by eapply changed_after|done].
Qed.

(** Policies are filed under the identifier made of their own fields. *)
Definition well_filed (d : D) : Prop := ∀ id doc, docs d (policies_collection st) !! id = Some doc →
  ∃ p, de_policy doc = Some p ∧ id = policy_doc_id (pd_billet_name p) (pd_policy_id p).

Definition of_billet (n : string) (doc : Doc) : Prop := field_s doc "billet_name" = Some n.

#[local] Instance of_billet_dec n doc : Decision (of_billet n doc).
Proof. unfold of_billet. apply _. Defined.

Definition doc_id_of (p : FirestorePolicyDoc) : string := policy_doc_id (pd_billet_name p) (pd_policy_id p).

Lemma query_policies n d r d' : well_filed d →
  query_objs de_policy (policies_collection st) [FieldEq "billet_name" n] d = (r, d') →
  same_docs d d' ∧ ∀ l, r = Ok l →
    length l = length (filter (of_billet n) (map_to_list (docs d (policies_collection st))).*2) ∧
    ∀ id, id ∈ doc_id_of <$> l ↔ ∃ doc, docs d (policies_collection st) !! id = Some doc ∧ of_billet n doc.
Proof.
  intros Hw (x & Hx & ->)%fs_call_inv.
  apply M_bind_inv in Hx as [(raw & d1 & Hq & Hx)|(e & Hq & ->)]; apply query_law in Hq as [Hs Hq]; [|done].
  specialize (Hq raw eq_refl). injection Hx as Hx <-. split; [done|]. intros l ->%map_err_Ok. apply try_map_Ok in Hx.
  assert (∀ doc, forallb (satisfies doc) [FieldEq "billet_name" n] = true ↔ of_billet n doc) as Hsat.
  { intros doc. cbn. rewrite andb_true_r. apply bool_decide_eq_true. }
  rewrite (list_filter_iff _ (of_billet n)) in Hq by done. split; [by rewrite <-Hq, (Forall2_length _ _ _ Hx)|].
  assert (∀ doc, doc ∈ raw ↔ ∃ id, docs d (policies_collection st) !! id = Some doc ∧ of_billet n doc) as Hraw.
  { intros doc. rewrite Hq, list_elem_of_filter, list_elem_of_fmap. split.
    - intros [Hb ([id doc'] & -> & Hin%elem_of_map_to_list)]. by exists id.
    - intros (id & Hin & Hb). split; [done|]. exists (id, doc). split; [done|]. by apply elem_of_map_to_list. }
  intros id. rewrite list_elem_of_fmap. split.
  - intros (p & -> & [i Hi]%list_elem_of_lookup). destruct (Forall2_lookup_r _ _ _ _ _ Hx Hi) as (doc & Hdoc & Hde).
    apply list_elem_of_lookup_2, Hraw in Hdoc as (id & Hin & Hb). destruct (Hw _ _ Hin) as (p' & Hp' & ->).
    apply ok_or_Ok in Hde. assert (p' = p) as -> by congruence. by exists doc.
  - intros (doc & Hin & Hb). destruct (Hw _ _ Hin) as (p & Hp & ->). exists p. split; [done|].
    assert (doc ∈ raw) as [i Hi]%list_elem_of_lookup by (apply Hraw; eauto).
    destruct (Forall2_lookup_l _ _ _ _ _ Hx Hi) as (p' & Hp' & Hde%ok_or_Ok).
    assert (p' = p) as -> by congruence. by eapply list_elem_of_lookup_2.
Qed.

(** The batches of a cascade. *)
Lemma cascade_policies n (d d1 d2 : D) l rb :
  billets_collection st ≠ policies_collection st → same_docs d d1 →
  (∀ id, id ∈ doc_id_of <$> l ↔ ∃ doc, docs d (policies_collection st) !! id = Some doc ∧ of_billet n doc) →
  delete_batches (policies_collection st) doc_id_of (chunks (length l) 500 l) d1 = (rb, d2) →
  docs d2 (billets_collection st) = docs d (billets_collection st) ∧
  (∀ id doc, docs d (policies_collection st) !! id = Some doc → ¬ of_billet n doc →
     docs d2 (policies_collection st) !! id = Some doc) ∧
  docs d2 (policies_collection st) ⊆ docs d (policies_collection st) ∧
  (∀ a, rb = Ok a → ∀ id doc, docs d2 (policies_collection st) !! id = Some doc → ¬ of_billet n doc).
Proof.
  intros Hne Hs Hids Hdb. apply delete_batches_purge in Hdb as (gone & Hsub & Hch & Hall).
  rewrite chunks_concat in Hsub, Hall by lia. apply (changed_after _ _ _ _ _ Hs) in Hch.
  rewrite (fs_changed_at _ _ _ _ Hch). split_and!.
  - exact (fs_changed_other _ _ _ _ _ Hch Hne).
  - intros id doc Hdoc Hn. apply map_lookup_filter_Some_2; [done|]. intros (doc' & Hdoc' & Hb)%Hsub%Hids.
    cbn in Hdoc'. rewrite Hdoc in Hdoc'. injection Hdoc' as <-. by apply Hn.
  - apply map_filter_subseteq.
  - intros a Ha id doc [Hdoc Hg]%map_lookup_filter_Some Hb. apply Hg, (Hall a Ha), Hids. eauto.
Qed.

(** In a store whose policies are filed under their own identifiers, deleting a
    billet with its policies leaves every other billet and every policy of another
    billet as they are and adds nothing; on success the billet and all its policies are
    gone and counted; after an error the billet is still there unless all its policies
    are gone. *)
Theorem firestore_cascade n (d : D) r d' :
  billets_collection st ≠ policies_collection st → well_filed d →
  f_delete_billet_cascade st n d = (r, d') →
  let billets d := docs d (billets_collection st) in
  let policies d := docs d (policies_collection st) in
  (∀ m, m ≠ n → billets d' !! m = billets d !! m) ∧
  (∀ id doc, policies d !! id = Some doc → ¬ of_billet n doc → policies d' !! id = Some doc) ∧
  policies d' ⊆ policies d ∧
  match r with
  | Ok count => billets d' !! n = None ∧ (∀ id doc, policies d' !! id = Some doc → ¬ of_billet n doc) ∧
      count = wrap 32 (wrap 32 (Z.of_nat (length (filter (of_billet n) (map_to_list (policies d)).*2))) + 1)
  | Err _ => billets d' !! n = billets d !! n ∨
      (billets d' !! n = None ∧ ∀ id doc, policies d' !! id = Some doc → ¬ of_billet n doc)
  end.
Proof.
  intros Hne Hw Hrun. cbn zeta. unfold f_delete_billet_cascade in Hrun.
  apply M_bind_inv in Hrun as [(l & d1 & Hl & Hk)|(e & Hl & ->)]; apply (query_policies n d _ _ Hw) in Hl as [Hs Hl].
  2:{ rewrite !Hs. split_and!; [by intros|by intros|done|by left]. }
  destruct (Hl l eq_refl) as [Hlen Hids].
  apply M_bind_inv in Hk as [([] & d2 & Hdb & Hk)|(e & Hdb & ->)];
    destruct (cascade_policies n _ _ _ _ _ Hne Hs Hids Hdb) as (Hb & Hkeep & Hless & Hnone).
  2:{ split_and!; [intros; by rewrite Hb|done|done|left; by rewrite Hb]. }
  specialize (Hnone tt eq_refl).
  assert (outcome r (same_docs d2 d') (changed d2 d' (billets_collection st) (delete n)) ∧
          ∀ c, r = Ok c → c = wrap 32 (wrap 32 (Z.of_nat (length l)) + 1)) as [Ho Hcount].
  { apply M_bind_inv in Hk as [(u & d3 & (x & Hd%delete_law & Hx)%fs_call_inv & Hk)|(e & (x & Hd%delete_law & Hx)%fs_call_inv & ->)];
      destruct x; try done. injection Hk as <- <-. split; [exact Hd|]. by intros c [= <-]. }
  assert (docs d' (policies_collection st) = docs d2 (policies_collection st) ∧
          (docs d' (billets_collection st) = docs d2 (billets_collection st) ∨
           docs d' (billets_collection st) = delete n (docs d2 (billets_collection st)))) as [Hp Hcase].
  { destruct r; cbn in Ho; [|destruct Ho as [Ho|Ho]].
    - split; [by apply (fs_changed_other _ _ _ _ _ Ho), not_eq_sym|right; apply (fs_changed_at _ _ _ _ Ho)].
    - split; [apply Ho|left; apply Ho].
    - split; [by apply (fs_changed_other _ _ _ _ _ Ho), not_eq_sym|right; apply (fs_changed_at _ _ _ _ Ho)]. }
  rewrite Hp. split_and!; [|done|done|].
  - intros m Hm. destruct Hcase as [->| ->]; rewrite ?lookup_delete_ne by done; by rewrite Hb.
  - destruct r as [c|e]; [|destruct Hcase as [->| ->]; [left; by rewrite Hb|right; by rewrite lookup_delete_eq]].
    rewrite (fs_changed_at _ _ _ _ Ho), lookup_delete_eq. split_and!; [done|done|].
    by rewrite (Hcount c eq_refl), Hlen.
Qed.
End effects.

(* ------------------------------------------------------------------ *)
(** ** A service that satisfies the laws, and what it shows *)

Module ToyFirestore.

Abbreviation ToyDocs := (gmap string (gmap string Doc)).

#[export] Instance toy_docs : FirestoreData ToyDocs := λ d c, default ∅ (d !! c).

Definition write (c : string) (m : gmap string Doc) (d : ToyDocs) : ToyDocs := <[c := m]> d.

#[export] Instance toy_client : FirestoreClient ToyDocs := {|
  fs_new _ := λ d, (Ok tt, d);
  fs_get c i := λ d, (Ok (docs d c !! i), d);
  fs_insert c i doc := λ d, match docs d c !! i with
                            | Some _ => (Err "ALREADY_EXISTS", d)
                            | None => (Ok doc, write c (<[i := doc]> (docs d c)) d)
                            end;
  fs_update c i mask doc := λ d,
    let doc' := merge mask doc (default ∅ (docs d c !! i)) in (Ok doc', write c (<[i := doc']> (docs d c)) d);
  fs_delete c i := λ d, (Ok tt, write c (delete i (docs d c)) d);
  fs_query c fs := λ d, (Ok (filter (λ doc, forallb (satisfies doc) fs = true) (map_to_list (docs d c)).*2), d);
  fs_list c _ := λ d, (Ok (map_to_list (docs d c)).*2, d);
  fs_begin_transaction := λ d, (Ok tt, d);
  fs_commit ids := λ d, (Ok tt, foldr (λ ci d, write ci.1 (delete ci.2 (docs d ci.1)) d) d ids);
  fs_decode_error _ := "missing field"
|}.

Lemma write_changed c f (d : ToyDocs) : changed d (write c (f (docs d c)) d) c f.
Proof.
  intros c'. unfold write, docs, toy_docs. destruct (decide (c' = c)) as [->|Hc]; [by rewrite lookup_insert_eq|by rewrite lookup_insert_ne].
Qed.

Lemma commit_changed c ids (d : ToyDocs) :
  changed d (foldr (λ ci d, write ci.1 (delete ci.2 (docs d ci.1)) d) d (pair c <$> ids)) c (filter (λ kv, kv.1 ∉ ids)).
Proof.
  induction ids as [|i ids IH]; [by apply same_purge|]. rewrite fmap_cons. cbn [foldr fst snd].
  set (d1 := foldr _ d (pair c <$> ids)) in *. intros c'. rewrite (write_changed c (delete i) d1 c'), (IH c').
  destruct (decide (c' = c)) as [->|]; [|done]. apply map_eq. intros k. apply option_eq. intros doc.
  rewrite lookup_delete_Some, !map_lookup_filter_Some. cbn. rewrite not_elem_of_cons. naive_solver.
Qed.

#[export] Instance toy_laws : FirestoreLaws ToyDocs.
Proof.
  split; cbn [fs_get fs_insert fs_update fs_delete fs_query fs_list fs_begin_transaction fs_commit toy_client].
  - intros c i d r d' [= <- <-]. split; [done|]. by intros o [= <-].
  - intros c i doc d r d'. destruct (docs d c !! i) eqn:Hi; intros [= <- <-]; cbn.
    + split; [by left|done].
    + split; [|by intros ? [= <-]]. split; [done|]. apply (write_changed c (<[i := doc]>)).
  - intros c i mask doc d r d' [= <- <-]. split; [|by intros ? [= <-]]. apply (write_changed c (<[i := _]>)).
  - intros c i d r d' [= <- <-]. apply (write_changed c (delete i)).
  - intros c fs d r d' [= <- <-]. split; [done|]. by intros l [= <-].
  - intros c n d r d' [= <- <-]. split; [done|]. by intros l [= <-].
  - intros d r d' [= <- <-]. done.
  - intros c ids d r d' [= <- <-]. apply commit_changed.
Qed.

Definition demo_store : FirestoreDataStore := mkFirestoreStore "qm-billets" "qm-policies" "qm-keys".
Definition ops : BilletRecord := mkBillet "ops" "operators" ["arn"] [] ["team"] "t0" "t0".
Definition p1 : PolicyRecord := mkPolicy "ops" "p1" "permit" "" "t0" "t0".
Definition p2 : PolicyRecord := mkPolicy "ops__dev" "p2" "permit" "" "t0" "t0".

Definition demo_docs : ToyDocs :=
  ((_ ← f_create_billet demo_store ops; _ ← f_create_policy demo_store p1; f_create_policy demo_store p2) (∅ : ToyDocs)).2.

(** The identifier of a policy of [ops__dev] is one of [ops] too: through the path of
    [ops], for which the caller is authorized, it is read and deleted. *)
Lemma policy_ids_collide :
  (f_get_policy demo_store "ops" "dev__p2" demo_docs).1 = Ok (Some p2) ∧
  (f_get_policy demo_store "ops__dev" "p2" (f_delete_policy demo_store "ops" "dev__p2" demo_docs).2).1 = Ok None.
Proof. split; vm_compute; reflexivity. Qed.

(** An update of a policy that is not there reports an error and leaves a document
    without a billet, which is then in the way of the policy. *)
Lemma update_of_missing_leaves_fragment :
  let d := (f_update_policy demo_store p1 (∅ : ToyDocs)).2 in
  (f_update_policy demo_store p1 (∅ : ToyDocs)).1 = Err (Internal "missing field") ∧
  (f_create_policy demo_store p1 d).1 = Err (Internal "missing field") ∧
  (f_list_all_policies demo_store d).1 = Ok [].
Proof. split_and!; vm_compute; reflexivity. Qed.

Lemma fs_demo_count : (f_delete_billet_cascade demo_store "ops" demo_docs).1 = Ok 2%Z.
Proof. vm_compute. reflexivity. Qed.

Definition cascaded : ToyDocs := (f_delete_billet_cascade demo_store "ops" demo_docs).2.

Lemma fs_demo_cascade : f_delete_billet_cascade demo_store "ops" demo_docs = (Ok 2%Z, cascaded).
Proof. rewrite <-fs_demo_count. apply surjective_pairing. Qed.

Definition filed (kv : string * Doc) : bool :=
  match de_policy kv.2 with Some p => bool_decide (kv.1 = policy_doc_id (pd_billet_name p) (pd_policy_id p)) | None => false end.

Lemma demo_filed : forallb filed (map_to_list (docs demo_docs "qm-policies")) = true.
Proof. vm_compute. reflexivity. Qed.

Lemma demo_well_filed : well_filed demo_store demo_docs.
Proof.
  intros id doc Hdoc%elem_of_map_to_list. pose proof demo_filed as Hf. rewrite forallb_forall in Hf.
  apply list_elem_of_In in Hdoc. specialize (Hf _ Hdoc). unfold filed in Hf. cbn in Hf.
  destruct (de_policy doc) as [p|]; [|done]. apply bool_decide_eq_true in Hf. exists p. split; [reflexivity|exact Hf].
Qed.

Lemma demo_other_policy : docs demo_docs "qm-policies" !! "ops__dev__p2" ≫= de_policy = Some (policy_to_doc p2).
Proof. vm_compute. reflexivity. Qed.

Lemma firestore_cascade_witness :
  docs cascaded "qm-billets" !! "ops" = None ∧
  docs cascaded "qm-policies" !! "ops__dev__p2" ≫= de_policy = Some (policy_to_doc p2).
Proof.
  destruct (firestore_cascade demo_store "ops" demo_docs (Ok 2%Z) cascaded ltac:(discriminate) demo_well_filed fs_demo_cascade)
    as (_ & Hkeep & _ & Hb & _ & _).
  split; [exact Hb|]. pose proof demo_other_policy as (doc & Hdoc & Hde)%bind_Some.
  apply bind_Some. exists doc. split; [|exact Hde]. apply Hkeep; [exact Hdoc|].
  apply de_policy_Some in Hde as [Hn _]. unfold of_billet. rewrite Hn. discriminate.
Defined.

Lemma fs_demo_created : (f_create_billet demo_store ops (∅ : ToyDocs)).1 = Ok tt.
Proof. vm_compute. reflexivity. Qed.

Lemma firestore_record_effects_witness :
  changed (∅ : ToyDocs) (f_create_billet demo_store ops (∅ : ToyDocs)).2 "qm-billets" <["ops" := ser_billet (billet_to_doc ops)]>.
Proof.
  pose proof (proj1 (firestore_record_effects demo_store (∅ : ToyDocs)) ops _ _
                (surjective_pairing (f_create_billet demo_store ops (∅ : ToyDocs)))) as Ho.
  rewrite fs_demo_created in Ho. exact (proj2 Ho).
Defined.
End ToyFirestore.

End Firestore.
