(* ===== verification/LocalDurability.v ===== *)
(** * Durability of the file-backed store ([src/src/datastore/local.rs])

    What is on disk after a start on a well filed directory and any run of
    [LocalDataStore]'s operations: each call of the file system may fail.  Theorems: a
    record held in memory always has its JSON file, the directory stays one to start on,
    and when no removal failed it holds nothing else, so that [new] on it loads the same
    maps.  [new] itself files a record under the name the record has, whatever its file is
    called ([misfiled_record]). *)

From S2P Require Import Prelude DataStore LocalStore.

Module LocalDurability.
Import DataStore LocalStore.

(** Names that stay inside their directory and keep the [json] extension. *)
Definition safe_name (s : string) : bool :=
  negb (Str.is_empty s) && Str.all_chars (λ c, bool_decide (c ≠ "/"%char)) s
  && bool_decide (s ≠ ".") && bool_decide (s ≠ "..").

Lemma safe_name_spec s : safe_name s = true ↔
  s ≠ "" ∧ Str.all_chars (λ c, bool_decide (c ≠ "/"%char)) s = true ∧ s ≠ "." ∧ s ≠ "..".
Proof.
  unfold safe_name, Str.is_empty. rewrite !andb_true_iff, negb_true_iff, bool_decide_eq_false,
    !bool_decide_eq_true. naive_solver.
Qed.

Lemma split_single c s :
  Str.all_chars (λ x, bool_decide (x ≠ c)) s = true → Str.split c s = [s].
Proof.
  induction s as [|a s IH]; simpl; [done|]. intros [Ha Hs]%andb_true_iff.
  apply bool_decide_eq_true in Ha. rewrite bool_decide_eq_false_2 by done. by rewrite IH.
Qed.

Lemma parse_path_single s :
  Str.all_chars (λ x, bool_decide (x ≠ "/"%char)) s = true → s ≠ "" → s ≠ "." →
  parse_path s = mkPath false [s].
Proof.
  intros Hs He Hd. unfold parse_path. rewrite split_single by done.
  rewrite filter_cons, decide_True by done. f_equal.
  destruct (Str.starts_with "/" s) eqn:E; [|done].
  apply starts_with_spec in E as [r ->]. by rewrite all_chars_app in Hs.
Qed.

Lemma join_single p s :
  Str.all_chars (λ x, bool_decide (x ≠ "/"%char)) s = true → s ≠ "" → s ≠ "." →
  join p s = mkPath (absolute p) (comps p ++ [s]).
Proof. intros Hs He Hd. unfold join. by rewrite parse_path_single. Qed.

Lemma resolve_snoc cwd b l s :
  s ≠ ".." → resolve cwd (mkPath b (l ++ [s])) = resolve cwd (mkPath b l) ++ [s].
Proof.
  intros Hs. unfold resolve. simpl. rewrite foldl_snoc. by rewrite bool_decide_eq_false_2.
Qed.

Lemma app_json_ne s t : t ≠ "" → s +:+ t ≠ "".
Proof. destruct s; [done|]. by rewrite app_cons. Qed.

Lemma json_name s : safe_name s = true →
  Str.all_chars (λ x, bool_decide (x ≠ "/"%char)) (s +:+ ".json") = true ∧
  s +:+ ".json" ≠ "" ∧ s +:+ ".json" ≠ "." ∧ s +:+ ".json" ≠ "..".
Proof.
  intros (Hne & Hs & _)%safe_name_spec. split_and!.
  - by rewrite all_chars_app, Hs.
  - by apply app_json_ne.
  - intros H. apply (f_equal String.length) in H. rewrite str_length_app in H. simpl in H. lia.
  - intros H. apply (f_equal String.length) in H. rewrite str_length_app in H. simpl in H. lia.
Qed.

Lemma json_not_dotdot s : s +:+ ".json" ≠ "..".
Proof. intros E. apply (f_equal String.length) in E. rewrite str_length_app in E. simpl in E. lia. Qed.

(** The last dot of [name.json]. *)
Lemma rsplit_dot_app s t :
  rsplit_dot t = Some ("", "json") → rsplit_dot (s +:+ t) = Some (s, "json").
Proof.
  intros Ht. induction s as [|c s IH]; [done|]. rewrite app_cons. cbn [rsplit_dot]. by rewrite IH.
Qed.

Lemma split_extension_json s : s ≠ "" → split_extension (s +:+ ".json") = (s, Some "json").
Proof. intros Hs. unfold split_extension. rewrite rsplit_dot_app by done. by destruct s. Qed.

Lemma is_json_spec e : is_json e = true ↔ ∃ s, s ≠ "" ∧ entry_name e = s +:+ ".json".
Proof.
  unfold is_json, extension. rewrite bool_decide_eq_true. split.
  - assert (∀ f a b, rsplit_dot f = Some (a, b) → f = a +:+ "." +:+ b) as Hd.
    { induction f as [|c f IH]; intros a b; cbn [rsplit_dot]; [done|].
      destruct (rsplit_dot f) as [[a' b']|].
      - intros [= <- <-]. rewrite app_cons. by rewrite <-(IH a' b').
      - case_bool_decide; [|done]. intros [= <- <-]. by subst. }
    unfold split_extension. destruct (rsplit_dot (entry_name e)) as [[[|c a] b]|] eqn:E; try done.
    intros [= ->]. apply Hd in E. exists (String c a). done.
  - intros (s & Hs & ->). by rewrite split_extension_json.
Qed.

(* ------------------------------------------------------------------ *)
Section durability.
Context {F : Type} `{FileSystemLaws F}.
Context `{CodecLaws BilletRecord, CodecLaws PolicyRecord}.
Context `{CodecLaws EphemeralKeyRecord}.
Context `{HashIter}.

Implicit Types (d : LocalDataStore (F := F)).

Definition root (d : LocalDataStore (F := F)) : list string := resolve fs_cwd (path d).
Definition bfile (R : list string) (n : string) : list string := R ++ ["billets"; n +:+ ".json"].
Definition pfile (R : list string) (b i : string) : list string :=
  R ++ ["policies"; b; i +:+ ".json"].
Definition kfile (R : list string) (i : string) : list string := R ++ ["keys"; i +:+ ".json"].

Lemma resolve_billet_path p n : safe_name n = true →
  resolve fs_cwd (billet_path p n) = bfile (resolve fs_cwd p) n ∧
  ∃ b l, billet_path p n = mkPath b (l ++ [n +:+ ".json"]) ∧
         resolve fs_cwd (mkPath b l) = resolve fs_cwd p ++ ["billets"].
Proof.
  intros Hn. destruct (json_name n Hn) as (N1 & N2 & N3 & N4). unfold billet_path.
  rewrite (join_single p "billets") by done. rewrite join_single by done. cbn [absolute comps].
  rewrite resolve_snoc by done. rewrite resolve_snoc by done. destruct p as [b l]. cbn [absolute comps].
  unfold bfile. split; [by rewrite <-app_assoc|].
  exists b, (l ++ ["billets"]). split; [done|by rewrite resolve_snoc].
Qed.

Lemma resolve_key_path p n : safe_name n = true →
  resolve fs_cwd (key_path p n) = kfile (resolve fs_cwd p) n ∧
  ∃ b l, key_path p n = mkPath b (l ++ [n +:+ ".json"]) ∧
         resolve fs_cwd (mkPath b l) = resolve fs_cwd p ++ ["keys"].
Proof.
  intros Hn. destruct (json_name n Hn) as (N1 & N2 & N3 & N4). unfold key_path.
  rewrite (join_single p "keys") by done. rewrite join_single by done. cbn [absolute comps].
  rewrite resolve_snoc by done. rewrite resolve_snoc by done. destruct p as [b l]. cbn [absolute comps].
  unfold kfile. split; [by rewrite <-app_assoc|].
  exists b, (l ++ ["keys"]). split; [done|by rewrite resolve_snoc].
Qed.

Lemma resolve_policy_dir p n : safe_name n = true →
  resolve fs_cwd (join (join p "policies") n) = resolve fs_cwd p ++ ["policies"; n] ∧
  join (join p "policies") n = mkPath (absolute p) (comps p ++ ["policies"; n]).
Proof.
  intros (N1 & N2 & N3 & N4)%safe_name_spec.
  rewrite (join_single p "policies") by done. rewrite join_single by done. cbn [absolute comps].
  rewrite resolve_snoc by done. rewrite resolve_snoc by done. destruct p. cbn [absolute comps].
  by rewrite <-!app_assoc.
Qed.

Lemma resolve_policy_path p n i : safe_name n = true → safe_name i = true →
  resolve fs_cwd (policy_path p n i) = pfile (resolve fs_cwd p) n i ∧
  ∃ b l, policy_path p n i = mkPath b (l ++ [i +:+ ".json"]) ∧
         resolve fs_cwd (mkPath b l) = resolve fs_cwd p ++ ["policies"; n].
Proof.
  intros Hn Hi. destruct (json_name i Hi) as (N1 & N2 & N3 & N4). unfold policy_path.
  destruct (resolve_policy_dir p n Hn) as [Hr Hj].
  rewrite join_single by done. rewrite Hj in *. cbn [absolute comps].
  rewrite resolve_snoc by done. rewrite Hr. unfold pfile. split; [by rewrite <-app_assoc|].
  eexists _, _. split; [done|done].
Qed.

(** What a write leaves: outside the temporary file, the target with the new
    contents, or nothing changed at all. *)
Lemma atomic_write_files b l n s f r f' : safe_name n = true →
  atomic_write (mkPath b (l ++ [n +:+ ".json"])) s f = (r, f') →
  ∀ q, (∀ D m, q ≠ D ++ [m +:+ ".json.tmp"]) →
    fs_files f' !! q =
    match r with
    | Ok _ => <[resolve fs_cwd (mkPath b l) ++ [n +:+ ".json"] := s]> (fs_files f) !! q
    | Err _ => fs_files f !! q
    end.
Proof.
  intros Hn Hw q Hq. pose proof (json_name n Hn) as (_ & _ & _ & Hdd).
  apply safe_name_spec in Hn as (Hne & _).
  set (p := mkPath b (l ++ [n +:+ ".json"])) in *.
  assert (with_extension p "json.tmp" = mkPath b (l ++ [n +:+ ".json.tmp"])) as Ht.
  { unfold with_extension, p. cbn [comps absolute]. rewrite last_snoc, removelast_last.
    by rewrite split_extension_json. }
  assert (n +:+ ".json.tmp" ≠ "..") as Hdd'.
  { intros E. apply (f_equal String.length) in E. rewrite str_length_app in E. simpl in E. lia. }
  unfold atomic_write in Hw. rewrite Ht in Hw.
  assert (resolve fs_cwd (mkPath b (l ++ [n +:+ ".json.tmp"])) ≠ q) as Hqt.
  { rewrite resolve_snoc by done. intros E. by eapply Hq. }
  assert (resolve fs_cwd p = resolve fs_cwd (mkPath b l) ++ [n +:+ ".json"]) as Hp
    by (by apply resolve_snoc). rewrite <-Hp.
  apply M_bind_inv in Hw as [([] & f1 & Hx & Hw)|(e & Hx & ->)].
  2:{ destruct (parent p) as [q'|]; [|done]. apply m_map_err_inv in Hx as (x & Hx & _).
      by rewrite (fs_create_dir_all_files _ _ _ _ Hx). }
  assert (fs_files f1 = fs_files f) as Hf1.
  { destruct (parent p) as [q'|]; [|by injection Hx as <-].
    apply m_map_err_inv in Hx as (x & Hx & _). by apply fs_create_dir_all_files in Hx. }
  apply M_bind_inv in Hw as [([] & f2 & Hx2 & Hw)|(e & Hx2 & ->)].
  2:{ apply m_map_err_inv in Hx2 as ([|e'] & Hx2 & He); [done|].
      apply fs_write_err with (q := q) in Hx2; [|done]. by rewrite Hx2, Hf1. }
  apply m_map_err_inv in Hx2 as ([[]|] & Hx2 & He); [|by inversion He]. apply fs_write_ok in Hx2.
  apply M_bind_inv in Hw as [([] & f3 & Hx3 & Hw)|(e & Hx3 & ->)].
  - injection Hw as <- <-. apply m_map_err_inv in Hx3 as ([[]|] & Hx3 & He3); [|by inversion He3].
    apply fs_rename_ok in Hx3 as (s' & Hs' & Hf3).
    rewrite Hf3, Hx2 in *. rewrite lookup_insert_eq in Hs'. injection Hs' as <-.
    destruct (decide (resolve fs_cwd p = q)) as [->|Hne'].
    + by rewrite !lookup_insert_eq.
    + rewrite !lookup_insert_ne, lookup_delete_ne, lookup_insert_ne by done. by rewrite Hf1.
  - apply m_map_err_inv in Hx3 as ([|e'] & Hx3 & He3); [by inversion He3|]. apply fs_rename_err in Hx3.
    by rewrite Hx3, Hx2, lookup_insert_ne, Hf1.
Qed.

(** Record files are distinct from each other and from temporary files. *)
Lemma json_not_temp D R n m : D ++ [n +:+ ".json"] ≠ R ++ [m +:+ ".json.tmp"].
Proof.
  intros [_ [= E]]%app_inj_tail. revert E. change ".json" with (".jso" +:+ "n").
  change ".json.tmp" with (".json.tm" +:+ "p"). rewrite !str_app_assoc. by apply str_last_ne.
Qed.

Lemma bfile_not_temp R n D m : bfile R n ≠ D ++ [m +:+ ".json.tmp"].
Proof. intros E. apply (json_not_temp (R ++ ["billets"]) D n m). by rewrite <-app_assoc. Qed.
Lemma pfile_not_temp R b i D m : pfile R b i ≠ D ++ [m +:+ ".json.tmp"].
Proof. intros E. apply (json_not_temp (R ++ ["policies"; b]) D i m). by rewrite <-app_assoc. Qed.
Lemma kfile_not_temp R n D m : kfile R n ≠ D ++ [m +:+ ".json.tmp"].
Proof. intros E. apply (json_not_temp (R ++ ["keys"]) D n m). by rewrite <-app_assoc. Qed.
Lemma kfile_inj R n m : kfile R n = kfile R m → n = m.
Proof. intros [= E]%(inj (app R)). by apply str_app_inj_r in E. Qed.
Lemma bfile_inj R n m : bfile R n = bfile R m → n = m.
Proof. intros [= E]%(inj (app R)). by apply str_app_inj_r in E. Qed.
Lemma pfile_inj R b i b' i' : pfile R b i = pfile R b' i' → b = b' ∧ i = i'.
Proof. intros [= -> E]%(inj (app R)). by apply str_app_inj_r in E. Qed.
Lemma bfile_not_pfile R n b i : bfile R n ≠ pfile R b i.
Proof. by intros [= E]%(inj (app R)). Qed.
Lemma kfile_not_bfile R n m : kfile R n ≠ bfile R m.
Proof. by intros [= E]%(inj (app R)). Qed.
Lemma kfile_not_pfile R n b i : kfile R n ≠ pfile R b i.
Proof. by intros [= E]%(inj (app R)). Qed.

#[local] Hint Resolve bfile_not_temp pfile_not_temp bfile_not_pfile kfile_not_bfile kfile_not_pfile
  not_eq_sym : core.

(* ------------------------------------------------------------------ *)
(** ** The operations that write *)

Inductive op : Type :=
| OCreateBillet (r : BilletRecord)
| OUpdateBillet (r : BilletRecord)
| ODeleteBillet (n : string)
| OCreatePolicy (r : PolicyRecord)
| OUpdatePolicy (r : PolicyRecord)
| ODeletePolicy (b i : string)
| OPutKey (r : EphemeralKeyRecord)
| ODeleteKeys (purpose before : string).

Definition exec (o : op) (d : LocalDataStore (F := F)) : LocalDataStore (F := F) :=
  match o with
  | OCreateBillet r => (create_billet r d).2
  | OUpdateBillet r => (update_billet r d).2
  | ODeleteBillet n => (delete_billet_cascade n d).2
  | OCreatePolicy r => (create_policy r d).2
  | OUpdatePolicy r => (update_policy r d).2
  | ODeletePolicy b i => (delete_policy b i d).2
  | OPutKey r => (put_ephemeral_key r d).2
  | ODeleteKeys p before => (delete_expired_ephemeral_keys p before d).2
  end.

Definition safe_op (o : op) : bool :=
  match o with
  | OCreateBillet r | OUpdateBillet r => safe_name (name r)
  | ODeleteBillet n => safe_name n
  | OCreatePolicy r | OUpdatePolicy r => safe_name (billet_name r) && safe_name (policy_id r)
  | ODeletePolicy b i => safe_name b && safe_name i
  | OPutKey r => safe_name (key_id r)
  | ODeleteKeys _ _ => true
  end.

(** Everything in memory has a safe name and is on disk under it. *)
Record durable (d : LocalDataStore (F := F)) : Prop := {
  dur_billets : ∀ n r, billets (state d) !! n = Some r →
    safe_name n = true ∧ ∃ s, fs_files (disk d) !! bfile (root d) n = Some s ∧ from_json s = Ok r;
  dur_policies : ∀ b i r, policies (state d) !! (b, i) = Some r →
    safe_name b = true ∧ safe_name i = true ∧
    ∃ s, fs_files (disk d) !! pfile (root d) b i = Some s ∧ from_json s = Ok r;
  dur_keys : ∀ k, k ∈ keys (state d) → safe_name (key_id k) = true
}.

(** Nothing else is in the billet and policy directories. *)
Record no_strays (d : LocalDataStore (F := F)) : Prop := {
  stray_billets : ∀ n, n ≠ "" → is_Some (fs_files (disk d) !! bfile (root d) n) →
    is_Some (billets (state d) !! n);
  stray_policies : ∀ b i, i ≠ "" → is_Some (fs_files (disk d) !! pfile (root d) b i) →
    is_Some (policies (state d) !! (b, i))
}.

(** One record written, or none. *)
Definition put_spec (d d' : LocalDataStore (F := F)) (target : list string) (s : string) (ok : bool) : Prop :=
  root d' = root d ∧ ∀ q, (∀ D m, q ≠ D ++ [m +:+ ".json.tmp"]) →
    fs_files (disk d') !! q =
    if ok then <[target := s]> (fs_files (disk d)) !! q else fs_files (disk d) !! q.

Lemma guarded_put_files {R} `{Codec R} cond err msg p (r : R) g d x d' target n :
  guarded_put cond err msg p r g d = (x, d') → safe_name n = true →
  (∃ b l, p (path d) = mkPath b (l ++ [n +:+ ".json"]) ∧
          target = resolve fs_cwd (mkPath b l) ++ [n +:+ ".json"]) →
  (x = Ok tt ∧ state d' = g (state d) ∧ ∃ s, to_json r = Ok s ∧ put_spec d d' target s true) ∨
  (state d' = state d ∧ put_spec d d' target "" false).
Proof.
  intros Hput Hn (b & l & Hp & ->).
  apply guarded_put_inv in Hput
    as [(Hc & -> & ->)|[(Hc & e & He & -> & ->)|(Hc & s & y & f & Hs & Hw & -> & ->)]].
  - by right.
  - by right.
  - rewrite Hp in Hw. pose proof (atomic_write_files _ _ _ _ _ _ _ Hn Hw) as Hf.
    destruct y as [[]|e]; [left|right; done].
    split_and!; [done..|]. exists s. done.
Qed.

Lemma durable_put_billet d d' (r : BilletRecord) s :
  durable d → safe_name (name r) = true → to_json r = Ok s →
  state d' = put_billet r (state d) → put_spec d d' (bfile (root d) (name r)) s true → durable d'.
Proof.
  intros [Hb Hp Hk] Hn Hs Hst [Hroot Hf]. split; rewrite Hst; cbn; [| |done].
  - intros n r' [[<- <-]|[Hne Hr']]%lookup_insert_Some; (split; [naive_solver|]); rewrite Hroot, Hf by done.
    + rewrite lookup_insert_eq. eauto using json_roundtrip.
    + rewrite lookup_insert_ne by (by intros ?%bfile_inj). naive_solver.
  - intros b i r' Hr'. rewrite Hroot, Hf, lookup_insert_ne by done. by apply Hp.
Qed.

Lemma durable_put_policy d d' (r : PolicyRecord) s :
  durable d → safe_name (billet_name r) = true → safe_name (policy_id r) = true →
  to_json r = Ok s → state d' = put_policy r (state d) →
  put_spec d d' (pfile (root d) (billet_name r) (policy_id r)) s true → durable d'.
Proof.
  intros [Hb Hp Hk] Hn Hi Hs Hst [Hroot Hf]. split; rewrite Hst; cbn; [| |done].
  - intros n r' Hr'. rewrite Hroot, Hf, lookup_insert_ne by eauto. by apply Hb.
  - intros b i r' [[[= <- <-] <-]|[Hne Hr']]%lookup_insert_Some; rewrite Hroot, Hf by done.
    + rewrite lookup_insert_eq. split_and!; [done..|]. exists s. split; [done|by apply json_roundtrip].
    + rewrite lookup_insert_ne; [by apply Hp|]. intros [Eb Ei]%pfile_inj. apply Hne. unfold policy_key. by rewrite Eb, Ei.
Qed.

Lemma durable_put_none d d' target :
  durable d → state d' = state d → put_spec d d' target "" false → durable d'.
Proof.
  intros [Hb Hp Hk] Hst [Hroot Hf]. split; rewrite Hst; [| |done]; intros; rewrite Hroot, Hf by done; auto.
Qed.

(** Removing files under removed records. *)
Lemma durable_remove d d' :
  durable d → root d' = root d → billets (state d') ⊆ billets (state d) →
  policies (state d') ⊆ policies (state d) →
  (∀ k, k ∈ keys (state d') → k ∈ keys (state d)) →
  (∀ n, is_Some (billets (state d') !! n) → safe_name n = true →
     fs_files (disk d') !! bfile (root d) n = fs_files (disk d) !! bfile (root d) n) →
  (∀ b i, is_Some (policies (state d') !! (b, i)) → safe_name b = true → safe_name i = true →
     fs_files (disk d') !! pfile (root d) b i = fs_files (disk d) !! pfile (root d) b i) →
  durable d'.
Proof.
  intros [Hb Hp Hk] Hroot Hsb Hsp Hsk Hfb Hfp. split; [| |by auto]; rewrite Hroot.
  - intros n r Hr. pose proof (lookup_weaken _ _ _ _ Hr Hsb) as Hr'.
    destruct (Hb n r Hr') as [Hs ?]. rewrite Hfb by eauto. done.
  - intros b i r Hr. pose proof (lookup_weaken _ _ _ _ Hr Hsp) as Hr'.
    destruct (Hp b i r Hr') as (Hs & Hi & ?). rewrite Hfp by eauto. done.
Qed.

Lemma remove_file_files p f r f' :
  fs_remove_file p f = (r, f') →
  ∀ q, q ≠ resolve fs_cwd p → fs_files f' !! q = fs_files f !! q.
Proof.
  intros Hr q Hq. destruct r as [[]|e].
  - apply fs_remove_file_ok in Hr. by rewrite Hr, lookup_delete_ne.
  - by apply fs_remove_file_err in Hr as ->.
Qed.

Lemma bfile_not_under R n l : ¬ R ++ "policies" :: l `prefix_of` bfile R n.
Proof. intros [x E]. rewrite <-app_assoc in E. by apply (inj (app R)) in E. Qed.

Lemma pfile_under R n b i : R ++ ["policies"; n] `prefix_of` pfile R b i → n = b.
Proof. intros [x E]. rewrite <-app_assoc in E. by apply (inj (app R)) in E; simplify_list_eq. Qed.

(** The key files are elsewhere. *)
Lemma remove_key_files_spec rt ids n d r d' :
  remove_key_files rt ids n d = (r, d') → Forall (λ i, safe_name i = true) ids →
  path d' = path d ∧ state d' = state d ∧
  ∀ q, (∀ i, q ≠ kfile (resolve fs_cwd rt) i) → fs_files (disk d') !! q = fs_files (disk d) !! q.
Proof.
  revert n d. induction ids as [|i ids IH]; intros n d; cbn [remove_key_files].
  - intros [= <- <-] _. done.
  - intros Hr [Hi Hids]%Forall_cons.
    apply M_bind_inv in Hr as [([] & d1 & H1' & H2')|(e & H1' & ->)];
      apply ignore_err_inv in H1' as (x & f & Hf & Hx & ->); [|done].
    apply IH in H2' as (-> & -> & Hq); [|done]. cbn in *. split_and!; [done..|].
    intros q Hk. rewrite Hq by done. eapply remove_file_files; [done|].
    destruct (resolve_key_path rt i Hi) as [-> _]. done.
Qed.

(** The put operations, in the vocabulary of [put_spec]. *)
Lemma billet_put_cases (r : BilletRecord) d x d' :
  create_billet r d = (x, d') ∨ update_billet r d = (x, d') → safe_name (name r) = true →
  (x = Ok tt ∧ state d' = put_billet r (state d) ∧
   ∃ s, to_json r = Ok s ∧ put_spec d d' (bfile (root d) (name r)) s true) ∨
  (state d' = state d ∧ put_spec d d' (bfile (root d) (name r)) "" false).
Proof.
  intros E Hn. destruct (resolve_billet_path (path d) _ Hn) as [_ (b & l & Hp & Hl)].
  assert (bfile (root d) (name r) = resolve fs_cwd (mkPath b l) ++ [name r +:+ ".json"]) as Ht.
  { rewrite Hl, <-app_assoc. done. }
  destruct E as [E|E]; cbn in E; [rewrite l_create_billet_put in E|rewrite l_update_billet_put in E];
    eapply guarded_put_files; eauto.
Qed.

Lemma policy_put_cases (r : PolicyRecord) d x d' :
  create_policy r d = (x, d') ∨ update_policy r d = (x, d') →
  safe_name (billet_name r) = true → safe_name (policy_id r) = true →
  (x = Ok tt ∧ state d' = put_policy r (state d) ∧
   ∃ s, to_json r = Ok s ∧ put_spec d d' (pfile (root d) (billet_name r) (policy_id r)) s true) ∨
  (state d' = state d ∧ put_spec d d' (pfile (root d) (billet_name r) (policy_id r)) "" false).
Proof.
  intros E Hn Hi. destruct (resolve_policy_path (path d) _ _ Hn Hi) as [_ (b & l & Hp & Hl)].
  assert (pfile (root d) (billet_name r) (policy_id r) =
          resolve fs_cwd (mkPath b l) ++ [policy_id r +:+ ".json"]) as Ht.
  { rewrite Hl, <-app_assoc. done. }
  destruct E as [E|E]; cbn in E; [rewrite l_create_policy_put in E|rewrite l_update_policy_put in E];
    eapply guarded_put_files; eauto.
Qed.

Lemma key_put_cases (r : EphemeralKeyRecord) d x d' :
  put_ephemeral_key r d = (x, d') → safe_name (key_id r) = true →
  root d' = root d ∧ billets (state d') = billets (state d) ∧ policies (state d') = policies (state d) ∧
  (keys (state d') = keys (state d) ∨ keys (state d') = put_key r (keys (state d))) ∧
  ∀ q, (∀ D m, q ≠ D ++ [m +:+ ".json.tmp"]) → q ≠ kfile (root d) (key_id r) →
    fs_files (disk d') !! q = fs_files (disk d) !! q.
Proof.
  intros E Hn. destruct (resolve_key_path (path d) _ Hn) as [_ (b & l & Hp & Hl)].
  assert (kfile (root d) (key_id r) = resolve fs_cwd (mkPath b l) ++ [key_id r +:+ ".json"]) as Ht.
  { rewrite Hl, <-app_assoc. done. }
  change (guarded_put (λ _, false) (Internal "") "serialize key" (λ root, key_path root (key_id r)) r
    (λ s, mkState (LocalStore.billets s) (LocalStore.policies s) (put_key r (LocalStore.keys s))) d = (x, d')) in E.
  eapply guarded_put_files in E as [(-> & Hst & s & Hs & Hroot & Hf)|[Hst (Hroot & Hf)]];
    [..|exact Hn|by eauto].
  - rewrite Hst. split_and!; eauto. intros q Hq Hk. by rewrite Hf, lookup_insert_ne by eauto.
  - rewrite Hst. split_and!; eauto.
Qed.

Lemma elem_of_put_key k r l : k ∈ put_key r l → k = r ∨ k ∈ l.
Proof.
  induction l as [|k' l IH]; cbn; [set_solver|]. case_bool_decide; set_solver.
Qed.

(** The cascade: the billet, its policies, their directory. *)
Lemma delete_billet_cases n d x d' :
  delete_billet_cascade n d = (x, d') → safe_name n = true →
  d' = d ∨
  (path d' = path d ∧ state d' = mkState (delete n (billets (state d)))
     (remove_policies n (policies (state d))) (keys (state d)) ∧
   ∃ r1 f r2, fs_remove_file (billet_path (path d) n) (disk d) = (r1, f) ∧
     fs_remove_dir_all (join (join (path d) "policies") n) f = (r2, disk d')).
Proof.
  intros E Hn. cbn in E. unfold l_delete_billet_cascade, set_state in E. unfold_monad.
  case_bool_decide; cbn in E; [|injection E as <- <-; by left].
  unfold ignore_err in E. cbn in E.
  destruct (fs_remove_file _ _) as [r1 f] eqn:H1'. cbn in E.
  destruct (fs_remove_dir_all _ _) as [r2 f2] eqn:H2'. cbn in E.
  injection E as <- <-. right. cbn. split_and!; [done..|]. eauto 10.
Qed.

Lemma delete_policy_cases b i d x d' :
  delete_policy b i d = (x, d') →
  d' = d ∨
  (path d' = path d ∧ state d' = mkState (billets (state d))
     (delete (b, i) (policies (state d))) (keys (state d)) ∧
   ∃ r1, fs_remove_file (policy_path (path d) b i) (disk d) = (r1, disk d')).
Proof.
  intros E. cbn in E. unfold l_delete_policy, set_state in E. unfold_monad.
  case_bool_decide; cbn in E; [|injection E as <- <-; by left].
  unfold ignore_err in E. cbn in E. destruct (fs_remove_file _ _) as [r1 f] eqn:H1'.
  injection E as <- <-. right. cbn. eauto 10.
Qed.

Lemma delete_keys_cases p before d x d' :
  delete_expired_ephemeral_keys p before d = (x, d') → durable d →
  path d' = path d ∧ billets (state d') = billets (state d) ∧ policies (state d') = policies (state d) ∧
  (∀ k, k ∈ keys (state d') → k ∈ keys (state d)) ∧
  ∀ q, (∀ i, q ≠ kfile (root d) i) → fs_files (disk d') !! q = fs_files (disk d) !! q.
Proof.
  intros E Hd. cbn in E. unfold l_delete_expired_ephemeral_keys in E. unfold get_st in E.
  unfold mbind at 1, M_bind at 1 in E. 
  apply M_bind_inv in E as [(n & d1 & E1 & E2)|(e & E1 & ->)];
    apply remove_key_files_spec in E1 as (Hp & Hs & Hf).
  - unfold set_state in E2. unfold_monad. injection E2 as <- <-. cbn. rewrite Hs.
    split_and!; try done. intros k [_ ?]%list_elem_of_filter. done.
  - apply Forall_fmap, Forall_forall. intros k [_ Hk]%list_elem_of_filter. by apply (dur_keys _ Hd).
  - by rewrite Hs.
  - apply Forall_fmap, Forall_forall. intros k [_ Hk]%list_elem_of_filter. by apply (dur_keys _ Hd).
Qed.

Lemma durable_delete_billet n d : safe_name n = true → durable d → durable (exec (ODeleteBillet n) d).
Proof.
  intros Hso Hd. cbn. destruct (delete_billet_cascade n d) as [x d'] eqn:E. cbn in E. rewrite E. cbn [snd].
  apply delete_billet_cases in E as [->|(Hp & Hst & r1 & f & r2 & H1' & H2')]; [done| |done].
  destruct (resolve_billet_path (path d) n Hso) as [Hbp _].
  destruct (resolve_policy_dir (path d) n Hso) as [Hdir _].
  pose proof (remove_file_files _ _ _ _ H1') as Hf1. rewrite Hbp in Hf1.
  apply fs_remove_dir_all_files in H2' as [_ Hf2]. rewrite Hdir in Hf2.
  apply (durable_remove d); rewrite ?Hst; cbn; try done.
  - unfold root. by rewrite Hp.
  - apply delete_subseteq.
  - apply map_filter_subseteq.
  - intros m Hm _. unfold root. rewrite Hf2 by apply bfile_not_under. apply Hf1.
    intros ->%bfile_inj. rewrite lookup_delete_eq in Hm. by destruct Hm.
  - intros b i [r [_ Hne]%map_lookup_filter_Some] _ _. unfold root.
    rewrite Hf2; [by apply Hf1; eauto|]. by intros ->%pfile_under.
Qed.

Lemma durable_delete_policy b i d : safe_name b = true → safe_name i = true →
  durable d → durable (exec (ODeletePolicy b i) d).
Proof.
  intros Hb Hi Hd. cbn. destruct (delete_policy b i d) as [x d'] eqn:E. cbn in E. rewrite E. cbn [snd].
  apply delete_policy_cases in E as [->|(Hp & Hst & r1 & H1')]; [done|].
  destruct (resolve_policy_path (path d) b i Hb Hi) as [Hpp _].
  pose proof (remove_file_files _ _ _ _ H1') as Hf1. rewrite Hpp in Hf1.
  apply (durable_remove d); rewrite ?Hst; cbn; try done.
  - unfold root. by rewrite Hp.
  - apply delete_subseteq.
  - intros m Hm _. by apply Hf1.
  - intros b' i' Hm _ _. apply Hf1. intros [-> ->]%pfile_inj.
    rewrite lookup_delete_eq in Hm. by destruct Hm.
Qed.

Lemma exec_durable o d : safe_op o = true → durable d → durable (exec o d).
Proof.
  intros Hso Hd. destruct o as [r|r|n|r|r|b i|r|p before]; cbn [exec safe_op] in *.
  1,2: match goal with |- durable (?X).2 => destruct X as [x d'] eqn:E end; cbn [snd];
    destruct (billet_put_cases r d x d' ltac:(eauto) Hso) as [(_ & ? & s & ? & ?)|[? ?]];
    [by eapply durable_put_billet|by eapply durable_put_none].
  2,3: apply andb_true_iff in Hso as [Hb Hi];
    match goal with |- durable (?X).2 => destruct X as [x d'] eqn:E end; cbn [snd];
    destruct (policy_put_cases r d x d' ltac:(eauto) Hb Hi) as [(_ & ? & s & ? & ?)|[? ?]];
    [by eapply durable_put_policy|by eapply durable_put_none].
  - by apply durable_delete_billet.
  - apply andb_true_iff in Hso as [Hb Hi]. by apply durable_delete_policy.
  - destruct (put_ephemeral_key r d) as [x d'] eqn:E. cbn [snd].
    apply key_put_cases in E as (Hroot & Hb & Hp & Hk & Hf); [|done].
    destruct Hd as [Db Dp Dk]. split; rewrite ?Hb, ?Hp, ?Hroot.
    + intros m r' Hr'. rewrite Hf by eauto. by apply Db.
    + intros b i r' Hr'. rewrite Hf by eauto. by apply Dp.
    + intros k. destruct Hk as [->| ->]; [by auto|]. intros [->|?]%elem_of_put_key; auto.
  - destruct (delete_expired_ephemeral_keys p before d) as [x d'] eqn:E. cbn [snd].
    apply delete_keys_cases in E as (Hp & Hb & Hpo & Hk & Hf); [|done].
    apply (durable_remove d); rewrite ?Hb, ?Hpo; try done.
    + unfold root. by rewrite Hp.
    + intros. apply Hf. eauto.
    + intros. apply Hf. eauto.
Qed.

(** Removals that take effect. *)
Definition removals_effective : Prop :=
  (∀ p f r f', fs_remove_file p f = (r, f') → fs_files f' !! resolve fs_cwd p = None) ∧
  (∀ p f r f' q, fs_remove_dir_all p f = (r, f') → resolve fs_cwd p `prefix_of` q →
     fs_files f' !! q = None).

Lemma no_strays_put_none d d' target :
  no_strays d → state d' = state d → put_spec d d' target "" false → no_strays d'.
Proof.
  intros [Hb Hp] Hst [Hroot Hf]. split; rewrite Hst, Hroot; intros *; rewrite Hf by done; auto.
Qed.

Lemma no_strays_put_billet d d' (r : BilletRecord) s :
  no_strays d → state d' = put_billet r (state d) →
  put_spec d d' (bfile (root d) (name r)) s true → no_strays d'.
Proof.
  intros [Hb Hp] Hst [Hroot Hf]. split; rewrite Hst, Hroot; cbn; intros *; rewrite Hf by done.
  - intros Hne. destruct (decide (name r = n)) as [<-|Hnn]; [by rewrite !lookup_insert_eq|].
    rewrite !lookup_insert_ne by (done || by intros ?%bfile_inj). by apply Hb.
  - rewrite lookup_insert_ne by done. by apply Hp.
Qed.

Lemma no_strays_put_policy d d' (r : PolicyRecord) s :
  no_strays d → state d' = put_policy r (state d) →
  put_spec d d' (pfile (root d) (billet_name r) (policy_id r)) s true → no_strays d'.
Proof.
  intros [Hb Hp] Hst [Hroot Hf]. split; rewrite Hst, Hroot; cbn; intros *; rewrite Hf by done.
  - rewrite lookup_insert_ne by eauto. by apply Hb.
  - intros Hne. unfold policy_key.
    destruct (decide ((billet_name r, policy_id r) = (b, i))) as [[= <- <-]|Hnn].
    + by rewrite !lookup_insert_eq.
    + rewrite !lookup_insert_ne; [by apply Hp|done|]. intros [Eb Ei]%pfile_inj. apply Hnn. by rewrite Eb, Ei.
Qed.

(** Files that did not change, and the removed ones gone. *)
Lemma no_strays_remove d d' :
  no_strays d → root d' = root d →
  (∀ q, is_Some (fs_files (disk d') !! q) → is_Some (fs_files (disk d) !! q)) →
  (∀ n, is_Some (fs_files (disk d') !! bfile (root d) n) →
     is_Some (billets (state d) !! n) → is_Some (billets (state d') !! n)) →
  (∀ b i, is_Some (fs_files (disk d') !! pfile (root d) b i) →
     is_Some (policies (state d) !! (b, i)) → is_Some (policies (state d') !! (b, i))) →
  no_strays d'.
Proof. intros [Hb Hp] Hroot Hq Hbs Hps. split; rewrite Hroot; eauto. Qed.

Lemma no_strays_delete_billet n d : removals_effective → safe_name n = true →
  no_strays d → no_strays (exec (ODeleteBillet n) d).
Proof.
  intros [Hrm Hrd] Hso Hn. cbn. destruct (delete_billet_cascade n d) as [x d'] eqn:E. cbn in E. rewrite E. cbn [snd].
  apply delete_billet_cases in E as [->|(Hp & Hst & r1 & f & r2 & H1' & H2')]; [done| |done].
  destruct (resolve_billet_path (path d) n Hso) as [Hbp _].
  destruct (resolve_policy_dir (path d) n Hso) as [Hdir _].
  pose proof (remove_file_files _ _ _ _ H1') as Hf1. pose proof (Hrm _ _ _ _ H1') as Hg1.
  pose proof (fs_remove_dir_all_files _ _ _ _ H2') as [Hsub Hf2]. rewrite Hbp, Hdir in *.
  assert (∀ q, is_Some (fs_files (disk d') !! q) → is_Some (fs_files (disk d) !! q) ∧ q ≠ bfile (root d) n) as Hq.
  { intros q [s Hs]. pose proof (lookup_weaken _ _ _ _ Hs Hsub) as Hs'.
    assert (q ≠ bfile (root d) n) as Hne by (intros ->; unfold root in Hs'; congruence).
    split; [|done]. rewrite <-Hf1; eauto. }
  apply (no_strays_remove d); rewrite ?Hst; cbn; try done.
  - unfold root. by rewrite Hp.
  - intros q Hs. by apply Hq.
  - intros m Hs Hm. rewrite lookup_delete_ne; [done|]. intros <-. by apply Hq in Hs as [_ ?].
  - intros b i Hs [r Hr]. exists r. apply map_lookup_filter_Some. split; [done|]. cbn. intros ->.
    unfold root in Hs. rewrite (Hrd _ _ _ _ (pfile (resolve fs_cwd (path d)) n i) H2') in Hs.
    + by destruct Hs.
    + rewrite Hdir. exists [i +:+ ".json"]. by rewrite <-app_assoc.
Qed.

Lemma no_strays_delete_policy b i d : removals_effective → safe_name b = true → safe_name i = true →
  no_strays d → no_strays (exec (ODeletePolicy b i) d).
Proof.
  intros [Hrm _] Hb Hi Hn. cbn. destruct (delete_policy b i d) as [x d'] eqn:E. cbn in E. rewrite E. cbn [snd].
  apply delete_policy_cases in E as [->|(Hp & Hst & r1 & H1')]; [done|].
  destruct (resolve_policy_path (path d) b i Hb Hi) as [Hpp _].
  pose proof (remove_file_files _ _ _ _ H1') as Hf1. pose proof (Hrm _ _ _ _ H1') as Hg1.
  rewrite Hpp in *.
  assert (∀ q, is_Some (fs_files (disk d') !! q) → is_Some (fs_files (disk d) !! q) ∧ q ≠ pfile (root d) b i) as Hq.
  { intros q [s Hs]. assert (q ≠ pfile (root d) b i) as Hne by (intros ->; unfold root in Hs; congruence).
    split; [|done]. rewrite <-Hf1; eauto. }
  apply (no_strays_remove d); rewrite ?Hst; cbn; try done.
  - unfold root. by rewrite Hp.
  - intros q Hs. by apply Hq.
  - intros b' i' Hs Hm. rewrite lookup_delete_ne; [done|]. intros [= <- <-]. by apply Hq in Hs as [_ ?].
Qed.

Lemma exec_no_strays o d :
  removals_effective → safe_op o = true → durable d → no_strays d → no_strays (exec o d).
Proof.
  intros Heff Hso Hd Hn. destruct o as [r|r|n|r|r|b i|r|p before]; cbn [exec safe_op] in *.
  1,2: match goal with |- no_strays (?X).2 => destruct X as [x d'] eqn:E end; cbn [snd];
    destruct (billet_put_cases r d x d' ltac:(eauto) Hso) as [(_ & ? & s & ? & ?)|[? ?]];
    [by eapply no_strays_put_billet|by eapply no_strays_put_none].
  2,3: apply andb_true_iff in Hso as [Hb Hi];
    match goal with |- no_strays (?X).2 => destruct X as [x d'] eqn:E end; cbn [snd];
    destruct (policy_put_cases r d x d' ltac:(eauto) Hb Hi) as [(_ & ? & s & ? & ?)|[? ?]];
    [by eapply no_strays_put_policy|by eapply no_strays_put_none].
  - by apply no_strays_delete_billet.
  - apply andb_true_iff in Hso as [Hb Hi]. by apply no_strays_delete_policy.
  - destruct (put_ephemeral_key r d) as [x d'] eqn:E. cbn [snd].
    apply key_put_cases in E as (Hroot & Hb & Hp & _ & Hf); [|done].
    destruct Hn as [Nb Np]. split; rewrite ?Hb, ?Hp, ?Hroot; intros *; rewrite Hf by eauto; auto.
  - destruct (delete_expired_ephemeral_keys p before d) as [x d'] eqn:E. cbn [snd].
    apply delete_keys_cases in E as (Hp & Hb & Hpo & _ & Hf); [|done].
    destruct Hn as [Nb Np]. unfold root in *.
    split; rewrite ?Hb, ?Hpo; unfold root; rewrite ?Hp; intros *; rewrite Hf by eauto; auto.
Qed.

(* ------------------------------------------------------------------ *)
(** ** Loading *)

Lemma for_entries_inv {A} (body : dirent → A → M F DataStoreError A) (I : A → Prop)
    (le : relation A) (Q : dirent → A → Prop) f0 l :
  PreOrder le → (∀ e a b, le a b → Q e a → Q e b) →
  (∀ e acc f x f', e ∈ l → I acc → fs_files f = f0 → body e acc f = (Ok x, f') →
     fs_files f' = f0 ∧ I x ∧ le acc x ∧ Q e x) →
  ∀ acc f acc' f', for_entries body l acc f = (Ok acc', f') → I acc → fs_files f = f0 →
  fs_files f' = f0 ∧ I acc' ∧ le acc acc' ∧ ∀ e, e ∈ l → Q e acc'.
Proof.
  intros Hle Hmono Hbody. induction l as [|e l IH]; intros acc f acc' f'; cbn [for_entries].
  - intros [= <- <-]. set_solver.
  - intros Hr HI Hf. apply M_bind_inv in Hr as [(x & f1 & Hx & Hr)|(? & _ & ?)]; [|done].
    apply Hbody in Hx as (Hf1 & HI1 & Hle1 & HQ1); [|set_solver|done|done].
    apply IH in Hr as (Hf' & HI' & Hle' & HQ'); [|set_solver|done|done].
    split_and!; [done|done|by etrans|]. intros e' [->|?]%elem_of_cons; eauto.
Qed.

Lemma io_Ok {A} msg (m : M F string A) f x f' : io msg m f = (Ok x, f') → m f = (Ok x, f').
Proof. intros ([y|e] & Hm & Hx)%m_map_err_inv; [|done]. by injection Hx as ->. Qed.

Section load_dir.
Context {R K : Type} `{Codec R, Countable K}.
Context (m : gmap K R) (key : R → K) (kof : string → K) (dir : PathBuf) (f0 : gmap (list string) string).
Hypothesis Hdir : ∀ x s, x ≠ "" → f0 !! (resolve fs_cwd dir ++ [x +:+ ".json"]) = Some s →
  ∃ r, m !! kof x = Some r ∧ from_json s = Ok r ∧ key r = kof x.

(** A file of the directory ends up in the map. *)
Definition loaded (e : dirent) (acc : gmap K R) : Prop :=
  ∀ x r, x ≠ "" → entry_name e = x +:+ ".json" → m !! kof x = Some r → acc !! kof x = Some r.

Lemma load_record_step rm pm e acc f x f' :
  acc ⊆ m → fs_files f = f0 → 
  load_record rm pm dir (λ r a, <[key r := r]> a) e acc f = (Ok x, f') →
  fs_files f' = f0 ∧ x ⊆ m ∧ acc ⊆ x ∧ loaded e x.
Proof.
  intros Hsub Hf. unfold load_record. destruct (is_json e) eqn:Hj.
  - apply is_json_spec in Hj as (n & Hn & He). intros Hr.
    apply M_bind_inv in Hr as [(s & f1 & Hs & Hr)|(? & _ & ?)]; [|done].
    apply io_Ok in Hs. pose proof (fs_read_files _ _ _ _ Hs) as Hf1.
    apply fs_read_value in Hs. unfold entry_path in Hs. rewrite He in Hs.
    rewrite resolve_snoc in Hs.
    2:{ by apply json_not_dotdot. }
    destruct dir as [ab cs]. cbn [absolute comps] in Hs. rewrite Hf in Hs.
    apply Hdir in Hs as (r & Hm & Hd & Hk); [|done].
    unfold lift_codec in Hr. unfold_monad. rewrite Hd in Hr. injection Hr as <- <-.
    rewrite Hk. split_and!.
    + by rewrite Hf1.
    + by apply insert_subseteq_l.
    + apply map_subseteq_spec. intros k r' Hk'. destruct (decide (kof n = k)) as [<-|].
      * rewrite lookup_insert_eq. by apply (lookup_weaken _ m) in Hk'; [congruence|].
      * by rewrite lookup_insert_ne.
    + intros x' r' Hx' Ex' Hm'. rewrite He in Ex'. apply str_app_inj_r in Ex' as ->.
      rewrite lookup_insert_eq. congruence.
  - intros [= <- <-]. split_and!; try done. intros x' r' Hx' Ex' _.
    assert (is_json e = true) by (apply is_json_spec; eauto). congruence.
Qed.

Lemma load_dir msg rm pm acc f x f' :
  acc ⊆ m → fs_files f = f0 →
  (entries ← io msg (fs_read_dir dir);
   for_entries (load_record rm pm dir (λ r a, <[key r := r]> a)) entries acc) f = (Ok x, f') →
  fs_files f' = f0 ∧ x ⊆ m ∧ acc ⊆ x ∧
  ∀ n r, n ≠ "" → is_Some (f0 !! (resolve fs_cwd dir ++ [n +:+ ".json"])) →
    m !! kof n = Some r → x !! kof n = Some r.
Proof.
  intros Hsub Hf Hr. apply M_bind_inv in Hr as [(l & f1 & Hl & Hr)|(? & _ & ?)]; [|done].
  apply io_Ok in Hl. pose proof (fs_read_dir_files _ _ _ _ Hl) as Hf1.
  apply fs_read_dir_entries in Hl as (_ & Hl & _).
  apply (for_entries_inv _ (λ a, a ⊆ m) (⊆) loaded f0) in Hr as (Hf' & Hx & Hle & HQ); try done.
  - split_and!; try done. intros n r Hn Hs Hm. rewrite <-Hf in Hs. apply Hl in Hs; [by eapply HQ|].
    by apply json_not_dotdot.
  - apply _.
  - intros e a b Hab Ha x' r' Hx' Ex' Hm'. eapply lookup_weaken; [by apply Ha|done].
  - intros e a g y g' _ Ha Hg. by apply load_record_step.
  - by rewrite Hf1.
Qed.
End load_dir.

Lemma load_billets_exact d f x f' :
  durable d → no_strays d → map_Forall (λ k r, name r = k) (billets (state d)) →
  fs_files f = fs_files (disk d) →
  load_billets (join (path d) "billets") f = (Ok x, f') →
  fs_files f' = fs_files (disk d) ∧ x = billets (state d).
Proof.
  intros Hd Hn Hk Hf Hr.
  assert (resolve fs_cwd (join (path d) "billets") = root d ++ ["billets"]) as Hres.
  { rewrite join_single, resolve_snoc by done. unfold root. by destruct (path d). }
  eapply (load_dir (billets (state d)) name id) in Hr as (Hf' & Hsub & _ & Hall);
    [|..|exact (map_empty_subseteq _)|exact Hf].
  - split; [done|]. apply (anti_symm (⊆)); [done|]. apply map_subseteq_spec. intros n r Hm.
    destruct (dur_billets _ Hd _ _ Hm) as (Hs & s & Hfile & _).
    apply Hall; [|rewrite Hres, <-app_assoc; by exists s|done]. by apply safe_name_spec in Hs as [? _].
  - intros n s Hne. rewrite Hres, <-app_assoc. intros Hs.
    destruct (stray_billets _ Hn n Hne) as [r Hm]; [by exists s|].
    exists r. split; [done|]. destruct (dur_billets _ Hd _ _ Hm) as (_ & s' & Hs' & Hdec).
    unfold bfile in Hs'. cbn in *. split; [congruence|]. by apply Hk in Hm.
Qed.

Lemma load_policies_exact d f x f' :
  durable d → no_strays d → map_Forall (λ k r, policy_key r = k) (policies (state d)) →
  fs_files f = fs_files (disk d) →
  load_policies (join (path d) "policies") f = (Ok x, f') →
  fs_files f' = fs_files (disk d) ∧ x = policies (state d).
Proof.
  intros Hd Hn Hk Hf Hr. unfold load_policies in Hr.
  assert (join (path d) "policies" = mkPath (absolute (path d)) (comps (path d) ++ ["policies"])) as Hj
    by by rewrite join_single.
  assert (resolve fs_cwd (join (path d) "policies") = root d ++ ["policies"]) as Hres.
  { rewrite Hj, resolve_snoc by done. unfold root. by destruct (path d). }
  apply M_bind_inv in Hr as [(l & f1 & Hl & Hr)|(? & _ & ?)]; [|done].
  apply io_Ok in Hl. pose proof (fs_read_dir_files _ _ _ _ Hl) as Hf1.
  apply fs_read_dir_entries in Hl as (Hdd & _ & Hl). rewrite Hres, Hf in Hl.
  eapply (for_entries_inv _ (λ a, a ⊆ policies (state d)) (⊆)
    (λ e a, ∀ i r, entry_is_dir e = true → i ≠ "" →
       policies (state d) !! (entry_name e, i) = Some r → a !! (entry_name e, i) = Some r)
    (fs_files (disk d))) in Hr as (Hf' & Hx & _ & HQ); [..|exact (map_empty_subseteq _)|by rewrite Hf1].
  - split; [done|]. apply (anti_symm (⊆)); [done|]. apply map_subseteq_spec.
    intros [b i] r Hr. destruct (dur_policies _ Hd _ _ _ Hr) as (Hb & Hi & s & Hfile & _).
    apply safe_name_spec in Hi as [Hi _]. apply safe_name_spec in Hb as (_ & _ & _ & Hb).
    apply (HQ (mkDirent b true)); [|done..]. apply (Hl b (i +:+ ".json") []); [done|].
    rewrite <-app_assoc. by exists s.
  - apply _.
  - intros e a b' Hab Ha i r Hi Hne Hm. eapply lookup_weaken; [by apply Ha|done].
  - intros e acc g y g' He Hacc Hg. destruct (entry_is_dir e) eqn:Hdir; cbn [negb].
    2:{ intros [= <- <-]. by split_and!. }
    intros Hy.
    assert (resolve fs_cwd (entry_path (join (path d) "policies") e) =
            root d ++ ["policies"; entry_name e]) as Hres'.
    { unfold entry_path. rewrite resolve_snoc by (by apply Hdd). rewrite Hj in *.
      cbn [absolute comps] in *. by rewrite Hres, <-app_assoc. }
    eapply (load_dir (policies (state d)) policy_key (λ i, (entry_name e, i)))
      in Hy as (Hg' & Hy1 & Hy2 & Hall); [| |exact Hacc|exact Hg].
    + rewrite Hres' in Hall. split_and!; try done.
      intros i r _ Hne Hm. apply Hall; [done| |done].
      destruct (dur_policies _ Hd _ _ _ Hm) as (_ & _ & s & Hfile & _).
      rewrite <-app_assoc. by exists s.
    + intros i s Hne. rewrite Hres', <-app_assoc. intros Hs.
      destruct (stray_policies _ Hn (entry_name e) i Hne) as [r Hr']; [by exists s|].
      exists r. split; [done|]. destruct (dur_policies _ Hd _ _ _ Hr') as (_ & _ & s' & Hs' & Hdec).
      unfold pfile in Hs'. cbn in *. split; [congruence|]. by apply Hk in Hr'.
Qed.

Definition run_ops (ops : list op) (d : LocalDataStore (F := F)) : LocalDataStore (F := F) :=
  foldl (λ d o, exec o d) d ops.

Lemma run_ops_durable ops d :
  Forall (λ o, safe_op o = true) ops → durable d → durable (run_ops ops d).
Proof.
  intros Hops. revert d. induction Hops as [|o ops Ho _ IH]; intros d Hd; [done|].
  cbn. by apply IH, exec_durable.
Qed.

Lemma exec_keyed o d :
  keyed (billets (state d)) (policies (state d)) →
  keyed (billets (state (exec o d))) (policies (state (exec o d))).
Proof.
  intros Hk. destruct o; cbn [exec];
    match goal with |- context [(?X).2] => destruct X as [x d'] eqn:E end; cbn [snd].
  - exact (proj1 (create_billet_spec _ _ _ _ Hk E)).
  - exact (proj1 (update_billet_spec _ _ _ _ Hk E)).
  - exact (proj1 (delete_billet_cascade_spec _ _ _ _ Hk E)).
  - exact (proj1 (create_policy_spec _ _ _ _ Hk E)).
  - exact (proj1 (update_policy_spec _ _ _ _ Hk E)).
  - exact (proj1 (delete_policy_spec _ _ _ _ _ Hk E)).
  - change (guarded_put (λ _, false) (Internal "") "serialize key" (λ root, key_path root (key_id r)) r
      (λ s, mkState (LocalStore.billets s) (LocalStore.policies s) (put_key r (LocalStore.keys s))) d = (x, d')) in E.
    apply guarded_put_inv in E
      as [(_ & _ & ->)|[(_ & ? & _ & _ & ->)|(_ & s & [[]|y] & f & _ & _ & _ & ->)]]; done.
  - cbn in E. unfold l_delete_expired_ephemeral_keys, get_st in E. unfold mbind at 1, M_bind at 1 in E.
    assert (∀ ids n d0 r1 d1, remove_key_files (path d) ids n d0 = (r1, d1) → state d1 = state d0) as Hrk.
    { induction ids as [|i ids IH]; intros n d0 r1 d1; cbn [remove_key_files]; [by intros [= _ <-]|].
      intros [([] & d2 & H1' & H2')|(e & H1' & _)]%M_bind_inv;
        apply ignore_err_inv in H1' as (? & ? & _ & _ & ->); [|done]. by apply IH in H2'. }
    apply M_bind_inv in E as [(n & d1 & E1 & E2)|(e & E1 & ->)]; apply Hrk in E1.
    + unfold set_state in E2. unfold_monad. injection E2 as <- <-. cbn. by rewrite E1.
    + by rewrite E1.
Qed.

(* ------------------------------------------------------------------ *)
(** ** From one start to the next *)

(** Files that hold a record hold the one of their own name, in the directory of the store
    at [R]: true of an empty directory, and of what a store leaves. *)
Record well_filed (R : list string) (f : F) : Prop := {
  wf_billets : ∀ n s r, n ≠ "" → fs_files f !! bfile R n = Some s → from_json s = Ok r →
    name r = n ∧ safe_name n = true;
  wf_policies : ∀ b i s r, i ≠ "" → fs_files f !! pfile R b i = Some s → from_json s = Ok r →
    policy_key r = (b, i) ∧ safe_name b = true ∧ safe_name i = true;
  wf_keys : ∀ i s r, i ≠ "" → fs_files f !! kfile R i = Some s → from_json s = Ok r → safe_name (key_id r) = true
}.

Lemma well_filed_shrink R f f' : fs_files f' ⊆ fs_files f → well_filed R f → well_filed R f'.
Proof. intros Hs [Hb Hp Hk]. split; eauto using lookup_weaken. Qed.

Lemma load_record_from {R A} `{Codec R} rm pm dir (ins : R → A → A) (I : A → Prop) f0 e acc f x f' :
  (∀ n s r a, n ≠ "" → f0 !! (resolve fs_cwd dir ++ [n +:+ ".json"]) = Some s → from_json s = Ok r → I a → I (ins r a)) →
  I acc → fs_files f = f0 → load_record rm pm dir ins e acc f = (Ok x, f') → fs_files f' = f0 ∧ I x.
Proof.
  intros Hins HI Hf. unfold load_record. destruct (is_json e) eqn:Hj; [|by intros [= <- <-]].
  apply is_json_spec in Hj as (n & Hn & He). intros Hr.
  apply M_bind_inv in Hr as [(s & f1 & Hs & Hr)|(? & _ & ?)]; [|done].
  apply io_Ok in Hs. pose proof (fs_read_files _ _ _ _ Hs) as Hf1.
  apply fs_read_value in Hs. unfold entry_path in Hs. rewrite He, resolve_snoc in Hs by apply json_not_dotdot.
  destruct dir as [ab cs]. cbn [absolute comps] in Hs. rewrite Hf in Hs.
  unfold lift_codec in Hr. unfold_monad. destruct (from_json s) as [r|] eqn:Hd; [|done]. injection Hr as <- <-.
  split; [by rewrite Hf1|by eapply Hins].
Qed.

Lemma load_entries_from {R A} `{Codec R} msg rm pm dir (ins : R → A → A) (I : A → Prop) f0 acc f x f' :
  (∀ n s r a, n ≠ "" → f0 !! (resolve fs_cwd dir ++ [n +:+ ".json"]) = Some s → from_json s = Ok r → I a → I (ins r a)) →
  I acc → fs_files f = f0 →
  (entries ← io msg (fs_read_dir dir); for_entries (load_record rm pm dir ins) entries acc) f = (Ok x, f') →
  fs_files f' = f0 ∧ I x.
Proof.
  intros Hins HI Hf Hr. apply M_bind_inv in Hr as [(l & f1 & Hl & Hr)|(? & _ & ?)]; [|done].
  apply io_Ok in Hl. pose proof (fs_read_dir_files _ _ _ _ Hl) as Hf1.
  eapply (for_entries_inv _ I (λ _ _, True) (λ _ _, True) f0) in Hr as (? & ? & _); [done|by split|done| |done|congruence].
  intros e a g y g' _ Ha Hg Hy. eapply load_record_from in Hy as [??]; eauto.
Qed.

Definition filed_policies (R : list string) (f0 : gmap (list string) string) (m : gmap (string * string) PolicyRecord) : Prop :=
  ∀ b i r, m !! (b, i) = Some r → safe_name b = true ∧ safe_name i = true ∧
    ∃ s, f0 !! pfile R b i = Some s ∧ from_json s = Ok r.

Lemma policies_from dir R f0 f x f' :
  resolve fs_cwd dir = R ++ ["policies"] → fs_files f = f0 →
  (∀ b i s r, i ≠ "" → f0 !! pfile R b i = Some s → from_json s = Ok r →
    policy_key r = (b, i) ∧ safe_name b = true ∧ safe_name i = true) →
  load_policies dir f = (Ok x, f') →
  fs_files f' = f0 ∧ filed_policies R f0 x.
Proof.
  intros Hdir Hf Hw Hr. unfold load_policies in Hr.
  apply M_bind_inv in Hr as [(l & f1 & Hl & Hr)|(? & _ & ?)]; [|done].
  apply io_Ok in Hl. pose proof (fs_read_dir_files _ _ _ _ Hl) as Hf1. apply fs_read_dir_entries in Hl as (Hdd & _).
  eapply (for_entries_inv _ (filed_policies R f0)
    (λ _ _, True) (λ _ _, True) f0) in Hr as (? & ? & _);
    [done|by split|done| |intros b i r; by rewrite lookup_empty|congruence].
  intros e a g y g' He Ha Hg Hy. destruct (entry_is_dir e); cbn [negb] in Hy; [|by injection Hy as <- <-].
  assert (resolve fs_cwd (entry_path dir e) = R ++ ["policies"; entry_name e]) as Hres.
  { unfold entry_path. rewrite resolve_snoc by (by apply Hdd). destruct dir as [ab cs]. cbn [absolute comps].
    by rewrite Hdir, <-app_assoc. }
  eapply load_entries_from with (I := filed_policies R f0) in Hy as [Hf' Hx]; [| |exact Ha|exact Hg]; [done|].
  intros n s r m Hn Hs Hd Hm b i r'. rewrite Hres, <-app_assoc in Hs.
  destruct (Hw _ _ s r Hn Hs Hd) as (-> & Hb & Hi).
  intros [[[= <- <-] <-]|[_ Hk]]%lookup_insert_Some; [|by apply Hm]. split_and!; [done..|]. by exists s.
Qed.

(** What a start loads is on disk. *)
Lemma new_durable p f st f' :
  well_filed (resolve fs_cwd p) f → new p f = (Ok st, f') →
  durable (mkStore p st f') ∧ well_filed (resolve fs_cwd p) f'.
Proof.
  intros [Wb Wp Wk] Hr. set (R := resolve fs_cwd p) in *. unfold new in Hr.
  assert (∀ x, resolve fs_cwd (join p x) = R ++ [x] ∨ ¬ x ∈ ["billets"; "policies"; "keys"]) as Hj.
  { intros x. destruct (decide (x ∈ ["billets"; "policies"; "keys"])) as [Hx|]; [left|by right].
    assert (x ≠ "" ∧ x ≠ "." ∧ x ≠ ".." ∧ Str.all_chars (λ c, bool_decide (c ≠ "/"%char)) x = true) as (H1' & H2' & H3' & H4').
    { rewrite !elem_of_cons in Hx. destruct Hx as [->|[->|[->|?%not_elem_of_nil]]]; done. }
    rewrite join_single, resolve_snoc by done. unfold R. by destruct p. }
  assert (∀ x, x ∈ ["billets"; "policies"; "keys"] → resolve fs_cwd (join p x) = R ++ [x]) as Hdir
    by (intros x Hx; by destruct (Hj x)). clear Hj.
  apply M_bind_inv in Hr as [([] & f1 & H1' & Hr)|(? & _ & ?)]; [|done]. apply io_Ok, fs_create_dir_all_files in H1'.
  apply M_bind_inv in Hr as [([] & f2 & H2' & Hr)|(? & _ & ?)]; [|done]. apply io_Ok, fs_create_dir_all_files in H2'.
  apply M_bind_inv in Hr as [([] & f3 & H3' & Hr)|(? & _ & ?)]; [|done]. apply io_Ok, fs_create_dir_all_files in H3'.
  assert (fs_files f3 = fs_files f) as Hf3 by congruence. clear H1' H2' H3'.
  apply M_bind_inv in Hr as [(bs & f4 & H4' & Hr)|(? & _ & ?)]; [|done].
  apply (load_entries_from _ _ _ _ _ (λ m : gmap string BilletRecord, ∀ n r, m !! n = Some r →
    safe_name n = true ∧ ∃ s, fs_files f !! bfile R n = Some s ∧ from_json s = Ok r) (fs_files f)) in H4' as [Hf4 Hbs];
    [| |intros *; by rewrite lookup_empty|done].
  2:{ intros n s r m Hn Hs Hd Hm k r'. rewrite Hdir, <-app_assoc in Hs by set_solver.
      destruct (Wb n s r Hn Hs Hd) as [-> Hsafe]. intros [[<- <-]|[_ Hk]]%lookup_insert_Some; eauto. }
  apply M_bind_inv in Hr as [(ps & f5 & H5' & Hr)|(? & _ & ?)]; [|done].
  apply policies_from with (R := R) (f0 := fs_files f) in H5' as [Hf5 Hps]; [|by apply Hdir; set_solver|done|done].
  apply M_bind_inv in Hr as [(ks & f6 & H6' & Hr)|(? & _ & ?)]; [|done]. injection Hr as <- <-.
  apply (load_entries_from _ _ _ _ _ (λ l : list EphemeralKeyRecord, ∀ k, k ∈ l → safe_name (key_id k) = true) (fs_files f)) in H6' as [Hf6 Hks];
    [| |by intros k ?%not_elem_of_nil|congruence].
  2:{ intros n s r l Hn Hs Hd Hl k. rewrite Hdir, <-app_assoc in Hs by set_solver.
      intros [Hk|Hk]%elem_of_app; [by apply Hl|]. apply list_elem_of_singleton in Hk as ->. by eapply Wk. }
  split; [split; unfold root; cbn; rewrite ?Hf6; done|]. split; rewrite Hf6; done.
Qed.

Lemma well_filed_same R f f' :
  (∀ q, (∀ D m, q ≠ D ++ [m +:+ ".json.tmp"]) → fs_files f' !! q = fs_files f !! q) → well_filed R f → well_filed R f'.
Proof.
  intros Hq [Hb Hp Hk]. split; intros *; rewrite Hq by eauto using kfile_not_temp; eauto.
Qed.

(** A file is written with the record of its name. *)
Lemma well_filed_put_billet d d' (r : BilletRecord) s :
  well_filed (root d) (disk d) → safe_name (name r) = true → to_json r = Ok s →
  put_spec d d' (bfile (root d) (name r)) s true → well_filed (root d') (disk d').
Proof.
  intros [Hb Hp Hk] Hn Hs%json_roundtrip [-> Hf]. split; intros *; rewrite Hf by eauto using kfile_not_temp.
  - intros Hne [[E <-]|[_ Hq]]%lookup_insert_Some Hd; [|by eapply Hb]. apply bfile_inj in E as <-. rewrite Hs in Hd. injection Hd as <-. done.
  - rewrite lookup_insert_ne by done. apply Hp.
  - rewrite lookup_insert_ne by eauto. apply Hk.
Qed.

Lemma well_filed_put_policy d d' (r : PolicyRecord) s :
  well_filed (root d) (disk d) → safe_name (billet_name r) = true → safe_name (policy_id r) = true → to_json r = Ok s →
  put_spec d d' (pfile (root d) (billet_name r) (policy_id r)) s true → well_filed (root d') (disk d').
Proof.
  intros [Hb Hp Hk] Hn Hi Hs%json_roundtrip [-> Hf]. split; intros *; rewrite Hf by eauto using kfile_not_temp.
  - rewrite lookup_insert_ne by eauto. apply Hb.
  - intros Hne [[E <-]|[_ Hq]]%lookup_insert_Some Hd; [|by eapply Hp]. apply pfile_inj in E as [<- <-]. rewrite Hs in Hd. injection Hd as <-. done.
  - rewrite lookup_insert_ne by eauto. apply Hk.
Qed.

Lemma well_filed_put_key d d' (r : EphemeralKeyRecord) s :
  well_filed (root d) (disk d) → safe_name (key_id r) = true → to_json r = Ok s →
  put_spec d d' (kfile (root d) (key_id r)) s true → well_filed (root d') (disk d').
Proof.
  intros [Hb Hp Hk] Hn Hs%json_roundtrip [-> Hf]. split; intros *; rewrite Hf by eauto using kfile_not_temp.
  - rewrite lookup_insert_ne by eauto. apply Hb.
  - rewrite lookup_insert_ne by eauto. apply Hp.
  - intros Hne [[E <-]|[_ Hq]]%lookup_insert_Some Hd; [|by eapply Hk]. rewrite Hs in Hd. injection Hd as <-. done.
Qed.

Lemma well_filed_put_none d d' target :
  well_filed (root d) (disk d) → put_spec d d' target "" false → well_filed (root d') (disk d').
Proof. intros Hw [-> Hf]. by eapply well_filed_same. Qed.

Lemma remove_file_shrinks p f r f' : fs_remove_file p f = (r, f') → fs_files f' ⊆ fs_files f.
Proof.
  destruct r as [[]|e]; intros Hr; [apply fs_remove_file_ok in Hr as ->; apply delete_subseteq|].
  by apply fs_remove_file_err in Hr as ->.
Qed.

Lemma remove_keys_shrinks rt ids n d r d' :
  remove_key_files rt ids n d = (r, d') → fs_files (disk d') ⊆ fs_files (disk d).
Proof.
  revert n d. induction ids as [|i ids IH]; intros n d; cbn [remove_key_files]; [by intros [= _ <-]|].
  intros [([] & d1 & H1' & H2')|(e & H1' & _)]%M_bind_inv;
    apply ignore_err_inv in H1' as (x & f & Hf%remove_file_shrinks & Hx & ->); [|done].
  apply IH in H2'. by etrans.
Qed.

(** Deletions only remove files. *)
Lemma exec_shrinks o d : safe_op o = true →
  match o with ODeleteBillet _ | ODeletePolicy _ _ | ODeleteKeys _ _ => True | _ => False end →
  path (exec o d) = path d ∧ fs_files (disk (exec o d)) ⊆ fs_files (disk d).
Proof.
  intros Hso Ho. destruct o as [r|r|n|r|r|b i|r|p before]; try done; cbn [exec safe_op] in *.
  - destruct (delete_billet_cascade n d) as [x d'] eqn:E. cbn [snd].
    apply delete_billet_cases in E as [->|(Hp & _ & r1 & f & r2 & E1%remove_file_shrinks & E2)]; [done| |done].
    apply fs_remove_dir_all_files in E2 as [E2 _]. split; [done|by etrans].
  - destruct (delete_policy b i d) as [x d'] eqn:E. cbn [snd].
    apply delete_policy_cases in E as [->|(Hp & _ & r1 & E1%remove_file_shrinks)]; done.
  - destruct (delete_expired_ephemeral_keys p before d) as [x d'] eqn:E. cbn [snd].
    cbn in E. unfold l_delete_expired_ephemeral_keys, get_st in E. unfold mbind at 1, M_bind at 1 in E.
    assert (∀ ids n d0 r1 d1, remove_key_files (path d) ids n d0 = (r1, d1) → path d1 = path d0) as Hrk.
    { induction ids as [|i ids IH]; intros n d0 r1 d1; cbn [remove_key_files]; [by intros [= _ <-]|].
      intros [([] & d2 & E1 & E2)|(e & E1 & _)]%M_bind_inv;
        apply ignore_err_inv in E1 as (? & ? & _ & _ & ->); [|done]. by apply IH in E2. }
    apply M_bind_inv in E as [(n & d1 & E1 & E2)|(e & E1 & ->)]; pose proof (Hrk _ _ _ _ _ E1) as Hp;
      apply remove_keys_shrinks in E1; [|done].
    unfold set_state in E2. unfold_monad. by injection E2 as <- <-.
Qed.

Lemma put_key_spec (r : EphemeralKeyRecord) d x d' :
  put_ephemeral_key r d = (x, d') → safe_name (key_id r) = true →
  (∃ s, to_json r = Ok s ∧ put_spec d d' (kfile (root d) (key_id r)) s true) ∨
  put_spec d d' (kfile (root d) (key_id r)) "" false.
Proof.
  intros E Hn. destruct (resolve_key_path (path d) _ Hn) as [_ (b & l & Hp & Hl)].
  assert (kfile (root d) (key_id r) = resolve fs_cwd (mkPath b l) ++ [key_id r +:+ ".json"]) as Ht.
  { rewrite Hl, <-app_assoc. done. }
  change (guarded_put (λ _, false) (Internal "") "serialize key" (λ root, key_path root (key_id r)) r
    (λ s, mkState (LocalStore.billets s) (LocalStore.policies s) (put_key r (LocalStore.keys s))) d = (x, d')) in E.
  eapply guarded_put_files in E as [(_ & _ & s & Hs & Hput)|[_ Hput]]; [left; eauto|by right|exact Hn|by eauto].
Qed.

Lemma exec_well_filed o d :
  safe_op o = true → well_filed (root d) (disk d) → well_filed (root (exec o d)) (disk (exec o d)).
Proof.
  intros Hso Hw. destruct o as [r|r|n|r|r|b i|r|p before].
  1,2: cbn [exec safe_op] in *; match goal with |- context [(?X).2] => destruct X as [x d'] eqn:E end; cbn [snd];
    destruct (billet_put_cases r d x d' ltac:(eauto) Hso) as [(_ & _ & s & ? & ?)|[_ ?]];
    [by eapply well_filed_put_billet|by eapply well_filed_put_none].
  2,3: cbn [exec safe_op] in *; apply andb_true_iff in Hso as [Hb Hi];
    match goal with |- context [(?X).2] => destruct X as [x d'] eqn:E end; cbn [snd];
    destruct (policy_put_cases r d x d' ltac:(eauto) Hb Hi) as [(_ & _ & s & ? & ?)|[_ ?]];
    [by eapply well_filed_put_policy|by eapply well_filed_put_none].
  3: cbn [exec safe_op] in *; destruct (put_ephemeral_key r d) as [x d'] eqn:E; cbn [snd];
    destruct (put_key_spec _ _ _ _ E Hso) as [(s & ? & ?)|?];
    [by eapply well_filed_put_key|by eapply well_filed_put_none].
  all: destruct (exec_shrinks _ d Hso I) as [Hp Hf]; unfold root; rewrite Hp; by eapply well_filed_shrink.
Qed.

Lemma run_ops_well_filed ops d :
  Forall (λ o, safe_op o = true) ops → well_filed (root d) (disk d) →
  well_filed (root (run_ops ops d)) (disk (run_ops ops d)).
Proof.
  intros Hops. revert d. induction Hops as [|o ops Ho _ IH]; intros d Hw; [done|].
  cbn. by apply IH, exec_well_filed.
Qed.

(** C13: a file-backed store that is started on a directory in which every file that
    holds a record is named after it (an empty one, or one that a store left), and after
    any creations, updates and deletions of billets, policies and keys, in any order and
    whatever calls to the file system fail (for names that are plain file names): every
    billet and policy the store holds in memory is on disk in its own file and decodes to
    the same record, and the directory is again one to start on. *)
Theorem store_durable p f st f' ops :
  well_filed (resolve fs_cwd p) f → new p f = (Ok st, f') → Forall (λ o, safe_op o = true) ops →
  let d := run_ops ops (mkStore p st f') in durable d ∧ well_filed (root d) (disk d).
Proof.
  intros Hf Hnew Hops. destruct (new_durable _ _ _ _ Hf Hnew) as [Hd Hw]. split; [by apply run_ops_durable|].
  by apply run_ops_well_filed.
Qed.

(** When removals take effect, restarting gives the memory back: after any
    run from an empty store, if [new] succeeds on the directory it loads exactly
    the billets and the policies the store held. *)
Theorem store_reload ops d st f' :
  removals_effective → durable d → no_strays d → keyed (billets (state d)) (policies (state d)) →
  Forall (λ o, safe_op o = true) ops →
  new (path (run_ops ops d)) (disk (run_ops ops d)) = (Ok st, f') →
  billets st = billets (state (run_ops ops d)) ∧ policies st = policies (state (run_ops ops d)).
Proof.
  intros Heff Hd Hn Hk Hops.
  assert (durable (run_ops ops d) ∧ no_strays (run_ops ops d) ∧
          keyed (billets (state (run_ops ops d))) (policies (state (run_ops ops d)))) as (Hd' & Hn' & Hk').
  { revert d Hd Hn Hk. induction Hops as [|o ops Ho _ IH]; intros d Hd Hn Hk; [done|].
    cbn. apply IH; auto using exec_durable, exec_no_strays, exec_keyed. }
  generalize dependent (run_ops ops d). intros d' Hd' Hn' [Hkb Hkp] Hr. unfold new in Hr.
  apply M_bind_inv in Hr as [([] & f1 & H1' & Hr)|(? & _ & ?)]; [|done].
  apply io_Ok, fs_create_dir_all_files in H1'.
  apply M_bind_inv in Hr as [([] & f2 & H2' & Hr)|(? & _ & ?)]; [|done].
  apply io_Ok, fs_create_dir_all_files in H2'.
  apply M_bind_inv in Hr as [([] & f3 & H3' & Hr)|(? & _ & ?)]; [|done].
  apply io_Ok, fs_create_dir_all_files in H3'.
  apply M_bind_inv in Hr as [(bs & f4 & H4' & Hr)|(? & _ & ?)]; [|done].
  apply load_billets_exact in H4' as [Hf4 ->]; [|done..|congruence].
  apply M_bind_inv in Hr as [(ps & f5 & H5' & Hr)|(? & _ & ?)]; [|done].
  apply load_policies_exact in H5' as [_ ->]; [|done..].
  apply M_bind_inv in Hr as [(ks & f6 & _ & Hr)|(? & _ & ?)]; [|done].
  by injection Hr as <- <-.
Qed.

End durability.

(* ------------------------------------------------------------------ *)
(** ** A concrete file system *)

Abbreviation mem_fs := (gmap (list string) string).

Definition mem_entry (p : list string) (q : list string) : option dirent :=
  match drop (length p) q with
  | n :: rest => if bool_decide (p `prefix_of` q) && bool_decide (n ≠ "..")
                 then Some (mkDirent n (negb (bool_decide (rest = [])))) else None
  | [] => None
  end.

#[local] Instance mem_FileSystem : FileSystem mem_fs := {|
  fs_create_dir_all := λ _ f, (Ok tt, f);
  fs_read_dir := λ p f, (Ok (omap (λ kv, mem_entry (resolve [] p) kv.1) (map_to_list f)), f);
  fs_read_to_string := λ p f, (ok_or "not found" (f !! resolve [] p), f);
  fs_write := λ p s f, (Ok tt, <[resolve [] p := s]> f);
  fs_rename := λ p q f, match f !! resolve [] p with
                        | Some s => (Ok tt, <[resolve [] q := s]> (delete (resolve [] p) f))
                        | None => (Err "not found", f) end;
  fs_remove_file := λ p f, (Ok tt, delete (resolve [] p) f);
  fs_remove_dir_all := λ p f, (Ok tt, filter (λ kv, ¬ resolve [] p `prefix_of` kv.1) f)
|}.

Lemma mem_entry_file p n : n ≠ ".." → mem_entry p (p ++ [n]) = Some (mkDirent n false).
Proof.
  intros Hn. unfold mem_entry. rewrite drop_app_length, bool_decide_eq_true_2 by (by exists [n]).
  by rewrite bool_decide_eq_true_2.
Qed.

Lemma mem_entry_inv p q e : mem_entry p q = Some e →
  entry_name e ≠ ".." ∧ ∃ rest, q = p ++ entry_name e :: rest ∧ (entry_is_dir e = false ↔ rest = []).
Proof.
  unfold mem_entry. destruct (drop (length p) q) as [|n rest] eqn:Hd; [done|].
  case_bool_decide as Hp; [|done]. case_bool_decide; [|done]. intros [= <-]. cbn. split; [done|].
  destruct Hp as [x ->]. rewrite drop_app_length in Hd. subst. exists rest. split; [done|].
  rewrite negb_false_iff. apply bool_decide_eq_true.
Qed.

#[local] Obligation Tactic := idtac.
#[local] Program Instance mem_FileSystemLaws : FileSystemLaws mem_fs := {|
  fs_cwd := []; fs_files := λ f, f
|}.
Next Obligation. naive_solver. Qed.
Next Obligation. naive_solver. Qed.
Next Obligation.
  intros p f l f' [= <- <-]. split_and!.
  - intros e ([k v] & _ & He)%list_elem_of_omap. by apply mem_entry_inv in He as [? _].
  - intros n Hn. rewrite list_elem_of_omap. split.
    + intros ([k v] & Hin%elem_of_map_to_list & He). cbn [fst] in He.
      apply mem_entry_inv in He as (_ & rest & -> & Hr). cbn in *.
      rewrite (proj1 Hr eq_refl) in Hin. by exists v.
    + intros [s Hs]. exists (resolve [] p ++ [n], s). rewrite elem_of_map_to_list.
      split; [done|by apply mem_entry_file].
  - intros n m rest Hn [s Hs]. apply list_elem_of_omap. exists (resolve [] p ++ n :: m :: rest, s).
    rewrite elem_of_map_to_list. split; [done|]. unfold mem_entry. cbn [fst].
    rewrite drop_app_length, !bool_decide_eq_true_2 by (done || by eexists). done.
Qed.
Next Obligation. naive_solver. Qed.
Next Obligation. intros p f s f'. cbn. destruct (f !! _); naive_solver. Qed.
Next Obligation. naive_solver. Qed.
Next Obligation. naive_solver. Qed.
Next Obligation. intros p q f f'. cbn. destruct (f !! _) as [s|]; [|done]. intros [= <-]. eauto. Qed.
Next Obligation. intros p q f e f'. cbn. destruct (f !! _); naive_solver. Qed.
Next Obligation. naive_solver. Qed.
Next Obligation. naive_solver. Qed.
Next Obligation.
  intros p f r f' [= <- <-]. split; [apply map_filter_subseteq|].
  intros q Hq. rewrite map_lookup_filter. destruct (f !! q); cbn; [|done]. by rewrite option_guard_True.
Qed.
Next Obligation.
  intros p f f' [= <-] q Hq. apply map_lookup_filter_None. right. intros x _ Hn. by apply Hn.
Qed.

Definition demo_billet : BilletRecord := mkBillet "reader" "d" [] [] [] "t0" "t0".
Definition demo_policy : PolicyRecord := mkPolicy "reader" "p1" "permit" "d" "t0" "t0".

(** Codecs that know one record each. *)
Definition one_codec {A} `{EqDecision A} (a0 : A) : Codec A := {|
  to_json := λ a, if bool_decide (a = a0) then Ok "{}" else Err "unsupported";
  from_json := λ s, if bool_decide (s = "{}") then Ok a0 else Err "syntax"
|}.
Lemma one_codec_laws {A} `{EqDecision A} (a0 : A) : @CodecLaws A (one_codec a0).
Proof. intros a s. cbn. case_bool_decide; [|done]. by intros [= <-]; subst. Qed.

#[local] Instance demo_billet_codec : Codec BilletRecord := one_codec demo_billet.
#[local] Instance demo_policy_codec : Codec PolicyRecord := one_codec demo_policy.
#[local] Instance demo_key_codec : Codec EphemeralKeyRecord :=
  one_codec (mkKey "k" "" [] [] "" "" "" "").
#[local] Instance demo_billet_laws : CodecLaws BilletRecord := one_codec_laws _.
#[local] Instance demo_policy_laws : CodecLaws PolicyRecord := one_codec_laws _.
#[local] Instance demo_key_laws : CodecLaws EphemeralKeyRecord := one_codec_laws _.
#[local] Instance plain_iter : HashIter := {| hash_iter A l := l; hash_iter_perm A l := reflexivity l |}.

Definition empty_store : LocalDataStore (F := mem_fs) :=
  mkStore (mkPath true ["data"]) (mkState ∅ ∅ []) ∅.

Lemma empty_store_durable : durable empty_store.
Proof. split; cbn; intros *; rewrite ?lookup_empty; try done. set_solver. Qed.

Definition demo_ops : list op :=
  [OCreateBillet demo_billet; OCreatePolicy demo_policy; ODeletePolicy "reader" "p1"].

(** The first start, on an empty disk. *)
Lemma demo_dir_well_filed : well_filed (resolve fs_cwd (mkPath true ["data"])) (∅ : mem_fs).
Proof. split; intros *; cbn; by rewrite lookup_empty. Qed.

Lemma demo_new : new (F := mem_fs) (mkPath true ["data"]) ∅ = (Ok (mkState ∅ ∅ []), ∅).
Proof. vm_compute. reflexivity. Qed.

Lemma store_durable_witness : durable (run_ops demo_ops empty_store).
Proof.
  refine (proj1 (store_durable (mkPath true ["data"]) ∅ (mkState ∅ ∅ []) ∅ demo_ops demo_dir_well_filed demo_new _)).
  repeat constructor.
Defined.

(** Without the condition on the directory: the record of [old.json] is loaded under its own
    name, and the file of that name is missing. *)
Lemma misfiled_record :
  match new (F := mem_fs) (mkPath true ["data"]) {[ ["data"; "billets"; "old.json"] := "{}" ]} with
  | (Ok st, f) => billets st = {["reader" := demo_billet]} ∧ f !! ["data"; "billets"; "reader.json"] = None
  | _ => False
  end.
Proof. vm_compute. done. Qed.

Lemma demo_store_restarts :
  billets (state (run_ops demo_ops empty_store)) = {["reader" := demo_billet]} ∧
  ∃ st f', new (path (run_ops demo_ops empty_store)) (disk (run_ops demo_ops empty_store)) = (Ok st, f').
Proof.
  split; [by vm_compute|].
  destruct (new (path (run_ops demo_ops empty_store)) (disk (run_ops demo_ops empty_store)))
    as [[st|e] f'] eqn:E; [by exists st, f'|].
  assert (is_ok (new (path (run_ops demo_ops empty_store))
                   (disk (run_ops demo_ops empty_store))).1 = true) as Hok by (vm_compute; reflexivity).
  rewrite E in Hok. done.
Qed.

Lemma store_reload_witness :
  ∃ st f', new (path (run_ops demo_ops empty_store)) (disk (run_ops demo_ops empty_store)) = (Ok st, f') ∧
    billets st = billets (state (run_ops demo_ops empty_store)).
Proof.
  destruct demo_store_restarts as (_ & st & f' & E). exists st, f'. split; [done|].
  refine (proj1 (store_reload demo_ops empty_store st f' _ empty_store_durable _ _ _ E)).
  - split.
    + intros p f r g [= <- <-]. apply lookup_delete_eq.
    + intros p f r g q [= <- <-] Hq. apply map_lookup_filter_None. right. intros x _ Hn. by apply Hn.
  - split; cbn; intros *; rewrite lookup_empty; by intros _ [??].
  - split; apply map_Forall_empty.
  - repeat constructor.
Defined.

End LocalDurability.
