(* ===== verification/CedarApi.v ===== *)
(** * The Cedar policy engine, as the program uses it

    The [cedar-policy] crate is a parameter of the development: [CedarLib] has
    one field per function the sources call, [CedarLaws] states the documented
    semantics they rely on (deny overrides, a policy applies only in its scope,
    a policy set is the sequence of its policies).  [Toy] is a small engine that
    satisfies the laws; the witnesses run on it. *)

From S2P Require Import Prelude.

Module CedarApi.

Inductive Effect : Type := Permit | Forbid.
Inductive Decision : Type := Allow | Deny.

#[export] Instance Effect_eq_dec : EqDecision Effect.
Proof. solve_decision. Defined.
#[export] Instance Decision_eq_dec : EqDecision Decision.
Proof. solve_decision. Defined.

(** [RestrictedExpression::new_string] and [new_set]. *)
Inductive RestrictedExpression : Type :=
| ExprString (s : string)
| ExprSet (l : list string).

Record EntityUid_ (T : Type) : Type := mkUid { uid_type : T; uid_id : string }.
Arguments mkUid {T} _ _.
Arguments uid_type {T} _.
Arguments uid_id {T} _.

(** [ResourceConstraint] *)
Inductive ResourceConstraint_ (T : Type) : Type :=
| RAny
| REq (u : EntityUid_ T)
| RIn (u : EntityUid_ T)
| RIs (t : T)
| RIsIn (t : T) (u : EntityUid_ T).
Arguments RAny {T}.
Arguments REq {T} _.
Arguments RIn {T} _.
Arguments RIs {T} _.
Arguments RIsIn {T} _ _.

Class CedarLib := {
  TypeName : Type;
  TypeName_eq_dec :: EqDecision TypeName;
  type_name_from_str : string → result string TypeName;
  type_basename : TypeName → string;
  type_display : TypeName → string;

  PolicySet : Type;
  Policy : Type;
  parse_policy_set : string → result string PolicySet;
  ps_policies : PolicySet → list Policy;
  policy_effect : Policy → Effect;
  policy_resource : Policy → ResourceConstraint_ TypeName;

  (** [Entity::new(uid, attrs, HashSet::new())]: no parents. *)
  Entity : Type;
  entity_new : EntityUid_ TypeName → gmap string RestrictedExpression → result string Entity;
  entity_uid : Entity → EntityUid_ TypeName;

  Entities : Type;
  entities_from : list Entity → result string Entities;

  Context : Type;
  context_from_pairs : list (string * RestrictedExpression) → result string Context;

  Request : Type;
  request_new : EntityUid_ TypeName → EntityUid_ TypeName → EntityUid_ TypeName → Context →
    result string Request;
  request_resource : Request → EntityUid_ TypeName;

  is_authorized : Request → PolicySet → Entities → Decision;

  (** The policy's scope and conditions hold of the request. *)
  policy_satisfied : Policy → Request → Entities → bool
}.

Abbreviation EntityUid := (EntityUid_ TypeName).
Abbreviation ResourceConstraint := (ResourceConstraint_ TypeName).

(** Two policies that differ only in their generated identifier. *)
Definition policy_equiv `{CedarLib} (p q : Policy) : Prop :=
  policy_effect p = policy_effect q ∧ policy_resource p = policy_resource q ∧
  ∀ r es, policy_satisfied p r es = policy_satisfied q r es.

(** What a resource constraint of the policy's scope says, on entities without
    parents. *)
Definition resource_matches `{CedarLib} (c : ResourceConstraint) (u : EntityUid) : Prop :=
  match c with
  | RAny => True
  | REq v | RIn v => u = v
  | RIs t => uid_type u = t
  | RIsIn t v => uid_type u = t ∧ u = v
  end.

(** The text the synchroniser parses: one statement per line. *)
Definition nl : string := String (ascii_of_N 10) EmptyString.

Class CedarLaws `{CedarLib} := {
  (** Deny overrides, default deny. *)
  decision_spec : ∀ r ps es, is_authorized r ps es = Allow ↔
    (∃ p, p ∈ ps_policies ps ∧ policy_effect p = Permit ∧ policy_satisfied p r es = true) ∧
    (∀ p, p ∈ ps_policies ps → policy_effect p = Forbid → policy_satisfied p r es = false);
  (** A policy applies only to resources in its scope. *)
  scope_spec : ∀ p r es, policy_satisfied p r es = true →
    resource_matches (policy_resource p) (request_resource r);
  request_new_resource : ∀ p a u c r, request_new p a u c = Ok r → request_resource r = u;
  (** Parsing the concatenation of texts that parse gives their policies. *)
  parse_join : ∀ ss ps, Forall (λ s, is_ok (parse_policy_set s) = true) ss →
    parse_policy_set (Str.join nl ss) = Ok ps →
    ∀ p, p ∈ ps_policies ps →
      ∃ s ps' q, s ∈ ss ∧ parse_policy_set s = Ok ps' ∧ q ∈ ps_policies ps' ∧ policy_equiv p q;
  (** and conversely every policy of a part is in the whole *)
  parse_join_complete : ∀ ss ps s ps' q, Forall (λ s, is_ok (parse_policy_set s) = true) ss →
    parse_policy_set (Str.join nl ss) = Ok ps →
    s ∈ ss → parse_policy_set s = Ok ps' → q ∈ ps_policies ps' →
    ∃ p, p ∈ ps_policies ps ∧ policy_equiv p q;
  (** The empty text is the empty set. *)
  parse_empty : ∃ ps, parse_policy_set "" = Ok ps ∧ ps_policies ps = [];
  (** [A::B] type names of identifiers. *)
  quartermaster_types : ∀ t, t ∈ ["Billet"; "Action"; "Workload"; "OidcIdentity";
    "AwsRoleIdentity"; "GcpIdentity"] →
    ∃ tn, type_name_from_str ("Quartermaster::" +:+ t) = Ok tn ∧ type_basename tn = t
}.

(* ------------------------------------------------------------------ *)
(** ** A small engine

    A policy set is a text of lines [permit <id>], [forbid <id>] (for one
    billet), [permit *] and [forbid *] (for every resource). *)

Module Toy.

Definition toy_policy : Type := Effect * ResourceConstraint_ string.
Definition toy_billet (id : string) : EntityUid_ string := mkUid "Quartermaster::Billet" id.

Definition parse_target (e : Effect) (t : string) : toy_policy :=
  if bool_decide (t = "*") then (e, RAny) else (e, REq (toy_billet t)).

Definition parse_line (l : string) : result string toy_policy :=
  match Str.strip_prefix "permit " l, Str.strip_prefix "forbid " l with
  | Some t, _ => Ok (parse_target Permit t)
  | None, Some t => Ok (parse_target Forbid t)
  | None, None => Err "unexpected token"
  end.

Definition parse_text (s : string) : result string (list toy_policy) :=
  try_map parse_line (filter (λ l, l ≠ "") (Str.split (ascii_of_N 10) s)).

Definition toy_matches (c : ResourceConstraint_ string) (u : EntityUid_ string) : bool :=
  match c with
  | RAny => true
  | REq v | RIn v => bool_decide (uid_type u = uid_type v) && bool_decide (uid_id u = uid_id v)
  | RIs t => bool_decide (uid_type u = t)
  | RIsIn t v => bool_decide (uid_type u = t) && bool_decide (uid_type u = uid_type v)
                 && bool_decide (uid_id u = uid_id v)
  end.

Definition toy_decide (u : EntityUid_ string) (ps : list toy_policy) : Decision :=
  if existsb (λ p, bool_decide (p.1 = Forbid) && toy_matches p.2 u) ps then Deny
  else if existsb (λ p, bool_decide (p.1 = Permit) && toy_matches p.2 u) ps then Allow else Deny.

#[export] Instance toy : CedarLib := {|
  TypeName := string;
  TypeName_eq_dec := String.eq_dec;
  type_name_from_str := λ s, if bool_decide (s = "") then Err "empty name" else Ok s;
  type_basename := λ s, default s (Str.strip_prefix "Quartermaster::" s);
  type_display := id;
  PolicySet := list toy_policy;
  Policy := toy_policy;
  parse_policy_set := parse_text;
  ps_policies := id;
  policy_effect := fst;
  policy_resource := snd;
  Entity := EntityUid_ string * gmap string RestrictedExpression;
  entity_new := λ u a, Ok (u, a);
  entity_uid := fst;
  Entities := list (EntityUid_ string * gmap string RestrictedExpression);
  entities_from := λ l, Ok l;
  Context := list (string * RestrictedExpression);
  context_from_pairs := λ l, Ok l;
  Request := EntityUid_ string * EntityUid_ string * EntityUid_ string;
  request_new := λ p a r _, Ok (p, a, r);
  request_resource := λ r, r.2;
  is_authorized := λ r ps _, toy_decide r.2 ps;
  policy_satisfied := λ p r _, toy_matches p.2 r.2
|}.

Lemma toy_matches_spec c u : toy_matches c u = true → resource_matches c u.
Proof.
  assert (∀ v : EntityUid_ string, uid_type u = uid_type v → uid_id u = uid_id v → u = v) as Hext.
  { intros v. destruct u, v. simpl. by intros -> ->. }
  destruct c; simpl; rewrite ?andb_true_iff, ?bool_decide_eq_true; naive_solver.
Qed.

Lemma parse_text_elem s ps p :
  parse_text s = Ok ps → p ∈ ps ↔
  ∃ l, l ∈ filter (λ l, l ≠ "") (Str.split (ascii_of_N 10) s) ∧ parse_line l = Ok p.
Proof.
  intros H%try_map_Ok. split.
  - intros [i Hi]%list_elem_of_lookup. destruct (Forall2_lookup_r _ _ _ _ _ H Hi) as (l & Hl & Hp).
    exists l. split; [by eapply list_elem_of_lookup_2|done].
  - intros (l & [i Hi]%list_elem_of_lookup & Hp).
    destruct (Forall2_lookup_l _ _ _ _ _ H Hi) as (p' & Hp' & Hl).
    rewrite Hl in Hp. injection Hp as ->. by eapply list_elem_of_lookup_2.
Qed.

Lemma toy_decide_spec u ps : toy_decide u ps = Allow ↔
  (∃ p, p ∈ ps ∧ p.1 = Permit ∧ toy_matches p.2 u = true) ∧
  (∀ p, p ∈ ps → p.1 = Forbid → toy_matches p.2 u = false).
Proof.
  assert (∀ e, existsb (λ p, bool_decide (p.1 = e) && toy_matches p.2 u) ps = true ↔
               ∃ p, p ∈ ps ∧ p.1 = e ∧ toy_matches p.2 u = true) as Hex.
  { intros e. rewrite existsb_exists. setoid_rewrite andb_true_iff.
    setoid_rewrite bool_decide_eq_true. setoid_rewrite list_elem_of_In. done. }
  unfold toy_decide. destruct (existsb (λ p, bool_decide (p.1 = Forbid) && _) ps) eqn:Hf.
  - apply Hex in Hf as (p & Hp & He & Hm). split; [done|]. intros [_ H].
    specialize (H p Hp He). congruence.
  - apply not_true_iff_false in Hf. rewrite Hex in Hf.
    destruct (existsb (λ p, bool_decide (p.1 = Permit) && _) ps) eqn:Hp.
    + apply Hex in Hp. split; [|done]. intros _. split; [done|].
      intros p Hin He. destruct (toy_matches p.2 u) eqn:Hm; [|done]. destruct Hf. eauto.
    + apply not_true_iff_false in Hp. rewrite Hex in Hp. naive_solver.
Qed.

#[export] Instance toy_laws : CedarLaws.
Proof.
  split.
  { intros r ps es. apply toy_decide_spec. }
  { intros p r es. apply toy_matches_spec. }
  { intros p a u c r [= <-]. done. }
  { intros ss ps Hok Hps p Hp. rewrite Forall_forall in Hok.
    cbn in Hps. destruct ss as [|s0 ss0].
    { injection Hps as <-. by apply not_elem_of_nil in Hp. }
    apply (parse_text_elem _ _ p) in Hps. apply Hps in Hp as (l & Hl & Hpl).
    unfold nl in Hl. rewrite split_join in Hl by done.
    apply list_elem_of_filter in Hl as [Hne (s & Hls & Hs)%list_elem_of_bind].
    specialize (Hok s Hs). destruct (parse_policy_set s) as [ps'|] eqn:E; [|done].
    exists s, ps', p. split_and!; [done|done| |done].
    apply (parse_text_elem s ps' p E). exists l. split; [|done]. by apply list_elem_of_filter. }
  { intros ss ps s ps' q Hok Hps Hs Hps' Hq. exists q. split; [|done].
    apply (parse_text_elem _ _ q Hps'), (conj Hs) in Hq as [_ (l & Hl & Hq)].
    apply (parse_text_elem _ _ q Hps). exists l. split; [|done].
    unfold nl. rewrite split_join by (by intros ->; apply not_elem_of_nil in Hs).
    apply list_elem_of_filter in Hl as [? ?]. apply list_elem_of_filter. split; [done|].
    apply list_elem_of_bind. eauto. }
  { by exists []. }
  { intros t Ht. exists ("Quartermaster::" +:+ t). split; [done|]. cbn.
    by rewrite (proj2 (strip_prefix_Some "Quartermaster::" ("Quartermaster::" +:+ t) t)). }
Qed.

End Toy.

End CedarApi.
