(* ===== verification/AuditLog.v ===== *)
(** * Audit events and their delivery ([src/src/domain/audit/])

    The event schema of [mod.rs] and [schema.rs], and the service of
    [service.rs]: request handlers enqueue without blocking on a bounded
    channel, one background task hands every event to every sink.  The service
    is a transition system; the theorems account for each event that was ever
    emitted. *)

From S2P Require Import Prelude.

Module AuditLog.
Local Open Scope Z_scope.

(* ------------------------------------------------------------------ *)
(** ** Schema *)

Inductive IdentityAuditDetails : Type :=
| DSpire (spiffe_id : string)
| DOidc (email idp_prefix : string) (groups : list string)
| DAwsSts (account_id role_arn : string)
| DGcp (project_id service_account_email : string).

Inductive Outcome : Type := Success | Failure.

Record AuditActor : Type := mkActor { subject : string; source_type : string }.

Record AuditEnvelope : Type := mkEnvelope {
  schema_version : string;
  event_type : string;
  timestamp : Z;
  request_id : string;
  actor : AuditActor;
  details : json;
  outcome : Outcome;
  error : option string
}.

Record TokenExchangeDetails : Type := mkTokenExchangeDetails {
  cedar_billets : list string;
  implicit_billets : list string;
  audience : string;
  jti : option string;
  identity_details : IdentityAuditDetails
}.

Record AdminOperationDetails : Type := mkAdminOperationDetails {
  action : string;
  target : string;
  policy_statement : option string
}.

Record SyncDetails : Type := mkSyncDetails {
  policy_count : option Z;
  billet_count : option Z;
  duration_ms : Z
}.

(** [serde_json::to_value], with [skip_serializing_if] and [tag = "type"]. *)
Definition opt_field (k : string) (o : option json) : list (string * json) :=
  match o with Some v => [(k, v)] | None => [] end.
Definition strs (l : list string) : json := JArr (JStr <$> l).

Definition IdentityAuditDetails_json (d : IdentityAuditDetails) : json :=
  match d with
  | DSpire s => JObj [("type", JStr "Spire"); ("spiffe_id", JStr s)]
  | DOidc e i g => JObj [("type", JStr "Oidc"); ("email", JStr e); ("idp_prefix", JStr i); ("groups", strs g)]
  | DAwsSts a r => JObj [("type", JStr "AwsSts"); ("account_id", JStr a); ("role_arn", JStr r)]
  | DGcp p s => JObj [("type", JStr "Gcp"); ("project_id", JStr p); ("service_account_email", JStr s)]
  end.

Definition TokenExchangeDetails_json (d : TokenExchangeDetails) : json :=
  JObj ([("cedar_billets", strs (cedar_billets d)); ("implicit_billets", strs (implicit_billets d));
         ("audience", JStr (audience d))] ++ opt_field "jti" (JStr <$> jti d) ++
        [("identity_details", IdentityAuditDetails_json (identity_details d))]).

Definition AdminOperationDetails_json (d : AdminOperationDetails) : json :=
  JObj ([("action", JStr (action d)); ("target", JStr (target d))] ++
        opt_field "policy_statement" (JStr <$> policy_statement d)).

Definition SyncDetails_json (d : SyncDetails) : json :=
  JObj (opt_field "policy_count" (JNum <$> policy_count d) ++
        opt_field "billet_count" (JNum <$> billet_count d) ++
        [("duration_ms", JNum (duration_ms d))]).

Definition token_exchange_success (now : Z) (rid : string) (a : AuditActor)
    (d : TokenExchangeDetails) : AuditEnvelope :=
  mkEnvelope "1.0" "token.exchange.success" now rid a (TokenExchangeDetails_json d) Success None.

Definition token_exchange_failure (now : Z) (rid : string) (a : AuditActor) (err : string)
    (d : TokenExchangeDetails) : AuditEnvelope :=
  mkEnvelope "1.0" "token.exchange.failure" now rid a (TokenExchangeDetails_json d) Failure (Some err).

Definition admin_event_type (action : string) : string :=
  if bool_decide (action = "createBillet") then "admin.billet.create"
  else if bool_decide (action = "updateBillet") then "admin.billet.update"
  else if bool_decide (action = "deleteBillet") then "admin.billet.delete"
  else if bool_decide (action = "createPolicy") then "admin.policy.create"
  else if bool_decide (action = "updatePolicy") then "admin.policy.update"
  else if bool_decide (action = "deletePolicy") then "admin.policy.delete"
  else if bool_decide (action = "authFailure") then "admin.auth.failure"
  else action.

Definition admin_operation (now : Z) (rid : string) (a : AuditActor) (action target : string)
    (o : Outcome) (err : option string) (d : json) : AuditEnvelope :=
  mkEnvelope "1.0" (admin_event_type action) now rid a d o err.

(** [uuid] is the fresh request identifier. *)
Definition sync_event (now : Z) (uuid event_type : string) (o : Outcome) (err : option string)
    (d : json) : AuditEnvelope :=
  mkEnvelope "1.0" event_type now uuid (mkActor "system" "system") d o err.

(* ------------------------------------------------------------------ *)
(** ** Sinks *)

Record SinkError : Type := mkSinkError { message : string; source : option string }.

Definition SinkError_fmt (e : SinkError) : string :=
  message e +:+ match source e with Some s => ": " +:+ s | None => "" end.

(** [Box<dyn AuditSink>]: some state with its operations. *)
Record Sink : Type := mkSink {
  sink_state : Type;
  sink_cur : sink_state;
  sink_send_batch : list AuditEnvelope → M sink_state SinkError unit;
  sink_flush : M sink_state SinkError unit;
  sink_name : string
}.

Definition sink_set (s : Sink) (st : sink_state s) : Sink :=
  mkSink (sink_state s) st (sink_send_batch s) (sink_flush s) (sink_name s).

(** [sink.send_batch(&\[event\])], its error logged and dropped. *)
Definition sink_deliver (e : AuditEnvelope) (s : Sink) : Sink :=
  sink_set s (sink_send_batch s [e] (sink_cur s)).2.

Definition deliver_to_sinks (e : AuditEnvelope) (sinks : list Sink) : list Sink :=
  sink_deliver e <$> sinks.

Definition flush_sinks (sinks : list Sink) : list Sink :=
  (λ s, sink_set s (sink_flush s (sink_cur s)).2) <$> sinks.

(* ------------------------------------------------------------------ *)
(** ** The service *)

(** Where the background task is: in its [select!] loop, in the loop of
    [drain_and_flush], flushing, or gone (which drops the receiver). *)
Inductive phase : Type := Running | Draining | Flushing | Stopped.

#[export] Instance phase_eq_dec : EqDecision phase.
Proof. solve_decision. Defined.

Record AuditService : Type := mkService {
  queue : list AuditEnvelope;
  capacity : nat;
  overflow_dropped : Z;
  shutdown_flag : bool;
  task : phase;
  sinks : list Sink
}.

Definition new (sinks : list Sink) (capacity : nat) : AuditService :=
  mkService [] capacity 0 false Running sinks.

(** [emit]: [try_send] on the channel. *)
Inductive emit_result : Type := Sent | Full | Closed.

Definition emit (e : AuditEnvelope) (s : AuditService) : emit_result * AuditService :=
  match task s with
  | Stopped => (Closed, s)
  | _ =>
      if (length (queue s) <? capacity s)%nat
      then (Sent, mkService (queue s ++ [e]) (capacity s) (overflow_dropped s) (shutdown_flag s)
                    (task s) (sinks s))
      else (Full, mkService (queue s) (capacity s) (wrap 64 (overflow_dropped s + 1))
                    (shutdown_flag s) (task s) (sinks s))
  end.

Definition set_task (p : phase) (s : AuditService) : AuditService :=
  mkService (queue s) (capacity s) (overflow_dropped s) (shutdown_flag s) p (sinks s).

(** One turn of the background task.  [sel] is the branch [select!] takes when
    both are ready: [true] for the shutdown signal. *)
Definition task_step (sel : bool) (s : AuditService) : AuditService :=
  let deliver :=
    match queue s with
    | e :: q => mkService q (capacity s) (overflow_dropped s) (shutdown_flag s) (task s)
                  (deliver_to_sinks e (sinks s))
    | [] => s
    end in
  match task s with
  | Running =>
      if shutdown_flag s && (sel || bool_decide (queue s = [])) then set_task Draining s else deliver
  | Draining => if bool_decide (queue s = []) then set_task Flushing s else deliver
  | Flushing =>
      mkService [] (capacity s) (overflow_dropped s) (shutdown_flag s) Stopped (flush_sinks (sinks s))
  | Stopped => s
  end.

Definition shutdown (s : AuditService) : AuditService :=
  mkService (queue s) (capacity s) (overflow_dropped s) true (task s) (sinks s).

(** Emitters, the background task and [shutdown] run concurrently. *)
Inductive sevent : Type :=
| EvEmit (e : AuditEnvelope)
| EvTask (sel : bool)
| EvShutdown.

(** The run, with the events it accepted, those it lost when the task ended,
    and how many found the channel full. *)
Record run_state : Type := mkRun {
  svc : AuditService;
  accepted : list AuditEnvelope;
  delivered : list AuditEnvelope;
  lost : list AuditEnvelope;
  overflows : Z
}.

Definition run_step (r : run_state) (ev : sevent) : run_state :=
  match ev with
  | EvEmit e =>
      let '(res, s) := emit e (svc r) in
      match res with
      | Sent => mkRun s (accepted r ++ [e]) (delivered r) (lost r) (overflows r)
      | Full => mkRun s (accepted r) (delivered r) (lost r) (overflows r + 1)
      | Closed => mkRun s (accepted r) (delivered r) (lost r) (overflows r)
      end
  | EvTask sel =>
      let s := task_step sel (svc r) in
      let taken := take (length (queue (svc r)) - length (queue s)) (queue (svc r)) in
      match task (svc r) with
      | Flushing => mkRun s (accepted r) (delivered r) (lost r ++ taken) (overflows r)
      | _ => mkRun s (accepted r) (delivered r ++ taken) (lost r) (overflows r)
      end
  | EvShutdown => mkRun (shutdown (svc r)) (accepted r) (delivered r) (lost r) (overflows r)
  end.

Definition run (sinks : list Sink) (cap : nat) (evs : list sevent) : run_state :=
  foldl run_step (mkRun (new sinks cap) [] [] [] 0) evs.

(** What the calls of a sink leave: one [send_batch] for each event in order, whether
    the calls before it failed or not, and one [flush] at the end if the task has ended. *)
Definition after_calls (s : Sink) (evs : list AuditEnvelope) (flushed : bool) : sink_state s :=
  let st := foldl (λ st e, (sink_send_batch s [e] st).2) (sink_cur s) evs in
  if flushed then (sink_flush s st).2 else st.

(** Each sink has had exactly those calls and no other, and none is added or left out. *)
Definition all_served (sinks0 : list Sink) (evs : list AuditEnvelope) (flushed : bool) (sinks : list Sink) : Prop :=
  Forall2 (λ s0 s, s = sink_set s0 (after_calls s0 evs flushed)) sinks0 sinks.

Record run_inv (sinks0 : list Sink) (cap : nat) (r : run_state) : Prop := {
  inv_cap : capacity (svc r) = cap;
  inv_bound : (length (queue (svc r)) ≤ cap)%nat;
  inv_account : accepted r = delivered r ++ lost r ++ queue (svc r);
  inv_lost : task (svc r) ≠ Stopped → lost r = [];
  inv_queue : task (svc r) = Stopped → queue (svc r) = [];
  inv_overflow : overflow_dropped (svc r) = wrap 64 (overflows r);
  inv_sinks : all_served sinks0 (delivered r) (bool_decide (task (svc r) = Stopped)) (sinks (svc r))
}.

Lemma all_served_refl s0 : all_served s0 [] false s0.
Proof. induction s0 as [|[] s0 IH]; by constructor. Qed.

Lemma all_served_deliver s0 evs e ss :
  all_served s0 evs false ss → all_served s0 (evs ++ [e]) false (deliver_to_sinks e ss).
Proof.
  unfold deliver_to_sinks. induction 1 as [|x y l k -> _ IH]; [constructor|]. constructor; [|exact IH].
  unfold sink_deliver, after_calls. by rewrite foldl_snoc.
Qed.

Lemma all_served_flush s0 evs ss : all_served s0 evs false ss → all_served s0 evs true (flush_sinks ss).
Proof. unfold flush_sinks. induction 1 as [|x y l k -> _ IH]; by constructor. Qed.

Lemma run_step_emit s0 cap r e : run_inv s0 cap r → run_inv s0 cap (run_step r (EvEmit e)).
Proof.
  intros [Hc Hb Ha Hl Hq Ho Hs]. cbn. unfold emit.
  destruct (task (svc r)) eqn:Ht; try (by split; rewrite ?Ht);
    destruct (Nat.ltb_spec (length (queue (svc r))) (capacity (svc r)));
    split; cbn; rewrite ?Ht; try done; rewrite ?length_app; cbn; try lia;
    try (by rewrite Ha, <-!app_assoc);
    by rewrite Ho; unfold wrap; rewrite Zplus_mod_idemp_l.
Qed.

Lemma take_head {A} (x : A) q : take (length (x :: q) - length q) (x :: q) = [x].
Proof. replace (length (x :: q) - length q)%nat with 1%nat by (cbn; lia). done. Qed.

Lemma run_step_task s0 cap r sel : run_inv s0 cap r → run_inv s0 cap (run_step r (EvTask sel)).
Proof.
  intros [Hc Hb Ha Hl Hq Ho Hs]. cbn. unfold task_step.
  destruct (task (svc r)) eqn:Ht; try rewrite (Hl ltac:(done)) in *.
  - destruct (shutdown_flag _ && _).
    + cbn. rewrite Nat.sub_diag. cbn. rewrite app_nil_r. by split; cbn.
    + destruct (queue (svc r)) as [|e q] eqn:Eq.
      * rewrite Eq. cbn. rewrite app_nil_r. split; cbn; rewrite ?Ht, ?Eq; try done.
      * cbn [queue]. rewrite take_head. split; cbn; rewrite ?Ht; try done; [cbn in Hb; lia|..].
        -- by rewrite Ha, <-app_assoc.
        -- by apply all_served_deliver.
  - destruct (queue (svc r)) as [|e q] eqn:Eq.
    + rewrite bool_decide_eq_true_2 by done. cbn. rewrite Eq. cbn. rewrite app_nil_r.
      split; cbn; rewrite ?Eq; done.
    + rewrite bool_decide_eq_false_2 by done. cbn [queue]. rewrite take_head.
      split; cbn; rewrite ?Ht; try done; [cbn in Hb; lia|..].
      * by rewrite Ha, <-app_assoc.
      * by apply all_served_deliver.
  - cbn. rewrite Nat.sub_0_r, firstn_all.
    split; cbn; try done; [lia| |by apply all_served_flush]. by rewrite Ha, app_nil_r.
  - rewrite Nat.sub_diag. cbn. rewrite app_nil_r. split; cbn; rewrite ?Ht; done.
Qed.

Lemma run_preserves s0 cap evs r : run_inv s0 cap r → run_inv s0 cap (foldl run_step r evs).
Proof.
  revert r. induction evs as [|ev evs IH]; intros r Hr; [done|]. cbn. apply IH.
  destruct ev as [e|sel|]; [by apply run_step_emit|by apply run_step_task|].
  by destruct Hr as [???????]; split; cbn.
Qed.

Lemma start_inv s0 cap : run_inv s0 cap (mkRun (new s0 cap) [] [] [] 0).
Proof. split; cbn; try done; [lia|]. apply all_served_refl. Qed.

(** C20: over every interleaving of emitters, the delivery task and shutdown, an
    event that [emit] accepted is delivered, still queued, or (only once the
    task has ended) was queued while it was flushing; the queue never exceeds
    its capacity, the overflow counter counts the refused events, and every sink
    has had exactly one call of its [send_batch] for each delivered event, in order,
    however it or the other sinks failed, and one [flush] once the task has ended. *)
Theorem audit_accounting sinks0 cap evs : run_inv sinks0 cap (run sinks0 cap evs).
Proof. apply run_preserves, start_inv. Qed.

(** What is left to do after a shutdown signal, without further emitters. *)
Definition work (s : AuditService) : nat :=
  length (queue s) + match task s with Running => 3 | Draining => 2 | Flushing => 1 | Stopped => 0 end.

(** Signalled, and the queue already drained once the task flushes. *)
Definition closing (r : run_state) : Prop :=
  shutdown_flag (svc r) = true ∧ lost r = [] ∧
  (task (svc r) = Flushing ∨ task (svc r) = Stopped → queue (svc r) = []).

Lemma run_step_closing r sel :
  closing r → closing (run_step r (EvTask sel)) ∧
  (work (svc (run_step r (EvTask sel))) < work (svc r) ∨ task (svc r) = Stopped)%nat.
Proof.
  intros (Hf & Hl & Hq). unfold closing, work. cbn. unfold task_step. rewrite Hf.
  destruct (task (svc r)) eqn:Ht; cbn [andb].
  - destruct (sel || _) eqn:Hsel; cbn [svc lost task queue shutdown_flag set_task].
    + split; [|left; lia]. split_and!; [done..|]. by intros [?|?].
    + apply orb_false_iff in Hsel as [-> Hne]. apply bool_decide_eq_false in Hne.
      destruct (queue (svc r)); [done|]. cbn. rewrite ?Ht. split; [|left; lia]. by split_and!; [done..|intros [?|?]].
  - destruct (queue (svc r)) eqn:Eq.
    + rewrite bool_decide_eq_true_2 by done. cbn. rewrite Eq. split; [by split_and!|left; cbn; lia].
    + rewrite bool_decide_eq_false_2 by done. cbn. rewrite ?Ht. split; [|left; lia].
      by split_and!; [done..|intros [?|?]].
  - cbn. rewrite (Hq ltac:(by left)), Hl. cbn. split; [by split_and!|left; lia].
  - cbn. rewrite ?Ht, (Hq ltac:(by right)). split; [by split_and!|by right].
Qed.

Lemma run_closing r sels :
  closing r → (work (svc r) ≤ length sels)%nat →
  closing (foldl run_step r (EvTask <$> sels)) ∧ task (svc (foldl run_step r (EvTask <$> sels))) = Stopped.
Proof.
  assert (∀ r, (work (svc r) = 0)%nat → task (svc r) = Stopped) as H0.
  { intros r'. unfold work. destruct (task (svc r')); lia || done. }
  revert r. induction sels as [|sel sels IH]; intros r Hc Hw.
  - cbn in *. split; [done|]. apply H0. lia.
  - cbn [fmap list_fmap foldl]. destruct (run_step_closing r sel Hc) as [Hc' [Hlt|Hst]].
    + apply IH; [done|]. cbn in Hw. lia.
    + apply IH; [done|]. destruct Hc as (_ & _ & Hq).
      enough (work (svc (run_step r (EvTask sel))) = 0)%nat by lia.
      unfold work. cbn. unfold task_step. rewrite Hst. cbn. by rewrite Hst, (Hq ltac:(by right)).
Qed.

(** C21: graceful shutdown loses nothing: from any state in which the task is
    still running, the shutdown signal followed by enough turns of the task and
    no new events stops it after every accepted event was delivered to every sink and
    every sink was flushed; a bound on
    the turns is the length of the queue plus three, whichever branch its
    [select!] prefers. *)
Theorem audit_shutdown_delivers_all sinks0 cap evs sels :
  task (svc (run sinks0 cap evs)) = Running →
  (length (queue (svc (run sinks0 cap evs))) + 3 ≤ length sels)%nat →
  let r := run sinks0 cap (evs ++ EvShutdown :: (EvTask <$> sels)) in
  task (svc r) = Stopped ∧ delivered r = accepted r ∧
  all_served sinks0 (accepted r) true (sinks (svc r)).
Proof.
  intros Ht Hlen r.
  assert (run_inv sinks0 cap r) as Hinv by by apply run_preserves, start_inv.
  assert (closing r ∧ task (svc r) = Stopped) as [(_ & Hl & Hq) Hst].
  { unfold r, run. rewrite foldl_app. cbn [foldl].
    assert (run_inv sinks0 cap (run sinks0 cap evs)) as Hi by by apply run_preserves, start_inv.
    apply run_closing.
    - unfold closing. cbn. fold (run sinks0 cap evs).
      split_and!; [done|by apply (inv_lost _ _ _ Hi); rewrite Ht|]. rewrite Ht. by intros [?|?].
    - unfold work. cbn. fold (run sinks0 cap evs). rewrite Ht. lia. }
  destruct Hinv as [_ _ Ha _ _ _ Hs]. rewrite Hst in Hs.
  rewrite Hl, (Hq ltac:(by right)), !app_nil_r in Ha. by rewrite Ha.
Qed.

(** A sink that records the first event and fails on the others. *)
Definition flaky_sink : Sink :=
  mkSink (list AuditEnvelope) []
    (λ evs st, match st with [] => (Ok tt, st ++ evs) | _ => (Err (mkSinkError "full" None), st) end)
    (λ st, (Ok tt, st)) "flaky".
Definition demo_event (id : string) : AuditEnvelope :=
  mkEnvelope "1.0" "token.exchange.success" 0 id (mkActor "s" "spire") JNull Success None.

Lemma audit_shutdown_delivers_all_witness :
  let evs := [EvEmit (demo_event "1"); EvEmit (demo_event "2"); EvEmit (demo_event "3")] in
  let r := run [flaky_sink] 2 (evs ++ EvShutdown :: (EvTask <$> [true; false; true; false; true])) in
  task (svc r) = Stopped ∧ delivered r = accepted r ∧ overflow_dropped (svc r) = 1.
Proof.
  intros evs r. split_and!; [| |by vm_compute].
  - apply (audit_shutdown_delivers_all [flaky_sink] 2 evs); [reflexivity|cbn; lia].
  - apply (audit_shutdown_delivers_all [flaky_sink] 2 evs); [reflexivity|cbn; lia].
Defined.

End AuditLog.
