(* ===== verification/AuditSinks.v ===== *)
(** * Audit sinks ([src/src/domain/audit/stdout_sink.rs], [file_sink.rs],
    [kinesis_sink.rs], [pubsub_sink.rs], [config.rs])

    Standard output, the rotating file and the two buffered cloud sinks.  Files are
    modelled with their identity (a handle keeps writing to a renamed file), buffered
    writers with their buffer; any call may be made to fail.  [serde_json] and the
    cloud clients are parameters. *)

From S2P Require Import Prelude Http Config AuditLog.

Module AuditSinks.
Import AuditLog.
Local Open Scope Z_scope.

(** [SinkError::new] and [SinkError::with_source] *)
Definition sink_error (m : string) : SinkError := mkSinkError m None.
Definition with_source (m e : string) : SinkError := mkSinkError m (Some e).

Definition nl : string := String "010" "".

(** [serde_json::to_string] *)
Class EventJson := event_to_string : AuditEnvelope → result string string.

(* ------------------------------------------------------------------ *)
(** ** Files

    A directory of names and the contents of the files.  The [plan] says which of the
    coming calls fail; a failing write first writes that many bytes. *)

Record disk : Type := mkDisk {
  names : gmap string nat;
  contents : gmap nat string;
  plan : list (option nat)
}.

Definition io_fault : M disk string (option nat) := λ d,
  match plan d with
  | [] => (Ok None, d)
  | f :: rest => (Ok f, mkDisk (names d) (contents d) rest)
  end.

(** A call that either fails without effect or does its work. *)
Definition io {A} (m : M disk string A) : M disk string A :=
  f ← io_fault; match f with Some _ => throw "i/o error" | None => m end.

Definition fs_create_dir_all : M disk string unit := io (mret tt).

(** [OpenOptions::new().create(true).append(true).open(path)] *)
Definition open_append (path : string) : M disk string nat := io (λ d,
  match names d !! path with
  | Some i => (Ok i, d)
  | None => let i := fresh (dom (contents d)) in
            (Ok i, mkDisk (<[path := i]> (names d)) (<[i := ""]> (contents d)) (plan d))
  end).

(** [file.metadata().map(|m| m.len()).unwrap_or(0)] *)
Definition file_len (i : nat) : M disk SinkError Z := λ d,
  match io (λ d, (Ok (Z.of_nat (String.length (default "" (contents d !! i)))), d)) d with
  | (Ok n, d') => (Ok n, d')
  | (Err _, d') => (Ok 0, d')
  end.

(** [path.exists()] *)
Definition fs_exists (path : string) (d : disk) : bool := bool_decide (is_Some (names d !! path)).

Definition fs_remove_file (path : string) : M disk string unit := io (λ d,
  match names d !! path with
  | Some _ => (Ok tt, mkDisk (delete path (names d)) (contents d) (plan d))
  | None => (Err "not found", d)
  end).

Definition fs_rename (from to : string) : M disk string unit := io (λ d,
  match names d !! from with
  | Some i => (Ok tt, mkDisk (<[to := i]> (delete from (names d))) (contents d) (plan d))
  | None => (Err "not found", d)
  end).

(** Appending; the number of bytes written is returned also on failure. *)
Definition append_bytes (i : nat) (s : string) (d : disk) : result nat unit * disk :=
  let write t d := mkDisk (names d) (alter (λ c, c +:+ t) i (contents d)) (plan d) in
  match io_fault d with
  | (Ok (Some k), d1) => (Err k, write (Str.take_bytes k s) d1)
  | (_, d1) => (Ok tt, write s d1)
  end.

(** [BufWriter<File>] *)
Record BufWriter : Type := mkWriter { file : nat; buffer : string }.

Definition buffer_capacity : Z := 8192.

Definition str_len (s : string) : Z := Z.of_nat (String.length s).

(** What was written leaves the buffer, also when the write fails. *)
Definition writer_flush (w : BufWriter) (d : disk) : result string unit * (BufWriter * disk) :=
  if Str.is_empty (buffer w) then (Ok tt, (w, d))
  else match append_bytes (file w) (buffer w) d with
       | (Ok _, d') => (Ok tt, (mkWriter (file w) "", d'))
       | (Err k, d') => (Err "write error", (mkWriter (file w) (Str.drop_bytes k (buffer w)), d'))
       end.

Definition writer_write_all (s : string) (w : BufWriter) (d : disk) : result string unit * (BufWriter * disk) :=
  if str_len (buffer w) + str_len s <? buffer_capacity
  then (Ok tt, (mkWriter (file w) (buffer w +:+ s), d))
  else
    let '(r, (w1, d1)) :=
      if buffer_capacity <? str_len (buffer w) + str_len s then writer_flush w d else (Ok tt, (w, d)) in
    match r with
    | Err e => (Err e, (w1, d1))
    | Ok _ =>
        if buffer_capacity <=? str_len s
        then match append_bytes (file w1) s d1 with
             | (Ok _, d2) => (Ok tt, (w1, d2))
             | (Err _, d2) => (Err "write error", (w1, d2))
             end
        else (Ok tt, (mkWriter (file w1) (buffer w1 +:+ s), d1))
    end.

(* ------------------------------------------------------------------ *)
(** ** The rotating file *)

Record FileSinkState : Type := mkFileState { writer : BufWriter; current_size : Z }.

Record FileSink : Type := mkFileSink {
  state : FileSinkState;
  path : string;
  max_size_bytes : Z;
  max_files : Z
}.

(** The operations work on the locked state and the disk. *)
Definition MF (A : Type) : Type := M (FileSinkState * disk) SinkError A.

Definition on_disk {A} (m : M disk SinkError A) : MF A := λ '(st, d), let '(r, d') := m d in (r, (st, d')).

Definition flush_writer (msg : string) : MF unit := λ '(st, d),
  let '(r, (w, d')) := writer_flush (writer st) d in
  (map_err (with_source msg) r, (mkFileState w (current_size st), d')).

Definition open_file (path : string) : M disk SinkError (nat * Z) :=
  file ← m_map_err (with_source ("failed to open audit log file: " +:+ path)) (open_append path);
  current_size ← file_len file;
  mret (file, current_size).

(** [parent] is the directory of the path, if it has one. *)
Definition FileSink_new (parent : option string) (path : string) (max_size_mb max_files : Z) : M disk SinkError FileSink :=
  _ ← match parent with
      | Some dir => m_map_err (with_source ("failed to create directory for audit log: " +:+ dir)) fs_create_dir_all
      | None => mret tt
      end;
  '(file, size) ← open_file path;
  mret (mkFileSink (mkFileState (mkWriter file "") size) path (wrap 64 (wrap 64 (max_size_mb * 1024) * 1024)) max_files).

Definition rotated_path (path : string) (n : Z) : string := path +:+ "." +:+ pretty n.

(** [if path.exists() { fs::rename(..)? }] *)
Definition shift (msg from to : string) : M disk SinkError unit := λ d,
  if fs_exists from d then m_map_err (with_source msg) (fs_rename from to) d else (Ok tt, d).

(** [for i in (1..max_files).rev()]: [n] is the number of turns left, [i = n]. *)
Fixpoint shift_rotated (path : string) (n : nat) : M disk SinkError unit :=
  match n with
  | O => mret tt
  | S n' =>
      let from := rotated_path path (Z.of_nat n) in
      let to := rotated_path path (Z.of_nat n + 1) in
      _ ← shift ("failed to rotate " +:+ from +:+ " → " +:+ to) from to;
      shift_rotated path n'
  end.

Definition remove_oldest (path : string) (max_files : Z) : M disk SinkError unit := λ d,
  let oldest := rotated_path path max_files in
  if fs_exists oldest d
  then m_map_err (with_source ("failed to remove oldest rotated file: " +:+ oldest)) (fs_remove_file oldest) d
  else (Ok tt, d).

Definition rotate (path : string) (max_files : Z) : MF unit :=
  _ ← flush_writer "failed to flush before rotation";
  _ ← on_disk (remove_oldest path max_files);
  _ ← on_disk (shift_rotated path (Z.to_nat (max_files - 1)));
  let first_rotated := rotated_path path 1 in
  _ ← on_disk (shift ("failed to rotate current file " +:+ path +:+ " → " +:+ first_rotated) path first_rotated);
  '(file, size) ← on_disk (open_file path);
  modify_st (λ '(_, d), (mkFileState (mkWriter file "") size, d)).

Definition write_line (line : string) : MF unit := λ '(st, d),
  let '(r, (w, d')) := writer_write_all line (writer st) d in
  match r with
  | Ok _ => (Ok tt, (mkFileState w (wrap 64 (current_size st + str_len line)), d'))
  | Err e => (Err (with_source "failed to write audit event to file" e), (mkFileState w (current_size st), d'))
  end.

Section file_sink.
Context `{EventJson}.

Definition send_line (path : string) (max_size_bytes max_files : Z) (line : string) : MF unit :=
  '(st, _) ← get_st;
  _ ← (if (max_size_bytes <? wrap 64 (current_size st + str_len line)) && (0 <? current_size st)
       then rotate path max_files else mret tt);
  write_line line.

Fixpoint send_events (path : string) (max_size_bytes max_files : Z) (events : list AuditEnvelope) : MF unit :=
  match events with
  | [] => mret tt
  | event :: events' =>
      json ← lift_res (map_err (with_source "failed to serialize audit event") (event_to_string event));
      _ ← send_line path max_size_bytes max_files (json +:+ nl);
      send_events path max_size_bytes max_files events'
  end.

Definition file_send_batch (path : string) (max_size_bytes max_files : Z) (events : list AuditEnvelope) : MF unit :=
  _ ← send_events path max_size_bytes max_files events;
  flush_writer "failed to flush audit log file".

Definition file_flush : MF unit := flush_writer "failed to flush audit log file".
End file_sink.

(* ------------------------------------------------------------------ *)
(** ** Standard output *)

(** What was written, and which of the coming writes fail. *)
Record stdout : Type := mkStdout { printed : string; print_plan : list bool }.

Definition print (s : string) : M stdout string unit := λ o,
  match print_plan o with
  | true :: rest => (Err "broken pipe", mkStdout (printed o) rest)
  | false :: rest => (Ok tt, mkStdout (printed o +:+ s) rest)
  | [] => (Ok tt, mkStdout (printed o +:+ s) [])
  end.

Fixpoint stdout_send_batch `{EventJson} (events : list AuditEnvelope) : M stdout SinkError unit :=
  match events with
  | [] => mret tt
  | event :: events' =>
      json ← lift_res (map_err (with_source "failed to serialize audit event") (event_to_string event));
      _ ← m_map_err (with_source "failed to write to stdout") (print (json +:+ nl));
      stdout_send_batch events'
  end.

Definition stdout_flush : M stdout SinkError unit := mret tt.

(* ------------------------------------------------------------------ *)
(** ** Buffered cloud sinks *)

(** The body the two sinks share: a limit and a request per chunk, over the state
    [C] of the cloud client. *)
Section buffered.
Context {C : Type} (max_batch_size : nat) (send_chunk : list AuditEnvelope → M C SinkError unit).

Fixpoint send_chunks (cs : list (list AuditEnvelope)) : M C SinkError unit :=
  match cs with
  | [] => mret tt
  | c :: cs' => _ ← send_chunk c; send_chunks cs'
  end.

(** The buffer is drained before anything is sent. *)
Definition flush_buffer : M (list AuditEnvelope * C) SinkError unit := λ '(buffer, c),
  if bool_decide (buffer = []) then (Ok tt, (buffer, c))
  else let '(r, c') := send_chunks (chunks (length buffer) max_batch_size buffer) c in (r, ([], c')).

Definition buffered_send_batch (events : list AuditEnvelope) : M (list AuditEnvelope * C) SinkError unit := λ '(buffer, c),
  let buffer := buffer ++ events in
  if (max_batch_size <=? length buffer)%nat then flush_buffer (buffer, c) else (Ok tt, (buffer, c)).
End buffered.

(** Firehose: [put_record_batch] answers with the number of records it refused,
    which the sink does not read. *)
Section kinesis.
Context `{EventJson} {C : Type} (put_record_batch : string → list string → M C string Z).

Definition KINESIS_MAX_BATCH_SIZE : nat := 500.

Definition kinesis_send_chunk (stream_name : string) (chunk : list AuditEnvelope) : M C SinkError unit :=
  records ← lift_res (try_map (λ event, map_err (with_source "failed to serialize audit event to JSON")
                                          (event_to_string event)) chunk);
  _ ← m_map_err (with_source ("PutRecordBatch failed for stream '" +:+ stream_name +:+ "'"))
        (put_record_batch stream_name records);
  mret tt.

Definition kinesis_sink (stream_name : string) (c : C) : Sink :=
  mkSink (list AuditEnvelope * C) ([], c)
    (buffered_send_batch KINESIS_MAX_BATCH_SIZE (kinesis_send_chunk stream_name))
    (flush_buffer KINESIS_MAX_BATCH_SIZE (kinesis_send_chunk stream_name)) "kinesis_firehose".
End kinesis.

Section pubsub.
Context `{EventJson} {C : Type} (base64_encode : string → string).
(** [client.post(url).json(&body).send()] *)
Context (post : string → json → M C string Http.Response).

Definition PUBSUB_MAX_BATCH_SIZE : nat := 1000.

Definition publish_url (project topic : string) : string :=
  "https://pubsub.googleapis.com/v1/projects/" +:+ project +:+ "/topics/" +:+ topic +:+ ":publish".

Definition pubsub_send_chunk (url : string) (chunk : list AuditEnvelope) : M C SinkError unit :=
  messages ← lift_res (try_map (λ event,
                 json_bytes ← map_err (with_source "failed to serialize audit event to JSON") (event_to_string event);
                 Ok (JObj [("data", JStr (base64_encode json_bytes))])) chunk);
  let body := JObj [("messages", JArr messages)] in
  response ← m_map_err (with_source ("Pub/Sub publish request failed for " +:+ url)) (post url body);
  lift_res (fail_if (negb (Http.is_success response))
              (sink_error ("Pub/Sub publish returned HTTP " +:+ Http.resp_status_text response +:+ ": " +:+
                           match Http.resp_text response with Ok t => t | Err _ => "" end))).

Definition pubsub_sink (project topic : string) (c : C) : Sink :=
  let url := publish_url project topic in
  mkSink (list AuditEnvelope * C) ([], c)
    (buffered_send_batch PUBSUB_MAX_BATCH_SIZE (pubsub_send_chunk url))
    (flush_buffer PUBSUB_MAX_BATCH_SIZE (pubsub_send_chunk url)) "gcp_pubsub".
End pubsub.

(* ------------------------------------------------------------------ *)
(** ** [build_sinks] *)

(** The sinks of a configuration; a file sink that cannot be opened is left out.
    [parent] is [Path::parent]. *)
Inductive BuiltSink : Type :=
| StdoutSink
| FileSinkBuilt (s : FileSink)
| KinesisFirehoseSink (stream_name region : string)
| GcpPubSubSink (publish_url : string).

Fixpoint build_sinks (parent : string → option string) (cfgs : list Config.SinkConfig) (d : disk) : list BuiltSink * disk :=
  match cfgs with
  | [] => ([], d)
  | cfg :: cfgs' =>
      let '(built, d1) :=
        match cfg with
        | Config.SinkStdout => ([StdoutSink], d)
        | Config.SinkFile path mb files =>
            match FileSink_new (parent path) path mb files d with
            | (Ok s, d1) => ([FileSinkBuilt s], d1)
            | (Err _, d1) => ([], d1)
            end
        | Config.SinkKinesisFirehose stream region => ([KinesisFirehoseSink stream region], d)
        | Config.SinkGcpPubSub project topic => ([GcpPubSubSink (publish_url project topic)], d)
        end in
      let '(rest, d2) := build_sinks parent cfgs' d1 in
      (built ++ rest, d2)
  end.

(* ------------------------------------------------------------------ *)
(** ** The rotating file keeps the end of the log *)

Definition file_at (d : disk) (p : string) : option string := names d !! p ≫= λ i, contents d !! i.

(** Every name has its own file, which exists. *)
Definition disk_ok (d : disk) : Prop :=
  (∀ p q i, names d !! p = Some i → names d !! q = Some i → p = q) ∧
  (∀ p i, names d !! p = Some i → is_Some (contents d !! i)).

Lemma io_ok {A} (m : M disk string A) d : plan d = [] → io m d = m d.
Proof. destruct d as [n c p]. cbn. by intros ->. Qed.

(** What is in the file and the buffer together. *)
Definition written (w : BufWriter) (d : disk) : string := default "" (contents d !! file w) +:+ buffer w.

Lemma writer_flush_ok w d :
  plan d = [] → is_Some (contents d !! file w) →
  writer_flush w d = (Ok tt, (mkWriter (file w) "", mkDisk (names d) (<[file w := written w d]> (contents d)) [])).
Proof.
  destruct d as [n c p], w as [i b]. cbn. intros -> [t Ht]. unfold writer_flush, written. cbn. rewrite Ht. cbn.
  unfold Str.is_empty. case_bool_decide as Hb; [subst b; by rewrite app_empty_r, insert_id|].
  f_equal. f_equal. f_equal. apply map_eq. intros j. destruct (decide (j = i)) as [->|].
  - by rewrite lookup_alter_eq, lookup_insert_eq, Ht.
  - by rewrite lookup_alter_ne, lookup_insert_ne.
Qed.

Lemma append_ok i t d :
  plan d = [] → append_bytes i t d = (Ok tt, mkDisk (names d) (alter (λ c, c +:+ t) i (contents d)) []).
Proof. destruct d as [n c p]. cbn. by intros ->. Qed.

(** Writing adds the text at the end, in the buffer or in the file. *)
Lemma writer_write_all_ok t w d :
  plan d = [] → is_Some (contents d !! file w) →
  ∃ w' c', writer_write_all t w d = (Ok tt, (w', mkDisk (names d) c' [])) ∧ file w' = file w ∧
    is_Some (c' !! file w) ∧ (∀ j, j ≠ file w → c' !! j = contents d !! j) ∧
    default "" (c' !! file w) +:+ buffer w' = written w d +:+ t.
Proof.
  intros Hp Hc. unfold writer_write_all.
  assert (d = mkDisk (names d) (contents d) []) as Hd by (destruct d; cbn in Hp; by subst).
  destruct (_ <? buffer_capacity).
  { exists (mkWriter (file w) (buffer w +:+ t)), (contents d). rewrite <- Hd. split_and!; try done.
    apply str_app_assoc. }
  set (flushed := if buffer_capacity <? _ then _ else _).
  assert (∃ w1 c1, flushed = (Ok tt, (w1, mkDisk (names d) c1 [])) ∧ file w1 = file w ∧ is_Some (c1 !! file w) ∧
            (∀ j, j ≠ file w → c1 !! j = contents d !! j) ∧ default "" (c1 !! file w) +:+ buffer w1 = written w d ∧
            (buffer_capacity ≤ str_len t → buffer w1 = ""))
    as (w1 & c1 & -> & Hf & Hin & Hne & Hw & Hempty).
  { unfold flushed. destruct (Z.ltb_spec buffer_capacity (str_len (buffer w) + str_len t)).
    - rewrite writer_flush_ok by done. eexists _, _. split; [done|]. cbn. rewrite lookup_insert_eq. cbn.
      split_and!; [done|done|by intros; rewrite lookup_insert_ne|by rewrite app_empty_r|done].
    - exists w, (contents d). rewrite <- Hd. split_and!; try done. intros. unfold str_len in *.
      destruct (buffer w); [done|cbn [String.length] in *; lia]. }
  destruct (Z.leb_spec buffer_capacity (str_len t)).
  - rewrite append_ok by done. eexists w1, _. split; [done|]. cbn. rewrite Hf. destruct Hin as [x Hx].
    rewrite lookup_alter_eq, Hx. cbn. rewrite Hx, Hempty, app_empty_r in Hw by done. cbn in Hw. subst x.
    split_and!; [done|done| |by rewrite Hempty, app_empty_r].
    intros j Hj. rewrite lookup_alter_ne by done. by apply Hne.
  - eexists _, c1. split; [done|]. cbn. rewrite Hf. split_and!; try done. by rewrite str_app_assoc, Hw.
Qed.

Lemma rotated_path_ne p k : rotated_path p k ≠ p.
Proof.
  intros H%(f_equal String.length). unfold rotated_path in H. rewrite !str_length_app in H. cbn in H. lia.
Qed.

Lemma rotated_path_inj p k k' : rotated_path p k = rotated_path p k' → k = k'.
Proof. unfold rotated_path. intros H. by simplify_eq. Qed.

(** A rename onto a free name; nothing happens when there is no file to rename. *)
Lemma shift_ok msg from to d :
  plan d = [] → disk_ok d → names d !! to = None → from ≠ to →
  ∃ d', shift msg from to d = (Ok tt, d') ∧ plan d' = [] ∧ disk_ok d' ∧ contents d' = contents d ∧
    names d' !! to = names d !! from ∧ names d' !! from = None ∧
    (∀ p, p ≠ from → p ≠ to → names d' !! p = names d !! p).
Proof.
  intros Hp [Hinj Hdom] Hto Hne. unfold shift, fs_exists.
  destruct (names d !! from) as [i|] eqn:Hf.
  - rewrite bool_decide_eq_true_2 by eauto. unfold m_map_err, fs_rename. rewrite io_ok, Hf by done.
    eexists. split; [reflexivity|]. cbn. split_and!; try done; [split; cbn| | |].
    + intros p q j. destruct (decide (p = to)) as [->|], (decide (q = to)) as [->|]; rewrite ?lookup_insert_eq, ?lookup_insert_ne by done;
        try done; rewrite !lookup_delete_Some; [intros [= ->] [? Hq]|intros [? Hq] [= ->]|intros [? Hq] [? Hq']].
      * by destruct (Hinj _ _ _ Hf Hq).
      * by destruct (Hinj _ _ _ Hf Hq).
      * by eapply Hinj.
    + intros p j. destruct (decide (p = to)) as [->|]; rewrite ?lookup_insert_eq, ?lookup_insert_ne by done.
      * intros [= ->]. by eapply Hdom.
      * intros [_ ?]%lookup_delete_Some. by eapply Hdom.
    + by rewrite lookup_insert_eq.
    + rewrite lookup_insert_ne by done. apply lookup_delete_eq.
    + intros p ? ?. by rewrite lookup_insert_ne, lookup_delete_ne.
  - rewrite bool_decide_eq_false_2 by (intros [? ?]; done). exists d. by split_and!.
Qed.

Lemma shift_rotated_ok path n d :
  plan d = [] → disk_ok d → names d !! rotated_path path (Z.of_nat n + 1) = None →
  ∃ d', shift_rotated path n d = (Ok tt, d') ∧ plan d' = [] ∧ disk_ok d' ∧ contents d' = contents d ∧
    names d' !! rotated_path path 1 = None ∧
    (∀ k, 1 ≤ k ≤ Z.of_nat n → names d' !! rotated_path path (k + 1) = names d !! rotated_path path k) ∧
    (∀ p, (∀ k, 1 ≤ k ≤ Z.of_nat n + 1 → p ≠ rotated_path path k) → names d' !! p = names d !! p).
Proof.
  revert d. induction n as [|n IH]; intros d Hp Hd Hfree.
  { exists d. split_and!; try done. intros k Hk. lia. }
  cbn [shift_rotated]. unfold mbind, M_bind.
  destruct (shift_ok ("failed to rotate " +:+ rotated_path path (Z.of_nat (S n)) +:+ " → " +:+
      rotated_path path (Z.of_nat (S n) + 1)) (rotated_path path (Z.of_nat (S n)))
      (rotated_path path (Z.of_nat (S n) + 1)) d Hp Hd Hfree ltac:(intros ?%rotated_path_inj; lia))
    as (d1 & -> & Hp1 & Hd1 & Hc1 & Hto & Hfrom & Hother).
  destruct (IH d1 Hp1 Hd1) as (d2 & -> & Hp2 & Hd2 & Hc2 & H1 & Hk2 & Hother2).
  { by replace (Z.of_nat n + 1) with (Z.of_nat (S n)) by lia. }
  exists d2. split_and!; try done; [congruence|..].
  - intros k Hk. destruct (decide (k = Z.of_nat (S n))) as [->|].
    + rewrite Hother2, Hto; [done|]. intros k' Hk' ?%rotated_path_inj. lia.
    + rewrite Hk2 by lia. apply Hother; intros ?%rotated_path_inj; lia.
  - intros p Hp'. rewrite Hother2; [apply Hother; apply Hp'; lia|]. intros k Hk. apply Hp'. lia.
Qed.

Lemma remove_oldest_ok path n d :
  plan d = [] → disk_ok d →
  ∃ d', remove_oldest path n d = (Ok tt, d') ∧ plan d' = [] ∧ disk_ok d' ∧ contents d' = contents d ∧
    names d' = delete (rotated_path path n) (names d).
Proof.
  intros Hp [Hinj Hdom]. unfold remove_oldest, fs_exists. case_bool_decide as He.
  - destruct He as [i Hi]. unfold m_map_err, fs_remove_file. rewrite io_ok, Hi by done. eexists. split; [reflexivity|].
    cbn. split_and!; try done. split; cbn; [intros p q j [_ ?]%lookup_delete_Some [_ ?]%lookup_delete_Some; eauto|].
    intros p j [_ ?]%lookup_delete_Some. eauto.
  - exists d. split_and!; try done. rewrite delete_id; [done|]. by apply eq_None_not_Some.
Qed.

(** Opening a name that is free creates an empty file, and changes no other. *)
Lemma open_file_new path d :
  plan d = [] → disk_ok d → names d !! path = None →
  ∃ i d', open_file path d = (Ok (i, 0), d') ∧ plan d' = [] ∧ disk_ok d' ∧ names d' !! path = Some i ∧
    contents d' !! i = Some "" ∧ (∀ p, p ≠ path → file_at d' p = file_at d p).
Proof.
  intros Hp [Hinj Hdom] Hn. unfold open_file, mbind, M_bind, m_map_err, open_append. rewrite io_ok, Hn by done. cbn.
  unfold file_len. rewrite io_ok by done. cbn. rewrite lookup_insert_eq. cbn. rewrite Hp.
  set (i := fresh _). assert (contents d !! i = None) as Hi by apply not_elem_of_dom, is_fresh.
  eexists i, _. split; [reflexivity|]. cbn. rewrite !lookup_insert_eq. split_and!; try done; [split; cbn|].
  - intros p q j. destruct (decide (p = path)) as [->|], (decide (q = path)) as [->|];
      rewrite ?lookup_insert_eq, ?lookup_insert_ne by done; try done; [intros [= <-] Hq|intros Hq [= <-]|apply Hinj];
      destruct (Hdom _ _ Hq) as [? ?]; congruence.
  - intros p j. destruct (decide (p = path)) as [->|]; rewrite ?lookup_insert_eq, ?lookup_insert_ne by done;
      [intros [= <-]; by rewrite lookup_insert_eq|].
    intros Hq. destruct (decide (j = i)) as [->|]; [by rewrite lookup_insert_eq|rewrite lookup_insert_ne by done; eauto].
  - intros p Hne. unfold file_at. cbn. rewrite lookup_insert_ne by done.
    destruct (names d !! p) as [j|] eqn:Hj; [|done]. cbn. destruct (Hdom _ _ Hj) as [? ?].
    rewrite lookup_insert_ne; [done|]. intros ->. congruence.
Qed.

(** The sink and the disk hold these texts: the current file with what is buffered,
    then the rotated files, newest first. *)
Record holds (path : string) (n : Z) (st : FileSinkState) (d : disk) (cur : string) (rot : list string) : Prop := {
  ho_plan : plan d = [];
  ho_disk : disk_ok d;
  ho_name : names d !! path = Some (file (writer st));
  ho_text : written (writer st) d = cur;
  ho_size : current_size st = str_len cur;
  ho_rot : ∀ k, 1 ≤ k ≤ n → file_at d (rotated_path path k) = rot !! Z.to_nat (k - 1);
  ho_len : Z.of_nat (length rot) ≤ n
}.

Lemma holds_contents path n st d cur rot : holds path n st d cur rot → is_Some (contents d !! file (writer st)).
Proof. intros [_ [_ Hd] Hn _ _ _ _]. by eapply Hd. Qed.

(** Only the current file changes. *)
Lemma file_at_other path st d c' p :
  disk_ok d → names d !! path = Some (file (writer st)) → p ≠ path →
  (∀ j, j ≠ file (writer st) → c' !! j = contents d !! j) →
  file_at (mkDisk (names d) c' []) p = file_at d p.
Proof.
  intros [Hinj _] Hn Hp Hc. unfold file_at. cbn. destruct (names d !! p) as [j|] eqn:Hj; [|done]. cbn.
  apply Hc. intros ->. apply Hp. by eapply Hinj.
Qed.

Lemma disk_ok_contents d c' :
  disk_ok d → (∀ i, is_Some (contents d !! i) → is_Some (c' !! i)) → disk_ok (mkDisk (names d) c' []).
Proof. intros [Hinj Hdom] Hc. split; cbn; [done|]. eauto. Qed.

Lemma flush_holds path n st d cur rot msg :
  holds path n st d cur rot →
  ∃ st' d', flush_writer msg (st, d) = (Ok tt, (st', d')) ∧ holds path n st' d' cur rot ∧
    buffer (writer st') = "" ∧ names d' = names d.
Proof.
  intros Hh. pose proof (holds_contents _ _ _ _ _ _ Hh) as Hin. destruct Hh as [Hp Hd Hn Ht Hs Hr Hl].
  unfold flush_writer. rewrite writer_flush_ok by done. eexists _, _. split; [reflexivity|]. rewrite Ht.
  split; [|done]. split; cbn; try done.
  - apply disk_ok_contents; [done|]. intros i Hi. destruct (decide (i = file (writer st))) as [->|];
      [by rewrite lookup_insert_eq|by rewrite lookup_insert_ne].
  - unfold written. cbn. rewrite lookup_insert_eq. cbn. apply app_empty_r.
  - intros k Hk. rewrite <- Hr by done. apply (file_at_other path st); try done; [apply rotated_path_ne|].
    intros j Hj. by rewrite lookup_insert_ne.
Qed.

Lemma write_line_holds path n st d cur rot line :
  holds path n st d cur rot → str_len (cur +:+ line) < 2 ^ 64 →
  ∃ st' d', write_line line (st, d) = (Ok tt, (st', d')) ∧ holds path n st' d' (cur +:+ line) rot.
Proof.
  intros Hh Hmax. pose proof (holds_contents _ _ _ _ _ _ Hh) as Hin. destruct Hh as [Hp Hd Hn Ht Hs Hr Hl].
  destruct (writer_write_all_ok line (writer st) d Hp Hin) as (w' & c' & Hw & Hf & Hin' & Hother & Htext).
  unfold write_line. rewrite Hw. eexists _, _. split; [reflexivity|]. split; cbn; try done.
  - apply disk_ok_contents; [done|]. intros i Hi. destruct (decide (i = file (writer st))) as [->|]; [done|].
    by rewrite Hother.
  - by rewrite Hf.
  - unfold written. cbn. by rewrite Hf, Htext, Ht.
  - rewrite Hs. unfold str_len in *. rewrite str_length_app in *. unfold wrap. rewrite Z.mod_small; lia.
  - intros k Hk. rewrite <- Hr by done. apply (file_at_other path st); try done. apply rotated_path_ne.
Qed.

Lemma rotate_holds path n st d cur rot :
  1 ≤ n → holds path n st d cur rot →
  ∃ st' d', rotate path n (st, d) = (Ok tt, (st', d')) ∧
    holds path n st' d' "" (take (Z.to_nat n) (cur :: rot)).
Proof.
  intros Hn1 Hh. unfold rotate, mbind, M_bind.
  destruct (flush_holds path n st d cur rot "failed to flush before rotation" Hh)
    as (st1 & d1 & -> & Hh1 & Hbuf & _). destruct Hh1 as [Hp Hd Hn Ht Hs Hr Hl]. clear Hh.
  unfold on_disk. destruct (remove_oldest_ok path n d1 Hp Hd) as (d2 & -> & Hp2 & Hd2 & Hc2 & Hn2).
  destruct (shift_rotated_ok path (Z.to_nat (n - 1)) d2 Hp2 Hd2) as (d3 & -> & Hp3 & Hd3 & Hc3 & Hfree & Hk3 & Hother3).
  { rewrite Z2Nat.id by lia. replace (n - 1 + 1) with n by lia. rewrite Hn2. apply lookup_delete_eq. }
  rewrite Z2Nat.id in Hk3, Hother3 by lia. replace (n - 1 + 1) with n in Hother3 by lia.
  destruct (shift_ok ("failed to rotate current file " +:+ path +:+ " → " +:+ rotated_path path 1) path
      (rotated_path path 1) d3 Hp3 Hd3 Hfree ltac:(intros H; symmetry in H; by apply rotated_path_ne in H))
    as (d4 & -> & Hp4 & Hd4 & Hc4 & Hto & Hfrom & Hother4).
  destruct (open_file_new path d4 Hp4 Hd4 Hfrom) as (i & d5 & -> & Hp5 & Hd5 & Hn5 & Hc5 & Hother5). unfold modify_st.
  eexists _, _. split; [reflexivity|].
  assert (contents d4 = contents d1) as Hc by congruence.
  assert (file_at d4 (rotated_path path 1) = file_at d1 path) as H1.
  { unfold file_at. rewrite Hc, Hto, Hother3, Hn2, lookup_delete_ne; [done|apply rotated_path_ne|].
    intros k _ H'. symmetry in H'. by apply rotated_path_ne in H'. }
  assert (∀ k, 1 ≤ k ≤ n - 1 → file_at d4 (rotated_path path (k + 1)) = file_at d1 (rotated_path path k)) as Hk.
  { intros k Hk. unfold file_at. rewrite Hc, Hother4, Hk3, Hn2, lookup_delete_ne; try done;
      [intros ?%rotated_path_inj; lia|apply rotated_path_ne|intros ?%rotated_path_inj; lia]. }
  split; cbn; try done; [by unfold written; cbn; rewrite Hc5| |rewrite length_take; lia].
  intros k Hk'. rewrite Hother5 by apply rotated_path_ne. rewrite lookup_take_lt by lia.
  destruct (decide (k = 1)) as [->|].
  - rewrite H1. unfold file_at. rewrite Hn. cbn. unfold written in Ht. rewrite Hbuf, app_empty_r in Ht.
    destruct Hd as [_ Hdom]. destruct (Hdom _ _ Hn) as [t Hct]. rewrite Hct in Ht |- *. cbn in Ht. by subst.
  - replace (Z.to_nat (k - 1)) with (S (Z.to_nat (k - 1 - 1))) by lia. cbn [lookup].
    specialize (Hk (k - 1) ltac:(lia)). replace (k - 1 + 1) with k in Hk by lia. rewrite Hk.
    apply (Hr (k - 1)). lia.
Qed.

(* ------------------------------------------------------------------ *)
(** ** The log as a list of texts *)

Definition text (l : list string) : string := foldr String.append "" l.

(** What a sink keeps: the current text and the rotated ones, newest first. *)
Definition abs_line (max n : Z) (s : string * list string) (line : string) : string * list string :=
  let '(cur, rot) := s in
  if (max <? str_len cur + str_len line) && (0 <? str_len cur)
  then (line, take (Z.to_nat n) (cur :: rot)) else (cur +:+ line, rot).

Lemma text_app l k : text (l ++ k) = text l +:+ text k.
Proof.
  induction l as [|x l IH]; [done|]. change (x +:+ text (l ++ k) = (x +:+ text l) +:+ text k).
  by rewrite IH, str_app_assoc.
Qed.

Lemma str_len_app s t : str_len (s +:+ t) = str_len s + str_len t.
Proof. unfold str_len. rewrite str_length_app. lia. Qed.

Lemma str_len_nonneg s : 0 ≤ str_len s.
Proof. unfold str_len. lia. Qed.

(** A log cut into files, the newest first, as the rotation does it: a file is begun only
    with a line that had no room in the one before, which has a line at least. *)
Fixpoint cut_when_full (max : Z) (files : list (list string)) : Prop :=
  match files with
  | newer :: ((older :: _) as rest) =>
      older ≠ [] ∧ (∃ x l, newer = x :: l ∧ max < str_len (text older) + str_len x) ∧ cut_when_full max rest
  | _ => True
  end.

(** The files that hold [lines]: [kept] are there, newest first, [gone] have been removed;
    files are removed only while [n] rotated ones are kept, and none exceeds the limit with
    more than a line. *)
Definition log_files (max n : Z) (lines : list string) (kept gone : list (list string)) : Prop :=
  concat (reverse (kept ++ gone)) = lines ∧ 1 ≤ Z.of_nat (length kept) ≤ n + 1 ∧
  (gone ≠ [] → Z.of_nat (length kept) = n + 1) ∧ cut_when_full max (kept ++ gone) ∧
  Forall (λ f, (length f ≤ 1)%nat ∨ str_len (text f) ≤ max) (kept ++ gone).

Lemma text_empty l : Forall (λ x, 0 < str_len x) l → str_len (text l) = 0 → l = [].
Proof.
  destruct l as [|x k]; [done|]. intros [Hx _]%Forall_cons.
  cbn [text foldr]. fold (text k). rewrite str_len_app. pose proof (str_len_nonneg (text k)). lia.
Qed.

Lemma abs_line_files max n lines line kept gone :
  1 ≤ n → Forall (λ x, 0 < str_len x) lines → log_files max n lines kept gone →
  ∀ s, s.1 :: s.2 = text <$> kept →
  ∃ kept' gone', log_files max n (lines ++ [line]) kept' gone' ∧
    (abs_line max n s line).1 :: (abs_line max n s line).2 = text <$> kept'.
Proof.
  intros Hn Hpos (Hlines & Hlen & Hfull & Hcut & Hsize) [cur rot] Hs. cbn [fst snd] in Hs.
  destruct kept as [|f kept]; [done|]. cbn [fmap list_fmap] in Hs. injection Hs as -> ->.
  cbn [app] in Hlines. rewrite reverse_cons, concat_app in Hlines. cbn in Hlines. rewrite app_nil_r in Hlines.
  assert (Forall (λ x, 0 < str_len x) f) as Hf by (rewrite <-Hlines in Hpos; by apply Forall_app in Hpos as [_ ?]).
  unfold abs_line. destruct (_ && _) eqn:Hc; cbn [fst snd].
  - apply andb_true_iff in Hc as [Hmax%Z.ltb_lt Hne%Z.ltb_lt].
    exists ([line] :: take (Z.to_nat n) (f :: kept)), (drop (Z.to_nat n) (f :: kept) ++ gone).
    assert (([line] :: take (Z.to_nat n) (f :: kept)) ++ drop (Z.to_nat n) (f :: kept) ++ gone = [line] :: f :: kept ++ gone) as Heq.
    { cbn [app]. rewrite app_assoc, take_drop. done. }
    split.
    2:{ change (line :: take (Z.to_nat n) (text <$> f :: kept) = text [line] :: (text <$> take (Z.to_nat n) (f :: kept))).
        rewrite fmap_take. cbn [text foldr]. by rewrite app_empty_r. }
    unfold log_files. rewrite Heq. cbn [length] in Hlen. split_and!.
    + rewrite reverse_cons, concat_app, reverse_cons, concat_app. cbn. by rewrite !app_nil_r, Hlines.
    + cbn [length]. lia.
    + cbn [length]. rewrite length_take. lia.
    + intros Hg. cbn [length]. rewrite length_take. cbn [length] in *.
      destruct (decide (gone = [])) as [->|Hg']; [|specialize (Hfull Hg'); lia].
      rewrite app_nil_r in Hg. destruct (decide (length (f :: kept) ≤ Z.to_nat n)%nat) as [Hle|Hgt].
      * by rewrite drop_ge in Hg.
      * cbn [length] in Hgt. lia.
    + cbn [cut_when_full]. split; [|split; [by exists line, []|exact Hcut]]. intros ->. cbn in Hne. change (str_len "") with 0 in Hne. lia.
    + constructor; [by left|exact Hsize].
  - exists ((f ++ [line]) :: kept), gone. split.
    2:{ cbn. by rewrite text_app; cbn; rewrite app_empty_r. }
    unfold log_files. cbn [app length] in *. split_and!; [|lia|lia|done| |].
    + rewrite reverse_cons, concat_app. cbn. by rewrite app_nil_r, app_assoc, Hlines.
    + destruct (kept ++ gone) as [|g rest] eqn:Hk; [done|]. cbn [cut_when_full] in *. destruct Hcut as (Hg & (x & l & -> & Hx) & Hr).
      split; [done|]. split; [|done]. by exists x, (l ++ [line]).
    + apply Forall_cons in Hsize as [_ Hsize]. constructor; [|done]. apply andb_false_iff in Hc as [Hc%Z.ltb_ge|Hc%Z.ltb_ge].
      * right. by rewrite text_app, str_len_app; cbn; rewrite app_empty_r.
      * left. rewrite (text_empty f Hf); [done|]. pose proof (str_len_nonneg (text f)). lia.
Qed.

Lemma abs_lines_files max n : 1 ≤ n → ∀ lines done kept gone s,
  Forall (λ x, 0 < str_len x) (done ++ lines) → log_files max n done kept gone → s.1 :: s.2 = text <$> kept →
  ∃ kept' gone', log_files max n (done ++ lines) kept' gone' ∧
    (foldl (abs_line max n) s lines).1 :: (foldl (abs_line max n) s lines).2 = text <$> kept'.
Proof.
  intros Hn. induction lines as [|line lines IH]; intros done kept gone s Hpos Hl Hs; [rewrite app_nil_r; eauto|].
  apply Forall_app in Hpos as [Hd Hpos]. destruct (abs_line_files max n done line kept gone Hn Hd Hl s Hs) as (k' & g' & Hl' & Hs').
  cbn [foldl]. destruct (IH (done ++ [line]) k' g' (abs_line max n s line)) as (k & g & Hk); [|done|done|].
  - rewrite <-app_assoc. by apply Forall_app.
  - exists k, g. by rewrite <-app_assoc in Hk.
Qed.

Section refinement.
Context `{EventJson}.

Definition event_line (e : AuditEnvelope) (line : string) : Prop :=
  ∃ json, event_to_string e = Ok json ∧ line = json +:+ nl.

Lemma send_line_holds path max n st d s line :
  1 ≤ n → holds path n st d s.1 s.2 → str_len s.1 + str_len line < 2 ^ 64 →
  ∃ st' d', send_line path max n line (st, d) = (Ok tt, (st', d')) ∧
    holds path n st' d' (abs_line max n s line).1 (abs_line max n s line).2.
Proof.
  destruct s as [cur rot]. cbn [fst snd]. intros Hn Hh Hmax. unfold send_line, mbind, M_bind, get_st.
  pose proof (str_len_nonneg cur). pose proof (str_len_nonneg line).
  rewrite (ho_size _ _ _ _ _ _ Hh). unfold wrap. rewrite Z.mod_small by lia. unfold abs_line.
  destruct (_ && _).
  - destruct (rotate_holds path n st d cur rot Hn Hh) as (st1 & d1 & -> & Hh1).
    apply (write_line_holds path n st1 d1 "" _ line Hh1). rewrite str_len_app. change (str_len "") with 0. lia.
  - apply (write_line_holds path n st d cur rot line Hh). by rewrite str_len_app.
Qed.

Lemma abs_line_len max n s line : str_len (abs_line max n s line).1 ≤ str_len s.1 + str_len line.
Proof.
  destruct s as [cur rot]. unfold abs_line. pose proof (str_len_nonneg cur).
  destruct (_ && _); cbn [fst]; rewrite ?str_len_app; lia.
Qed.

Lemma send_events_holds path max n events lines st d s :
  1 ≤ n → Forall2 event_line events lines → holds path n st d s.1 s.2 → str_len s.1 + str_len (text lines) < 2 ^ 64 →
  ∃ st' d', send_events path max n events (st, d) = (Ok tt, (st', d')) ∧
    holds path n st' d' (foldl (abs_line max n) s lines).1 (foldl (abs_line max n) s lines).2.
Proof.
  intros Hn Hl. revert st d s. induction Hl as [|e line events lines (json & Hj & Heq) Hl IH]; intros st d s Hh Hmax.
  { by exists st, d. }
  cbn [text foldr] in Hmax. fold (text lines) in Hmax. rewrite str_len_app in Hmax.
  pose proof (str_len_nonneg (text lines)).
  cbn [send_events foldl]. unfold mbind, M_bind, lift_res. rewrite Hj. cbn [map_err]. rewrite <- Heq.
  destruct (send_line_holds path max n st d s line Hn Hh ltac:(lia)) as (st1 & d1 & -> & Hh1).
  apply IH; [done|]. pose proof (abs_line_len max n s line). lia.
Qed.

(** A run of batches; it stops at the first error. *)
Definition send_batches (path : string) (max n : Z) (batches : list (list AuditEnvelope)) : MF unit :=
  foldr (λ b k, _ ← file_send_batch path max n b; k) (mret tt) batches.

Lemma send_batches_holds path max n batches lines st d s :
  1 ≤ n → Forall2 event_line (concat batches) lines → holds path n st d s.1 s.2 → buffer (writer st) = "" →
  str_len s.1 + str_len (text lines) < 2 ^ 64 →
  ∃ st' d', send_batches path max n batches (st, d) = (Ok tt, (st', d')) ∧ buffer (writer st') = "" ∧
    holds path n st' d' (foldl (abs_line max n) s lines).1 (foldl (abs_line max n) s lines).2.
Proof.
  intros Hn. revert lines st d s. induction batches as [|b batches IH]; intros lines st d s Hl Hh Hb Hmax.
  { apply Forall2_nil_inv_l in Hl as ->. by exists st, d. }
  cbn in Hl. apply Forall2_app_inv_l in Hl as (l1 & l2 & H1 & H2 & ->). rewrite text_app, str_len_app in Hmax.
  pose proof (str_len_nonneg (text l2)). cbn [send_batches foldr]. unfold mbind, M_bind, file_send_batch.
  destruct (send_events_holds path max n b l1 st d s Hn H1 Hh ltac:(lia)) as (st1 & d1 & E & Hh1).
  unfold mbind, M_bind. rewrite E.
  destruct (flush_holds _ _ _ _ _ _ "failed to flush audit log file" Hh1) as (st2 & d2 & -> & Hh2 & Hb2 & _).
  rewrite foldl_app. apply IH; try done.
  enough (str_len (foldl (abs_line max n) s l1).1 ≤ str_len s.1 + str_len (text l1)) by lia.
  clear. revert s. induction l1 as [|l l1 IH]; intros s; cbn; [change (str_len "") with 0; lia|].
  specialize (IH (abs_line max n s l)). pose proof (abs_line_len max n s l). rewrite str_len_app. fold (text l1). lia.
Qed.

Lemma event_lines_pos events lines : Forall2 event_line events lines → Forall (λ x, 0 < str_len x) lines.
Proof.
  induction 1 as [|e x events lines (json & _ & ->) _ IH]; constructor; [|done]. rewrite str_len_app. pose proof (str_len_nonneg json).
  change (str_len nl) with 1. lia.
Qed.

(** C22: without i/o errors a rotating file of at least one rotated file ([max_files] is
    not zero) keeps the end of the audit log.  After any batches sent to a new sink whose
    files were not there, the lines of the batches, complete and in order, are cut into
    files: the current file and the rotated ones hold the newest of them, and older files
    have been removed only if [max_files] rotated ones are kept.  A file is begun only with
    a line that did not fit into the one before, and exceeds the size limit only if it is
    a single line. *)
Theorem file_sink_keeps_log parent path mb n d0 batches lines :
  1 ≤ n → plan d0 = [] → disk_ok d0 → names d0 !! path = None →
  (∀ k, 1 ≤ k ≤ n → names d0 !! rotated_path path k = None) →
  Forall2 event_line (concat batches) lines → str_len (text lines) < 2 ^ 64 →
  ∃ sink d1 st d cur rot, FileSink_new parent path mb n d0 = (Ok sink, d1) ∧
    send_batches path (max_size_bytes sink) n batches (state sink, d1) = (Ok tt, (st, d)) ∧
    file_at d path = Some cur ∧
    (∀ k, 1 ≤ k ≤ n → file_at d (rotated_path path k) = rot !! Z.to_nat (k - 1)) ∧
    ∃ kept gone, log_files (max_size_bytes sink) n lines kept gone ∧ cur :: rot = text <$> kept.
Proof.
  intros Hn Hp Hd Hpath Hrot Hl Hmax. unfold FileSink_new, mbind, M_bind.
  destruct (open_file_new path d0 Hp Hd Hpath) as (i & d1 & Hopen & Hp1 & Hd1 & Hn1 & Hc1 & Hother).
  set (max := wrap 64 (wrap 64 (mb * 1024) * 1024)).
  set (st0 := mkFileState (mkWriter i "") 0).
  assert (holds path n st0 d1 "" []) as Hh.
  { split; try done; [by unfold written; cbn; rewrite Hc1| |cbn; lia].
    intros k Hk. rewrite Hother by apply rotated_path_ne. unfold file_at. by rewrite Hrot. }
  destruct (send_batches_holds path max n batches lines st0 d1 ("", []) Hn Hl Hh eq_refl Hmax)
    as (st & d & Hs & Hb & Hf).
  destruct (abs_lines_files max n Hn lines [] [[]] [] ("", [])) as (kept & gone & Hk & Htext).
  { by eapply event_lines_pos. }
  { split_and!; [done|cbn; lia..|done|done|by repeat constructor; left; cbn; lia]. }
  { done. }
  destruct (foldl (abs_line max n) ("", []) lines) as [cur rot]. cbn [fst snd] in Hf, Htext.
  exists (mkFileSink st0 path max n), d1, st, d, cur, rot. split_and!; [|done| |apply Hf|by exists kept, gone].
  - unfold m_map_err, fs_create_dir_all, mret, M_ret.
    destruct parent; [rewrite io_ok by done|]; cbn [map_err]; by rewrite Hopen.
  - destruct Hf as [_ [_ Hdom] Hname Ht _ _ _]. unfold file_at. rewrite Hname. cbn.
    unfold written in Ht. rewrite Hb, app_empty_r in Ht. destruct (Hdom _ _ Hname) as [t Hct].
    rewrite Hct in Ht |- *. cbn in Ht. by subst.
Qed.

End refinement.

(* ------------------------------------------------------------------ *)
(** ** Buffered sinks hand over every event once *)

Section exactly_once.
Context {C : Type} (max : nat) (send : list AuditEnvelope → M C SinkError unit).

(** The client with a record of the requests it accepted. *)
Definition recorded (chunk : list AuditEnvelope) : M (C * list (list AuditEnvelope)) SinkError unit := λ '(c, log),
  match send chunk c with
  | (Ok _, c') => (Ok tt, (c', log ++ [chunk]))
  | (Err e, c') => (Err e, (c', log))
  end.

Lemma send_chunks_ok cs c log u c' log' :
  send_chunks recorded cs (c, log) = (Ok u, (c', log')) → log' = log ++ cs.
Proof.
  revert c log. induction cs as [|ch cs IH]; intros c log; cbn [send_chunks]; [intros [= _ _ <-]; by rewrite app_nil_r|].
  intros [(a & [c1 log1] & Hr & Hrest)|(e & _ & ?)]%M_bind_inv; [|done]. unfold recorded in Hr.
  destruct (send ch c) as [[v|e] c2]; [|done]. injection Hr as _ <- <-.
  apply IH in Hrest as ->. by rewrite <- app_assoc.
Qed.

Inductive call : Type := CallSend (events : list AuditEnvelope) | CallFlush.

Definition run_call (k : call) : M (list AuditEnvelope * (C * list (list AuditEnvelope))) SinkError unit :=
  match k with
  | CallSend events => buffered_send_batch max recorded events
  | CallFlush => flush_buffer max recorded
  end.

Definition sent (k : call) : list AuditEnvelope := match k with CallSend events => events | CallFlush => [] end.

Fixpoint run_calls (ks : list call) : M (list AuditEnvelope * (C * list (list AuditEnvelope))) SinkError unit :=
  match ks with [] => mret tt | k :: ks' => _ ← run_call k; run_calls ks' end.

Lemma flush_buffer_ok buf c log u buf' c' log' :
  (0 < max)%nat → flush_buffer max recorded (buf, (c, log)) = (Ok u, (buf', (c', log'))) →
  buf' = [] ∧ concat log' = concat log ++ buf ∧
  (Forall (λ ch, length ch ≤ max)%nat log → Forall (λ ch, length ch ≤ max)%nat log').
Proof.
  intros Hmax. unfold flush_buffer. case_bool_decide as Hb.
  { intros [= _ <- _ <-]. subst buf. by rewrite app_nil_r. }
  destruct (send_chunks _ _ _) as [[v|e] [c1 log1]] eqn:E; [|done]. intros [= _ <- _ <-].
  apply send_chunks_ok in E as ->. rewrite concat_app, chunks_concat by lia. split_and!; [done|done|].
  intros Hl. apply Forall_app. split; [done|apply chunks_bound].
Qed.

Lemma run_call_ok k buf c log u buf' c' log' :
  (0 < max)%nat → run_call k (buf, (c, log)) = (Ok u, (buf', (c', log'))) →
  concat log' ++ buf' = (concat log ++ buf) ++ sent k ∧ ((length buf < max)%nat → (length buf' < max)%nat) ∧
  (Forall (λ ch, length ch ≤ max)%nat log → Forall (λ ch, length ch ≤ max)%nat log').
Proof.
  intros Hmax Hr. destruct k as [events|]; cbn [run_call sent] in *.
  - unfold buffered_send_batch in Hr. destruct (Nat.leb_spec max (length (buf ++ events))).
    + apply flush_buffer_ok in Hr as (-> & -> & Hl); [|done]. rewrite app_nil_r, app_assoc. split_and!; try done.
    + injection Hr as _ <- <- <-. rewrite app_assoc. by split_and!.
  - apply flush_buffer_ok in Hr as (-> & -> & Hl); [|done]. rewrite !app_nil_r. split_and!; try done.
Qed.

(** C23: while no call of a buffered sink fails, the requests accepted by the service
    and the buffer together hold every event exactly once and in order, no request
    exceeds the limit of the service and the buffer stays below it. *)
Theorem buffered_exactly_once ks c u buf' c' log' :
  (0 < max)%nat → run_calls ks ([], (c, [])) = (Ok u, (buf', (c', log'))) →
  concat log' ++ buf' = concat (sent <$> ks) ∧ (length buf' < max)%nat ∧ Forall (λ ch, length ch ≤ max)%nat log'.
Proof.
  intros Hmax Hr.
  assert (∀ buf c log, run_calls ks (buf, (c, log)) = (Ok u, (buf', (c', log'))) → (length buf < max)%nat →
            Forall (λ ch, length ch ≤ max)%nat log →
            concat log' ++ buf' = (concat log ++ buf) ++ concat (sent <$> ks) ∧ (length buf' < max)%nat ∧
            Forall (λ ch, length ch ≤ max)%nat log') as Hgen; [|by apply (Hgen _ _ _ Hr)].
  clear Hr c. induction ks as [|k ks IH]; intros buf c log; cbn [run_calls].
  { intros [= _ <- _ <-] ? ?. cbn. by rewrite app_nil_r. }
  intros [(v & [buf1 [c1 log1]] & Hk & Hrest)|(e & _ & ?)]%M_bind_inv Hb Hl; [|done].
  apply run_call_ok in Hk as (Heq & Hb1 & Hl1); [|done].
  destruct (IH _ _ _ Hrest (Hb1 Hb) (Hl1 Hl)) as (-> & ? & ?). rewrite Heq. split_and!; try done.
  cbn. by rewrite <- app_assoc.
Qed.

(** A failed request loses the events it carried and all that came after them in the
    buffer: nothing is put back. *)
Lemma failed_flush_drops buf c log e buf' c' log' :
  flush_buffer max recorded (buf, (c, log)) = (Err e, (buf', (c', log'))) → buf' = [].
Proof.
  unfold flush_buffer. case_bool_decide; [done|]. destruct (send_chunks _ _ _) as [r [c1 log1]].
  by intros [= _ <- _ _].
Qed.
End exactly_once.

(** The answer of the service may refuse records; the sink does not look. *)
Lemma refused_records_ignored `{EventJson} {C} put stream chunk records n (c c' : C) :
  try_map event_to_string chunk = Ok records → put stream records c = (Ok n, c') →
  kinesis_send_chunk put stream chunk c = (Ok tt, c').
Proof.
  intros Hr Hp. unfold kinesis_send_chunk, mbind, M_bind, lift_res, m_map_err.
  assert (try_map (λ event, map_err (with_source "failed to serialize audit event to JSON") (event_to_string event)) chunk =
          Ok records) as ->; [|by rewrite Hp].
  clear Hp. revert records Hr. induction chunk as [|e chunk IH]; intros records; cbn; [by intros [= <-]|].
  intros (y & Hy & Hrest)%bind_Ok. apply bind_Ok in Hrest as (ys & Hys & [= <-]). rewrite Hy. cbn. by rewrite (IH ys).
Qed.

(* ------------------------------------------------------------------ *)
(** ** Witnesses *)

Module DemoSinks.
#[export] Instance demo_json : EventJson := λ e, Ok (AuditLog.event_type e).

Definition event (n : string) : AuditEnvelope := mkEnvelope "1.0" n 0 "r" (mkActor "s" "spire") JNull Success None.
Definition empty_disk : disk := mkDisk ∅ ∅ [].
Definition demo_batches : list (list AuditEnvelope) := [[event "a"; event "b"]; []; [event "c"]].
Definition line (n : string) : string := n +:+ nl.

(** A service that takes every request. *)
Definition demo_send (chunk : list AuditEnvelope) : M unit SinkError unit := mret tt.
End DemoSinks.

Import DemoSinks.

Lemma file_sink_keeps_log_witness :
  ∃ sink d1 st d, FileSink_new (Some "/var/log") "/var/log/a" 1 2 empty_disk = (Ok sink, d1) ∧
    send_batches "/var/log/a" (max_size_bytes sink) 2 demo_batches (state sink, d1) = (Ok tt, (st, d)).
Proof.
  destruct (file_sink_keeps_log (Some "/var/log") "/var/log/a" 1 2 empty_disk demo_batches [line "a"; line "b"; line "c"])
    as (sink & d1 & st & d & cur & rot & Hnew & Hsend & _).
  - lia.
  - reflexivity.
  - split; intros; by rewrite ?lookup_empty in *.
  - reflexivity.
  - reflexivity.
  - repeat constructor; eexists; split; reflexivity.
  - vm_compute. reflexivity.
  - by exists sink, d1, st, d.
Defined.

(** A sink that is to keep no rotated file keeps one: the current file is renamed to [.1]
    whatever [max_files] is. *)
Lemma no_rotated_files_keeps_one :
  match FileSink_new (Some "/var/log") "/var/log/a" 0 0 empty_disk with
  | (Ok sink, d) =>
      match send_batches "/var/log/a" (max_size_bytes sink) 0 demo_batches (state sink, d) with
      | (Ok _, (_, d)) => file_at d "/var/log/a" = Some (line "c") ∧ file_at d "/var/log/a.1" = Some (line "b")
      | _ => False
      end
  | _ => False
  end.
Proof. vm_compute. split; reflexivity. Qed.

Lemma buffered_exactly_once_witness :
  let r := run_calls 2 demo_send [CallSend [event "a"]; CallSend [event "b"; event "c"]; CallSend [event "d"]] ([], (tt, [])) in
  r = (Ok tt, ([event "d"], (tt, [[event "a"; event "b"]; [event "c"]]))) ∧
  concat [[event "a"; event "b"]; [event "c"]] ++ [event "d"] =
  concat (sent <$> [CallSend [event "a"]; CallSend [event "b"; event "c"]; CallSend [event "d"]]).
Proof.
  split; [reflexivity|].
  apply (buffered_exactly_once 2 demo_send [CallSend [event "a"]; CallSend [event "b"; event "c"]; CallSend [event "d"]]
           tt tt [event "d"] tt [[event "a"; event "b"]; [event "c"]]); [lia|reflexivity].
Defined.

End AuditSinks.
