(* ===== verification/Demo.v ===== *)
(** * Concrete components for the witnesses

    A data store with two billets and three policies, kept in memory over a
    file system that accepts every write, and the small policy engine of
    [CedarApi.Toy]. *)

From S2P Require Import Prelude DataStore LocalStore CedarApi AuditLog.

Module Demo.
Import DataStore LocalStore.
Export CedarApi.Toy.

(** A file system that forgets. *)
#[export] Instance null_fs : FileSystem unit := {|
  fs_create_dir_all := λ _ f, (Ok tt, f);
  fs_read_dir := λ _ f, (Ok [], f);
  fs_read_to_string := λ _ f, (Err "not found", f);
  fs_write := λ _ _ f, (Ok tt, f);
  fs_rename := λ _ _ f, (Ok tt, f);
  fs_remove_file := λ _ f, (Ok tt, f);
  fs_remove_dir_all := λ _ f, (Ok tt, f)
|}.

Definition null_codec {A : Type} : Codec A :=
  {| to_json := λ _, Ok "{}"; from_json := λ _, Err "unsupported" |}.
#[export] Instance billet_codec : Codec BilletRecord := null_codec.
#[export] Instance policy_codec : Codec PolicyRecord := null_codec.
#[export] Instance key_codec : Codec EphemeralKeyRecord := null_codec.

#[export] Instance plain_iter : HashIter :=
  {| hash_iter A l := l; hash_iter_perm A l := reflexivity l |}.

Definition store : Type := LocalDataStore (F := unit).

Definition billet (n : string) : BilletRecord := mkBillet n "" [] [] ["team:core"] "t0" "t0".
Definition policy (b i s : string) : PolicyRecord := mkPolicy b i s "" "t0" "t0".

Definition demo_billets : gmap string BilletRecord :=
  {["reader" := billet "reader"; "writer" := billet "writer";
    "quartermaster-admin" := billet "quartermaster-admin";
    "quartermaster-guardrails" := billet "quartermaster-guardrails"]}.

(** Readers are admitted, writers are forbidden by a guardrail. *)
Definition demo_policies : gmap (string * string) PolicyRecord :=
  {[("reader", "1") := policy "reader" "1" "permit reader";
    ("writer", "2") := policy "writer" "2" "permit writer";
    ("quartermaster-guardrails", "3") := policy "quartermaster-guardrails" "3" "forbid writer"]}.

Definition demo_store : store :=
  mkStore (mkPath true ["data"]) (mkState demo_billets demo_policies []) tt.

Lemma demo_store_ok : ds_ok demo_store.
Proof. split; compute_decide. Qed.

Definition demo_audit : AuditLog.AuditService := AuditLog.new [] 100.

End Demo.
