(* ===== verification/Sync.v ===== *)
(** * Policy synchronisation ([src/src/sync/mod.rs])

    [PolicySyncService] copies policies and billets from the data store into
    memory: [state] for the resolver and [policy_set_handle] for the authorizer,
    two cells that [sync_once] writes one after the other. *)

From S2P Require Import Prelude DataStore LocalStore CedarApi AuditLog Demo.

Module Sync.
Import DataStore CedarApi.

Section sync.
Context `{CedarLib} {D : Type} `{DataStore D}.

Record PolicySyncState : Type := mkSyncState {
  policy_set : PolicySet;
  known_billets : gset string;
  billet_metadata : list BilletRecord
}.

Record PolicySyncService : Type := mkSync {
  state : option PolicySyncState;
  policy_set_handle : option PolicySet;
  data_store : D;
  audit_service : AuditLog.AuditService
}.

Definition new (d : D) (a : AuditLog.AuditService) : PolicySyncService := mkSync None None d a.

Definition is_initialized (s : PolicySyncService) : bool := bool_decide (is_Some (state s)).

Definition get_known_billets (s : PolicySyncService) : gset string :=
  match state s with Some st => known_billets st | None => ∅ end.

Definition get_policy_set (s : PolicySyncService) : option PolicySet := policy_set <$> state s.

Definition billet_tags (s : PolicySyncService) (billet_name : string) : list string :=
  match state s with
  | Some st =>
      match list_find (λ b, name b = billet_name) (billet_metadata st) with
      | Some (_, b) => tags b
      | None => []
      end
  | None => []
  end.

Definition parse_policies (records : list PolicyRecord) : result string PolicySet :=
  map_err (λ e, "Failed to parse PolicySet: " +:+ e)
    (parse_policy_set (Str.join nl (statement <$> records))).

Definition on_store {A E} (m : M D E A) : M PolicySyncService E A :=
  λ s, match m (data_store s) with
       | (r, d) => (r, mkSync (state s) (policy_set_handle s) d (audit_service s))
       end.

(** [match m.await { Ok(x) => Some(x), Err(_) => None }] *)
Definition try_ok {S E E' A} (m : M S E A) : M S E' (option A) :=
  λ s, match m s with (Ok a, s') => (Ok (Some a), s') | (Err _, s') => (Ok None, s') end.

Definition set_handle (ps : PolicySet) : M PolicySyncService string unit :=
  modify_st (λ s, mkSync (state s) (Some ps) (data_store s) (audit_service s)).
Definition set_sync_state (st : PolicySyncState) : M PolicySyncService string unit :=
  modify_st (λ s, mkSync (Some st) (policy_set_handle s) (data_store s) (audit_service s)).

Definition sync_once : M PolicySyncService string unit :=
  records ← try_ok (on_store list_all_policies);
  let new_policy_set :=
    match records with
    | Some records => match parse_policies records with Ok ps => Some ps | Err _ => None end
    | None => None
    end in
  new_billet_metadata ← try_ok (on_store list_billets);
  s ← get_st;
  let current_state := state s in
  policy_set_ ←
    match new_policy_set with
    | Some ps => mret ps
    | None =>
        match current_state with
        | Some st => mret (policy_set st)
        | None =>
            match new_billet_metadata with
            | None => throw "Both list_all_policies and list_billets failed with no prior state"
            | Some _ => lift_res (parse_policy_set "")
            end
        end
    end;
  let '(known, metadata) :=
    match new_billet_metadata with
    | Some records => (list_to_set (name <$> records), records)
    | None =>
        match current_state with
        | Some st => (known_billets st, billet_metadata st)
        | None => (∅, [])
        end
    end in
  _ ← set_handle policy_set_;
  set_sync_state (mkSyncState policy_set_ known metadata).

Definition emit_audit (e : AuditLog.AuditEnvelope) (s : PolicySyncService) : PolicySyncService :=
  mkSync (state s) (policy_set_handle s) (data_store s) (AuditLog.emit e (audit_service s)).2.

(** One round of [start]: the initial one and each turn of the loop. *)
Definition sync_round (now duration_ms : Z) (uuid : string) (s : PolicySyncService) : PolicySyncService :=
  match sync_once s with
  | (Ok _, s') =>
      let details := AuditLog.SyncDetails_json
        {| AuditLog.policy_count := (λ ps, Z.of_nat (length (ps_policies ps))) <$> get_policy_set s';
           AuditLog.billet_count := Some (Z.of_nat (size (get_known_billets s')));
           AuditLog.duration_ms := duration_ms |} in
      emit_audit (AuditLog.sync_event now uuid "sync.policy.success" AuditLog.Success None details) s'
  | (Err e, s') =>
      let details := AuditLog.SyncDetails_json
        {| AuditLog.policy_count := None; AuditLog.billet_count := None;
           AuditLog.duration_ms := duration_ms |} in
      emit_audit (AuditLog.sync_event now uuid "sync.policy.failure" AuditLog.Failure (Some e) details) s'
  end.

(* ------------------------------------------------------------------ *)
(** ** Invariant and properties *)

Context `{!DataStoreLaws D} `{!CedarLaws}.

(** The two cells agree and the billet set is the names of the metadata. *)
Definition sync_ok (s : PolicySyncService) : Prop :=
  policy_set_handle s = policy_set <$> state s ∧ ds_ok (data_store s) ∧
  ∀ st, state s = Some st → known_billets st = list_to_set (name <$> billet_metadata st).

(** What a round takes from the store: the policies if they can be read and
    parsed, the billets if they can be read. *)
Definition fetched_policies (d : D) : option PolicySet :=
  match (list_all_policies d).1 with
  | Ok records => match parse_policies records with Ok ps => Some ps | Err _ => None end
  | Err _ => None
  end.
Definition fetched_billets (d : D) : option (list BilletRecord) :=
  match (list_billets (list_all_policies d).2).1 with Ok l => Some l | Err _ => None end.

(** The state a round must reach: new data where there is some, the previous
    data elsewhere, an empty component if there never was any. *)
Definition merged (s : PolicySyncService) : option (PolicySet * list BilletRecord) :=
  match fetched_policies (data_store s), fetched_billets (data_store s), state s with
  | Some ps, Some l, _ => Some (ps, l)
  | Some ps, None, Some st => Some (ps, billet_metadata st)
  | Some ps, None, None => Some (ps, [])
  | None, Some l, Some st => Some (policy_set st, l)
  | None, None, Some st => Some (policy_set st, billet_metadata st)
  | None, Some l, None =>
      match parse_policy_set "" with Ok ps => Some (ps, l) | Err _ => None end
  | None, None, None => None
  end.

Lemma sync_once_merged s : sync_ok s →
  let '(r, s') := sync_once s in
  sync_ok s' ∧ is_ok r = bool_decide (is_Some (merged s)) ∧
  ds_policies (data_store s') = ds_policies (data_store s) ∧
  ds_billets (data_store s') = ds_billets (data_store s) ∧
  audit_service s' = audit_service s ∧
  match merged s with
  | Some (ps, l) => state s' = Some (mkSyncState ps (list_to_set (name <$> l)) l)
  | None => state s' = state s
  end.
Proof.
  intros (Hh & Hd & Hk). unfold sync_once, try_ok, on_store, set_handle, set_sync_state. unfold_monad.
  unfold merged, fetched_policies, fetched_billets.
  destruct (list_all_policies (data_store s)) as [rp d1] eqn:Ep.
  pose proof (list_all_policies_spec _ _ _ Hd Ep) as (Hd1 & Hb1 & Hp1 & _). cbn [fst snd].
  destruct (list_billets d1) as [rb d2] eqn:Eb.
  pose proof (list_billets_spec _ _ _ Hd1 Eb) as (Hd2 & Hb2 & Hp2 & _).
  destruct parse_empty as (ps0 & Hps0 & _).
  destruct rp as [rp|ep], rb as [rb|eb]; cbn;
    try destruct (parse_policies rp) as [ps|pe]; cbn; rewrite ?Eb; cbn;
    destruct (state s) as [st|] eqn:Est; cbn; rewrite ?Hps0; cbn;
    unfold sync_ok; cbn; rewrite ?Est, ?Hp2, ?Hp1, ?Hb2, ?Hb1;
    split_and!; try done; try (intros ? [= <-]; cbn); try done; try (by rewrite Hk);
    try (by rewrite <-Hk); by rewrite Hh, ?Est.
Qed.

Lemma sync_round_state now dur uuid s :
  let s' := sync_round now dur uuid s in
  state s' = state (sync_once s).2 ∧ policy_set_handle s' = policy_set_handle (sync_once s).2 ∧
  data_store s' = data_store (sync_once s).2.
Proof. unfold sync_round. by destruct (sync_once s) as [[]]. Qed.

(** The service in operation: rounds, and changes of the store by others. *)
Inductive sync_step : PolicySyncService → PolicySyncService → Prop :=
| step_round now dur uuid s : sync_step s (sync_round now dur uuid s)
| step_store s d : ds_ok d → sync_step s (mkSync (state s) (policy_set_handle s) d (audit_service s)).

Section provenance.
Context (valid : PolicyRecord → Prop).
Hypothesis valid_parses : ∀ r, valid r → is_ok (parse_policy_set (statement r)) = true.

(** Every policy of the set comes from the statement of a valid record. *)
Definition in_force (ps : PolicySet) : Prop :=
  ∀ p, p ∈ ps_policies ps → ∃ r ps' q, valid r ∧ parse_policy_set (statement r) = Ok ps' ∧
    q ∈ ps_policies ps' ∧ policy_equiv p q.

Definition store_valid (d : D) : Prop := map_Forall (λ _ r, valid r) (ds_policies d).

Lemma listed_statements d records d' : ds_ok d → store_valid d →
  list_all_policies d = (Ok records, d') →
  (∀ r, r ∈ records ↔ ∃ k, ds_policies d !! k = Some r) ∧
  Forall (λ s, is_ok (parse_policy_set s) = true) (statement <$> records).
Proof.
  intros Hd Hv Hl. apply list_all_policies_spec in Hl as (_ & _ & _ & Hl); [|done].
  assert (∀ r, r ∈ records ↔ ∃ k, ds_policies d !! k = Some r) as Hin.
  { intros r. rewrite (Hl records), list_elem_of_fmap by done. split.
    - intros ([k r'] & -> & Hk%elem_of_map_to_list). by exists k.
    - intros [k Hk]. exists (k, r). by rewrite elem_of_map_to_list. }
  split; [done|]. apply Forall_fmap, Forall_forall. intros r [k Hk]%Hin.
  by apply valid_parses, (Hv k).
Qed.

Lemma fetched_in_force d ps :
  ds_ok d → store_valid d → fetched_policies d = Some ps → in_force ps.
Proof.
  unfold fetched_policies, parse_policies. intros Hd Hv.
  destruct (list_all_policies d) as [[records|] d'] eqn:Hl; [|done]. cbn.
  destruct (parse_policy_set _) as [ps'|] eqn:Hp; [|done]. intros [= <-] p Hin.
  destruct (listed_statements _ _ _ Hd Hv Hl) as [Hrec Hok].
  destruct (parse_join _ _ Hok Hp p Hin) as (st & ps1 & q & Hst & Hps1 & Hq & Heq).
  apply list_elem_of_fmap in Hst as (r & -> & [k Hk]%Hrec). exists r, ps1, q. split_and!; try done.
  by apply (Hv k).
Qed.

(** After a round that could read and parse, the store's policies are in force. *)
Definition reflects (ps : PolicySet) (d : D) : Prop :=
  in_force ps ∧ ∀ k r ps' q, ds_policies d !! k = Some r → parse_policy_set (statement r) = Ok ps' →
    q ∈ ps_policies ps' → ∃ p, p ∈ ps_policies ps ∧ policy_equiv p q.

Lemma fetched_reflects d ps :
  ds_ok d → store_valid d → fetched_policies d = Some ps → reflects ps d.
Proof.
  intros Hd Hv Hf. split; [by eapply fetched_in_force|]. revert Hf.
  unfold fetched_policies, parse_policies.
  destruct (list_all_policies d) as [[records|] d'] eqn:Hl; [|done]. cbn.
  destruct (parse_policy_set _) as [ps0|] eqn:Hp; [|done]. intros [= <-] k r ps' q Hk Hps' Hq.
  destruct (listed_statements _ _ _ Hd Hv Hl) as [Hrec Hok].
  eapply parse_join_complete; [done|done| |done|done]. apply list_elem_of_fmap_2, Hrec. eauto.
Qed.

(** The invariant of a service whose stores are valid. *)
Definition sync_inv (s : PolicySyncService) : Prop :=
  sync_ok s ∧ store_valid (data_store s) ∧ ∀ st, state s = Some st → in_force (policy_set st).

Lemma fetched_names d l b :
  ds_ok d → fetched_billets d = Some l →
  b ∈ (list_to_set (name <$> l) : gset string) ↔ is_Some (ds_billets d !! b).
Proof.
  intros Hd. unfold fetched_billets. destruct (list_all_policies d) as [r1 d1] eqn:E1.
  apply list_all_policies_spec in E1 as (Hd1 & Hb1 & _ & _); [|done]. cbn.
  destruct (list_billets d1) as [[l'|] d2] eqn:E2; [|done]. cbn. intros [= ->].
  apply list_billets_spec in E2 as (_ & _ & _ & Hl); [|done].
  rewrite elem_of_list_to_set, list_elem_of_fmap. setoid_rewrite (Hl l eq_refl). rewrite Hb1.
  destruct (ds_keyed d Hd) as [Hk _]. split.
  - intros (r & -> & ([k r'] & -> & Hin%elem_of_map_to_list)%list_elem_of_fmap). cbn.
    rewrite (Hk _ _ Hin). eauto.
  - intros [r Hr]. exists r. split; [by rewrite (Hk _ _ Hr)|].
    apply list_elem_of_fmap. exists (b, r). by rewrite elem_of_map_to_list.
Qed.

Lemma merged_in_force s ps l : sync_inv s → merged s = Some (ps, l) → in_force ps.
Proof.
  intros ((_ & Hd & _) & Hv & Hst). unfold merged.
  destruct (fetched_policies (data_store s)) as [ps'|] eqn:Hf.
  - apply fetched_in_force in Hf; [|done..].
    destruct (fetched_billets _), (state s); intros; simplify_eq; done.
  - destruct parse_empty as (ps0 & -> & Hempty).
    destruct (fetched_billets _), (state s) as [st|]; intros; simplify_eq; try by apply Hst.
    intros p. rewrite Hempty. by intros ?%not_elem_of_nil.
Qed.

Lemma sync_round_inv now dur uuid s : sync_inv s → sync_inv (sync_round now dur uuid s).
Proof.
  intros Hs. pose proof Hs as (Hok & Hv & Hst).
  destruct (sync_round_state now dur uuid s) as (E1 & E2 & E3).
  pose proof (sync_once_merged s Hok) as Hm. destruct (sync_once s) as [r s'] eqn:Es. cbn in *.
  destruct Hm as ((Hh & Hd & Hk) & _ & Hp & _ & _ & Hmerged).
  unfold sync_inv, sync_ok, store_valid. rewrite E1, E2, E3, Hp. split_and!; try done.
  intros st' Hst'. destruct (merged s) as [[ps l]|] eqn:Em.
  - rewrite Hmerged in Hst'. injection Hst' as <-. by eapply merged_in_force.
  - rewrite Hmerged in Hst'. by apply Hst.
Qed.
End provenance.

(** C14: whatever rounds succeed, fail or fail to parse, and whatever valid
    policies others write to the store in between, the policy set the authorizer
    evaluates is the one of the resolver's state, and each of its policies comes
    from the statement of a valid record that was in the store; once loaded it
    is never unloaded. *)
Theorem sync_invariant valid s s' :
  (∀ r, valid r → is_ok (parse_policy_set (statement r)) = true) →
  sync_inv valid s →
  rtc (λ a b, sync_step a b ∧ store_valid valid (data_store b)) s s' →
  sync_inv valid s' ∧ policy_set_handle s' = policy_set <$> state s' ∧
  (is_initialized s = true → is_initialized s' = true).
Proof.
  intros Hparse Hs Hsteps.
  enough (sync_inv valid s' ∧ (is_initialized s = true → is_initialized s' = true)) as [Hi ?].
  { split_and!; try done. by destruct Hi as [[? _] _]. }
  induction Hsteps as [s|s s1 s' [Hstep Hv] _ IH]; [done|].
  enough (sync_inv valid s1 ∧ (is_initialized s = true → is_initialized s1 = true)) as [H1' H2'].
  { destruct (IH H1') as [? ?]. split; auto. }
  clear IH. destruct Hstep as [now dur uuid s|s d Hd].
  - split; [by apply sync_round_inv|]. pose proof Hs as (Hok & _).
    destruct (sync_round_state now dur uuid s) as (E1 & _). unfold is_initialized. rewrite E1.
    pose proof (sync_once_merged s Hok) as Hm. destruct (sync_once s) as [r s1]. cbn.
    destruct Hm as (_ & _ & _ & _ & _ & Hm). destruct (merged s) as [[ps l]|]; by rewrite Hm.
  - split; [|done]. destruct Hs as ((Hh & _ & Hk) & _ & Hst). done.
Qed.

(** A round whose reads succeed and whose statements parse puts exactly the
    store's policies and billets in force; if a read fails the previous data of
    that component stays, and the round fails only when there is nothing at all. *)
Theorem sync_once_effect valid s :
  (∀ r, valid r → is_ok (parse_policy_set (statement r)) = true) →
  sync_inv valid s →
  let '(r, s') := sync_once s in
  match fetched_policies (data_store s), state s' with
  | Some ps, Some st => policy_set st = ps ∧ reflects valid ps (data_store s')
  | None, Some st => match state s with
                     | Some st0 => policy_set st = policy_set st0
                     | None => ps_policies (policy_set st) = []
                     end
  | Some _, None => False
  | None, None => fetched_billets (data_store s) = None ∧ state s = None ∧ is_ok r = false
  end ∧
  match fetched_billets (data_store s), state s' with
  | Some l, Some st => billet_metadata st = l ∧
      (∀ b, b ∈ known_billets st ↔ is_Some (ds_billets (data_store s') !! b))
  | None, Some st => match state s with
                     | Some st0 => billet_metadata st = billet_metadata st0
                     | None => known_billets st = ∅
                     end
  | _, None => True
  end.
Proof.
  intros Hparse (Hok & Hv & _). pose proof Hok as (_ & Hd & _).
  pose proof (sync_once_merged s Hok) as Hm. destruct (sync_once s) as [r s'].
  destruct Hm as (_ & Hr & Hp & Hb & _ & Hm).
  assert (∀ l, fetched_billets (data_store s) = Some l → ∀ b,
    b ∈ (list_to_set (name <$> l) : gset string) ↔ is_Some (ds_billets (data_store s') !! b)) as Hnames.
  { intros l Hl b. rewrite Hb. by eapply fetched_names. }
  assert (∀ ps, fetched_policies (data_store s) = Some ps → reflects valid ps (data_store s')) as Hrefl.
  { intros ps Hps. unfold reflects. rewrite Hp. by apply fetched_reflects. }
  destruct parse_empty as (ps0 & Hps0 & Hempty). unfold merged in *.
  destruct (fetched_policies _) as [ps|], (fetched_billets _) as [l|], (state s) as [st|];
    rewrite ?Hps0 in *; rewrite Hm; cbn; try (by auto 10).
Qed.

End sync.

(* ------------------------------------------------------------------ *)
(** ** Witnesses *)

Import Demo.

Definition parses (r : PolicyRecord) : Prop := is_ok (parse_policy_set (statement r)) = true.

Definition demo_sync : PolicySyncService (D := Demo.store) := new demo_store demo_audit.

Lemma demo_sync_inv : sync_inv parses demo_sync.
Proof.
  split_and!; [|compute_decide|done]. split_and!; [done|exact demo_store_ok|done].
Qed.

Lemma sync_invariant_witness :
  let s' := sync_round 0 5 "u1" demo_sync in
  sync_inv parses s' ∧ (length ∘ ps_policies <$> policy_set_handle s') = Some 3.
Proof.
  intros s'. split; [|by vm_compute].
  refine (proj1 (sync_invariant parses demo_sync s' (λ r H, H) demo_sync_inv _)).
  apply rtc_once. split; [apply step_round|compute_decide].
Defined.

Lemma sync_once_effect_witness :
  match state (sync_once demo_sync).2 with
  | Some st => reflects parses (policy_set st) (data_store (sync_once demo_sync).2)
  | None => False
  end.
Proof.
  pose proof (sync_once_effect parses demo_sync (λ r H, H) demo_sync_inv) as H.
  destruct (sync_once demo_sync) as [r s'] eqn:E. destruct H as [H _].
  assert (is_Some (fetched_policies (data_store demo_sync))) as [ps Hps] by (vm_compute; by eexists).
  rewrite Hps in H. cbn in *. destruct (state s') as [st|]; [|done]. by destruct H as [-> ?].
Defined.

End Sync.
