(* ===== verification/Cedar.v ===== *)
(** * The local authorizer ([src/src/cedar/mod.rs]) *)

From S2P Require Import Prelude DataStore LocalStore CedarApi AuditLog Demo Sync.

Module Cedar.
Import DataStore CedarApi Sync.

Record AuthzDecision : Type := mkDecision { resource : string; decision : Decision }.

Record CommonContext : Type := mkContext {
  environment : string;
  region : string;
  request_time : string;
  source_type : string;
  source_cloud : string;
  selectors : list string
}.

Inductive CedarError : Type :=
| PolicySetNotInitialized
| EvaluationFailed (msg : string).

Definition CedarError_fmt (e : CedarError) : string :=
  match e with
  | PolicySetNotInitialized => "PolicySet not initialized"
  | EvaluationFailed msg => "Evaluation failed: " +:+ msg
  end.

Record AdminAuthzRequest : Type := mkAdminReq {
  principals : list string;
  admin_action : string;
  admin_resource : string;
  admin_context : CommonContext
}.

Definition NAMESPACE : string := "Quartermaster".

Section cedar.
Context `{CedarLib} {D : Type} `{DataStore D} `{HashIter}.

Record EntityBatchAuthzRequest : Type := mkBatchReq {
  principal_type : string;
  principal_id : string;
  principal_entities : list Entity;
  action : string;
  resources : list string;
  context : CommonContext
}.

(** The authorizer shares the policy set cell of the synchronisation service. *)
Record CedarAuthorizer : Type := mkAuthorizer {
  policy_sync : PolicySyncService (D := D);
  system_billets : list string
}.

Fixpoint collect_tags (s : PolicySyncService (D := D)) (names : list string)
    (map : gmap string (list string)) : gmap string (list string) :=
  match names with
  | [] => map
  | n :: names' =>
      let tags := billet_tags s n in
      collect_tags s names' (if bool_decide (tags = []) then map else <[n := tags]> map)
  end.

Definition resolve_billet_tags (a : CedarAuthorizer) (caller_tags : gmap string (list string))
    (billet_names : list string) : gmap string (list string) :=
  if negb (bool_decide (caller_tags = ∅)) then caller_tags
  else collect_tags (policy_sync a) billet_names ∅.

Definition make_entity_uid (entity_type id : string) : result CedarError EntityUid :=
  type_name ← map_err (λ e, EvaluationFailed ("Invalid entity type name: " +:+ e))
                (type_name_from_str (NAMESPACE +:+ "::" +:+ entity_type));
  Ok (mkUid type_name id).

Definition string_set_expr (values : list string) : RestrictedExpression := ExprSet values.

Definition build_billet_entity (name : string) (tags : list string) : result CedarError Entity :=
  uid ← make_entity_uid "Billet" name;
  map_err (λ e, EvaluationFailed ("Failed to create billet entity: " +:+ e))
    (entity_new uid {["tags" := string_set_expr tags]}).

Definition build_context (ctx : CommonContext) : result CedarError Context :=
  map_err (λ e, EvaluationFailed ("Failed to build context: " +:+ e))
    (context_from_pairs
       [("environment", ExprString (environment ctx)); ("region", ExprString (region ctx));
        ("request_time", ExprString (request_time ctx)); ("source_type", ExprString (source_type ctx));
        ("source_cloud", ExprString (source_cloud ctx)); ("selectors", string_set_expr (selectors ctx))]).

(** Captures are inserted after, and so over, the two fixed attributes. *)
Definition build_workload_entities_from_captures (spiffe_id trust_domain : string)
    (captures : gmap string string) : result CedarError (list Entity) :=
  principal_uid ← make_entity_uid "Workload" spiffe_id;
  let attrs := (ExprString <$> captures) ∪
    {["spiffe_id" := ExprString spiffe_id; "trust_domain" := ExprString trust_domain]} in
  entity ← map_err (λ e, EvaluationFailed ("Failed to create entity: " +:+ e))
             (entity_new principal_uid attrs);
  Ok [entity].

(** One turn of the loop over the resources. *)
Definition decide_resource (ps : PolicySet) (resolved_tags : gmap string (list string))
    (req : EntityBatchAuthzRequest) (principal_uid action_uid : EntityUid) (resource_name : string) :
    result CedarError AuthzDecision :=
  let tags := default [] (resolved_tags !! resource_name) in
  billet_entity ← build_billet_entity resource_name tags;
  resource_uid ← make_entity_uid "Billet" resource_name;
  entities ← map_err (λ e, EvaluationFailed ("Failed to build entities: " +:+ e))
               (entities_from (principal_entities req ++ [billet_entity]));
  ctx ← build_context (context req);
  request ← map_err (λ e, EvaluationFailed ("Failed to build request: " +:+ e))
              (request_new principal_uid action_uid resource_uid ctx);
  Ok (mkDecision resource_name (is_authorized request ps entities)).

Definition batch_is_authorized_entity (a : CedarAuthorizer) (req : EntityBatchAuthzRequest)
    (billet_tags : gmap string (list string)) : result CedarError (list AuthzDecision) :=
  let resolved_tags := resolve_billet_tags a billet_tags (resources req) in
  ps ← ok_or PolicySetNotInitialized (policy_set_handle (policy_sync a));
  principal_uid ← make_entity_uid (principal_type req) (principal_id req);
  action_uid ← make_entity_uid "Action" (action req);
  try_map (decide_resource ps resolved_tags req principal_uid action_uid) (resources req).

(** One turn of the loop over the caller's billets. *)
Definition admin_decision (ps : PolicySet) (resolved_tags : gmap string (list string))
    (req : AdminAuthzRequest) (action_uid resource_uid : EntityUid) (billet_name : string) :
    result CedarError Decision :=
  principal_entity ← build_billet_entity billet_name (default [] (resolved_tags !! billet_name));
  principal_uid ← make_entity_uid "Billet" billet_name;
  resource_entity ← build_billet_entity (admin_resource req)
                      (default [] (resolved_tags !! admin_resource req));
  entities ← map_err (λ e, EvaluationFailed ("Failed to build entities: " +:+ e))
               (entities_from [principal_entity; resource_entity]);
  ctx ← build_context (admin_context req);
  request ← map_err (λ e, EvaluationFailed ("Failed to build request: " +:+ e))
              (request_new principal_uid action_uid resource_uid ctx);
  Ok (is_authorized request ps entities).

Fixpoint any_allows (decide_one : string → result CedarError Decision) (ps : list string) :
    result CedarError bool :=
  match ps with
  | [] => Ok false
  | b :: ps' =>
      d ← decide_one b;
      if bool_decide (d = Allow) then Ok true else any_allows decide_one ps'
  end.

Definition is_authorized_admin (a : CedarAuthorizer) (req : AdminAuthzRequest)
    (billet_tags : gmap string (list string)) : result CedarError bool :=
  if existsb (λ p, bool_decide (p ∈ system_billets a)) (principals req) then Ok true
  else
    let resolved_tags := resolve_billet_tags a billet_tags (principals req ++ [admin_resource req]) in
    ps ← ok_or PolicySetNotInitialized (policy_set_handle (policy_sync a));
    action_uid ← make_entity_uid "Action" (admin_action req);
    resource_uid ← make_entity_uid "Billet" (admin_resource req);
    any_allows (admin_decision ps resolved_tags req action_uid resource_uid) (principals req).

(* ------------------------------------------------------------------ *)
(** ** Properties *)

Context `{!CedarLaws}.

Definition is_billet (u : EntityUid) (n : string) : Prop :=
  type_name_from_str "Quartermaster::Billet" = Ok (uid_type u) ∧ uid_id u = n.

(** Some permit applies to a request for billet [n] and no forbid does. *)
Definition permitted (ps : PolicySet) (n : string) : Prop :=
  ∃ request entities, is_billet (request_resource request) n ∧
    (∃ p, p ∈ ps_policies ps ∧ policy_effect p = Permit ∧ policy_satisfied p request entities = true) ∧
    (∀ p, p ∈ ps_policies ps → policy_effect p = Forbid → policy_satisfied p request entities = false).

(** The entity [id] of a type of the program's namespace. *)
Definition named (type id : string) (u : EntityUid) : Prop :=
  type_name_from_str ("Quartermaster::" +:+ type) = Ok (uid_type u) ∧ uid_id u = id.

(** The policies let the principal [ptype]::[pid], which [known] describe, perform [act]
    on billet [n] with tags [tags n] in a context with the given facts: of this very
    request some permit is satisfied and no forbid is. *)
Definition allows (ps : PolicySet) (tags : string → list string) (ptype pid : string)
    (known : list Entity) (act : string) (facts : list (string * RestrictedExpression)) (n : string) : Prop :=
  ∃ pu au ru be es c request,
    named ptype pid pu ∧ named "Action" act au ∧ named "Billet" n ru ∧
    entity_new ru {["tags" := ExprSet (tags n)]} = Ok be ∧ entities_from (known ++ [be]) = Ok es ∧
    context_from_pairs facts = Ok c ∧ request_new pu au ru c = Ok request ∧
    (∃ p, p ∈ ps_policies ps ∧ policy_effect p = Permit ∧ policy_satisfied p request es = true) ∧
    (∀ p, p ∈ ps_policies ps → policy_effect p = Forbid → policy_satisfied p request es = false).

(** The facts of a request's context. *)
Definition facts_of (c : CommonContext) : list (string * RestrictedExpression) :=
  [("environment", ExprString (environment c)); ("region", ExprString (region c));
   ("request_time", ExprString (request_time c)); ("source_type", ExprString (source_type c));
   ("source_cloud", ExprString (source_cloud c)); ("selectors", ExprSet (selectors c))].

Lemma allows_permitted ps tags pt pid known act facts n :
  allows ps tags pt pid known act facts n → permitted ps n.
Proof.
  intros (pu & au & ru & be & es & c & rq & _ & _ & Hru & _ & _ & _ & Hrq & Hp & Hf).
  exists rq, es. by apply request_new_resource in Hrq as ->.
Qed.

Lemma make_uid_named t n u : make_entity_uid t n = Ok u → named t n u.
Proof. unfold make_entity_uid. rewrite bind_Ok. by intros (tn & Ht%map_err_Ok & [= <-]). Qed.

(** The tags the authorizer looks up for itself are those of the synchronised state. *)
Lemma collect_tags_lookup s names : ∀ m n,
  default [] (collect_tags s names m !! n) =
  if bool_decide (n ∈ names ∧ billet_tags s n ≠ []) then billet_tags s n else default [] (m !! n).
Proof.
  induction names as [|x names IH]; intros m n; cbn [collect_tags].
  { rewrite bool_decide_eq_false_2; [done|]. by intros [?%not_elem_of_nil _]. }
  rewrite IH. case_bool_decide as Hin.
  { rewrite bool_decide_eq_true_2; [done|]. split; [right|]; apply Hin. }
  destruct (decide (x = n)) as [->|Hne].
  - case_bool_decide as Ht.
    + rewrite bool_decide_eq_false_2; [done|]. by intros [_ ?].
    + rewrite lookup_insert_eq, bool_decide_eq_true_2; [done|]. by split; [left|].
  - rewrite (bool_decide_eq_false_2 (n ∈ x :: names ∧ _)) by (intros [[?|?]%elem_of_cons ?]; [done|by apply Hin]).
    case_bool_decide; [done|by rewrite lookup_insert_ne].
Qed.

Lemma resolved_tags a names n : n ∈ names →
  default [] (resolve_billet_tags a ∅ names !! n) = billet_tags (policy_sync a) n.
Proof.
  intros Hn. unfold resolve_billet_tags. cbn [negb]. rewrite bool_decide_eq_true_2 by done. cbn [negb].
  rewrite collect_tags_lookup, lookup_empty. case_bool_decide as Ht; [done|]. cbn.
  destruct (billet_tags (policy_sync a) n) eqn:E; [done|]. by destruct Ht.
Qed.

Lemma make_billet_uid n u : make_entity_uid "Billet" n = Ok u → is_billet u n.
Proof.
  unfold make_entity_uid. rewrite bind_Ok. intros (t & Ht%map_err_Ok & [= <-]). done.
Qed.

Lemma decide_resource_allows ps tags req pu au n d :
  named (principal_type req) (principal_id req) pu → named "Action" (action req) au →
  decide_resource ps tags req pu au n = Ok d →
  resource d = n ∧ (decision d = Allow →
    allows ps (λ n, default [] (tags !! n)) (principal_type req) (principal_id req) (principal_entities req)
      (action req) (facts_of (context req)) n).
Proof.
  intros Hpu Hau. unfold decide_resource, build_billet_entity, build_context. intros (be & Hbe & H')%bind_Ok.
  apply bind_Ok in Hbe as (bu & Hbu%make_uid_named & Hbe%map_err_Ok).
  apply bind_Ok in H' as (ru & Hru%make_uid_named & H'). apply bind_Ok in H' as (es & Hes%map_err_Ok & H').
  apply bind_Ok in H' as (ctx & Hctx%map_err_Ok & H'). apply bind_Ok in H' as (rq & Hrq%map_err_Ok & [= <-]).
  cbn. split; [done|]. intros [Hp Hf]%decision_spec.
  assert (bu = ru) as -> by (destruct Hbu as [Ht Hi], Hru as [Ht' Hi'], bu, ru; cbn in *; congruence).
  by exists pu, au, ru, be, es, ctx, rq.
Qed.

Lemma decide_resource_inv ps tags req pu au n d :
  decide_resource ps tags req pu au n = Ok d →
  resource d = n ∧ (decision d = Allow → permitted ps n).
Proof.
  unfold decide_resource. intros (be & _ & H')%bind_Ok.
  apply bind_Ok in H' as (ru & Hru%make_billet_uid & H'). apply bind_Ok in H' as (es & _ & H').
  apply bind_Ok in H' as (ctx & _ & H'). apply bind_Ok in H' as (rq & Hrq%map_err_Ok & [= <-]).
  cbn. split; [done|]. intros Hal%decision_spec. exists rq, es.
  apply request_new_resource in Hrq as ->. done.
Qed.

(** What the authorizer answers for a caller, with the tags it looks up itself. *)
Lemma batch_allows a req ds :
  batch_is_authorized_entity a req ∅ = Ok ds →
  ∃ ps, policy_set_handle (policy_sync a) = Some ps ∧
    Forall2 (λ n d, resource d = n ∧ (decision d = Allow →
      allows ps (billet_tags (policy_sync a)) (principal_type req) (principal_id req) (principal_entities req)
        (action req) (facts_of (context req)) n)) (resources req) ds.
Proof.
  unfold batch_is_authorized_entity. intros (ps & Hps%ok_or_Ok & H')%bind_Ok.
  apply bind_Ok in H' as (pu & Hpu%make_uid_named & H'). apply bind_Ok in H' as (au & Hau%make_uid_named & H').
  apply try_map_Ok in H'. exists ps. split; [done|]. apply Forall2_same_length_lookup_2; [by eapply Forall2_length|].
  intros i n d Hn Hd. destruct (Forall2_lookup_l _ _ _ _ _ H' Hn) as (d' & Hd' & Hdec). simplify_eq.
  apply decide_resource_allows in Hdec as [Hr Hal]; [|done..]. split; [done|]. intros Hdec.
  destruct (Hal Hdec) as (pu' & au' & ru & be & es & c & rq & Hp & Ha & Hb & Hbe & Hrest).
  exists pu', au', ru, be, es, c, rq. split_and!; try done; [|apply Hrest..].
  by rewrite <-(resolved_tags a (resources req) n) by by eapply list_elem_of_lookup_2.
Qed.

Lemma batch_decisions a req tags ds :
  batch_is_authorized_entity a req tags = Ok ds →
  ∃ ps, policy_set_handle (policy_sync a) = Some ps ∧
    Forall2 (λ n d, resource d = n ∧ (decision d = Allow → permitted ps n)) (resources req) ds.
Proof.
  unfold batch_is_authorized_entity. intros (ps & Hps%ok_or_Ok & H')%bind_Ok.
  apply bind_Ok in H' as (pu & _ & H'). apply bind_Ok in H' as (au & _ & H').
  apply try_map_Ok in H'. exists ps. split; [done|].
  eapply Forall2_impl; [done|]. intros n d. apply decide_resource_inv.
Qed.

Lemma any_allows_true f ps : any_allows f ps = Ok true ↔
  ∃ l1 b l2, ps = l1 ++ b :: l2 ∧ Forall (λ x, f x = Ok Deny) l1 ∧ f b = Ok Allow.
Proof.
  induction ps as [|b ps IH]; cbn.
  - split; [done|]. intros ([|??] & ? & ? & ? & _); done.
  - destruct (f b) as [[]|e] eqn:Hb; cbn.
    + split; [|done]. intros _. exists [], b, ps. done.
    + rewrite IH. split.
      * intros (l1 & x & l2 & -> & ? & ?). exists (b :: l1), x, l2. naive_solver.
      * intros ([|y l1] & x & l2 & Heq & Hl & ?); injection Heq as <- ->; [congruence|].
        apply Forall_cons in Hl as [_ Hl]. eauto 10.
    + split; [done|]. intros ([|y l1] & x & l2 & Heq & Hl & ?); injection Heq as <- ->; [congruence|].
      apply Forall_cons in Hl as [Hy _]. congruence.
Qed.

(** An administrative action is authorized only for a caller that holds a
    system billet, or when a policy set is loaded and, for one of the caller's
    billets, some permit policy applies to the target billet and no forbid policy
    does; a system billet is authorized whatever the policies say. *)
Theorem admin_authorization a req tags :
  (is_authorized_admin a req tags = Ok true →
     (∃ p, p ∈ principals req ∧ p ∈ system_billets a) ∨
     (∃ ps b, policy_set_handle (policy_sync a) = Some ps ∧ b ∈ principals req ∧
        permitted ps (admin_resource req))) ∧
  ((∃ p, p ∈ principals req ∧ p ∈ system_billets a) → is_authorized_admin a req tags = Ok true).
Proof.
  unfold is_authorized_admin.
  destruct (existsb _ (principals req)) eqn:Hsys.
  - apply existsb_exists in Hsys as (p & Hp%list_elem_of_In & Hs%bool_decide_eq_true).
    split; [|done]. intros _. left. eauto.
  - split.
    + intros (ps & Hps%ok_or_Ok & H')%bind_Ok. right.
      apply bind_Ok in H' as (au & _ & H'). apply bind_Ok in H' as (ru & Hru%make_billet_uid & H').
      apply any_allows_true in H' as (l1 & b & l2 & Hprin & _ & Hb).
      exists ps, b. split_and!; [done|rewrite Hprin; set_solver|].
      unfold admin_decision in Hb. apply bind_Ok in Hb as (pe & _ & Hb).
      apply bind_Ok in Hb as (pu & _ & Hb). apply bind_Ok in Hb as (re & _ & Hb).
      apply bind_Ok in Hb as (es & _ & Hb). apply bind_Ok in Hb as (ctx & _ & Hb).
      apply bind_Ok in Hb as (rq & Hrq%map_err_Ok & [= Hal]). apply decision_spec in Hal.
      exists rq, es. apply request_new_resource in Hrq as ->. done.
    + intros (p & Hp & Hs). rewrite <-not_true_iff_false, existsb_exists in Hsys. destruct Hsys.
      exists p. rewrite <-list_elem_of_In, bool_decide_eq_true. done.
Qed.
End cedar.

Import Demo.

Definition demo_authorizer : CedarAuthorizer (D := Demo.store) :=
  mkAuthorizer (sync_round 0 5 "u1" demo_sync) ["quartermaster-admin"; "quartermaster-guardrails"].
Definition demo_context : CommonContext := mkContext "" "" "t" "spire" "" [].

Lemma admin_authorization_witness :
  is_authorized_admin demo_authorizer
    (mkAdminReq ["quartermaster-admin"] "deleteBillet" "writer" demo_context) ∅ = Ok true ∧
  is_authorized_admin demo_authorizer
    (mkAdminReq ["reader"] "deleteBillet" "writer" demo_context) ∅ = Ok false.
Proof.
  split; [|by vm_compute].
  apply (admin_authorization demo_authorizer
    (mkAdminReq ["quartermaster-admin"] "deleteBillet" "writer" demo_context) ∅).
  exists "quartermaster-admin". split; compute_decide.
Defined.

End Cedar.
