(* ===== verification/Entity.v ===== *)
(** * Cedar principals for the identity sources ([src/src/domain/identity/entity.rs]) *)

From S2P Require Import Prelude Identity CedarApi.

Module Entity.
Import Identity CedarApi.

Inductive EntityBuildError : Type :=
| InvalidEntityType (msg : string)
| EntityCreationFailed (msg : string)
| ContextCreationFailed (msg : string).

Definition EntityBuildError_fmt (e : EntityBuildError) : string :=
  match e with
  | InvalidEntityType msg => "invalid entity type: " +:+ msg
  | EntityCreationFailed msg => "entity creation failed: " +:+ msg
  | ContextCreationFailed msg => "context creation failed: " +:+ msg
  end.

Record OidcEntity : Type := mkOidcEntity {
  oe_email : string;
  oe_idp_prefix : string;
  oe_subject : string;
  oe_subject_type : string;
  oe_groups : list string;
  oe_claims : list string
}.

Record AwsRoleEntity : Type := mkAwsRoleEntity {
  ae_account_id : string;
  ae_role_arn : string;
  ae_role_name : string;
  ae_role_path : string
}.

Record GcpWorkloadEntity : Type := mkGcpWorkloadEntity {
  ge_project_id : string;
  ge_email : string;
  ge_zone : string
}.

Inductive CedarPrincipal : Type :=
| POidc (e : OidcEntity)
| PAwsRole (e : AwsRoleEntity)
| PGcpWorkload (e : GcpWorkloadEntity).

Definition build_oidc_entity `{HashIter} (oidc : OidcIdentity) : OidcEntity :=
  let groups := dedup (sort_strings (flat_claims (claims oidc))) in
  let claims_ := dedup (sort_strings
    (hash_iter (map_to_list (claims oidc)) ≫= λ kv, (λ v, kv.1 +:+ ":" +:+ v) <$> kv.2)) in
  {| oe_email := oidc_email oidc; oe_idp_prefix := idp_prefix oidc; oe_subject := oidc_subject oidc;
     oe_subject_type := "human"; oe_groups := groups; oe_claims := claims_ |}.

Definition build_aws_role_entity (aws : AwsStsIdentity) : AwsRoleEntity :=
  mkAwsRoleEntity (account_id aws) (role_arn aws) (role_name aws) (role_path aws).

Definition build_gcp_entity (gcp : GcpIdentity) : GcpWorkloadEntity :=
  mkGcpWorkloadEntity (project_id gcp) (gcp_email gcp) (zone gcp).

(** [None]: the call panics. *)
Definition build_principal `{HashIter} (identity : AuthenticatedIdentity) : option CedarPrincipal :=
  match identity with
  | Spire _ => None
  | Oidc oidc => Some (POidc (build_oidc_entity oidc))
  | AwsSts aws => Some (PAwsRole (build_aws_role_entity aws))
  | Gcp gcp => Some (PGcpWorkload (build_gcp_entity gcp))
  end.

Definition source_type_for_identity (identity : AuthenticatedIdentity) : string :=
  match identity with
  | Spire _ => "spire"
  | Oidc _ => "oidc"
  | AwsSts _ => "aws-sts"
  | Gcp _ => "gcp"
  end.

Definition source_type_for_spire_identity (source : SpireAuthSource) : string :=
  match source with JwtSvid => "spire" | MtlsCert => "mtls-spiffe" end.

Definition source_cloud_for_identity (identity : AuthenticatedIdentity) : string :=
  match identity with
  | Spire _ | Oidc _ => ""
  | AwsSts _ => "aws"
  | Gcp _ => "gcp"
  end.

Section entity.
Context `{CedarLib}.

Definition make_entity_uid (entity_type id : string) : result EntityBuildError EntityUid :=
  type_name ← map_err InvalidEntityType
                (type_name_from_str ("Quartermaster" +:+ "::" +:+ entity_type));
  Ok (mkUid type_name id).

Definition string_set_expr (values : list string) : RestrictedExpression := ExprSet values.

Definition build_oidc_cedar_entity (oidc : OidcEntity) : result EntityBuildError Entity :=
  uid ← make_entity_uid "OidcIdentity" (oe_email oidc);
  let attrs := {["email" := ExprString (oe_email oidc); "idp_prefix" := ExprString (oe_idp_prefix oidc);
                 "groups" := string_set_expr (oe_groups oidc); "subject" := ExprString (oe_subject oidc);
                 "subject_type" := ExprString (oe_subject_type oidc);
                 "claims" := string_set_expr (oe_claims oidc)]} in
  map_err EntityCreationFailed (entity_new uid attrs).

Definition build_aws_cedar_entity (aws : AwsRoleEntity) : result EntityBuildError Entity :=
  uid ← make_entity_uid "AwsRoleIdentity" (ae_role_arn aws);
  let attrs := {["account_id" := ExprString (ae_account_id aws); "role_arn" := ExprString (ae_role_arn aws);
                 "role_name" := ExprString (ae_role_name aws); "role_path" := ExprString (ae_role_path aws)]} in
  map_err EntityCreationFailed (entity_new uid attrs).

Definition build_gcp_cedar_entity (gcp : GcpWorkloadEntity) : result EntityBuildError Entity :=
  uid ← make_entity_uid "GcpIdentity" (ge_email gcp);
  let attrs := {["project_id" := ExprString (ge_project_id gcp); "email" := ExprString (ge_email gcp);
                 "zone" := ExprString (ge_zone gcp)]} in
  map_err EntityCreationFailed (entity_new uid attrs).

Definition build_cedar_entity (principal : CedarPrincipal) : result EntityBuildError Entity :=
  match principal with
  | POidc oidc => build_oidc_cedar_entity oidc
  | PAwsRole aws => build_aws_cedar_entity aws
  | PGcpWorkload gcp => build_gcp_cedar_entity gcp
  end.

Definition principal_entity_uid (principal : CedarPrincipal) : result EntityBuildError EntityUid :=
  match principal with
  | POidc oidc => make_entity_uid "OidcIdentity" (oe_email oidc)
  | PAwsRole aws => make_entity_uid "AwsRoleIdentity" (ae_role_arn aws)
  | PGcpWorkload gcp => make_entity_uid "GcpIdentity" (ge_email gcp)
  end.

Definition build_identity_context (identity : AuthenticatedIdentity)
    (environment region request_time : string) (selectors : list string) :
    result EntityBuildError Context :=
  map_err ContextCreationFailed (context_from_pairs
    [("environment", ExprString environment); ("region", ExprString region);
     ("request_time", ExprString request_time);
     ("source_type", ExprString (source_type_for_identity identity));
     ("source_cloud", ExprString (source_cloud_for_identity identity));
     ("selectors", string_set_expr selectors)]).
End entity.

(* ------------------------------------------------------------------ *)
(** ** Properties *)

Lemma concat_perm {A} (l l' : list (list A)) : l ≡ₚ l' → mjoin l ≡ₚ mjoin l'.
Proof.
  induction 1 as [|x l l' _ IH|x y l|l l' l'' _ IH1 _ IH2]; cbn; [done| | |by etrans].
  - by rewrite IH.
  - by rewrite !app_assoc, (Permutation_app_comm x y).
Qed.

Lemma bind_perm {A B} (f : A → list B) l l' : l ≡ₚ l' → l ≫= f ≡ₚ l' ≫= f.
Proof.
  induction 1 as [|x l l' _ IH|x y l|l l' l'' _ IH1 _ IH2]; [done| | |by etrans].
  - by rewrite !bind_cons, IH.
  - by rewrite !bind_cons, !app_assoc, (Permutation_app_comm (f x)).
Qed.

(** The Cedar attributes of an OIDC identity do not depend on the iteration
    order of the claims map: any two orders give the same entity, whose [groups]
    are exactly the claim values and whose [claims] are exactly the
    [name:value] pairs. *)
Theorem oidc_entity_order_independent (h1 h2 : HashIter) (oidc : OidcIdentity) :
  @build_oidc_entity h1 oidc = @build_oidc_entity h2 oidc ∧
  (∀ g, g ∈ oe_groups (@build_oidc_entity h1 oidc) ↔
     ∃ k vs, claims oidc !! k = Some vs ∧ g ∈ vs) ∧
  (∀ c, c ∈ oe_claims (@build_oidc_entity h1 oidc) ↔
     ∃ k vs v, claims oidc !! k = Some vs ∧ v ∈ vs ∧ c = k +:+ ":" +:+ v).
Proof.
  unfold build_oidc_entity, flat_claims, sort_strings. split_and!.
  - assert (@hash_iter h1 _ (map_to_list (claims oidc)) ≡ₚ @hash_iter h2 _ (map_to_list (claims oidc))) as Hp
      by by rewrite !hash_iter_perm.
    f_equal; f_equal; apply sort_strings_canonical.
    + by apply concat_perm, fmap_Permutation.
    + by apply bind_perm.
  - intros g. cbn. rewrite elem_of_dedup, merge_sort_Permutation, list_elem_of_join.
    setoid_rewrite list_elem_of_fmap. split.
    + intros (vs & Hg & ([k vs'] & -> & Hin)). rewrite elem_of_hash_iter, elem_of_map_to_list in Hin. eauto.
    + intros (k & vs & Hk & Hg). exists vs. split; [done|]. exists (k, vs).
      by rewrite elem_of_hash_iter, elem_of_map_to_list.
  - intros c. cbn. rewrite elem_of_dedup, merge_sort_Permutation, list_elem_of_bind. split.
    + intros ([k vs] & (v & -> & Hv)%list_elem_of_fmap & Hin).
      rewrite elem_of_hash_iter, elem_of_map_to_list in Hin. eauto 10.
    + intros (k & vs & v & Hk & Hv & ->). exists (k, vs). split; [by apply list_elem_of_fmap; eauto|].
      by rewrite elem_of_hash_iter, elem_of_map_to_list.
Qed.

End Entity.
