(* ===== verification/Resolver.v ===== *)
(** * Billet resolution ([src/src/domain/billet/mod.rs])

    [resolve] answers from the cache when it can, otherwise asks the authorizer
    about every known billet and caches what it allows; [scope_billets] restricts
    an entitlement to what the client asked for.  The cache and the authorizer
    are used through their interfaces. *)

From S2P Require Import Prelude Cache PathPattern DataStore LocalStore CedarApi AuditLog Demo Sync Cedar.

Module Resolver.
Import Cache PathPattern DataStore CedarApi Sync.

Record Resolution : Type := mkResolution { rbillets : list string; cache_hit : bool }.

Inductive BilletError : Type :=
| NoBilletsResolved
| PolicySetNotInitialized
| InternalError (msg : string).

Definition BilletError_fmt (e : BilletError) : string :=
  match e with
  | NoBilletsResolved => "no billets resolved (all denied)"
  | PolicySetNotInitialized => "policy set not initialized"
  | InternalError msg => "internal error: " +:+ msg
  end.

Section resolver.
Context `{CedarLib} `{RegexLib} `{HashIter} {D : Type} `{DataStore D} {C : Type} `{Cache C}.

Record TypedPrincipal : Type := mkTyped {
  tp_principal_type : string;
  tp_principal_id : string;
  tp_entities : list Entity;
  tp_source_type : string;
  tp_source_cloud : string
}.

Record ResolverInput : Type := mkInput {
  spiffe_id : string;
  trust_domain : string;
  environment : string;
  region : string;
  audience : string;
  request_time : Z;
  source_cloud : string;
  typed_principal : option TypedPrincipal
}.

(** What a resolver is built with; [to_rfc3339] renders instants. *)
Record BilletResolverImpl : Type := mkResolver {
  authorizer : Cedar.EntityBatchAuthzRequest → gmap string (list string) →
    result Cedar.CedarError (list Cedar.AuthzDecision);
  policy_sync : PolicySyncService (D := D);
  cache_ttl : Z;
  path_pattern_matcher : PathPatternMatcher;
  to_rfc3339 : Z → string
}.

Definition build_request (rv : BilletResolverImpl) (input : ResolverInput) (resources : list string) :
    result BilletError Cedar.EntityBatchAuthzRequest :=
  match typed_principal input with
  | Some typed =>
      Ok (Cedar.mkBatchReq (tp_principal_type typed) (tp_principal_id typed) (tp_entities typed)
            "assumeBillet" resources
            (Cedar.mkContext (environment input) (region input)
               (to_rfc3339 rv (request_time input)) (tp_source_type typed) (tp_source_cloud typed) []))
  | None =>
      let captures := extract (path_pattern_matcher rv) (spiffe_id input) in
      principal_entities ← map_err
        (λ e, InternalError ("entity construction failed: " +:+ Cedar.CedarError_fmt e))
        (Cedar.build_workload_entities_from_captures (spiffe_id input) (trust_domain input) captures);
      Ok (Cedar.mkBatchReq "Workload" (spiffe_id input) principal_entities "assumeBillet" resources
            (Cedar.mkContext (environment input) (region input)
               (to_rfc3339 rv (request_time input)) "spire" (source_cloud input) []))
  end.

(** Everything between the cache lookup and the cache store. *)
Definition evaluate (rv : BilletResolverImpl) (input : ResolverInput) : result BilletError (list string) :=
  let known_billets := get_known_billets (policy_sync rv) in
  _ ← fail_if (bool_decide (known_billets = ∅) && negb (is_initialized (policy_sync rv)))
        PolicySetNotInitialized;
  _ ← fail_if (bool_decide (known_billets = ∅)) NoBilletsResolved;
  let resources := hash_iter (elements known_billets) in
  entity_req ← build_request rv input resources;
  decisions ← map_err (λ e, InternalError ("authorization failed: " +:+ Cedar.CedarError_fmt e))
                (authorizer rv entity_req ∅);
  let billets := Cedar.resource <$> filter (λ d, Cedar.decision d = Allow) decisions in
  _ ← fail_if (bool_decide (billets = [])) NoBilletsResolved;
  Ok billets.

(** A cache failure is logged and otherwise ignored. *)
Definition try_get (now : Z) (input : ResolverInput) : M C BilletError (option CacheEntry) :=
  λ c, match cache_get now (spiffe_id input) (audience input) c with
       | (Ok o, c') => (Ok o, c')
       | (Err _, c') => (Ok None, c')
       end.
Definition try_set (now wall : Z) (input : ResolverInput) (billets : list string) (ttl : Z) :
    M C BilletError unit :=
  λ c, (Ok tt, (cache_set now wall (spiffe_id input) (audience input) billets ttl c).2).

(** [now] and [wall] are the instants of the two cache operations' clocks. *)
Definition resolve (rv : BilletResolverImpl) (now wall : Z) (input : ResolverInput) :
    M C BilletError Resolution :=
  cached ← try_get now input;
  match cached with
  | Some entry => mret (mkResolution (billets entry) true)
  | None =>
      billets ← lift_res (evaluate rv input);
      _ ← try_set now wall input billets (cache_ttl rv);
      mret (mkResolution billets false)
  end.

(* ------------------------------------------------------------------ *)
(** ** Lemmas *)

Lemma evaluate_inv rv input bs :
  evaluate rv input = Ok bs →
  bs ≠ [] ∧ ∃ req ds, build_request rv input (hash_iter (elements (get_known_billets (policy_sync rv)))) = Ok req ∧
    authorizer rv req ∅ = Ok ds ∧
    bs = Cedar.resource <$> filter (λ d, Cedar.decision d = Allow) ds.
Proof.
  unfold evaluate. intros ([] & _ & E)%bind_Ok. apply bind_Ok in E as ([] & _ & E).
  apply bind_Ok in E as (req & Hreq & E). apply bind_Ok in E as (ds & Hds%map_err_Ok & E).
  apply bind_Ok in E as ([] & Hne%fail_if_Ok & [= <-]). apply bool_decide_eq_false in Hne. eauto 10.
Qed.

Lemma build_request_resources rv input rs req :
  build_request rv input rs = Ok req → Cedar.resources req = rs.
Proof.
  unfold build_request. destruct (typed_principal input).
  - by intros [= <-].
  - by intros (es & _ & [= <-])%bind_Ok.
Qed.

Lemma resolve_cases rv now wall input c r c' :
  resolve rv now wall input c = (r, c') →
  (∃ e, cache_get now (spiffe_id input) (audience input) c = (Ok (Some e), c') ∧
        r = Ok (mkResolution (billets e) true)) ∨
  (∃ x c1, cache_get now (spiffe_id input) (audience input) c = (x, c1) ∧
     (∀ e, x ≠ Ok (Some e)) ∧
     match evaluate rv input with
     | Ok bs => r = Ok (mkResolution bs false) ∧
         c' = (cache_set now wall (spiffe_id input) (audience input) bs (cache_ttl rv) c1).2
     | Err e => r = Err e ∧ c' = c1
     end).
Proof.
  unfold resolve, try_get, try_set. unfold_monad.
  destruct (cache_get _ _ _ c) as [[[e|]|e] c1] eqn:Hg; cbn.
  - intros [= <- <-]. left. eauto.
  - intros Hr. right. exists (Ok None), c1. split_and!; [done..|].
    destruct (evaluate rv input); by injection Hr as <- <-.
  - intros Hr. right. exists (Err e), c1. split_and!; [done..|].
    destruct (evaluate rv input); by injection Hr as <- <-.
Qed.

Context `{!CedarLaws}.

(** What the authorizer was asked for the caller allows each evaluated billet. *)
Lemma evaluate_allows rv (a : Cedar.CedarAuthorizer (D := D)) input bs b :
  authorizer rv = Cedar.batch_is_authorized_entity a → evaluate rv input = Ok bs → b ∈ bs →
  b ∈ get_known_billets (policy_sync rv) ∧
  ∃ ps req rs, policy_set_handle (Cedar.policy_sync a) = Some ps ∧ build_request rv input rs = Ok req ∧
    Cedar.allows ps (billet_tags (Cedar.policy_sync a)) (Cedar.principal_type req) (Cedar.principal_id req)
      (Cedar.principal_entities req) (Cedar.action req) (Cedar.facts_of (Cedar.context req)) b.
Proof.
  intros Ha (_ & req & ds & Hreq & Hds & ->)%evaluate_inv Hb. rewrite Ha in Hds.
  apply Cedar.batch_allows in Hds as (ps & Hps & Hall).
  pose proof (build_request_resources _ _ _ _ Hreq) as Hrs. rewrite Hrs in Hall.
  apply list_elem_of_fmap in Hb as (d & -> & [Hd Hin]%list_elem_of_filter).
  apply list_elem_of_lookup in Hin as [i Hi].
  destruct (Forall2_lookup_r _ _ _ _ _ Hall Hi) as (n & Hn & <- & Hp).
  split; [|eexists ps, req, _; split; [done|split; [exact Hreq|by apply Hp]]]. apply list_elem_of_lookup_2 in Hn.
  by rewrite elem_of_hash_iter, elem_of_elements in Hn.
Qed.

(** With Cedar as authorizer, an evaluated billet is known and permitted. *)
Lemma evaluate_permitted rv (a : Cedar.CedarAuthorizer (D := D)) input bs b :
  authorizer rv = Cedar.batch_is_authorized_entity a → evaluate rv input = Ok bs → b ∈ bs →
  b ∈ get_known_billets (policy_sync rv) ∧
  ∃ ps, policy_set_handle (Cedar.policy_sync a) = Some ps ∧ Cedar.permitted ps b.
Proof.
  intros Ha He Hb. destruct (evaluate_allows _ _ _ _ _ Ha He Hb) as (Hk & ps & req & rs & Hps & _ & Hal).
  split; [done|]. exists ps. split; [done|]. by eapply Cedar.allows_permitted.
Qed.

Context `{!CacheLaws C}.

(** [resolve] keeps any justification of the cache slots that covers what it evaluates;
    what it returns is justified for its own slot, and is the evaluation itself unless the
    cache had a live answer. *)
Lemma resolve_justified rv (P : string → list string → Prop) now wall input c r c' :
  (∀ bs, evaluate rv input = Ok bs → P (cache_slot (spiffe_id input) (audience input)) bs) →
  cache_holds P c → resolve rv now wall input c = (r, c') →
  cache_holds P c' ∧ ∀ res, r = Ok res → P (cache_slot (spiffe_id input) (audience input)) (rbillets res) ∧
    ((∀ e c1, cache_get now (spiffe_id input) (audience input) c ≠ (Ok (Some e), c1)) →
     evaluate rv input = Ok (rbillets res)).
Proof.
  intros HP Hc Hr. apply resolve_cases in Hr as [(e & Hg & ->)|(x & c1 & Hg & Hx & Hr)].
  - pose proof (cache_get_sound _ _ _ _ _ _ _ Hc Hg) as He.
    apply cache_get_holds with (P := P) in Hg as Hc'; [|done]. split; [done|]. intros res [= <-].
    split; [done|]. intros Hn. by destruct (Hn e c').
  - apply cache_get_holds with (P := P) in Hg; [|done].
    destruct (evaluate rv input) as [bs|e] eqn:He; destruct Hr as [-> ->]; [|done].
    split; [|intros ? [= <-]; split; [by apply HP|done]]. destruct (cache_set _ _ _ _ _ _ c1) as [y c2] eqn:Hs.
    eapply cache_set_holds in Hs; [done..|by apply HP].
Qed.

(** If everything in the cache is justified by a property [G] that permits of
    the policy set in force imply, so is every billet [resolve] returns, and what
    it leaves in the cache. *)
Lemma resolve_preserves rv (a : Cedar.CedarAuthorizer (D := D)) (G : string → Prop)
    now wall input c r c' :
  authorizer rv = Cedar.batch_is_authorized_entity a →
  (∀ ps b, policy_set_handle (Cedar.policy_sync a) = Some ps → Cedar.permitted ps b → G b) →
  cache_holds (λ _ bs, Forall G bs) c →
  resolve rv now wall input c = (r, c') →
  cache_holds (λ _ bs, Forall G bs) c' ∧ ∀ res, r = Ok res → Forall G (rbillets res).
Proof.
  intros Ha HG Hc Hr. eapply resolve_justified in Hr as [Hc' Hres]; [| |done]; cbv beta.
  - split; [done|]. intros res Hr. by apply Hres.
  - intros bs He. apply Forall_forall. intros b Hb.
    eapply evaluate_permitted in He as (_ & ps & Hps & Hp); eauto.
Qed.

(** The authorizer's answers for the known billets. *)
Definition answers (rv : BilletResolverImpl) (input : ResolverInput)
    (ds : list Cedar.AuthzDecision) : Prop :=
  ∃ req, build_request rv input (hash_iter (elements (get_known_billets (policy_sync rv)))) = Ok req ∧
    authorizer rv req ∅ = Ok ds.

Lemma answers_resources rv (a : Cedar.CedarAuthorizer (D := D)) input ds :
  authorizer rv = Cedar.batch_is_authorized_entity a → answers rv input ds →
  Cedar.resource <$> ds = hash_iter (elements (get_known_billets (policy_sync rv))).
Proof.
  intros Ha (req & Hreq%build_request_resources & Hds). rewrite Ha in Hds.
  apply Cedar.batch_decisions in Hds as (ps & _ & Hall). rewrite Hreq in Hall. clear -Hall.
  induction Hall as [|n d ns ds [Hn _] _ IH]; [done|]. cbn. by rewrite Hn, IH.
Qed.

Lemma build_request_err rv input rs e :
  build_request rv input rs = Err e → ∃ m, e = InternalError m.
Proof.
  unfold build_request. destruct (typed_principal input); [done|].
  destruct (Cedar.build_workload_entities_from_captures _ _ _); cbn; [done|]. intros [= <-]. eauto.
Qed.

Lemma evaluate_err rv input e :
  evaluate rv input = Err e →
  match e with
  | PolicySetNotInitialized => state (policy_sync rv) = None
  | NoBilletsResolved => is_Some (state (policy_sync rv)) ∧
      (get_known_billets (policy_sync rv) = ∅ ∨
       ∃ ds, answers rv input ds ∧ ∀ d, d ∈ ds → Cedar.decision d = Deny)
  | InternalError _ => get_known_billets (policy_sync rv) ≠ ∅ ∧ ∀ ds, ¬ answers rv input ds
  end.
Proof.
  assert (state (policy_sync rv) = None → get_known_billets (policy_sync rv) = ∅) as Hnone.
  { unfold get_known_billets. by intros ->. }
  unfold evaluate, is_initialized, answers.
  destruct (decide (get_known_billets (policy_sync rv) = ∅)) as [Hk|Hk].
  { rewrite (bool_decide_eq_true_2 (_ = ∅)) by done. cbn. case_bool_decide; cbn; intros [= <-].
    - split; [done|by left].
    - by apply eq_None_not_Some. }
  assert (is_Some (state (policy_sync rv))) as Hst.
  { apply not_eq_None_Some. intros E. by apply Hk, Hnone. }
  rewrite (bool_decide_eq_false_2 (_ = ∅)) by done. cbn.
  destruct (build_request _ _ _) as [req|e'] eqn:Hreq; cbn.
  2:{ intros [= <-]. apply build_request_err in Hreq as Hm. destruct Hm as [m ->].
      split; [done|]. intros ds (req' & Hreq' & _). congruence. }
  destruct (authorizer rv req ∅) as [ds|e'] eqn:Hds; cbn.
  2:{ intros [= <-]. split; [done|]. intros ds (req' & Hr' & Hd'). congruence. }
  case_bool_decide as Hnil; cbn; [|done]. intros [= <-]. split; [done|]. right. exists ds.
  split; [by exists req|]. intros d Hd. apply fmap_nil_inv, bool_filter_nil in Hnil.
  rewrite Forall_forall in Hnil. specialize (Hnil d Hd). by destruct (Cedar.decision d).
Qed.

(** Without a cached answer every outcome is determined by the
    synchronised state and the authorizer: 503 exactly before the first
    synchronisation; no billets when none is known or none is allowed; an
    internal error when the request cannot be built or evaluated; and otherwise
    the known billets the authorizer allows, each once. *)
Theorem resolve_evaluates rv (a : Cedar.CedarAuthorizer (D := D)) now wall input c c1 :
  authorizer rv = Cedar.batch_is_authorized_entity a →
  cache_get now (spiffe_id input) (audience input) c = (Ok None, c1) →
  match (resolve rv now wall input c).1 with
  | Ok res => cache_hit res = false ∧ rbillets res ≠ [] ∧ NoDup (rbillets res) ∧
      ∃ ds, answers rv input ds ∧
        ∀ b, b ∈ rbillets res ↔ b ∈ get_known_billets (policy_sync rv) ∧ Cedar.mkDecision b Allow ∈ ds
  | Err PolicySetNotInitialized => state (policy_sync rv) = None
  | Err NoBilletsResolved => is_Some (state (policy_sync rv)) ∧
      (get_known_billets (policy_sync rv) = ∅ ∨
       ∃ ds, answers rv input ds ∧ ∀ d, d ∈ ds → Cedar.decision d = Deny)
  | Err (InternalError _) => get_known_billets (policy_sync rv) ≠ ∅ ∧ ∀ ds, ¬ answers rv input ds
  end.
Proof.
  intros Ha Hg. destruct (resolve rv now wall input c) as [r c'] eqn:Hr. cbn.
  apply resolve_cases in Hr as [(e & Hg' & _)|(x & c2 & Hg' & _ & Hr)]; [congruence|].
  destruct (evaluate rv input) as [bs|e] eqn:He; destruct Hr as [-> _].
  - apply evaluate_inv in He as (Hne & req & ds & Hreq & Hds & Hbs). cbn.
    assert (answers rv input ds) as Hans by (by exists req).
    pose proof (answers_resources _ _ _ _ Ha Hans) as Hres. split_and!; [done|done| |].
    + rewrite Hbs. apply NoDup_fmap_filter. rewrite Hres, hash_iter_perm. apply NoDup_elements.
    + exists ds. split; [done|]. intros b. rewrite Hbs, list_elem_of_fmap. split.
      * intros ([n dec] & -> & [Hd Hin]%list_elem_of_filter). cbn in *. subst. split; [|done].
        rewrite <-elem_of_elements, <-elem_of_hash_iter, <-Hres. by apply (list_elem_of_fmap_2 Cedar.resource _ _ Hin).
      * intros [_ Hin]. exists (Cedar.mkDecision b Allow). split; [done|]. by apply list_elem_of_filter.
  - by apply evaluate_err in He.
Qed.
End resolver.

(* ------------------------------------------------------------------ *)
(** ** Witnesses *)

Import Demo.

Definition demo_matcher `{RegexLib} : PathPatternMatcher := mkMatcher [] "td".

#[local] Instance no_regex : RegexLib := {|
  Regex := string; regex_new := λ p, Ok p; regex_as_str := id; regex_capture_names := λ _, [];
  regex_is_match := λ _ _, false; regex_captures := λ _ _, None |}.

Definition demo_resolver : BilletResolverImpl (D := Demo.store) :=
  mkResolver (Cedar.batch_is_authorized_entity Cedar.demo_authorizer)
    (Cedar.policy_sync Cedar.demo_authorizer) (secs 300) demo_matcher (λ _, "t").

Definition demo_input : ResolverInput :=
  mkInput "spiffe://td/app" "td" "" "" "aud" 0 "" None.

Lemma resolve_evaluates_witness :
  (resolve demo_resolver 0 0 demo_input Memory.new).1 = Ok (mkResolution ["reader"] false) ∧
  NoDup ["reader"].
Proof.
  assert ((resolve demo_resolver 0 0 demo_input Memory.new).1 = Ok (mkResolution ["reader"] false)) as E
    by (vm_compute; reflexivity).
  split; [done|].
  pose proof (resolve_evaluates demo_resolver Cedar.demo_authorizer 0 0 demo_input Memory.new
    Memory.new eq_refl eq_refl) as H. rewrite E in H. by destruct H as (_ & _ & ? & _).
Defined.

(* ------------------------------------------------------------------ *)
(** ** Scoping *)

Record ScopeResult : Type := mkScopeResult { scoped : list string }.
Record ScopeDenied : Type := mkScopeDenied { denied : list string }.

Definition scope_billets (entitled requested : list string) : result ScopeDenied ScopeResult :=
  let entitled_set : gset string := list_to_set entitled in
  let denied := filter (λ r, r ∉ entitled_set) requested in
  if bool_decide (denied = []) then Ok (mkScopeResult requested) else Err (mkScopeDenied denied).

(** Scoping succeeds exactly when every requested billet is entitled, and
    then yields the request unchanged; otherwise it names exactly the requested
    billets that are not entitled, in order.  It never adds a billet. *)
Theorem scope_billets_spec entitled requested :
  (∀ r, scope_billets entitled requested = Ok r ↔
     (∀ b, b ∈ requested → b ∈ entitled) ∧ scoped r = requested) ∧
  (∀ d, scope_billets entitled requested = Err d ↔
     denied d = filter (λ b, b ∉ entitled) requested ∧ denied d ≠ []).
Proof.
  assert (filter (λ r, r ∉ (list_to_set entitled : gset string)) requested =
          filter (λ b, b ∉ entitled) requested) as Hf.
  { apply list_filter_iff. intros b. by rewrite elem_of_list_to_set. }
  unfold scope_billets. rewrite Hf. case_bool_decide as Hn.
  - assert (∀ b, b ∈ requested → b ∈ entitled) as Hall.
    { intros b Hb. apply bool_filter_nil in Hn. rewrite Forall_forall in Hn.
      destruct (decide (b ∈ entitled)); [done|]. by destruct (Hn b Hb). }
    split; intros [r]; cbn.
    + split; [by intros [= <-]|]. by intros [_ ->].
    + split; [done|]. by intros [-> ?].
  - split; intros [r]; cbn.
    + split; [done|]. intros [Hall _]. destruct Hn. apply bool_filter_nil, Forall_forall.
      intros b Hb Hnot. by apply Hnot, Hall.
    + split; [by intros [= <-]|]. by intros [-> _].
Qed.

End Resolver.
