(* ===== verification/Concurrent.v ===== *)
(** * Resolutions, synchronisation and time interleaved
    ([src/src/domain/billet/mod.rs], [src/src/sync/mod.rs], [src/src/cedar/mod.rs],
    [src/src/domain/cache/memory.rs])

    [Resolver.resolve] and [Sync.sync_once] are whole calls.  In the running server they
    are asynchronous: between two awaits of a resolution other requests run, policies are
    published and time passes.  Here a resolution is a task whose turns are the stretches
    between its awaits, the synchroniser is a task too, and a run is any sequence of
    turns.  A task that runs alone does what [resolve] (or [sync_once]) does. *)

From S2P Require Import Prelude Cache PathPattern DataStore LocalStore CedarApi AuditLog Demo Sync.
From S2P Require Import Cedar Resolver.

Module Concurrent.
Import Cache PathPattern DataStore CedarApi Sync Resolver.
Local Open Scope Z_scope.

Section concurrent.
Context `{CedarLib} `{RegexLib} `{HashIter} {D : Type} `{DataStore D}.
Context (system_billets : list string) (cache_ttl : Z) (matcher : PathPatternMatcher) (to_rfc3339 : Z → string).

Definition resolver_at (s : PolicySyncService (D := D)) : BilletResolverImpl (D := D) :=
  mkResolver (Cedar.batch_is_authorized_entity (Cedar.mkAuthorizer s system_billets)) s cache_ttl matcher to_rfc3339.

Definition slot (input : ResolverInput) : string := Memory.cache_key (spiffe_id input) (audience input).

(* ------------------------------------------------------------------ *)
(** ** A resolution, await by await *)

(** Where a resolution stands: before the read lock of the cache, before its write lock,
    before [known_billets] and [is_initialized], before the tags of the billets to do,
    before the policy set, before the cache is written. *)
Inductive phase : Type :=
| Lookup
| LookupWrite
| Known
| Initialized
| TagsOf (req : Cedar.EntityBatchAuthzRequest) (todo : list string) (map : gmap string (list string))
| Decide (req : Cedar.EntityBatchAuthzRequest) (resolved_tags : gmap string (list string))
| StoreAnswer (billets : list string)
| Finished (r : result BilletError Resolution).

(** The part of [batch_is_authorized_entity] under the lock of the policy set. *)
Definition decide_all (handle : option PolicySet) (resolved_tags : gmap string (list string))
    (req : Cedar.EntityBatchAuthzRequest) : result Cedar.CedarError (list Cedar.AuthzDecision) :=
  ps ← ok_or Cedar.PolicySetNotInitialized handle;
  principal_uid ← Cedar.make_entity_uid (Cedar.principal_type req) (Cedar.principal_id req);
  action_uid ← Cedar.make_entity_uid "Action" (Cedar.action req);
  try_map (Cedar.decide_resource ps resolved_tags req principal_uid action_uid) (Cedar.resources req).

Definition allowed (ds : list Cedar.AuthzDecision) : list string :=
  Cedar.resource <$> filter (λ d, Cedar.decision d = Allow) ds.

Definition found (o : option CacheEntry) : phase :=
  match o with Some entry => Finished (Ok (mkResolution (billets entry) true)) | None => Known end.

(** One turn, at an instant, with the service and the cache as they are then. *)
Definition turn (s : PolicySyncService (D := D)) (now wall : Z) (input : ResolverInput) (p : phase)
    (c : Memory.InMemoryCache) : phase * Memory.InMemoryCache :=
  match p with
  | Lookup =>
      match Memory.get_read now (slot input) c with
      | Some o => (found o, c)
      | None => (LookupWrite, c)
      end
  | LookupWrite => let '(o, c') := Memory.get_write now (slot input) c in (found o, c')
  | Known =>
      let known := get_known_billets s in
      if bool_decide (known = ∅) then (Initialized, c)
      else
        match build_request (resolver_at s) input (hash_iter (elements known)) with
        | Ok req => (TagsOf req (Cedar.resources req) ∅, c)
        | Err e => (Finished (Err e), c)
        end
  | Initialized =>
      (Finished (Err (if is_initialized s then NoBilletsResolved else PolicySetNotInitialized)), c)
  | TagsOf req (n :: todo) map => (TagsOf req todo (Cedar.collect_tags s [n] map), c)
  | TagsOf req [] map => (Decide req map, c)
  | Decide req map =>
      match decide_all (policy_set_handle s) map req with
      | Ok ds => (if bool_decide (allowed ds = []) then Finished (Err NoBilletsResolved) else StoreAnswer (allowed ds), c)
      | Err e => (Finished (Err (InternalError ("authorization failed: " +:+ Cedar.CedarError_fmt e))), c)
      end
  | StoreAnswer bs =>
      (Finished (Ok (mkResolution bs false)), (Memory.set now wall (spiffe_id input) (audience input) bs cache_ttl c).2)
  | Finished r => (Finished r, c)
  end.

(* ------------------------------------------------------------------ *)
(** ** A round of the synchroniser, await by await *)

Inductive sync_phase : Type :=
| SPolicies
| SBillets (new_policy_set : option PolicySet)
| SState (new_policy_set : option PolicySet) (new_billet_metadata : option (list BilletRecord))
| SHandle (next : PolicySyncState)
| SPublish (next : PolicySyncState).

Definition next_state (new_policy_set : option PolicySet) (new_billet_metadata : option (list BilletRecord))
    (current_state : option PolicySyncState) : result string PolicySyncState :=
  policy_set_ ←
    match new_policy_set, current_state, new_billet_metadata with
    | Some ps, _, _ => Ok ps
    | None, Some st, _ => Ok (policy_set st)
    | None, None, None => Err "Both list_all_policies and list_billets failed with no prior state"
    | None, None, Some _ => parse_policy_set ""
    end;
  Ok (match new_billet_metadata, current_state with
      | Some records, _ => mkSyncState policy_set_ (list_to_set (name <$> records)) records
      | None, Some st => mkSyncState policy_set_ (known_billets st) (billet_metadata st)
      | None, None => mkSyncState policy_set_ ∅ []
      end).

(** A failed round is over: its turns start again with the policies. *)
Definition sync_turn (s : PolicySyncService (D := D)) (p : sync_phase) : PolicySyncService (D := D) * sync_phase :=
  let with_store d := mkSync (state s) (policy_set_handle s) d (audit_service s) in
  match p with
  | SPolicies =>
      let '(r, d) := list_all_policies (data_store s) in
      (with_store d, SBillets match r with Ok records => match parse_policies records with Ok ps => Some ps | Err _ => None end | Err _ => None end)
  | SBillets ps =>
      let '(r, d) := list_billets (data_store s) in
      (with_store d, SState ps match r with Ok records => Some records | Err _ => None end)
  | SState ps metadata =>
      (s, match next_state ps metadata (state s) with Ok next => SHandle next | Err _ => SPolicies end)
  | SHandle next => (mkSync (state s) (Some (policy_set next)) (data_store s) (audit_service s), SPublish next)
  | SPublish next => (mkSync (Some next) (policy_set_handle s) (data_store s) (audit_service s), SPolicies)
  end.

(* ------------------------------------------------------------------ *)
(** ** The running server *)

Record system : Type := mkSystem {
  clock : Z;
  cache : Memory.InMemoryCache;
  service : PolicySyncService (D := D);
  syncing : sync_phase;
  tasks : gmap nat (ResolverInput * phase)
}.

(** [StoreBecomes]: somebody else writes to the data store.  [Dropped]: the client went
    away and the task is dropped between two turns. *)
Inductive event : Type :=
| Tick (t : Z)
| Begin (id : nat) (input : ResolverInput)
| Turn (id : nat) (wall : Z)
| Dropped (id : nat)
| SyncTurn
| StoreBecomes (d : D)
| Cleanup.

Definition exec (e : event) (x : system) : system :=
  match e with
  | Tick t => mkSystem (Z.max (clock x) t) (cache x) (service x) (syncing x) (tasks x)
  | Begin id input =>
      match tasks x !! id with
      | None => mkSystem (clock x) (cache x) (service x) (syncing x) (<[id := (input, Lookup)]> (tasks x))
      | Some _ => x
      end
  | Turn id wall =>
      match tasks x !! id with
      | Some (input, p) =>
          let '(p', c') := turn (service x) (clock x) wall input p (cache x) in
          mkSystem (clock x) c' (service x) (syncing x) (<[id := (input, p')]> (tasks x))
      | None => x
      end
  | Dropped id => mkSystem (clock x) (cache x) (service x) (syncing x) (delete id (tasks x))
  | SyncTurn =>
      let '(s', p') := sync_turn (service x) (syncing x) in mkSystem (clock x) (cache x) s' p' (tasks x)
  | StoreBecomes d =>
      let s := service x in
      mkSystem (clock x) (cache x) (mkSync (state s) (policy_set_handle s) d (audit_service s)) (syncing x) (tasks x)
  | Cleanup => mkSystem (clock x) (Memory.cleanup (clock x) (cache x)) (service x) (syncing x) (tasks x)
  end.

Definition run (es : list event) (x : system) : system := foldl (λ x e, exec e x) x es.

Lemma run_app es1 es2 x : run (es1 ++ es2) x = run es2 (run es1 x).
Proof. apply foldl_app. Qed.

Definition start (t : Z) (d : D) (a : AuditLog.AuditService) : system :=
  mkSystem t Memory.new (Sync.new d a) SPolicies ∅.

(** A condition on every state of a run. *)
Fixpoint throughout (I : system → Prop) (es : list event) (x : system) : Prop :=
  I x ∧ match es with [] => True | e :: es' => throughout I es' (exec e x) end.

(* ------------------------------------------------------------------ *)
(** ** A task that runs alone *)

Implicit Types s : PolicySyncService (D := D).

Lemma batch_unfold s req :
  Cedar.batch_is_authorized_entity (Cedar.mkAuthorizer s system_billets) req ∅ =
  decide_all (policy_set_handle s) (Cedar.collect_tags s (Cedar.resources req) ∅) req.
Proof. done. Qed.

Definition alone (s : PolicySyncService (D := D)) (now wall : Z) (input : ResolverInput) (n : nat)
    (x : phase * Memory.InMemoryCache) : phase * Memory.InMemoryCache :=
  Nat.iter n (λ '(p, c), turn s now wall input p c) x.

Lemma alone_S s now wall input n p c :
  alone s now wall input (S n) (p, c) = alone s now wall input n (turn s now wall input p c).
Proof. unfold alone. rewrite Nat.iter_succ_r. done. Qed.

Lemma alone_tags s now wall input req c : ∀ todo map n,
  alone s now wall input (length todo + n) (TagsOf req todo map, c) =
  alone s now wall input n (TagsOf req [] (Cedar.collect_tags s todo map), c).
Proof.
  induction todo as [|x todo IH]; intros map n; [done|]. cbn [length Nat.add]. rewrite alone_S. cbn [turn].
  rewrite IH. done.
Qed.

Lemma alone_known s now wall input c : ∃ n, alone s now wall input n (Known, c) =
  match evaluate (resolver_at s) input with
  | Ok bs => (Finished (Ok (mkResolution bs false)), (Memory.set now wall (spiffe_id input) (audience input) bs cache_ttl c).2)
  | Err e => (Finished (Err e), c)
  end.
Proof.
  unfold evaluate. cbn [policy_sync authorizer resolver_at].
  destruct (decide (get_known_billets s = ∅)) as [Hk|Hk].
  - exists 2%nat. rewrite (bool_decide_eq_true_2 (get_known_billets s = ∅)) by done. rewrite alone_S. cbn [turn].
    rewrite bool_decide_eq_true_2 by done. cbn. by destruct (is_initialized s).
  - rewrite (bool_decide_eq_false_2 (get_known_billets s = ∅)) by done. cbn [andb fail_if mbind result_bind].
    destruct (build_request (resolver_at s) input (hash_iter (elements (get_known_billets s)))) as [req|e] eqn:Hreq; cbn [mbind result_bind].
    2:{ exists 1%nat. rewrite alone_S. cbn [turn]. rewrite bool_decide_eq_false_2 by done. by rewrite Hreq. }
    exists (S (length (Cedar.resources req) + 3)). rewrite alone_S. cbn [turn]. rewrite bool_decide_eq_false_2 by done. rewrite Hreq.
    rewrite alone_tags, alone_S. cbn [turn]. rewrite alone_S. cbn [turn].
    rewrite batch_unfold. destruct (decide_all _ _ req) as [ds|e]; cbn [map_err mbind result_bind]; [|done].
    fold (allowed ds). by destruct (bool_decide (allowed ds = [])).
Qed.

(** A resolution alone is [resolve]: it ends, with its answer and its cache. *)
Lemma resolve_alone s now wall input c :
  ∃ n, alone s now wall input n (Lookup, c) =
    (λ '(r, c'), (Finished r, c')) (resolve (resolver_at s) now wall input c).
Proof.
  unfold resolve, try_get, try_set. unfold_monad. cbn [cache_get cache_set Memory.InMemoryCache_Cache]. unfold Memory.get.
  fold (slot input). destruct (Memory.get_read now (slot input) c) as [[e|]|] eqn:Hr.
  - exists 1%nat. cbn. by rewrite Hr.
  - destruct (alone_known s now wall input c) as [n Hn]. exists (S n). rewrite alone_S. cbn [turn]. rewrite Hr. cbn [found].
    rewrite Hn. by destruct (evaluate (resolver_at s) input).
  - destruct (Memory.get_write now (slot input) c) as [[e|] c1] eqn:Hw.
    + exists 2%nat. rewrite alone_S. cbn [turn]. rewrite Hr. cbn. by rewrite Hw.
    + destruct (alone_known s now wall input c1) as [n Hn]. exists (S (S n)). rewrite alone_S. cbn [turn]. rewrite Hr, alone_S.
      cbn [turn]. rewrite Hw. cbn [found]. rewrite Hn. by destruct (evaluate (resolver_at s) input).
Qed.

(** A round alone is [sync_once]. *)
Lemma sync_alone s : ∃ n, Nat.iter n (λ '(s, p), sync_turn s p) (s, SPolicies) = ((sync_once s).2, SPolicies).
Proof.
  unfold sync_once, try_ok, on_store, set_handle, set_sync_state. unfold_monad.
  destruct (list_all_policies (data_store s)) as [rp d1] eqn:Ep.
  destruct (list_billets d1) as [rb d2] eqn:Eb. destruct (parse_policy_set "") as [ps0|e0] eqn:He;
    destruct rp as [rp|ep]; try destruct (parse_policies rp) as [ps|pe] eqn:Hp;
    destruct rb as [rb|eb], (state s) as [st|] eqn:Hst; cbn; rewrite Eb; cbn; rewrite ?Hp, ?Hst, ?He; cbn.
  all: first [exists 5%nat; cbn; repeat progress (rewrite ?Ep, ?Eb, ?Hp, ?Hst, ?He; cbn); reflexivity
             |exists 3%nat; cbn; repeat progress (rewrite ?Ep, ?Eb, ?Hp, ?Hst, ?He; cbn); reflexivity].
Qed.

(* ------------------------------------------------------------------ *)
(** ** What an answer can contain *)

(** A decision under policy set [ps] on a request of that cache slot allows billet [b],
    with whatever billets and tags are read before. *)
Definition grants (ps : PolicySet) (k b : string) : Prop :=
  ∃ s input req rs tags ds, slot input = k ∧ build_request (resolver_at s) input rs = Ok req ∧
    decide_all (Some ps) tags req = Ok ds ∧ b ∈ allowed ds.

Section good.
(** Which billets are acceptable in which slot, and until when the cache may hold others. *)
Context (Good : string → string → Prop) (T : Z).

Definition phase_good (input : ResolverInput) (p : phase) : Prop :=
  match p with
  | TagsOf req _ _ | Decide req _ => ∃ s rs, build_request (resolver_at s) input rs = Ok req
  | StoreAnswer bs => Forall (Good (slot input)) bs
  | _ => True
  end.

Definition answers_good (x : system) : Prop :=
  (∀ k e, cache x !! k = Some e → Forall (Good k) (Memory.ibillets e) ∨ Memory.expires_at e ≤ T) ∧
  (∀ id input p, tasks x !! id = Some (input, p) → phase_good input p).

Definition handle_good (x : system) : Prop :=
  ∀ ps, policy_set_handle (service x) = Some ps → ∀ k b, grants ps k b → Good k b.

(** The resolutions that [W] names are finished with good answers only. *)
Definition finished_good (W : nat → Prop) (x : system) : Prop :=
  ∀ id input res, W id → tasks x !! id = Some (input, Finished (Ok res)) → Forall (Good (slot input)) (rbillets res).

Definition cache_good (c : Memory.InMemoryCache) : Prop :=
  ∀ k e, c !! k = Some e → Forall (Good k) (Memory.ibillets e) ∨ Memory.expires_at e ≤ T.

Lemma get_write_good now k c o c' : Memory.get_write now k c = (o, c') → cache_good c → cache_good c'.
Proof.
  unfold Memory.get_write. intros Hw Hc. destruct (c !! k) as [e|]; [destruct (Memory.is_expired now e)|];
    injection Hw as <- <-; try done. intros k' e' [_ He]%lookup_delete_Some. by apply Hc.
Qed.

(** What a cache that is good reveals once the others have expired. *)
Lemma entry_good c now k e : cache_good c → T ≤ now → c !! k = Some e → Memory.is_expired now e = false →
  Forall (Good k) (Memory.ibillets e).
Proof.
  intros Hc Ht He Hx. destruct (Hc k e He) as [?|Hle]; [done|]. unfold Memory.is_expired in Hx. apply Z.leb_gt in Hx. lia.
Qed.

Lemma turn_good s now wall input p c p' c' :
  turn s now wall input p c = (p', c') → cache_good c → phase_good input p →
  (∀ ps, policy_set_handle s = Some ps → ∀ k b, grants ps k b → Good k b) →
  cache_good c' ∧ phase_good input p' ∧
  (T ≤ now → (∀ r, p ≠ Finished r) → ∀ res, p' = Finished (Ok res) → Forall (Good (slot input)) (rbillets res)).
Proof.
  intros Ht Hc Hp Hh. destruct p as [| | | |req [|n todo] map|req map|bs|r]; cbn [turn] in Ht.
  - unfold Memory.get_read in Ht. destruct (c !! slot input) as [e|] eqn:He; [destruct (Memory.is_expired now e) eqn:Hx|];
      injection Ht as <- <-; split_and!; try done.
    intros Hn _ res [= <-]. by eapply entry_good.
  - destruct (Memory.get_write now (slot input) c) as [o c1] eqn:Hw. injection Ht as <- <-.
    split; [by eapply get_write_good|]. destruct o as [e|]; [|done]. split; [done|]. intros Hn _ res [= <-]. revert Hw.
    unfold Memory.get_write. destruct (c !! slot input) as [e'|] eqn:He; [|done].
    destruct (Memory.is_expired now e') eqn:Hx; intros [= <- <-]. by eapply entry_good.
  - destruct (bool_decide (get_known_billets s = ∅)); [by injection Ht as <- <-|].
    destruct (build_request _ _ _) as [req|e] eqn:Hreq; injection Ht as <- <-; split_and!; try done. cbn. eauto.
  - injection Ht as <- <-. by destruct (is_initialized s).
  - by injection Ht as <- <-.
  - by injection Ht as <- <-.
  - destruct Hp as (s0 & rs & Hreq). destruct (decide_all (policy_set_handle s) map req) as [ds|e] eqn:Hds; injection Ht as <- <-; [|done].
    split; [done|]. case_bool_decide; [done|]. split; [|done]. cbn. apply Forall_forall. intros b Hb.
    assert (∃ ps, policy_set_handle s = Some ps) as [ps Hps].
    { unfold decide_all in Hds. apply bind_Ok in Hds as (ps & Hps%ok_or_Ok & _). by exists ps. }
    apply (Hh ps Hps). rewrite Hps in Hds. by exists s0, input, req, rs, map, ds.
  - injection Ht as <- <-. split; [|split; [done|]].
    + intros k e. unfold Memory.set. cbn [snd]. fold (slot input). intros [[<- <-]|[_ He]]%lookup_insert_Some; [by left|by apply Hc].
    + intros _ _ res [= <-]. exact Hp.
  - injection Ht as <- <-. split_and!; try done. intros _ Hr. by destruct (Hr r).
Qed.

Lemma exec_good e x : answers_good x → handle_good x → answers_good (exec e x).
Proof.
  intros [Hc Ht] Hh. destruct e as [t|id input|id wall|id| |d|]; cbn [exec].
  - done.
  - destruct (tasks x !! id) eqn:Hid; [done|]. split; [done|]. cbn.
    intros id' input' p' [[<- [= <- <-]]|[_ ?]]%lookup_insert_Some; [done|by eapply Ht].
  - destruct (tasks x !! id) as [[input p]|] eqn:Hid; [|done].
    destruct (turn _ _ _ input p _) as [p' c'] eqn:Hturn.
    destruct (turn_good _ _ _ _ _ _ _ _ Hturn Hc (Ht _ _ _ Hid) Hh) as (Hc' & Hp' & _). split; [done|]. cbn.
    intros id' input' p'' [[<- [= <- <-]]|[_ ?]]%lookup_insert_Some; [done|by eapply Ht].
  - split; [done|]. cbn. intros id' input' p' [_ ?]%lookup_delete_Some. by eapply Ht.
  - by destruct (sync_turn _ _).
  - done.
  - split; [|done]. cbn. intros k e [? _]%map_lookup_filter_Some. by apply Hc.
Qed.

Lemma run_good es : ∀ x, answers_good x → throughout handle_good es x → answers_good (run es x).
Proof.
  induction es as [|e es IH]; intros x Hx Hh; [done|]. destruct Hh as [Hh Hes]. apply IH; [|done]. by apply exec_good.
Qed.

Lemma exec_clock e x : clock x ≤ clock (exec e x).
Proof.
  destruct e as [t|id input|id wall|id| |d|]; cbn; try lia.
  - by destruct (tasks x !! id).
  - destruct (tasks x !! id) as [[input p]|]; [|lia]. destruct (turn _ _ _ _ _ _). done.
  - destruct (sync_turn _ _). done.
Qed.

Lemma run_clock es : ∀ x, clock x ≤ clock (run es x).
Proof. induction es as [|e es IH]; intros x; [done|]. cbn. etrans; [apply exec_clock|apply IH]. Qed.

Lemma exec_finished W e x : answers_good x → handle_good x → T ≤ clock x → finished_good W x → finished_good W (exec e x).
Proof.
  intros [Hc Ht] Hh Hn Hf. destruct e as [t|id input|id wall|id| |d|]; cbn [exec]; try done.
  - destruct (tasks x !! id) eqn:Hid; [done|]. intros id' input' res Hw. cbn.
    intros [[<- [=]]|[_ ?]]%lookup_insert_Some. by eapply Hf.
  - destruct (tasks x !! id) as [[input p]|] eqn:Hid; [|done].
    destruct (turn _ _ _ input p _) as [p' c'] eqn:Hturn.
    destruct (turn_good _ _ _ _ _ _ _ _ Hturn Hc (Ht _ _ _ Hid) Hh) as (_ & _ & Hp').
    intros id' input' res Hw. cbn. intros [[<- [= <- ->]]|[_ ?]]%lookup_insert_Some; [|by eapply Hf].
    assert ((∃ r, p = Finished r) ∨ ∀ r, p ≠ Finished r) as [[r ->]|Hr] by (destruct p; eauto; by right).
    + injection Hturn as -> _. by eapply Hf.
    + by eapply Hp'.
  - intros id' input' res Hw. cbn. intros [_ ?]%lookup_delete_Some. by eapply Hf.
  - by destruct (sync_turn _ _).
Qed.

(** The answers of a run that starts good, when the clock has passed [T]. *)
Lemma run_finished W es : ∀ x, answers_good x → throughout handle_good es x → T ≤ clock x →
  finished_good W x → finished_good W (run es x).
Proof.
  induction es as [|e es IH]; intros x Hx Hh Hn Hf; [done|]. destruct Hh as [Hh Hes].
  apply IH; [by apply exec_good|done| |by apply exec_finished]. pose proof (exec_clock e x). lia.
Qed.
End good.

(* ------------------------------------------------------------------ *)
(** ** Revocation *)

(** The policy set that is published gives [b] to nobody who has slot [k]. *)
Definition revoked (k b : string) (x : system) : Prop :=
  ∀ ps, policy_set_handle (service x) = Some ps → ¬ grants ps k b.

Definition not_in (k b k' b' : string) : Prop := ¬ (k' = k ∧ b' = b).

Lemma not_in_Forall k b bs : Forall (not_in k b k) bs ↔ b ∉ bs.
Proof.
  rewrite Forall_forall. unfold not_in. split; [intros Hb Hin; by apply (Hb b Hin)|]. by intros Hb x Hx [_ ->].
Qed.

Lemma not_in_other k b k' bs : k' ≠ k → Forall (not_in k b k') bs.
Proof. intros Hk. apply Forall_forall. by intros x _ [-> _]. Qed.

Lemma revoked_good k b x : revoked k b x → handle_good (not_in k b) x.
Proof. intros Hr ps Hps k' b' Hg [-> ->]. by apply (Hr ps Hps). Qed.

Lemma throughout_impl (I J : system → Prop) es : ∀ x, (∀ x, I x → J x) → throughout I es x → throughout J es x.
Proof. induction es as [|e es IH]; intros x HIJ [Hx Hes]; split; auto. Qed.

Lemma throughout_app I es1 es2 : ∀ x, throughout I (es1 ++ es2) x → throughout I es1 x ∧ throughout I es2 (run es1 x).
Proof.
  induction es1 as [|e es1 IH]; intros x Hx.
  - split; [|done]. split; [|done]. destruct es2; by destruct Hx.
  - destruct Hx as [Hx Hes]. destruct (IH _ Hes) as [? ?]. split; [by split|done].
Qed.

(** Nothing in the cache lives longer than the time to live. *)
Definition short_lived (x : system) : Prop :=
  ∀ k e, cache x !! k = Some e → Memory.expires_at e ≤ clock x + cache_ttl.

Lemma turn_short_lived s now wall input p c p' c' : turn s now wall input p c = (p', c') →
  (∀ k e, c !! k = Some e → Memory.expires_at e ≤ now + cache_ttl) →
  ∀ k e, c' !! k = Some e → Memory.expires_at e ≤ now + cache_ttl.
Proof.
  intros Ht Hc. assert (c' ⊆ c → ∀ k e, c' !! k = Some e → Memory.expires_at e ≤ now + cache_ttl) as Hsub.
  { intros Hs k e He. apply (Hc k). by eapply lookup_weaken. }
  destruct p as [| | | |req [|n todo] map|req map|bs|r]; cbn [turn] in Ht; try (injection Ht as _ <-; by apply Hsub).
  - destruct (Memory.get_read _ _ c); injection Ht as _ <-; by apply Hsub.
  - unfold Memory.get_write in Ht. repeat case_match; simplify_eq; apply Hsub; try done; apply delete_subseteq.
  - repeat case_match; injection Ht as _ <-; by apply Hsub.
  - repeat case_match; injection Ht as _ <-; by apply Hsub.
  - injection Ht as _ <-. intros k e. unfold Memory.set. cbn. intros [[_ <-]|[_ He]]%lookup_insert_Some; cbn; [lia|by apply (Hc k)].
Qed.

Lemma exec_short_lived e x : short_lived x → short_lived (exec e x).
Proof.
  intros Hx. destruct e as [t|id input|id wall|id| |d|]; cbn [exec]; try done.
  - intros k e He. specialize (Hx k e He). cbn. lia.
  - by destruct (tasks x !! id).
  - destruct (tasks x !! id) as [[input p]|]; [|done]. destruct (turn _ _ _ input p _) as [p' c'] eqn:Ht.
    intros k e. cbn. by eapply turn_short_lived.
  - by destruct (sync_turn _ _).
  - intros k e. cbn. intros [He _]%map_lookup_filter_Some. by apply (Hx k).
Qed.

Lemma run_short_lived es : ∀ x, short_lived x → short_lived (run es x).
Proof. induction es as [|e es IH]; intros x Hx; [done|]. by apply IH, exec_short_lived. Qed.

Lemma start_cache t d a k e : cache (start t d a) !! k ≠ Some e.
Proof. exact (lookup_empty_Some k e). Qed.

Lemma start_tasks t d a id y : tasks (start t d a) !! id ≠ Some y.
Proof. exact (lookup_empty_Some id y). Qed.

Lemma start_good Good T t d a : answers_good Good T (start t d a).
Proof. split; [by intros k e ?%start_cache|by intros id input p ?%start_tasks]. Qed.

Lemma any_good es : ∀ x, answers_good (λ _ _, True) 0 x → answers_good (λ _ _, True) 0 (run es x).
Proof. intros x Hx. apply run_good; [done|]. revert x Hx. induction es as [|e es IH]; intros x Hx; by split; [|try apply IH, exec_good]. Qed.

(** A state of the running server, seen from a revocation: what the cache holds of [b] is
    gone within the time to live. *)
Lemma reachable_good t d a es k b :
  let x := run es (start t d a) in
  (∀ id input bs, tasks x !! id = Some (input, StoreAnswer bs) → slot input = k → b ∉ bs) →
  answers_good (not_in k b) (clock x + cache_ttl) x.
Proof.
  intros x Hbs. split.
  - intros k' e He. right. revert He. apply run_short_lived. by intros ? ? ?%start_cache.
  - intros id input p Hp. destruct (any_good es (start t d a) (start_good _ _ _ _ _)) as [_ Ht].
    specialize (Ht _ _ _ Hp). destruct p; try done. cbn. destruct (decide (slot input = k)) as [Hk|Hk]; [|by apply not_in_other].
    rewrite Hk. apply not_in_Forall. by eapply Hbs.
Qed.

(** C18: a revocation takes effect within the time to live of the cache, in every
    interleaving of resolutions with each other, with the synchroniser, with writes to the
    store, with dropped requests and with the cleanup of the cache.  If from a moment on
    the published policy sets give billet [b] to nobody under a cache key, and no
    resolution under that key stood before writing an older decision into the cache, then
    a resolution that is unfinished, or begins, one time to live later does not return [b]
    under that key. *)
Theorem revocation_takes_effect t d a es0 es1 es2 k b id input res :
  let x0 := run es0 (start t d a) in let x1 := run es1 x0 in let x2 := run es2 x1 in
  (∀ id i bs, tasks x0 !! id = Some (i, StoreAnswer bs) → slot i = k → b ∉ bs) →
  throughout (revoked k b) (es1 ++ es2) x0 → clock x0 + cache_ttl ≤ clock x1 →
  (∀ i r, tasks x1 !! id ≠ Some (i, Finished r)) →
  tasks x2 !! id = Some (input, Finished (Ok res)) → slot input = k → b ∉ rbillets res.
Proof.
  intros x0 x1 x2 Hbs Hrev Hclock Hid Hres Hk.
  assert (throughout (handle_good (not_in k b)) (es1 ++ es2) x0) as Hh.
  { eapply throughout_impl; [|exact Hrev]. apply revoked_good. }
  apply throughout_app in Hh as [Hh1 Hh2].
  assert (answers_good (not_in k b) (clock x0 + cache_ttl) x1) as Hx1 by by apply run_good; [apply reachable_good|].
  assert (finished_good (not_in k b) (λ i, i = id) x2) as Hf.
  { eapply run_finished; [exact Hx1|exact Hh2|exact Hclock|]. intros id' i r -> Hd. by destruct (Hid i (Ok r)). }
  apply (not_in_Forall k b). rewrite <-Hk at 2. by apply (Hf id input res).
Qed.

(* ------------------------------------------------------------------ *)
(** ** Provenance *)

Context `{!DataStoreLaws D} `{!CedarLaws}.

Lemma grants_permitted ps k b : grants ps k b → Cedar.permitted ps b.
Proof.
  intros (s & input & req & rs & tags & ds & _ & _ & Hds & Hb). unfold decide_all in Hds. cbn in Hds.
  apply bind_Ok in Hds as (pu & _ & Hds). apply bind_Ok in Hds as (au & _ & Hds). apply try_map_Ok in Hds.
  apply list_elem_of_fmap in Hb as (r & -> & [Hal Hin]%list_elem_of_filter). apply list_elem_of_lookup in Hin as [i Hi].
  destruct (Forall2_lookup_r _ _ _ _ _ Hds Hi) as (n & _ & Hn). apply Cedar.decide_resource_inv in Hn as [-> Hp]. by apply Hp.
Qed.

Section provenance.
Context (valid : PolicyRecord → Prop).
Hypothesis valid_parses : ∀ r, valid r → is_ok (parse_policy_set (statement r)) = true.

Definition valid_store (d : D) : Prop := ds_ok d ∧ store_valid valid d.

Definition phase_in_force (p : sync_phase) : Prop :=
  match p with
  | SPolicies => True
  | SBillets o | SState o _ => ∀ ps, o = Some ps → in_force valid ps
  | SHandle next | SPublish next => in_force valid (policy_set next)
  end.

(** Whatever is published, or on its way, comes from valid records. *)
Definition service_inv (x : system) : Prop :=
  valid_store (data_store (service x)) ∧ phase_in_force (syncing x) ∧
  (∀ st, state (service x) = Some st → in_force valid (policy_set st)) ∧
  (∀ ps, policy_set_handle (service x) = Some ps → in_force valid ps).

Lemma next_in_force o metadata st next :
  (∀ ps, o = Some ps → in_force valid ps) → (∀ y : PolicySyncState, st = Some y → in_force valid (policy_set y)) →
  next_state o metadata st = Ok next → in_force valid (policy_set next).
Proof.
  intros Ho Hs. unfold next_state. destruct parse_empty as (ps0 & He & Hempty). rewrite He.
  assert (in_force valid ps0) as Hps0 by (intros p; rewrite Hempty; by intros ?%not_elem_of_nil).
  destruct o as [ps|], st as [st|], metadata as [l|]; cbn; intros [= <-]; cbn; eauto.
Qed.

Lemma sync_turn_inv s p s' p' : sync_turn s p = (s', p') →
  valid_store (data_store s) → phase_in_force p →
  (∀ st, state s = Some st → in_force valid (policy_set st)) →
  (∀ ps, policy_set_handle s = Some ps → in_force valid ps) →
  valid_store (data_store s') ∧ phase_in_force p' ∧
  (∀ st, state s' = Some st → in_force valid (policy_set st)) ∧
  (∀ ps, policy_set_handle s' = Some ps → in_force valid ps).
Proof.
  intros Ht [Hd Hv] Hp Hs Hh. destruct p as [|o|o metadata|next|next]; cbn [sync_turn] in Ht.
  - pose proof (fetched_in_force valid valid_parses (data_store s)) as Hf. unfold fetched_policies in Hf.
    destruct (list_all_policies (data_store s)) as [r d'] eqn:Hl. injection Ht as <- <-. cbn in *.
    apply list_all_policies_spec in Hl as (Hd' & _ & Hpol & _); [|done]. split_and!; try done; [split; [done|unfold store_valid; by rewrite Hpol]|].
    intros ps Hps. by apply Hf.
  - destruct (list_billets (data_store s)) as [r d'] eqn:Hl. injection Ht as <- <-. cbn in *.
    apply list_billets_spec in Hl as (Hd' & _ & Hpol & _); [|done]. split_and!; try done. split; [done|unfold store_valid; by rewrite Hpol].
  - injection Ht as <- <-. split; [by split|]. split; [|done]. destruct (next_state o metadata (state s)) eqn:Hn; [|done].
    exact (next_in_force _ _ _ _ Hp Hs Hn).
  - injection Ht as <- <-. split; [by split|]. split_and!; [done|done|]. by intros ps [= <-].
  - injection Ht as <- <-. split; [by split|]. split_and!; [done| |done]. by intros st [= <-].
Qed.

Lemma exec_service_inv e x : service_inv x → (∀ d, e = StoreBecomes d → valid_store d) → service_inv (exec e x).
Proof.
  intros Hx He. destruct e as [t|id input|id wall|id| |d|]; cbn [exec]; try done.
  - by destruct (tasks x !! id).
  - destruct (tasks x !! id) as [[input p]|]; [|done]. by destruct (turn _ _ _ input p _).
  - destruct (sync_turn _ _) as [s' p'] eqn:Ht. destruct Hx as (? & ? & ? & ?). by eapply sync_turn_inv.
  - destruct Hx as (_ & ? & ? & ?). split; [by apply He|done].
Qed.

Definition came_from_valid (_ b : string) : Prop := ∃ ps, in_force valid ps ∧ Cedar.permitted ps b.

Lemma service_handle_good x : service_inv x → handle_good came_from_valid x.
Proof. intros (_ & _ & _ & Hh) ps Hps k b Hg. exists ps. split; [by apply Hh|by eapply grants_permitted]. Qed.

Lemma throughout_service es : ∀ x, service_inv x → (∀ d, StoreBecomes d ∈ es → valid_store d) →
  throughout (handle_good came_from_valid) es x.
Proof.
  induction es as [|e es IH]; intros x Hx Hd; (split; [by apply service_handle_good|]); [done|].
  apply IH; [apply exec_service_inv; [done|]|]; intros d Hin; apply Hd; [subst; by left|by right].
Qed.

Lemma start_service_inv t d a : valid_store d → service_inv (start t d a).
Proof. done. Qed.
End provenance.

(** C19: no interleaving escalates.  From the start of the server on, however resolutions,
    the reads and the two publications of the synchroniser, writes of valid records to
    the store and the clock are interleaved, every billet in the answer of a resolution,
    cached or not, is permitted by a policy set all of whose policies come from valid
    records. *)
Theorem interleaved_resolutions_sound valid t d a es id input res b :
  (∀ r, valid r → is_ok (parse_policy_set (statement r)) = true) →
  valid_store valid d → (∀ d', StoreBecomes d' ∈ es → valid_store valid d') →
  tasks (run es (start t d a)) !! id = Some (input, Finished (Ok res)) → b ∈ rbillets res →
  ∃ ps, in_force valid ps ∧ Cedar.permitted ps b.
Proof.
  intros Hparse Hd Hes Hres Hb.
  assert (finished_good (came_from_valid valid) (λ _, True) (run es (start t d a))) as Hf.
  { apply (run_finished _ t); [apply start_good| |done|by intros ? ? ? _ ?%start_tasks].
    apply throughout_service; [done|by apply start_service_inv|done]. }
  specialize (Hf _ _ _ I Hres). rewrite Forall_forall in Hf. by apply Hf.
Qed.
End concurrent.

(* ------------------------------------------------------------------ *)
(** ** Witnesses: a billet that is forbidden while it is in the cache *)

Import Demo.
#[local] Existing Instance Resolver.no_regex.

Definition demo_input : ResolverInput := mkInput "spiffe://td/app" "td" "" "" "aud" 0 "" None.
Definition demo_slot : string := slot demo_input.

Definition two_billets (policies : list PolicyRecord) : Demo.store :=
  LocalStore.mkStore (LocalStore.mkPath true ["data"])
    (LocalStore.mkState {["reader" := billet "reader"; "writer" := billet "writer"]}
       (list_to_map ((λ r, ((billet_name r, policy_id r), r)) <$> policies)) []) tt.

Definition open_store : Demo.store := two_billets [policy "reader" "1" "permit reader"; policy "writer" "2" "permit writer"].
Definition closed_store : Demo.store :=
  two_billets [policy "reader" "1" "permit reader"; policy "writer" "2" "permit writer";
    policy "quartermaster-guardrails" "3" "forbid writer"].

Definition demo_turns (id : nat) (n : nat) : list (event (D := Demo.store)) := replicate n (Turn id 0).
Abbreviation demo_run := (run (D := Demo.store) [] (secs 300) demo_matcher (λ _, "t")).

(** The policies are published, [writer] is granted and cached, then forbidden, and the
    guardrail is published; [demo_stale] is a resolution in the cached time. *)
Definition demo_before : list (event (D := Demo.store)) :=
  replicate 5 SyncTurn ++ Begin 1 demo_input :: demo_turns 1 7 ++ StoreBecomes closed_store :: replicate 5 SyncTurn.
Definition demo_stale : list (event (D := Demo.store)) := Begin 2 demo_input :: demo_turns 2 1 ++ [Tick (secs 301)].
Definition demo_after : list (event (D := Demo.store)) := Begin 3 demo_input :: demo_turns 3 8.

Abbreviation demo_start := (start (D := Demo.store) 0 open_store demo_audit).
Abbreviation demo_x0 := (demo_run demo_before demo_start).
Abbreviation demo_x2 := (demo_run demo_after (demo_run demo_stale demo_x0)).

(** The cache slot and the billets of a finished resolution. *)
Definition answer (x : system (D := Demo.store)) (id : nat) : option (string * list string) :=
  match tasks x !! id with Some (input, Finished (Ok res)) => Some (slot input, rbillets res) | _ => None end.

Lemma answer_task x id k bs : answer x id = Some (k, bs) →
  ∃ input res, tasks x !! id = Some (input, Finished (Ok res)) ∧ slot input = k ∧ rbillets res = bs.
Proof.
  unfold answer. destruct (tasks x !! id) as [[input p]|]; [|done]. destruct p as [| | | | | | |[res|]]; try done.
  intros [= <- <-]. eauto.
Qed.

(** Until the entry expires the forbidden billet is returned, and then no more. *)
Lemma stale_answer : answer demo_x2 2 = Some (demo_slot, ["writer"; "reader"]).
Proof. vm_compute. reflexivity. Qed.

Lemma fresh_answer : answer demo_x2 3 = Some (demo_slot, ["reader"]).
Proof. vm_compute. reflexivity. Qed.

Definition stores_answer (p : phase) : bool := match p with StoreAnswer _ => true | _ => false end.

Definition demo_closed : list toy_policy :=
  [(Forbid, REq (toy_billet "writer")); (Permit, REq (toy_billet "writer")); (Permit, REq (toy_billet "reader"))].

Lemma closed_forbids rfc k : ¬ grants (D := Demo.store) [] (secs 300) demo_matcher rfc demo_closed k "writer".
Proof.
  intros Hg. apply grants_permitted in Hg as (rq & es & [Ht Hu] & _ & Hf); [|exact toy_laws].
  specialize (Hf (Forbid, REq (toy_billet "writer"))). cbn in Hf, Ht, Hu. injection Ht as Ht. rewrite Hu, <-Ht in Hf.
  discriminate Hf; [unfold demo_closed; rewrite !elem_of_cons; auto|done].
Qed.

Fixpoint handles (es : list (event (D := Demo.store))) (x : system (D := Demo.store)) : list (option PolicySet) :=
  policy_set_handle (service x) :: match es with [] => [] | e :: es' => handles es' (demo_run [e] x) end.

Lemma handles_revoked es : ∀ x, Forall (λ h, h = Some demo_closed) (handles es x) →
  throughout [] (secs 300) demo_matcher (λ _, "t") (revoked [] (secs 300) demo_matcher (λ _, "t") demo_slot "writer") es x.
Proof.
  induction es as [|e es IH]; intros x [Hx Hes]%Forall_cons;
    (split; [intros ps Hps; rewrite Hx in Hps; injection Hps as <-; apply closed_forbids|]); [done|by apply IH].
Qed.

Lemma none_stores : forallb (λ t, negb (stores_answer t.2.2)) (map_to_list (tasks demo_x0)) = true.
Proof. vm_compute. reflexivity. Qed.

Lemma third_absent : tasks (demo_run demo_stale demo_x0) !! 3%nat = None.
Proof. vm_compute. reflexivity. Qed.

Lemma revocation_takes_effect_witness : ∃ bs, answer demo_x2 3 = Some (demo_slot, bs) ∧ bs = ["reader"] ∧ "writer" ∉ bs.
Proof.
  destruct (answer_task _ _ _ _ fresh_answer) as (input & res & Hres & Hk & Hbs). exists ["reader"].
  split; [exact fresh_answer|]. split; [reflexivity|]. rewrite <-Hbs.
  refine (revocation_takes_effect [] (secs 300) demo_matcher (λ _, "t") 0 open_store demo_audit demo_before demo_stale
    demo_after demo_slot "writer" 3 input res _ _ _ _ Hres Hk).
  - pose proof none_stores as Ht. intros id i bs Hi. exfalso. rewrite forallb_forall in Ht.
    specialize (Ht (id, (i, StoreAnswer bs))). rewrite <-list_elem_of_In, elem_of_map_to_list in Ht. exact (Bool.diff_false_true (Ht Hi)).
  - apply handles_revoked. vm_compute. repeat constructor.
  - vm_compute. discriminate.
  - pose proof third_absent as Ht. intros i r Hi.
    rewrite Ht in Hi. discriminate Hi.
Defined.

Lemma interleaved_resolutions_sound_witness : ∃ ps, in_force parses ps ∧ Cedar.permitted ps "writer".
Proof.
  destruct (answer_task _ _ _ _ stale_answer) as (input & res & Hres & _ & Hbs).
  refine (interleaved_resolutions_sound [] (secs 300) demo_matcher (λ _, "t") parses 0 open_store demo_audit
    (demo_before ++ demo_stale ++ demo_after) 2 input res "writer" (λ r Hr, Hr) _ _ _ _).
  - split; [split; compute_decide|compute_decide].
  - assert (Forall (λ e : event (D := Demo.store), match e with StoreBecomes d' => d' = closed_store | _ => True end)
      (demo_before ++ demo_stale ++ demo_after)) as Hall by (repeat constructor).
    rewrite Forall_forall in Hall. intros d' Hd'. specialize (Hall _ Hd'). cbn in Hall. subst d'.
    split; [split; compute_decide|compute_decide].
  - rewrite !run_app. exact Hres.
  - rewrite Hbs. left.
Defined.

End Concurrent.
