(* ===== verification/PolicyCrud.v ===== *)
(** * Policy administration ([src/src/domain/admin/policies.rs]) *)

From S2P Require Import Prelude DataStore LocalStore CedarApi AuditLog Demo.

Module PolicyCrud.
Import DataStore CedarApi.

Inductive PolicyCrudError : Type :=
| InvalidStatement (msg : string)
| InvalidResourceScope (msg : string)
| BilletNotFound (name : string)
| NotFound (id : string)
| InternalError (msg : string).

Definition PolicyCrudError_fmt (e : PolicyCrudError) : string :=
  match e with
  | InvalidStatement msg => "invalid Cedar statement: " +:+ msg
  | InvalidResourceScope msg => "invalid resource scope: " +:+ msg
  | BilletNotFound name => "billet '" +:+ name +:+ "' not found"
  | NotFound id => "policy '" +:+ id +:+ "' not found"
  | InternalError msg => "internal error: " +:+ msg
  end.

Record PolicyCreateResponse : Type := mkCreateResponse {
  cr_policy_id : string;
  cr_statement : string;
  cr_description : string;
  cr_created_at : string
}.

Section crud.
Context `{CedarLib} {D : Type} `{DataStore D}.
(** The service's list of system billets. *)
Context (system_billets : list string).

Definition is_system_billet (billet_name : string) : bool :=
  existsb (λ s, bool_decide (s = billet_name)) system_billets.

Definition validate_cedar_statement (statement : string) : result PolicyCrudError unit :=
  _ ← map_err InvalidStatement (parse_policy_set statement); Ok tt.

Definition validate_forbid_only (statement : string) : result PolicyCrudError unit :=
  policy_set ← map_err InvalidStatement (parse_policy_set statement);
  try_for_each (λ policy,
    fail_if (bool_decide (policy_effect policy = Permit))
      (InvalidStatement "guardrail policies must be forbid-only; permit policies are not allowed on the quartermaster-guardrails billet"))
    (ps_policies policy_set).

Definition check_resource_entity_uid (entity_uid : EntityUid) (billet_name : string) :
    result PolicyCrudError unit :=
  let type_name := uid_type entity_uid in
  let entity_id := uid_id entity_uid in
  _ ← fail_if (bool_decide (type_basename type_name ≠ "Billet"))
        (InvalidResourceScope ("policy resource must be of type Billet, found '" +:+
           type_display type_name +:+ "'"));
  fail_if (bool_decide (entity_id ≠ billet_name))
    (InvalidResourceScope ("resource scope references billet '" +:+ entity_id +:+
       "' but policy belongs to billet '" +:+ billet_name +:+ "'")).

Definition check_policy_scope (billet_name : string) (policy : Policy) : result PolicyCrudError unit :=
  match policy_resource policy with
  | RAny => Err (InvalidResourceScope "policies must specify resource == Billet::<owning billet>; unconstrained resource is not allowed")
  | REq u => check_resource_entity_uid u billet_name
  | RIn u => check_resource_entity_uid u billet_name
  | RIs _ => Err (InvalidResourceScope "policies must use resource == Billet::<owning billet> with the owning billet name")
  | RIsIn _ u => check_resource_entity_uid u billet_name
  end.

Definition validate_resource_scope (statement billet_name : string) : result PolicyCrudError unit :=
  policy_set ← map_err InvalidStatement (parse_policy_set statement);
  try_for_each (check_policy_scope billet_name) (ps_policies policy_set).

(** The three checks shared by [create] and [update]. *)
Definition validate_policy (billet_name statement : string) : result PolicyCrudError unit :=
  _ ← validate_cedar_statement statement;
  _ ← (if bool_decide (billet_name = "quartermaster-guardrails")
       then validate_forbid_only statement else Ok tt);
  if negb (is_system_billet billet_name) then validate_resource_scope statement billet_name else Ok tt.

Definition internal (e : DataStoreError) : PolicyCrudError := InternalError (DataStoreError_fmt e).

(** [uuid] is the fresh identifier, [now] the time as RFC 3339 text. *)
Definition create (uuid now billet_name statement description : string) :
    M D PolicyCrudError PolicyCreateResponse :=
  _ ← lift_res (validate_policy billet_name statement);
  billet_record ← m_map_err internal (get_billet billet_name);
  _ ← lift_res (fail_if (bool_decide (billet_record = None)) (BilletNotFound billet_name));
  let record := mkPolicy billet_name uuid statement description now now in
  _ ← m_map_err internal (create_policy record);
  mret (mkCreateResponse uuid statement description now).

Definition list_for_billet (billet_name : string) : M D PolicyCrudError (list PolicyRecord) :=
  m_map_err internal (list_policies_for_billet billet_name).

Definition get (billet_name policy_id : string) : M D PolicyCrudError PolicyRecord :=
  record ← m_map_err internal (get_policy billet_name policy_id);
  match record with
  | Some r => mret r
  | None => throw (NotFound policy_id)
  end.

Definition not_found_or_internal (policy_id : string) (e : DataStoreError) : PolicyCrudError :=
  match e with
  | DataStore.NotFound _ => NotFound policy_id
  | other => internal other
  end.

Definition update (now billet_name policy_id statement description : string) :
    M D PolicyCrudError PolicyRecord :=
  _ ← lift_res (validate_policy billet_name statement);
  let updated_record := mkPolicy billet_name policy_id statement description "" now in
  _ ← m_map_err (not_found_or_internal policy_id) (update_policy updated_record);
  record ← m_map_err internal (get_policy billet_name policy_id);
  match record with
  | Some r => mret r
  | None => throw (NotFound policy_id)
  end.

Definition delete (billet_name policy_id : string) : M D PolicyCrudError unit :=
  m_map_err (not_found_or_internal policy_id) (delete_policy billet_name policy_id).

(* ------------------------------------------------------------------ *)
(** ** What a stored policy satisfies *)

(** The policy's scope names the billet it is attached to. *)
Definition owned_by (b : string) (p : Policy) : Prop :=
  match policy_resource p with
  | REq u | RIn u | RIsIn _ u => type_basename (uid_type u) = "Billet" ∧ uid_id u = b
  | RAny | RIs _ => False
  end.

Definition admitted_statement (b s : string) : Prop :=
  ∃ ps, parse_policy_set s = Ok ps ∧
    (b = "quartermaster-guardrails" → ∀ p, p ∈ ps_policies ps → policy_effect p = Forbid) ∧
    (b ∉ system_billets → ∀ p, p ∈ ps_policies ps → owned_by b p).

Definition admitted (r : PolicyRecord) : Prop := admitted_statement (billet_name r) (statement r).

Lemma is_system_billet_spec b : is_system_billet b = true ↔ b ∈ system_billets.
Proof.
  unfold is_system_billet. rewrite existsb_exists. setoid_rewrite bool_decide_eq_true.
  setoid_rewrite <-list_elem_of_In. naive_solver.
Qed.

Lemma check_policy_scope_Ok b p u : check_policy_scope b p = Ok u ↔ owned_by b p.
Proof.
  assert (∀ e, check_resource_entity_uid e b = Ok u ↔ type_basename (uid_type e) = "Billet" ∧ uid_id e = b) as Hc.
  { intros e. unfold check_resource_entity_uid. rewrite bind_Ok. setoid_rewrite fail_if_Ok.
    setoid_rewrite bool_decide_eq_false.
    split.
    - intros ([] & H1' & H2'). split; by apply dec_stable.
    - intros [-> ->]. exists tt. by split; intros []. }
  unfold check_policy_scope, owned_by. destruct (policy_resource p); rewrite ?Hc; done.
Qed.

Lemma forbid_only_Ok s ps : parse_policy_set s = Ok ps →
  validate_forbid_only s = Ok tt ↔ ∀ p, p ∈ ps_policies ps → policy_effect p = Forbid.
Proof.
  intros Hps. unfold validate_forbid_only. rewrite Hps. cbn. rewrite try_for_each_Ok, Forall_forall.
  setoid_rewrite fail_if_Ok. setoid_rewrite bool_decide_eq_false.
  split; intros Hp p Hin; specialize (Hp p Hin); by destruct (policy_effect p).
Qed.

Lemma resource_scope_Ok b s ps : parse_policy_set s = Ok ps →
  validate_resource_scope s b = Ok tt ↔ ∀ p, p ∈ ps_policies ps → owned_by b p.
Proof.
  intros Hps. unfold validate_resource_scope. rewrite Hps. cbn. rewrite try_for_each_Ok, Forall_forall.
  by setoid_rewrite check_policy_scope_Ok.
Qed.

Lemma validate_policy_Ok b s : validate_policy b s = Ok tt ↔ admitted_statement b s.
Proof.
  unfold validate_policy, validate_cedar_statement, admitted_statement.
  destruct (parse_policy_set s) as [ps|e] eqn:Hps; cbn [map_err mbind result_bind].
  2:{ split; [done|]. by intros (? & ? & _). }
  pose proof (forbid_only_Ok s ps Hps) as Hf. pose proof (resource_scope_Ok b s ps Hps) as Hr.
  pose proof (is_system_billet_spec b) as Hs. rewrite bind_Ok. split.
  - intros ([] & H1' & H2'). exists ps. split_and!; [done| |].
    + intros Hb. rewrite bool_decide_eq_true_2 in H1' by done. by apply Hf.
    + intros Hb. destruct (is_system_billet b); [by destruct Hb; apply Hs|]. by apply Hr.
  - intros (ps' & [= <-] & H1' & H2'). exists tt. split.
    + case_bool_decide; [by apply Hf, H1'|done].
    + destruct (is_system_billet b) eqn:Hsb; [done|]. apply Hr, H2'. intros Hin%Hs. congruence.
Qed.

(* ------------------------------------------------------------------ *)
(** ** Operations on a lawful store *)

Context `{!DataStoreLaws D}.

Lemma create_inv uuid now b s desc d r d' :
  ds_ok d → create uuid now b s desc d = (r, d') →
  ds_ok d' ∧ ds_billets d' = ds_billets d ∧
  match r with
  | Ok resp => admitted_statement b s ∧ is_Some (ds_billets d !! b) ∧
      ds_policies d !! (b, uuid) = None ∧
      ds_policies d' = <[(b, uuid) := mkPolicy b uuid s desc now now]> (ds_policies d) ∧
      resp = mkCreateResponse uuid s desc now
  | Err e => ds_policies d' = ds_policies d ∧
      (validate_policy b s = Err e ∨
       (admitted_statement b s ∧ (e = BilletNotFound b → ds_billets d !! b = None)))
  end.
Proof.
  intros Hd Hc. unfold create in Hc.
  apply M_bind_inv in Hc as [([] & d1 & Hv & Hc)|(e & Hv & ->)];
    [|injection Hv as Hv <-; auto 10].
  injection Hv as Hv <-. apply validate_policy_Ok in Hv.
  apply bind_map_err in Hc as [(o & d2 & Hg & Hc)|(e & Hg & ->)];
    apply get_billet_spec in Hg as (Hd2 & Hb2 & Hp2 & Ho); try done.
  2:{ split_and!; try done. right. split; [done|]. by destruct e. }
  specialize (Ho o eq_refl). apply M_bind_inv in Hc as [([] & d3 & Hf & Hc)|(e & Hf & ->)];
    injection Hf as Hf <-; unfold fail_if in Hf; case_bool_decide as Hnone; try done.
  2:{ injection Hf as <-. split_and!; try done. right. split; [done|]. by rewrite <-Ho. }
  apply bind_map_err in Hc as [([] & d4 & Hcp & Hc)|(e & Hcp & ->)];
    apply create_policy_spec in Hcp as (Hd4 & Hb4 & Hcp); try done.
  - injection Hc as <- <-. destruct Hcp as [Hfree Hp4]. unfold policy_key in *. cbn in *.
    rewrite Hp2 in *. assert (is_Some (ds_billets d !! b)) by (rewrite <-Ho; by apply not_eq_None_Some).
    split_and!; try done; congruence.
  - destruct Hcp as [Hp4 _]. rewrite Hp4, Hb4. split; [done|]. split; [done|]. split; [done|].
    right. split; [done|]. by destruct e.
Qed.

Lemma update_inv now b i s desc d r d' :
  ds_ok d → update now b i s desc d = (r, d') →
  ds_ok d' ∧ ds_billets d' = ds_billets d ∧
  ((ds_policies d' = ds_policies d ∧ is_ok r = false) ∨
   (admitted_statement b s ∧ is_Some (ds_policies d !! (b, i)) ∧
    ∃ rec, same_policy (mkPolicy b i s desc "" now) rec ∧
      ds_policies d' = <[(b, i) := rec]> (ds_policies d) ∧ (∀ x, r = Ok x → x = rec))).
Proof.
  intros Hd Hu. unfold update in Hu.
  apply M_bind_inv in Hu as [([] & d1 & Hv & Hu)|(e & Hv & ->)];
    [|injection Hv as Hv <-; auto 10].
  injection Hv as Hv <-. apply validate_policy_Ok in Hv.
  apply bind_map_err in Hu as [([] & d2 & Hup & Hu)|(e & Hup & ->)];
    apply update_policy_spec in Hup as (Hd2 & Hb2 & Hup); try done.
  2:{ destruct Hup as [Hp2 _]. split_and!; try done. by left. }
  destruct Hup as (Hex & rec & Hsame & Hp2).
  change (policy_key (mkPolicy b i s desc "" now)) with (b, i) in Hex, Hp2.
  apply bind_map_err in Hu as [(o & d3 & Hg & Hu)|(e & Hg & ->)];
    apply get_policy_spec in Hg as (Hd3 & Hb3 & Hp3 & Ho); try done.
  - specialize (Ho o eq_refl). rewrite Hp2, lookup_insert_eq in Ho. subst.
    injection Hu as <- <-. split_and!; [done|congruence|]. right. split_and!; [done..|].
    exists rec. split_and!; [done|congruence|]. by intros x [= <-].
  - split_and!; [done|congruence|]. right. split_and!; [done..|]. exists rec. split_and!; [done|congruence|done].
Qed.

Lemma delete_inv b i d r d' :
  ds_ok d → delete b i d = (r, d') →
  ds_ok d' ∧ ds_billets d' = ds_billets d ∧
  match r with
  | Ok _ => is_Some (ds_policies d !! (b, i)) ∧ ds_policies d' = base.delete (b, i) (ds_policies d)
  | Err _ => ds_policies d' = ds_policies d
  end.
Proof.
  intros Hd (x & Hx & ->)%m_map_err_inv. apply delete_policy_spec in Hx as (? & ? & Hx); [|done].
  destruct x; cbn; naive_solver.
Qed.

(** Every stored policy is admitted. *)
Definition store_admitted (d : D) : Prop := map_Forall (λ _ r, admitted r) (ds_policies d).

Inductive policy_op : Type :=
| PCreate (uuid now b s desc : string)
| PUpdate (now b i s desc : string)
| PDelete (b i : string)
| PGet (b i : string)
| PList (b : string).

Definition exec (o : policy_op) (d : D) : D :=
  match o with
  | PCreate uuid now b s desc => (create uuid now b s desc d).2
  | PUpdate now b i s desc => (update now b i s desc d).2
  | PDelete b i => (delete b i d).2
  | PGet b i => (get b i d).2
  | PList b => (list_for_billet b d).2
  end.

Lemma exec_admitted o d :
  ds_ok d → store_admitted d →
  ds_ok (exec o d) ∧ store_admitted (exec o d) ∧ ds_billets (exec o d) = ds_billets d.
Proof.
  intros Hd Ha. unfold store_admitted in *. destruct o as [uuid now b s desc|now b i s desc|b i|b i|b]; cbn.
  - destruct (create _ _ _ _ _ d) as [r d'] eqn:E. apply create_inv in E as (? & ? & Hr); [|done]. cbn.
    destruct r as [resp|e].
    + destruct Hr as (Hadm & _ & _ & -> & _). split_and!; try done. by apply map_Forall_insert_2.
    + destruct Hr as [-> _]. done.
  - destruct (update _ _ _ _ _ d) as [r d'] eqn:E. apply update_inv in E as (? & ? & Hr); [|done]. cbn.
    destruct Hr as [[-> _]|(Hadm & _ & rec & (Hk & Hst & _) & -> & _)]; [done|].
    split_and!; try done. apply map_Forall_insert_2; [|done]. unfold admitted.
    injection Hk as Hb Hi. cbn in Hst. by rewrite <-Hb, <-Hst.
  - destruct (delete b i d) as [r d'] eqn:E. apply delete_inv in E as (? & ? & Hr); [|done]. cbn.
    destruct r; [destruct Hr as [_ ->]|rewrite Hr]; split_and!; try done. by apply map_Forall_delete.
  - destruct (get b i d) as [r d'] eqn:E. cbn. unfold get in E.
    assert (∃ x, get_policy b i d = (x, d')) as [x Hx].
    { apply bind_map_err in E as [([o|] & d1 & Hg & E)|(e & Hg & _)];
        [injection E as _ <-|injection E as _ <-|]; eauto. }
    apply get_policy_spec in Hx as (? & ? & -> & _); done.
  - destruct (list_for_billet b d) as [r d'] eqn:E. cbn. unfold list_for_billet in E.
    apply m_map_err_inv in E as (x & Hx & _).
    apply list_policies_for_billet_spec in Hx as (? & ? & -> & _); done.
Qed.

(** Through any sequence of policy operations, and whatever the store
    answers to each, every stored policy stays admitted: its statement parses,
    guardrail policies are forbid-only, and a policy of an ordinary billet
    concerns that billet only; billets are not touched. *)
Lemma policy_crud_admits ops d :
  ds_ok d → store_admitted d →
  store_admitted (foldl (λ d o, exec o d) d ops) ∧
  ds_billets (foldl (λ d o, exec o d) d ops) = ds_billets d.
Proof.
  revert d. induction ops as [|o ops IH]; intros d Hd Ha; [done|]. cbn.
  destruct (exec_admitted o d Hd Ha) as (Hd' & Ha' & <-). by apply IH.
Qed.

(** [create] succeeds only for an admitted statement on an existing billet
    under a fresh identifier, and then adds exactly the new record; an error
    leaves the policies as they were, and [BilletNotFound] means there is no such
    billet. *)
Theorem policy_create_spec uuid now b s desc d :
  ds_ok d →
  let '(r, d') := create uuid now b s desc d in
  ds_billets d' = ds_billets d ∧
  match r with
  | Ok resp => admitted_statement b s ∧ is_Some (ds_billets d !! b) ∧
      ds_policies d !! (b, uuid) = None ∧
      ds_policies d' = <[(b, uuid) := mkPolicy b uuid s desc now now]> (ds_policies d) ∧
      cr_policy_id resp = uuid
  | Err e => ds_policies d' = ds_policies d ∧
      (e = BilletNotFound b → admitted_statement b s → ds_billets d !! b = None)
  end.
Proof.
  intros Hd. destruct (create uuid now b s desc d) as [r d'] eqn:E.
  apply create_inv in E as (_ & ? & Hr); [|done]. split; [done|]. destruct r as [resp|e].
  - destruct Hr as (? & ? & ? & ? & ->). done.
  - destruct Hr as [? [Hv|[? ?]]]; split; try done; [|by auto].
    intros _ Hadm%validate_policy_Ok. congruence.
Qed.

End crud.

(* ------------------------------------------------------------------ *)
(** ** Witnesses *)

Import Demo.

Definition demo_system : list string := ["quartermaster-admin"; "quartermaster-guardrails"].

Lemma demo_store_admitted : store_admitted demo_system demo_store.
Proof.
  unfold store_admitted. intros [b i] r Hr. apply elem_of_map_to_list in Hr.
  vm_compute in Hr. unfold admitted, admitted_statement.
  repeat (apply elem_of_cons in Hr as [Hr|Hr]; [injection Hr as -> -> ->|]);
    [..|by apply not_elem_of_nil in Hr]; eexists; (split; [vm_compute; reflexivity|]); cbn;
    split; try done; intros Hb; try set_solver; intros p ->%list_elem_of_singleton; done.
Qed.

Lemma policy_crud_admits_witness :
  let ops := [PCreate "4" "t1" "writer" "permit *" ""; PCreate "5" "t1" "writer" "forbid writer" "";
              PCreate "6" "t1" "quartermaster-guardrails" "permit writer" ""; PDelete "reader" "1"] in
  let d' := foldl (λ d o, exec demo_system o d) demo_store ops in
  store_admitted demo_system d' ∧ size (ds_policies d') = 3.
Proof.
  intros ops d'. split; [|by vm_compute].
  exact (proj1 (policy_crud_admits demo_system ops demo_store demo_store_ok demo_store_admitted)).
Defined.

Lemma policy_create_spec_witness :
  let '(r, d') := create demo_system "9" "t1" "writer" "forbid writer" "" demo_store in
  is_ok r = true ∧ ds_billets d' = ds_billets demo_store.
Proof.
  pose proof (policy_create_spec demo_system "9" "t1" "writer" "forbid writer" "" demo_store
                demo_store_ok) as H.
  destruct (create demo_system "9" "t1" "writer" "forbid writer" "" demo_store) as [r d'] eqn:E.
  split; [|by destruct H].
  assert (is_ok (create demo_system "9" "t1" "writer" "forbid writer" "" demo_store).1 = true) as Hok
    by (vm_compute; reflexivity).
  by rewrite E in Hok.
Defined.

(** On the file-backed store an update empties the creation time, which the
    comment in [update] says is preserved. *)
Lemma local_update_drops_created_at :
  pcreated_at <$> ds_policies demo_store !! ("reader", "1") = Some "t0" ∧
  match update demo_system "t9" "reader" "1" "permit reader" "" demo_store with
  | (Ok r, d') => pcreated_at r = "" ∧ pcreated_at <$> ds_policies d' !! ("reader", "1") = Some ""
  | (Err _, _) => False
  end.
Proof. vm_compute. done. Qed.

End PolicyCrud.
