(* ===== verification/BilletCrud.v ===== *)
(** * Billet administration and bootstrap
    ([src/src/domain/admin/billets.rs], [src/src/domain/bootstrap.rs]) *)

From S2P Require Import Prelude DataStore LocalStore CedarApi AuditLog Demo Tags PolicyCrud.

Module BilletCrud.
Import DataStore.

Inductive BilletCrudError : Type :=
| NameEmpty
| InvalidTags (msg : string)
| AlreadyExists (name : string)
| NotFound (name : string)
| ProtectedBillet (name : string)
| InternalError (msg : string).

Definition BilletCrudError_fmt (e : BilletCrudError) : string :=
  match e with
  | NameEmpty => "billet name must not be empty"
  | InvalidTags msg => msg
  | AlreadyExists name => "billet '" +:+ name +:+ "' already exists"
  | NotFound name => "billet '" +:+ name +:+ "' not found"
  | ProtectedBillet name => "billet '" +:+ name +:+ "' is protected and cannot be deleted"
  | InternalError msg => "internal error: " +:+ msg
  end.

Record PolicySummary : Type := mkSummary {
  sum_id : string;
  sum_statement : string;
  sum_description : string
}.

Record BilletWithPolicies : Type := mkWithPolicies {
  wp_name : string;
  wp_description : string;
  wp_associated_aws_roles : list string;
  wp_associated_gcp_sas : list string;
  wp_tags : list string;
  wp_updated_at : string;
  wp_policies : list PolicySummary
}.

Record BilletListItem : Type := mkItem { item_name : string; item_description : string }.

Section crud.
Context {D : Type} `{DataStore D}.

Definition internal (e : DataStoreError) : BilletCrudError := InternalError (DataStoreError_fmt e).

Definition create (now name_ description_ : string) (aws_roles gcp_sas tags_ : list string) :
    M D BilletCrudError BilletRecord :=
  _ ← lift_res (fail_if (Str.is_empty (Str.trim name_)) NameEmpty);
  _ ← lift_res (map_err InvalidTags (Tags.validate_tags tags_));
  existing ← m_map_err internal (get_billet name_);
  _ ← lift_res (fail_if (bool_decide (is_Some existing)) (AlreadyExists name_));
  let record := mkBillet name_ description_ aws_roles gcp_sas tags_ now now in
  _ ← m_map_err internal (create_billet record);
  mret record.

Definition item_le (a b : BilletListItem) : Prop := str_le (item_name a) (item_name b).

Definition list_ : M D BilletCrudError (list BilletListItem) :=
  db_billets ← m_map_err internal list_billets;
  mret (merge_sort item_le ((λ b, mkItem (name b) (description b)) <$> db_billets)).

Definition get (n : string) : M D BilletCrudError BilletRecord :=
  record ← m_map_err internal (get_billet n);
  match record with
  | Some r => mret r
  | None => throw (NotFound n)
  end.

Definition get_with_policies (n : string) : M D BilletCrudError BilletWithPolicies :=
  record ← m_map_err internal (get_billet n);
  record ← lift_res (ok_or (NotFound n) record);
  policy_records ← m_map_err internal (list_policies_for_billet n);
  let policies := (λ r, mkSummary (policy_id r) (statement r) (pdescription r)) <$> policy_records in
  mret (mkWithPolicies (name record) (description record) (associated_aws_roles record)
          (associated_gcp_sas record) (tags record) (updated_at record) policies).

(** Only the fields that are present replace those of the record. *)
Definition merge_fields (r : BilletRecord) (now : string) (description_ : option string)
    (aws_roles gcp_sas tags_ : option (list string)) : BilletRecord :=
  mkBillet (name r) (default (description r) description_)
    (default (associated_aws_roles r) aws_roles) (default (associated_gcp_sas r) gcp_sas)
    (default (tags r) tags_) (created_at r) now.

Definition update (now n : string) (description_ : option string)
    (aws_roles gcp_sas tags_ : option (list string)) : M D BilletCrudError BilletRecord :=
  _ ← lift_res (match tags_ with
                | Some new_tags => map_err InvalidTags (Tags.validate_tags new_tags)
                | None => Ok tt
                end);
  existing ← m_map_err internal (get_billet n);
  match existing with
  | None => throw (NotFound n)
  | Some r =>
      let record := merge_fields r now description_ aws_roles gcp_sas tags_ in
      _ ← m_map_err internal (update_billet record);
      mret record
  end.

Definition is_protected (n : string) : bool :=
  bool_decide (n = "quartermaster-admin") || bool_decide (n = "quartermaster-guardrails").

Definition delete_cascade (n : string) : M D BilletCrudError unit :=
  _ ← lift_res (fail_if (is_protected n) (ProtectedBillet n));
  existing ← m_map_err internal (get_billet n);
  _ ← lift_res (fail_if (bool_decide (existing = None)) (NotFound n));
  _ ← m_map_err internal (delete_billet_cascade n);
  mret tt.

(** [delete] has the same body. *)
Definition delete (n : string) : M D BilletCrudError unit :=
  _ ← lift_res (fail_if (is_protected n) (ProtectedBillet n));
  existing ← m_map_err internal (get_billet n);
  _ ← lift_res (fail_if (bool_decide (existing = None)) (NotFound n));
  _ ← m_map_err internal (delete_billet_cascade n);
  mret tt.

(* ------------------------------------------------------------------ *)
(** ** [bootstrap.rs] *)

Record SystemBillet : Type := mkSystemBillet { sys_name : string; sys_description : string }.

Definition SYSTEM_BILLETS : list SystemBillet :=
  [mkSystemBillet "quartermaster-guardrails" "System billet for global guardrail (forbid) policies";
   mkSystemBillet "quartermaster-admin" "Bootstrap admin billet"].

Definition bootstrap_one (now : string) (billet : SystemBillet) : M D DataStoreError unit :=
  existing ← get_billet (sys_name billet);
  if bool_decide (existing = None) then
    create_billet (mkBillet (sys_name billet) (sys_description billet) [] [] ["system:true"] now now)
  else mret tt.

Fixpoint bootstrap_from (now : string) (l : list SystemBillet) : M D DataStoreError unit :=
  match l with
  | [] => mret tt
  | b :: l' => _ ← bootstrap_one now b; bootstrap_from now l'
  end.

Definition bootstrap_system_billets (now : string) : M D DataStoreError unit :=
  bootstrap_from now SYSTEM_BILLETS.

(* ------------------------------------------------------------------ *)
(** ** Operations on a lawful store *)

Context `{!DataStoreLaws D}.

Lemma billet_create_inv now n desc aws gcp tg d r d' :
  ds_ok d → create now n desc aws gcp tg d = (r, d') →
  ds_ok d' ∧ ds_policies d' = ds_policies d ∧
  match r with
  | Ok rec => Str.trim n ≠ "" ∧ Forall Tags.tag_form tg ∧ ds_billets d !! n = None ∧
      rec = mkBillet n desc aws gcp tg now now ∧ ds_billets d' = <[n := rec]> (ds_billets d)
  | Err e => ds_billets d' = ds_billets d ∧
      (e = AlreadyExists n → is_Some (ds_billets d !! n)) ∧ (e = NameEmpty → Str.trim n = "")
  end.
Proof.
  intros Hd Hc. unfold create in Hc.
  apply M_bind_inv in Hc as [([] & d1 & Hv & Hc)|(e & Hv & ->)]; injection Hv as Hv <-.
  2:{ unfold fail_if in Hv. destruct (Str.is_empty _) eqn:Hn; [|done]. injection Hv as <-.
      apply bool_decide_eq_true in Hn. split_and!; done. }
  apply fail_if_Ok, bool_decide_eq_false in Hv.
  apply M_bind_inv in Hc as [([] & d1 & Ht & Hc)|(e & Ht & ->)]; injection Ht as Ht <-.
  2:{ apply map_err_Err in Ht as (m & _ & ->). split_and!; done. }
  apply map_err_Ok, Tags.validate_tags_Ok in Ht.
  apply bind_map_err in Hc as [(o & d2 & Hg & Hc)|(e & Hg & ->)];
    apply get_billet_spec in Hg as (Hd2 & Hb2 & Hp2 & Ho); try done.
  specialize (Ho o eq_refl). apply M_bind_inv in Hc as [([] & d3 & Hf & Hc)|(e & Hf & ->)];
    injection Hf as Hf <-; unfold fail_if in Hf; case_bool_decide as Hs; try done.
  2:{ injection Hf as <-. rewrite Ho in Hs. split_and!; done. }
  apply bind_map_err in Hc as [([] & d4 & Hcp & Hc)|(e & Hcp & ->)];
    apply create_billet_spec in Hcp as (Hd4 & Hp4 & Hcp); try done.
  - injection Hc as <- <-. destruct Hcp as [Hfree Hb4]. cbn in *. rewrite Hb2 in *.
    split_and!; try done; congruence.
  - destruct Hcp as [Hb4 _]. rewrite Hb4, Hp4. done.
Qed.

Lemma billet_update_inv now n desc aws gcp tg d r d' :
  ds_ok d → update now n desc aws gcp tg d = (r, d') →
  ds_ok d' ∧ ds_policies d' = ds_policies d ∧
  match r with
  | Ok rec => (∀ t, tg = Some t → Forall Tags.tag_form t) ∧
      ∃ old, ds_billets d !! n = Some old ∧ rec = merge_fields old now desc aws gcp tg ∧
        ds_billets d' = <[n := rec]> (ds_billets d)
  | Err e => ds_billets d' = ds_billets d ∧ (e = NotFound n → ds_billets d !! n = None)
  end.
Proof.
  intros Hd Hc. unfold update in Hc.
  apply M_bind_inv in Hc as [([] & d1 & Hv & Hc)|(e & Hv & ->)]; injection Hv as Hv <-.
  2:{ destruct tg as [t|]; [|done]. apply map_err_Err in Hv as (m & _ & ->). split_and!; done. }
  apply bind_map_err in Hc as [(o & d2 & Hg & Hc)|(e & Hg & ->)];
    apply get_billet_spec in Hg as (Hd2 & Hb2 & Hp2 & Ho); try done.
  specialize (Ho o eq_refl). destruct o as [old|]; [|injection Hc as <- <-; split_and!; done].
  destruct (ds_keyed d Hd) as [Hk _]. symmetry in Ho. pose proof (Hk _ _ Ho) as Hname.
  apply bind_map_err in Hc as [([] & d4 & Hcp & Hc)|(e & Hcp & ->)];
    apply update_billet_spec in Hcp as (Hd4 & Hp4 & Hcp); try done.
  - injection Hc as <- <-. destruct Hcp as [_ Hb4]. cbn in Hb4. rewrite Hname, Hb2 in Hb4.
    split; [done|]. split; [congruence|]. split.
    + intros t ->. by apply map_err_Ok, Tags.validate_tags_Ok in Hv.
    + exists old. done.
  - destruct Hcp as [Hb4 _]. rewrite Hb4, Hp4. done.
Qed.

Lemma billet_delete_inv n d r d' :
  ds_ok d → (delete n d = (r, d') ∨ delete_cascade n d = (r, d')) →
  ds_ok d' ∧
  match r with
  | Ok _ => is_protected n = false ∧ is_Some (ds_billets d !! n) ∧
      ds_billets d' = base.delete n (ds_billets d) ∧ ds_policies d' = remove_policies n (ds_policies d)
  | Err e => ds_billets d' = ds_billets d ∧ ds_policies d' = ds_policies d ∧
      (e = NotFound n → ds_billets d !! n = None)
  end.
Proof.
  intros Hd Hc. assert (delete_cascade n d = (r, d')) as Hc' by by destruct Hc.
  clear Hc. rename Hc' into Hc. unfold delete_cascade in Hc.
  apply M_bind_inv in Hc as [([] & d1 & Hv & Hc)|(e & Hv & ->)]; injection Hv as Hv <-;
    unfold fail_if in Hv; destruct (is_protected n) eqn:Hp; try done.
  2:{ injection Hv as <-. split_and!; done. }
  apply bind_map_err in Hc as [(o & d2 & Hg & Hc)|(e & Hg & ->)];
    apply get_billet_spec in Hg as (Hd2 & Hb2 & Hp2 & Ho); try done.
  specialize (Ho o eq_refl). apply M_bind_inv in Hc as [([] & d3 & Hf & Hc)|(e & Hf & ->)];
    injection Hf as Hf <-; unfold fail_if in Hf; case_bool_decide as Hs; try done.
  2:{ rewrite Ho in Hs. split_and!; done. }
  apply bind_map_err in Hc as [(z & d4 & Hcp & Hc)|(e & Hcp & ->)];
    apply delete_billet_cascade_spec in Hcp as (Hd4 & Hcp); try done.
  - injection Hc as <- <-. rewrite Hb2, Hp2 in Hcp. done.
  - destruct Hcp as (Hb4 & Hp4 & _). rewrite Hb4, Hp4. done.
Qed.

(** A read leaves both maps alone. *)
Definition same_view (d d' : D) : Prop :=
  ds_ok d' ∧ ds_billets d' = ds_billets d ∧ ds_policies d' = ds_policies d.

Lemma list_inv d r d' :
  ds_ok d → list_ d = (r, d') →
  same_view d d' ∧ ∀ l, r = Ok l →
    StronglySorted item_le l ∧
    l ≡ₚ (λ b, mkItem (name b) (description b)) <$> (map_to_list (ds_billets d)).*2.
Proof.
  intros Hd Hl. unfold list_ in Hl. unfold same_view.
  apply bind_map_err in Hl as [(l & d1 & Hg & Hl)|(e & Hg & ->)];
    apply list_billets_spec in Hg as (Hd1 & Hb1 & Hp1 & Hperm); try done.
  injection Hl as <- <-. split; [done|]. intros ? [= <-]. split.
  - assert (∀ x y, base.Decision (item_le x y)) by apply _.
    apply StronglySorted_merge_sort; intros x; unfold item_le; intros; [by etrans|apply total, _].
  - rewrite merge_sort_Permutation. by rewrite (Hperm l eq_refl).
Qed.

Lemma get_inv n d r d' :
  ds_ok d → get n d = (r, d') →
  same_view d d' ∧ (∀ x, r = Ok x → ds_billets d !! n = Some x) ∧
  (r = Err (NotFound n) → ds_billets d !! n = None).
Proof.
  intros Hd Hg. unfold get in Hg.
  apply bind_map_err in Hg as [(o & d1 & Hb & Hg)|(e & Hb & ->)];
    apply get_billet_spec in Hb as (Hd1 & Hb1 & Hp1 & Ho); try done.
  specialize (Ho o eq_refl). destruct o; injection Hg as <- <-; split_and!; try done; naive_solver.
Qed.

Lemma get_with_policies_inv n d r d' :
  ds_ok d → get_with_policies n d = (r, d') →
  same_view d d' ∧ ∀ x, r = Ok x →
    (∃ b, ds_billets d !! n = Some b ∧ wp_name x = name b ∧ wp_tags x = tags b ∧
       wp_description x = description b) ∧
    sum_id <$> wp_policies x ≡ₚ
      policy_id <$> filter (λ p, billet_name p = n) (map_to_list (ds_policies d)).*2.
Proof.
  intros Hd Hg. unfold get_with_policies in Hg. unfold same_view.
  apply bind_map_err in Hg as [(o & d1 & Hb & Hg)|(e & Hb & ->)];
    apply get_billet_spec in Hb as (Hd1 & Hb1 & Hp1 & Ho); try done.
  specialize (Ho o eq_refl).
  destruct o as [b|]; [|injection Hg as <- <-; done].
  change (match (m_map_err internal (list_policies_for_billet n) ≫= λ l,
    mret (mkWithPolicies (name b) (description b) (associated_aws_roles b) (associated_gcp_sas b)
      (tags b) (updated_at b) ((λ r, mkSummary (policy_id r) (statement r) (pdescription r)) <$> l)))
    d1 with x => x = (r, d') end) in Hg. cbv beta iota in Hg.
  apply bind_map_err in Hg as [(l & d2 & Hl & Hg)|(e & Hl & ->)];
    apply list_policies_for_billet_spec in Hl as (Hd2 & Hb2 & Hp2 & Hl); try done;
    [injection Hg as <- <-|]; (split; [split_and!; [done|congruence..]|]); [|done].
  intros ? [= <-]. split; [by exists b|]. cbn.
  rewrite <-list_fmap_compose, <-Hp1, <-(Hl l eq_refl). done.
Qed.

(** ** Histories of administration requests *)

Inductive billet_op : Type :=
| BCreate (now n desc : string) (aws gcp tg : list string)
| BUpdate (now n : string) (desc : option string) (aws gcp tg : option (list string))
| BDelete (n : string)
| BDeleteCascade (n : string)
| BGet (n : string)
| BGetWithPolicies (n : string)
| BList.

Definition exec (o : billet_op) (d : D) : D :=
  match o with
  | BCreate now n desc aws gcp tg => (create now n desc aws gcp tg d).2
  | BUpdate now n desc aws gcp tg => (update now n desc aws gcp tg d).2
  | BDelete n => (delete n d).2
  | BDeleteCascade n => (delete_cascade n d).2
  | BGet n => (get n d).2
  | BGetWithPolicies n => (get_with_policies n d).2
  | BList => (list_ d).2
  end.

(** Every billet's tags are well formed, and no policy is attached to a billet
    that does not exist. *)
Definition tags_ok (d : D) : Prop := map_Forall (λ _ b, Forall Tags.tag_form (tags b)) (ds_billets d).
Definition no_orphans (d : D) : Prop := ∀ b i, is_Some (ds_policies d !! (b, i)) → is_Some (ds_billets d !! b).

Definition billet_inv (d : D) : Prop := ds_ok d ∧ tags_ok d ∧ no_orphans d.

Definition keeps_protected (d d' : D) : Prop :=
  ∀ n, is_protected n = true → is_Some (ds_billets d !! n) → is_Some (ds_billets d' !! n).

Lemma view_inv d d' : same_view d d' → billet_inv d → billet_inv d' ∧ keeps_protected d d'.
Proof.
  intros (Hd' & Hb & Hp) (_ & Ht & Ho). unfold billet_inv, keeps_protected, tags_ok, no_orphans in *.
  by rewrite Hb, Hp.
Qed.

Lemma insert_inv d d' n r :
  ds_ok d' → ds_policies d' = ds_policies d → ds_billets d' = <[n := r]> (ds_billets d) →
  Forall Tags.tag_form (tags r) → billet_inv d → billet_inv d' ∧ keeps_protected d d'.
Proof.
  intros Hd' Hp Hb Hr (_ & Ht & Ho). unfold billet_inv, keeps_protected, tags_ok, no_orphans in *.
  assert (∀ m, is_Some (ds_billets d !! m) → is_Some (<[n := r]> (ds_billets d) !! m)) as Hm.
  { intros m Hm. apply lookup_insert_is_Some. destruct (decide (n = m)); auto. }
  rewrite Hb, Hp. split_and!; [done|by apply map_Forall_insert_2| |by eauto].
  intros b i Hbi. eauto.
Qed.

Lemma remove_inv d d' n :
  ds_ok d' → is_protected n = false → ds_billets d' = base.delete n (ds_billets d) →
  ds_policies d' = remove_policies n (ds_policies d) →
  billet_inv d → billet_inv d' ∧ keeps_protected d d'.
Proof.
  intros Hd' Hn Hb Hp (_ & Ht & Ho). unfold billet_inv, keeps_protected, tags_ok, no_orphans in *.
  rewrite Hb, Hp. split_and!; [done|by apply map_Forall_delete| |].
  - intros b i [x Hx]. apply map_lookup_filter_Some in Hx as [Hx Hne]. cbn in Hne.
    rewrite lookup_delete_ne by done. eauto.
  - intros m Hm Hs. rewrite lookup_delete_ne; [done|]. intros ->. congruence.
Qed.

Lemma exec_inv o d : billet_inv d → billet_inv (exec o d) ∧ keeps_protected d (exec o d).
Proof.
  intros Hi. pose proof Hi as (Hd & Ht & _).
  destruct o as [now n desc aws gcp tg|now n desc aws gcp tg|n|n|n|n|]; cbn.
  - destruct (create _ _ _ _ _ _ d) as [r d'] eqn:E. apply billet_create_inv in E as (Hd' & Hp & Hr); [|done].
    destruct r as [rec|e]; cbn.
    + destruct Hr as (_ & Hf & _ & -> & Hb). by eapply insert_inv.
    + apply view_inv; [|done]. by destruct Hr.
  - destruct (update _ _ _ _ _ _ d) as [r d'] eqn:E. apply billet_update_inv in E as (Hd' & Hp & Hr); [|done].
    destruct r as [rec|e]; cbn.
    + destruct Hr as (Hf & old & Hold & -> & Hb). eapply insert_inv; [done..| |done].
      cbn. destruct tg as [t|]; [by apply Hf|]. exact (Ht _ _ Hold).
    + apply view_inv; [|done]. by destruct Hr.
  - destruct (delete n d) as [r d'] eqn:E. destruct (billet_delete_inv n d r d' Hd (or_introl E)) as (Hd' & Hr).
    destruct r; cbn; [destruct Hr as (? & _ & ? & ?); by eapply remove_inv|].
    apply view_inv; [|done]. by destruct Hr as (? & ? & _).
  - destruct (delete_cascade n d) as [r d'] eqn:E.
    destruct (billet_delete_inv n d r d' Hd (or_intror E)) as (Hd' & Hr).
    destruct r; cbn; [destruct Hr as (? & _ & ? & ?); by eapply remove_inv|].
    apply view_inv; [|done]. by destruct Hr as (? & ? & _).
  - destruct (get n d) as [r d'] eqn:E. apply get_inv in E as [Hv _]; [|done]. by apply view_inv.
  - destruct (get_with_policies n d) as [r d'] eqn:E.
    apply get_with_policies_inv in E as [Hv _]; [|done]. by apply view_inv.
  - destruct (list_ d) as [r d'] eqn:E. apply list_inv in E as [Hv _]; [|done]. by apply view_inv.
Qed.

End crud.

(* ------------------------------------------------------------------ *)
(** ** Billet and policy requests together *)

Section admin.
Context `{CedarApi.CedarLib} {D : Type} `{DataStoreLaws D} (system_billets : list string).

Inductive admin_op : Type :=
| OnBillet (o : billet_op)
| OnPolicy (o : PolicyCrud.policy_op).

Definition admin_exec (o : admin_op) (d : D) : D :=
  match o with
  | OnBillet o => exec o d
  | OnPolicy o => PolicyCrud.exec system_billets o d
  end.

Definition admin_inv (d : D) : Prop := billet_inv d ∧ PolicyCrud.store_admitted system_billets d.

(** Policies are only ever added to a billet that exists. *)
Lemma policy_exec_keys o d b i :
  ds_ok d → is_Some (ds_policies (PolicyCrud.exec system_billets o d) !! (b, i)) →
  is_Some (ds_policies d !! (b, i)) ∨ is_Some (ds_billets d !! b).
Proof.
  intros Hd. destruct o as [uuid now b' s desc|now b' i' s desc|b' i'|b' i'|b']; cbn.
  - destruct (PolicyCrud.create _ _ _ _ _ _ d) as [r d'] eqn:E.
    apply (PolicyCrud.create_inv _ _ _ _ _ _ _ _ _ Hd) in E as (_ & _ & Hr). cbn. destruct r as [resp|e].
    + destruct Hr as (_ & Hb & _ & -> & _). rewrite lookup_insert_is_Some.
      intros [[= <- <-]|[_ ?]]; auto.
    + destruct Hr as [-> _]. auto.
  - destruct (PolicyCrud.update _ _ _ _ _ _ d) as [r d'] eqn:E.
    apply (PolicyCrud.update_inv _ _ _ _ _ _ _ _ _ Hd) in E as (_ & _ & Hr). cbn.
    destruct Hr as [[-> _]|(_ & Hs & rec & _ & -> & _)]; [auto|].
    rewrite lookup_insert_is_Some. intros [[= <- <-]|[_ ?]]; auto.
  - destruct (PolicyCrud.delete b' i' d) as [r d'] eqn:E.
    apply (PolicyCrud.delete_inv _ _ _ _ _ Hd) in E as (_ & _ & Hr). cbn.
    destruct r; [destruct Hr as [_ ->]|rewrite Hr; auto].
    rewrite lookup_delete_is_Some. naive_solver.
  - destruct (PolicyCrud.get b' i' d) as [r d'] eqn:E. cbn. unfold PolicyCrud.get in E.
    apply bind_map_err in E as [(o & d1 & Hg & E)|(e & Hg & _)];
      apply get_policy_spec in Hg as (_ & _ & Hp & _); try done; [|rewrite Hp; auto].
    destruct o; injection E as _ <-; rewrite Hp; auto.
  - destruct (PolicyCrud.list_for_billet b' d) as [r d'] eqn:E. cbn.
    apply m_map_err_inv in E as (x & Hx & _).
    apply list_policies_for_billet_spec in Hx as (_ & _ & -> & _); auto.
Qed.

Lemma remove_policies_Forall (P : string * string → PolicyRecord → Prop) n m :
  map_Forall P m → map_Forall P (remove_policies n m).
Proof. intros HP k x Hx%map_lookup_filter_Some. apply HP, Hx. Qed.

Lemma billet_exec_admitted o d :
  ds_ok d → PolicyCrud.store_admitted system_billets d →
  PolicyCrud.store_admitted system_billets (exec o d).
Proof.
  intros Hd Ha. unfold PolicyCrud.store_admitted in *.
  destruct o as [now n desc aws gcp tg|now n desc aws gcp tg|n|n|n|n|]; cbn.
  - destruct (create _ _ _ _ _ _ d) as [r d'] eqn:E. cbn. by apply billet_create_inv in E as (_ & -> & _).
  - destruct (update _ _ _ _ _ _ d) as [r d'] eqn:E. cbn. by apply billet_update_inv in E as (_ & -> & _).
  - destruct (delete n d) as [r d'] eqn:E. cbn. destruct (billet_delete_inv n d r d' Hd (or_introl E)) as (_ & Hr).
    destruct r; destruct Hr as (_ & Hr); cbn; [|by destruct Hr as [-> _]].
    destruct Hr as (_ & _ & ->). by apply remove_policies_Forall.
  - destruct (delete_cascade n d) as [r d'] eqn:E. cbn.
    destruct (billet_delete_inv n d r d' Hd (or_intror E)) as (_ & Hr).
    destruct r; destruct Hr as (_ & Hr); cbn; [|by destruct Hr as [-> _]].
    destruct Hr as (_ & _ & ->). by apply remove_policies_Forall.
  - destruct (get n d) as [r d'] eqn:E. cbn. by apply get_inv in E as [(_ & _ & ->) _].
  - destruct (get_with_policies n d) as [r d'] eqn:E. cbn.
    by apply get_with_policies_inv in E as [(_ & _ & ->) _].
  - destruct (list_ d) as [r d'] eqn:E. cbn. by apply list_inv in E as [(_ & _ & ->) _].
Qed.

Lemma admin_exec_inv o d : admin_inv d → admin_inv (admin_exec o d) ∧ keeps_protected d (admin_exec o d).
Proof.
  intros [Hi Ha]. pose proof Hi as (Hd & Ht & Ho). destruct o as [o|o]; cbn.
  - destruct (exec_inv o d Hi) as [? ?]. split; [split; [done|]|done]. by apply billet_exec_admitted.
  - destruct (PolicyCrud.exec_admitted system_billets o d Hd Ha) as (Hd' & Ha' & Hb).
    unfold admin_inv, billet_inv, keeps_protected, tags_ok, no_orphans in *. rewrite Hb.
    split_and!; try done. intros b i Hbi. destruct (policy_exec_keys o d b i Hd Hbi); eauto.
Qed.

(** Whatever sequence of billet and policy requests administrators issue,
    and however the store answers, the store keeps its shape: every billet's tags
    are well formed, no policy outlives or precedes its billet, every policy is
    admitted for its billet, and a protected system billet that exists is never
    removed. *)
Theorem admin_requests_safe ops d :
  admin_inv d →
  admin_inv (foldl (λ d o, admin_exec o d) d ops) ∧
  keeps_protected d (foldl (λ d o, admin_exec o d) d ops).
Proof.
  revert d. induction ops as [|o ops IH]; intros d Hi; [split; [done|by intros n]|]. cbn.
  destruct (admin_exec_inv o d Hi) as [Hi' Hk]. destruct (IH _ Hi') as [? Hk'].
  split; [done|]. intros n Hn Hs. by apply Hk', Hk.
Qed.
End admin.

(* ------------------------------------------------------------------ *)
(** ** Bootstrap *)

Section bootstrap.
Context {D : Type} `{DataStoreLaws D}.

(** Nothing that exists is changed. *)
Definition extends (d d' : D) : Prop :=
  ds_ok d' ∧ ds_policies d' = ds_policies d ∧ ds_billets d ⊆ ds_billets d'.

Lemma bootstrap_one_inv now b d r d' :
  ds_ok d → bootstrap_one now b d = (r, d') →
  extends d d' ∧ (r = Ok tt → is_Some (ds_billets d' !! sys_name b)) ∧
  (is_Some (ds_billets d !! sys_name b) → ds_billets d' = ds_billets d).
Proof.
  intros Hd Hb. unfold bootstrap_one in Hb. unfold extends.
  apply M_bind_inv in Hb as [(o & d1 & Hg & Hb)|(e & Hg & ->)];
    apply get_billet_spec in Hg as (Hd1 & Hb1 & Hp1 & Ho); try done; [|by rewrite Hb1].
  specialize (Ho o eq_refl). case_bool_decide as Hn.
  - apply create_billet_spec in Hb as (Hd' & Hp & Hr); [|done]. rewrite <-Hb1, <-Hp1, Hn in *.
    destruct r as [u|e].
    + destruct Hr as [_ Hb']. cbn in Hb'. rewrite Hb', <-Ho. split_and!; try done; [by apply insert_subseteq|].
      intros _. by rewrite lookup_insert_eq.
    + destruct Hr as [-> _]. done.
  - injection Hb as <- <-. rewrite Hb1. split_and!; try done. intros _. rewrite <-Ho.
    by apply not_eq_None_Some.
Qed.

Lemma bootstrap_from_inv now l d r d' :
  ds_ok d → bootstrap_from now l d = (r, d') →
  extends d d' ∧ (r = Ok tt → ∀ b, b ∈ l → is_Some (ds_billets d' !! sys_name b)) ∧
  ((∀ b, b ∈ l → is_Some (ds_billets d !! sys_name b)) → ds_billets d' = ds_billets d).
Proof.
  revert d. induction l as [|b l IH]; intros d Hd Hb; cbn in Hb.
  { injection Hb as <- <-. split; [done|]. split; [|done]. by intros _ b ?%not_elem_of_nil. }
  apply M_bind_inv in Hb as [([] & d1 & H1' & Hb)|(e & H1' & ->)];
    apply bootstrap_one_inv in H1' as ((Hd1 & Hp1 & Hs1) & Hok & Hid); try done.
  - apply IH in Hb as ((Hd2 & Hp2 & Hs2) & Hok2 & Hid2); [|done].
    split; [split_and!; [done|congruence|by etrans]|]. split.
    + intros Hr x [->|Hx]%elem_of_cons; [|by apply Hok2]. destruct (Hok eq_refl) as [y Hy].
      exists y. by apply (lookup_weaken _ _ _ _ Hy).
    + intros Hall. rewrite Hid2; [apply Hid, Hall; left|]. intros x Hx.
      rewrite Hid by (apply Hall; left). apply Hall. by right.
  - split; [done|]. split; [done|]. intros Hall. apply Hid, Hall. left.
Qed.

(** Start-up creates the two system billets if they are missing and changes
    nothing that exists; when it succeeds both exist, and then starting again, at
    any time and with any answers of the store, leaves the store as it is. *)
Theorem bootstrap_idempotent now now' d d' r :
  ds_ok d → bootstrap_system_billets now d = (r, d') →
  extends d d' ∧
  (r = Ok tt →
    is_Some (ds_billets d' !! "quartermaster-admin") ∧
    is_Some (ds_billets d' !! "quartermaster-guardrails") ∧
    ∀ r2 d2, bootstrap_system_billets now' d' = (r2, d2) → ds_billets d2 = ds_billets d' ∧
      ds_policies d2 = ds_policies d').
Proof.
  intros Hd Hb. apply bootstrap_from_inv in Hb as (He & Hok & _); [|done].
  split; [done|]. intros ->. specialize (Hok eq_refl). destruct He as (Hd' & _ & _).
  split_and!.
  - apply (Hok (mkSystemBillet "quartermaster-admin" "Bootstrap admin billet")). right. left.
  - unshelve eapply (Hok (mkSystemBillet "quartermaster-guardrails" _)); [|left].
  - intros r2 d2 H2'. apply bootstrap_from_inv in H2' as ((_ & Hp & _) & _ & Hid); [|done].
    split; [by apply Hid|done].
Qed.

(** The billet listing is sorted by name and has one entry for each stored
    billet. *)
Lemma list_sorted_complete d r d' :
  ds_ok d → list_ d = (r, d') →
  ds_billets d' = ds_billets d ∧ ∀ l, r = Ok l →
    StronglySorted (λ a b, str_le (item_name a) (item_name b)) l ∧
    NoDup (item_name <$> l) ∧
    ∀ n, n ∈ item_name <$> l ↔ is_Some (ds_billets d !! n).
Proof.
  intros Hd Hl. destruct (ds_keyed d Hd) as [Hk _]. apply list_inv in Hl as [(_ & Hb & _) Hl]; [|done].
  split; [done|]. intros l ->. destruct (Hl l eq_refl) as [Hs Hperm]. split; [done|].
  assert (item_name <$> l ≡ₚ (map_to_list (ds_billets d)).*1) as Hn.
  { rewrite Hperm, <-!list_fmap_compose. apply (reflexive_eq (R := Permutation)), list_fmap_ext.
    intros i [k b] Hi. cbn. apply Hk. by eapply elem_of_map_to_list, list_elem_of_lookup_2. }
  split.
  - rewrite Hn. apply NoDup_fst_map_to_list.
  - intros n. rewrite Hn, list_elem_of_fmap. split.
    + intros ([k b] & -> & ?%elem_of_map_to_list). by exists b.
    + intros [b Hb']. exists (n, b). split; [done|by apply elem_of_map_to_list].
Qed.
End bootstrap.

(* ------------------------------------------------------------------ *)
(** ** Witnesses *)

Import Demo.

Lemma demo_admin_inv : admin_inv PolicyCrud.demo_system demo_store.
Proof.
  split; [|exact PolicyCrud.demo_store_admitted]. split; [exact demo_store_ok|]. split.
  - intros n b Hb. apply elem_of_map_to_list in Hb. vm_compute in Hb.
    repeat (apply elem_of_cons in Hb as [Hb|Hb]; [injection Hb as -> ->|]);
      [..|by apply not_elem_of_nil in Hb]; constructor; try done;
      by apply Tags.validate_tag_spec.
  - intros b i [p Hp]. apply elem_of_map_to_list in Hp. vm_compute in Hp.
    repeat (apply elem_of_cons in Hp as [Hp|Hp]; [injection Hp as -> -> ->|]);
      [..|by apply not_elem_of_nil in Hp]; vm_compute; by eexists.
Qed.

Lemma admin_requests_safe_witness :
  let ops := [OnBillet (BCreate "t1" "ops" "" [] [] ["team:x"]); OnPolicy (PolicyCrud.PCreate "4" "t1" "ops" "permit ops" "");
              OnBillet (BDelete "quartermaster-admin"); OnBillet (BDeleteCascade "reader")] in
  let d' := foldl (λ d o, admin_exec PolicyCrud.demo_system o d) demo_store ops in
  admin_inv PolicyCrud.demo_system d' ∧ size (ds_billets d') = 4.
Proof.
  intros ops d'. split; [|by vm_compute].
  exact (proj1 (admin_requests_safe PolicyCrud.demo_system ops demo_store demo_admin_inv)).
Defined.

Lemma bootstrap_idempotent_witness :
  extends demo_store (bootstrap_system_billets "t1" demo_store).2.
Proof.
  exact (proj1 (bootstrap_idempotent "t1" "t2" demo_store _ _ demo_store_ok (surjective_pairing _))).
Defined.

Lemma list_sorted_complete_witness : ds_billets (list_ demo_store).2 = ds_billets demo_store.
Proof. exact (proj1 (list_sorted_complete demo_store _ _ demo_store_ok (surjective_pairing _))). Defined.

End BilletCrud.
