(* ===== verification/StoreSafety.v ===== *)
(** * What every backend guarantees about policies ([src/src/datastore/mod.rs])

    [DataStoreLaws] is the contract the file-backed store meets.  The cloud stores do
    not: a write that reports an error may have happened, an update may keep fields, a
    deletion may stop half way.  [StoreSafety] is the weaker interface that all three
    meet: an operation never makes a statement appear that was not written to it, and a
    listing shows stored statements only.  A small logic of footprints carries it from
    the operations of the trait to those of the services. *)

From S2P Require Import Prelude DataStore CedarApi PolicyCrud BilletCrud.

Module StoreSafety.
Import DataStore CedarApi.

(* ------------------------------------------------------------------ *)
(** ** Footprints *)

Section footprint.
Context {D : Type} (ok : D → Prop) (holds : D → string → Prop).

(** A computation keeps [ok] and adds no statement but those of [W]. *)
Definition writes {E A} (W : list string) (m : M D E A) : Prop :=
  ∀ d r d', ok d → m d = (r, d') → ok d' ∧ ∀ s, holds d' s → holds d s ∨ s ∈ W.

Lemma writes_here {E A} W (m : M D E A) : (∀ d, (m d).2 = d) → writes W m.
Proof. intros Hm d r d' Hd Hr. specialize (Hm d). rewrite Hr in Hm. cbn in Hm. subst d'. auto. Qed.

Lemma writes_ret {E A} W (a : A) : writes W (mret a : M D E A).
Proof. by apply writes_here. Qed.

Lemma writes_throw {E A} W (e : E) : writes W (throw e : M D E A).
Proof. by apply writes_here. Qed.

Lemma writes_lift {E A} W (r : result E A) : writes W (lift_res r : M D E A).
Proof. by apply writes_here. Qed.

Lemma writes_get {E} W : writes W (get_st : M D E D).
Proof. by apply writes_here. Qed.

Lemma writes_mono {E A} W W' (m : M D E A) : W ⊆ W' → writes W m → writes W' m.
Proof. intros HW Hm d r d' Hd Hr. destruct (Hm d r d' Hd Hr) as [? Hs]. split; [done|]. intros s [|]%Hs; auto. Qed.

Lemma writes_bind {E A B} W (m : M D E A) (k : A → M D E B) :
  writes W m → (∀ a, writes W (k a)) → writes W (m ≫= k).
Proof.
  intros Hm Hk d r d' Hd [(a & d1 & H1 & H2)|(e & H1 & ->)]%M_bind_inv; destruct (Hm _ _ _ Hd H1) as [Hd1 Hs1]; [|done].
  destruct (Hk a _ _ _ Hd1 H2) as [Hd2 Hs2]. split; [done|]. intros s [Hs|]%Hs2; auto.
Qed.

Lemma writes_map_err {E F A} W (f : E → F) (m : M D E A) : writes W m → writes W (m_map_err f m).
Proof. intros Hm d r d' Hd (x & Hx & ->)%m_map_err_inv. by apply (Hm _ _ _ Hd Hx). Qed.
End footprint.

Create HintDb footprint.
#[export] Hint Resolve writes_ret writes_throw writes_lift writes_get writes_map_err : footprint.

(** Walks through a computation down to the operations of the store. *)
Ltac footprint :=
  repeat first
    [ apply writes_bind; [|intros ?]
    | apply writes_map_err
    | solve [eauto with footprint]
    | case_match ].

(** An operation that only reads or deletes: no statement at all. *)
Abbreviation quiet ok holds m := (writes ok holds [] m).

(* ------------------------------------------------------------------ *)
(** ** The interface *)

Class StoreSafety (D : Type) `{DataStore D} := {
  ss_ok : D → Prop;
  ss_holds : D → string → Prop;
  safe_create_billet : ∀ r, quiet ss_ok ss_holds (create_billet r);
  safe_get_billet : ∀ n, quiet ss_ok ss_holds (get_billet n);
  safe_update_billet : ∀ r, quiet ss_ok ss_holds (update_billet r);
  safe_delete_billet_cascade : ∀ n, quiet ss_ok ss_holds (delete_billet_cascade n);
  safe_list_billets : quiet ss_ok ss_holds list_billets;
  safe_create_policy : ∀ r, writes ss_ok ss_holds [statement r] (create_policy r);
  safe_get_policy : ∀ b i, quiet ss_ok ss_holds (get_policy b i);
  safe_update_policy : ∀ r, writes ss_ok ss_holds [statement r] (update_policy r);
  safe_delete_policy : ∀ b i, quiet ss_ok ss_holds (delete_policy b i);
  safe_list_policies_for_billet : ∀ b, quiet ss_ok ss_holds (list_policies_for_billet b);
  safe_list_all_policies : quiet ss_ok ss_holds list_all_policies;
  listed_held : ∀ d l d', ss_ok d → list_all_policies d = (Ok l, d') → Forall (λ p, ss_holds d (statement p)) l
}.

Lemma quiet_writes {D E A} (ok : D → Prop) (holds : D → string → Prop) W (m : M D E A) :
  quiet ok holds m → writes ok holds W m.
Proof. apply writes_mono. set_solver. Qed.

#[export] Hint Resolve quiet_writes safe_create_billet safe_get_billet safe_update_billet safe_delete_billet_cascade
  safe_list_billets safe_get_policy safe_delete_policy safe_list_policies_for_billet safe_list_all_policies
  safe_create_policy safe_update_policy : footprint.

(** The operations on ephemeral keys leave the policies alone. *)
Class KeySafety (D : Type) `{StoreSafety D} := {
  safe_put_ephemeral_key : ∀ r, quiet ss_ok ss_holds (put_ephemeral_key r);
  safe_get_active_ephemeral_keys : ∀ p t, quiet ss_ok ss_holds (get_active_ephemeral_keys p t);
  safe_delete_expired_ephemeral_keys : ∀ p t, quiet ss_ok ss_holds (delete_expired_ephemeral_keys p t)
}.

#[export] Hint Resolve safe_put_ephemeral_key safe_get_active_ephemeral_keys safe_delete_expired_ephemeral_keys : footprint.

(* ------------------------------------------------------------------ *)
(** ** Stores seen as statements under keys *)

Section view.
Context {D K : Type} (ok : D → Prop) (view : D → K → option string).

Definition viewed (d : D) (s : string) : Prop := ∃ k, view d k = Some s.

(** What an operation that writes [W] does to such a store. *)
Definition view_step (W : list string) (d d' : D) : Prop :=
  ok d' ∧ ∀ k s, view d' k = Some s → view d k = Some s ∨ s ∈ W.

Lemma writes_view {E A} W (m : M D E A) :
  (∀ d r d', ok d → m d = (r, d') → view_step W d d') → writes ok viewed W m.
Proof.
  intros Hm d r d' Hd Hr. destruct (Hm d r d' Hd Hr) as [Hd' Hv]. split; [done|].
  intros s [k Hk]. destruct (Hv k s Hk); [left; by exists k|by right].
Qed.

Lemma view_same W d d' : ok d' → (∀ k, view d' k = view d k) → view_step W d d'.
Proof. intros Hd Hv. split; [done|]. intros k s. rewrite Hv. by left. Qed.

Lemma view_set `{EqDecision K} d d' k s :
  ok d' → (∀ k', view d' k' = if decide (k' = k) then Some s else view d k') → view_step [s] d d'.
Proof.
  intros Hd Hv. split; [done|]. intros k' s'. rewrite Hv. case_decide; [|by left].
  intros [= <-]. right. apply list_elem_of_here.
Qed.

Lemma view_less W d d' : ok d' → (∀ k, view d' k = view d k ∨ view d' k = None) → view_step W d d'.
Proof. intros Hd Hv. split; [done|]. intros k s. destruct (Hv k) as [->| ->]; [by left|done]. Qed.
End view.

(** A store that meets the full contract meets this one. *)
Definition lawful_view `{DataStoreLaws D} (d : D) (k : string * string) : option string :=
  statement <$> ds_policies d !! k.

Lemma lawful_same `{DataStoreLaws D} W (d d' : D) :
  ds_ok d' → ds_policies d' = ds_policies d → view_step ds_ok lawful_view W d d'.
Proof. intros Hd Hs. apply view_same; [done|]. intros k. unfold lawful_view. by rewrite Hs. Qed.

Lemma lawful_insert `{DataStoreLaws D} (d d' : D) k rec :
  ds_ok d' → ds_policies d' = <[k := rec]> (ds_policies d) → view_step ds_ok lawful_view [statement rec] d d'.
Proof.
  intros Hd Hs. apply (view_set _ _ _ _ k); [done|]. intros k'. unfold lawful_view. rewrite Hs.
  case_decide; [subst; by rewrite lookup_insert_eq|by rewrite lookup_insert_ne].
Qed.

Lemma lawful_listed `{DataStoreLaws D} (d : D) l (d' : D) : ds_ok d →
  list_all_policies d = (Ok l, d') → Forall (λ p, viewed lawful_view d (statement p)) l.
Proof.
  intros Hd Hr. apply list_all_policies_spec in Hr as (_ & _ & _ & Hl); [|done].
  rewrite (Hl l eq_refl). apply Forall_fmap, Forall_forall. intros [k p] Hp%elem_of_map_to_list.
  exists k. cbn. unfold lawful_view. by rewrite Hp.
Qed.

#[export] Instance lawful_safe `{DataStoreLaws D} : StoreSafety D.
Proof.
  refine {| ss_ok := ds_ok; ss_holds := viewed lawful_view; listed_held := lawful_listed |}.
  all: intros; apply writes_view; intros d r' d' Hd Hr.
  - apply create_billet_spec in Hr as (? & ? & _); [by apply lawful_same|done].
  - apply get_billet_spec in Hr as (? & _ & ? & _); [by apply lawful_same|done].
  - apply update_billet_spec in Hr as (? & ? & _); [by apply lawful_same|done].
  - apply delete_billet_cascade_spec in Hr as (Hd' & Hr); [|done]. apply view_less; [done|]. intros k.
    unfold lawful_view. destruct r' as [c|e]; [destruct Hr as (_ & _ & ->)|destruct Hr as (_ & -> & _); by left].
    unfold remove_policies. rewrite map_lookup_filter. destruct (ds_policies d !! k); cbn; [case_guard|]; auto.
  - apply list_billets_spec in Hr as (? & _ & ? & _); [by apply lawful_same|done].
  - apply create_policy_spec in Hr as (Hd' & _ & Hr); [|done].
    destruct r' as [u|e]; [destruct Hr as [_ Hr]; by eapply lawful_insert|].
    destruct Hr as [Hr _]. by apply lawful_same.
  - apply get_policy_spec in Hr as (? & _ & ? & _); [by apply lawful_same|done].
  - apply update_policy_spec in Hr as (Hd' & _ & Hr); [|done].
    destruct r' as [u|e]; [|destruct Hr as [Hr _]; by apply lawful_same].
    destruct Hr as (_ & rec & (_ & -> & _) & Hr). by eapply lawful_insert.
  - apply delete_policy_spec in Hr as (Hd' & _ & Hr); [|done].
    destruct r' as [u|e]; [|destruct Hr as [Hr _]; by apply lawful_same].
    destruct Hr as [_ Hr]. apply view_less; [done|]. intros k. unfold lawful_view. rewrite Hr.
    destruct (decide (k = (b, i))) as [->|]; [rewrite lookup_delete_eq; by right|rewrite lookup_delete_ne by done; by left].
  - apply list_policies_for_billet_spec in Hr as (? & _ & ? & _); [by apply lawful_same|done].
  - apply list_all_policies_spec in Hr as (? & _ & ? & _); [by apply lawful_same|done].
Defined.

(* ------------------------------------------------------------------ *)
(** ** The services *)

Section services.
Context `{CedarLib} {D : Type} `{StoreSafety D} (system_billets : list string).

Abbreviation may_write W m := (writes ss_ok ss_holds W m).

(** The statement a policy request may store: the one it carries, when it passes the
    checks for its billet. *)
Definition request_of (o : PolicyCrud.policy_op) : option (string * string) :=
  match o with
  | PolicyCrud.PCreate _ _ b s _ => Some (b, s)
  | PolicyCrud.PUpdate _ b _ s _ => Some (b, s)
  | _ => None
  end.

Definition admitted_request (o : BilletCrud.admin_op) : option (string * string) :=
  match o with
  | BilletCrud.OnPolicy o =>
      r ← request_of o;
      if is_ok (PolicyCrud.validate_policy system_billets r.1 r.2) then Some r else None
  | BilletCrud.OnBillet _ => None
  end.

Definition statements_of (o : option (string * string)) : list string := option_list (snd <$> o).

Lemma validated_writes {A} b s (m : M D PolicyCrud.PolicyCrudError A) :
  may_write [s] m →
  may_write (statements_of (if is_ok (PolicyCrud.validate_policy system_billets b s) then Some (b, s) else None))
    (_ ← lift_res (PolicyCrud.validate_policy system_billets b s); m).
Proof.
  intros Hm d r d' Hd Hr. destruct (PolicyCrud.validate_policy system_billets b s) as [u|e]; cbn in *.
  - by eapply Hm.
  - injection Hr as <- <-. split; [done|]. by left.
Qed.

Lemma policy_create_writes uuid now b s desc :
  may_write (statements_of (admitted_request (BilletCrud.OnPolicy (PolicyCrud.PCreate uuid now b s desc))))
    (PolicyCrud.create system_billets uuid now b s desc).
Proof. apply validated_writes. unfold PolicyCrud.create. footprint. Qed.

Lemma policy_update_writes now b i s desc :
  may_write (statements_of (admitted_request (BilletCrud.OnPolicy (PolicyCrud.PUpdate now b i s desc))))
    (PolicyCrud.update system_billets now b i s desc).
Proof. apply validated_writes. unfold PolicyCrud.update. footprint. Qed.

(** One request of an administrator, as a change of the store. *)
Definition store_step (W : list string) (d d' : D) : Prop :=
  ss_ok d' ∧ ∀ s, ss_holds d' s → ss_holds d s ∨ s ∈ W.

Lemma writes_step {E A} W (m : M D E A) d : may_write W m → ss_ok d → store_step W d (m d).2.
Proof. intros Hm Hd. by apply (Hm d (m d).1 (m d).2 Hd), surjective_pairing. Qed.

Lemma store_step_refl (d : D) : ss_ok d → store_step [] d d.
Proof. intros Hd. split; [done|]. auto. Qed.

Lemma store_step_trans W (d d1 d2 : D) : store_step W d d1 → store_step W d1 d2 → store_step W d d2.
Proof. intros [_ H1'] [Hd H2']. split; [done|]. intros s [Hs|]%H2'; auto. Qed.

Lemma policy_exec_step o d : ss_ok d →
  store_step (statements_of (admitted_request (BilletCrud.OnPolicy o))) d (PolicyCrud.exec system_billets o d).
Proof.
  destruct o; cbn [PolicyCrud.exec]; apply writes_step; [apply policy_create_writes|apply policy_update_writes|..];
    unfold PolicyCrud.delete, PolicyCrud.get, PolicyCrud.list_for_billet; footprint.
Qed.

Lemma billet_exec_step o d : ss_ok d → store_step [] d (BilletCrud.exec o d).
Proof.
  destruct o; cbn [BilletCrud.exec]; apply writes_step;
    unfold BilletCrud.create, BilletCrud.update, BilletCrud.delete, BilletCrud.delete_cascade, BilletCrud.get,
      BilletCrud.get_with_policies, BilletCrud.list_; footprint.
Qed.

(** Whatever the request and whatever the store answers, success or error, no
    statement is stored but the one the request carries, and that one only if it passed
    the checks. *)
Lemma admin_exec_step o d : ss_ok d →
  store_step (statements_of (admitted_request o)) d (BilletCrud.admin_exec system_billets o d).
Proof. destruct o; [apply billet_exec_step|apply policy_exec_step]. Qed.

Lemma bootstrap_step now d : ss_ok d → store_step [] d (BilletCrud.bootstrap_system_billets now d).2.
Proof.
  apply writes_step. unfold BilletCrud.bootstrap_system_billets, BilletCrud.SYSTEM_BILLETS,
    BilletCrud.bootstrap_from, BilletCrud.bootstrap_one. footprint.
Qed.

(** The record of an admitted request passed the checks. *)
Lemma admitted_request_admitted o b s :
  admitted_request o = Some (b, s) → PolicyCrud.admitted_statement system_billets b s.
Proof.
  destruct o as [o|o]; [done|]. cbn. destruct (request_of o) as [[b' s']|]; [|done]. cbn.
  destruct (PolicyCrud.validate_policy _ _ _) as [[]|] eqn:Hv; [|done]. intros [= -> ->].
  by apply PolicyCrud.validate_policy_Ok.
Qed.

End services.

End StoreSafety.
