(* ===== verification/Backends.v ===== *)
(** * The backends are safe

    [Dynamo] and [Firestore] do not meet [DataStoreLaws]: their errors do not say
    whether the write happened, and the reads of [Dynamo] lag behind its writes.  They
    meet [StoreSafety]: only a write adds to the statements that reads may show.  In all
    three backends ephemeral keys are kept apart from the policies ([KeySafety]). *)

From S2P Require Import Prelude DataStore LocalStore DynamoApi Dynamo Firestore PolicyCrud BilletCrud StoreSafety.

Module Backends.
Import DataStore StoreSafety.

(* ------------------------------------------------------------------ *)
(** ** DynamoDB *)

Section dynamo.
Import DynamoApi Dynamo.
Context `{DynamoLaws D} (st : DynamoDataStore) (dep : Dynamo.deployed (D := D) st).

#[local] Instance dynamo_store : DataStore D := Dynamo_DataStore st.

(** The statements a read of the policies may show, now or because it lags behind. *)
Definition dynamo_shows (d : D) (s : string) : Prop :=
  ∃ it, seen d (policies_table st) it ∧ statement (item_to_policy it) = s.

Abbreviation step W d d' := (True ∧ ∀ s, dynamo_shows d' s → dynamo_shows d s ∨ s ∈ (W : list string)).

Lemma dynamo_fresh d d' new : fresh st d d' new → step (statement <$> new) d d'.
Proof.
  intros Hf. split; [done|]. intros s (it & [?|Hin]%Hf & <-); [left; by exists it|right]. by apply list_elem_of_fmap_2.
Qed.

Lemma dynamo_quiet W d d' : fresh st d d' [] → step W d d'.
Proof. intros [_ Hs]%dynamo_fresh. split; [done|]. intros s [?|?%not_elem_of_nil]%Hs; [by left|done]. Qed.

Lemma dynamo_records W d d' : same_records st d d' → step W d d'.
Proof. intros (_ & _ & Hf). by apply dynamo_quiet. Qed.

Lemma dynamo_billet W d d' n o : sets_billet st d d' n o → step W d d'.
Proof. intros (_ & _ & Hf). by apply dynamo_quiet. Qed.

Lemma dynamo_policy d d' b i p : sets_policy st d d' b i (Some p) → step [statement p] d d'.
Proof. intros (_ & _ & Hf). exact (dynamo_fresh _ _ _ Hf). Qed.

Lemma dynamo_removed W d d' b i : sets_policy st d d' b i None → step W d d'.
Proof. intros (_ & _ & Hf). by apply dynamo_quiet. Qed.

Lemma outcome_either {E A} (r : result E A) (P Q R : Prop) : outcome r P Q → (P → R) → (Q → R) → R.
Proof. destruct r; cbn; tauto. Qed.

(** A cascade makes nothing visible. *)
Lemma dynamo_cascade_quiet n d r d' : d_delete_billet_cascade st n d = (r, d') → fresh st d d' [].
Proof.
  intros (d1 & (_ & _ & Hf)%(same_data_records st) & Hcase)%(cascade_steps st dep).
  assert (∀ d2, fresh st d1 d2 [] → fresh st d d2 []) as Htrans
    by (intros d2 H2' it [?%Hf|?]%H2'; [done|by right]).
  destruct Hcase as [(e & _ & ->)|(l & d2 & r2 & Hl & _ & Hpur & Hend)]; [done|].
  destruct (purged_policies st dep r2 d1 d2 n l Hl Hpur) as (_ & _ & _ & Hf2 & _). apply Htrans in Hf2.
  destruct Hend as [(e & _ & _ & ->)|(_ & Ho & _)]; [done|].
  assert (same_records st d2 d' ∨ sets_billet st d2 d' n None) as Hlast by (destruct r; cbn in Ho; tauto).
  assert (fresh st d2 d' []) as Hf3 by (destruct Hlast as [(_ & _ & ?)|(_ & _ & ?)]; done).
  intros it [?%Hf2|?]%Hf3; [done|by right].
Qed.

Lemma dynamo_listed (d : D) l d' :
  True → list_all_policies d = (Ok l, d') → Forall (λ p, dynamo_shows d (statement p)) l.
Proof.
  intros _ (_ & Hl & _)%scan_pages. destruct (Hl l eq_refl) as [Hs _]. eapply Forall_impl; [exact Hs|].
  intros p (it & Hit & [= <-]). by exists it.
Qed.

Definition dynamo_safe : StoreSafety D.
Proof.
  refine {| ss_ok := λ _, True; ss_holds := dynamo_shows; listed_held := dynamo_listed |}.
  all: intros; intros d r' d' _ Hr.
  - apply (d_create_billet_effect st dep) in Hr. eapply outcome_either; [exact Hr|apply dynamo_records|].
    intros (_ & b' & _ & Hs). by eapply dynamo_billet.
  - apply (d_get_billet_spec st dep) in Hr as [Hr _]. by apply dynamo_records.
  - apply (d_update_billet_effect st dep) in Hr. eapply outcome_either; [exact Hr|apply dynamo_records|].
    intros (old & ca & b' & _ & _ & _ & Hs). by eapply dynamo_billet.
  - by apply dynamo_quiet, (dynamo_cascade_quiet _ _ _ _ Hr).
  - apply scan_pages in Hr as [Hr _]. by apply dynamo_records, same_data_records.
  - apply (d_create_policy_effect st dep) in Hr. eapply outcome_either; [exact Hr|apply dynamo_records|].
    intros [_ Hs]. by eapply dynamo_policy.
  - apply (d_get_policy_spec st dep) in Hr as [Hr _]. by apply dynamo_records.
  - apply (d_update_policy_effect st dep) in Hr. eapply outcome_either; [exact Hr|apply dynamo_records|].
    intros (old & _ & Hs). by apply dynamo_policy in Hs.
  - apply (d_delete_policy_effect st dep) in Hr. eapply outcome_either; [exact Hr|apply dynamo_records|apply dynamo_removed].
  - apply (d_list_policies_for_billet_spec st dep) in Hr as [Hr _]. by apply dynamo_records, same_data_records.
  - apply scan_pages in Hr as [Hr _]. by apply dynamo_records, same_data_records.
Defined.

(** Only the table of keys changes. *)
Definition keys_only (d d' : D) : Prop := ∀ t, t ≠ keys_table st → ∀ it, seen d' t it → seen d t it.

Lemma dynamo_keys W d d' : keys_only d d' → step W d d'.
Proof.
  intros Hk. apply dynamo_quiet. intros it Hit. left. apply Hk; [|done].
  pose proof (dep_distinct st dep) as Hd. rewrite !NoDup_cons in Hd. set_solver.
Qed.

Lemma changed_keys_only d d' f : changed d d' (keys_table st) f → keys_only d d'.
Proof.
  intros Hc t Ht it Hit. destruct (Hc t) as [Htab Hs]. apply Hs in Hit as [?|[k Hk]]; [done|].
  rewrite Htab, decide_False in Hk by done. by eapply seen_current.
Qed.

Lemma same_keys_only d d' : same_data d d' → keys_only d d'.
Proof. intros Hd t _. apply (Hd t). Qed.

Lemma key_item_key p k it : it !! "purpose" = Some (AvS p) → it !! "key_id" = Some (AvS k) →
  item_key (schema (keys_table st)) it = Some [p; k].
Proof. intros Hp Hk. rewrite (dep_keys st dep). cbn. by rewrite Hp, Hk. Qed.

Lemma delete_keys_only p cs (d : D) r d' :
  Forall (λ c, length c ≤ 25) cs →
  for_each (λ chunk, _ ← call (batch_write_item (keys_table st)
                ((λ key_id, {["purpose" := AvS p; "key_id" := AvS key_id]} : Item) <$> chunk)); mret tt) cs d = (r, d') →
  keys_only d d'.
Proof.
  revert d. induction cs as [|c cs IH]; intros d Hlen Hrun; [injection Hrun as _ <-; by intros t _|].
  apply Forall_cons in Hlen as [Hlc Hlen].
  assert (∀ d1 (r1 : result DataStoreError unit) d2,
    (_ ← call (batch_write_item (keys_table st) ((λ k, {["purpose" := AvS p; "key_id" := AvS k]} : Item) <$> c)); mret tt) d1 = (r1, d2) →
    keys_only d1 d2) as Hb.
  { intros d1 r1 d2 Hb.
    assert (∃ x, batch_write_item (keys_table st) ((λ k, {["purpose" := AvS p; "key_id" := AvS k]} : Item) <$> c) d1 = (x, d2)) as [x Hx].
    { apply M_bind_inv in Hb as [(u & d3 & (x & Hx & _)%call_inv & [= _ <-])|(e & (x & Hx & _)%call_inv & _)]; by exists x. }
    apply (batch_law _ _ ((λ k, [p; k]) <$> c)) in Hx as (gone & _ & Hch & _); [by eapply changed_keys_only| |by rewrite length_fmap].
    apply Forall2_fmap, Forall_Forall2_diag, Forall_true. intros k. by apply key_item_key. }
  cbn [for_each] in Hrun. apply M_bind_inv in Hrun as [(u & d1 & Hr & Hk)|(e & Hr & _)]; [|by eapply Hb].
  intros t Ht it Hit. apply (Hb _ _ _ Hr t Ht). by apply (IH _ Hlen Hk t Ht).
Qed.

Lemma delete_expired_only p t (d : D) r d' : d_delete_expired_ephemeral_keys st p t d = (r, d') → keys_only d d'.
Proof.
  intros [(ids & d1 & Hq & Hk)|(e & Hq & ->)]%M_bind_inv;
    (apply (query_pages (keys_table st) "purpose" ":p" p [(":before", AvS t)]) in Hq as (Hd%same_keys_only & _);
      [|by rewrite (dep_keys st dep)|right; left]); [|done].
  assert (keys_only d1 d') as Hko.
  { apply M_bind_inv in Hk as [(u & d2 & Hf & [= _ <-])|(e & Hf & _)]; apply delete_keys_only in Hf; try done; apply chunks_bound. }
  intros t' Ht it Hit. by apply (Hd t' Ht), (Hko t' Ht).
Qed.

Definition dynamo_key_safe : KeySafety D (H0 := dynamo_safe).
Proof.
  split; intros; intros d r' d' _ Hr; apply dynamo_keys.
  - apply call_inv in Hr as (x & Hx & _).
    apply (put_item_law _ _ _ [purpose r; key_id r]) in Hx; [|by apply key_item_key].
    eapply outcome_either; [exact Hx|apply changed_keys_only|]. intros (_ & it' & _ & Hs). by eapply changed_keys_only.
  - apply (query_pages (keys_table st) "purpose" ":p" p [(":now", AvS t)]) in Hr as (Hd & _);
      [by apply same_keys_only|by rewrite (dep_keys st dep)|right; left].
  - by apply delete_expired_only in Hr.
Defined.
End dynamo.

(* ------------------------------------------------------------------ *)
(** ** Firestore *)

Section firestore.
Import Firestore.
Context `{FirestoreLaws D} (st : FirestoreDataStore).
Hypothesis collections_differ : billets_collection st ≠ policies_collection st.

#[local] Instance firestore_store : DataStore D := FirestoreDataStore_DataStore st.

Definition firestore_view (d : D) (id : string) : option string :=
  docs d (policies_collection st) !! id ≫= λ doc, field_s doc "statement".

Abbreviation step W d d' := (view_step (λ _, True) firestore_view W d d').

Lemma firestore_same W d d' :
  docs d' (policies_collection st) = docs d (policies_collection st) → step W d d'.
Proof. intros Hd. apply view_same; [done|]. intros id. unfold firestore_view. by rewrite Hd. Qed.

Lemma firestore_other W d d' f : changed d d' (billets_collection st) f → step W d d'.
Proof. intros Hc. by apply firestore_same, (fs_changed_other _ _ _ _ _ Hc), not_eq_sym. Qed.

Lemma firestore_insert s d d' id doc :
  changed d d' (policies_collection st) <[id := doc]> → field_s doc "statement" = Some s → step [s] d d'.
Proof.
  intros Hc Hs. apply (view_set _ _ _ _ id); [done|]. intros id'. unfold firestore_view.
  rewrite (fs_changed_at _ _ _ _ Hc). case_decide; [subst; by rewrite lookup_insert_eq|by rewrite lookup_insert_ne].
Qed.

Lemma firestore_less W d d' :
  docs d' (policies_collection st) ⊆ docs d (policies_collection st) → step W d d'.
Proof.
  intros Hs. split; [done|]. intros id s Hid. left. unfold firestore_view in *.
  apply bind_Some in Hid as (doc & Hdoc & Hf). by rewrite (lookup_weaken _ _ _ _ Hdoc Hs).
Qed.

Lemma list_objs_spec {A} (de : Doc → option A) c n (d : D) r d' : list_objs de c n d = (r, d') →
  same_docs d d' ∧ ∀ l, r = Ok l → ∀ a, a ∈ l → ∃ id doc, docs d c !! id = Some doc ∧ de doc = Some a.
Proof.
  intros [(l0 & d1 & (x & Hx%list_law & Ho)%fs_call_inv & [= <- <-])|(e & (x & Hx%list_law & Ho)%fs_call_inv & ->)]%M_bind_inv;
    destruct Hx as [Hs Hl]; (split; [done|]); [|done].
  destruct x as [x|]; [|done]. injection Ho as ->. intros ? [= <-] a (doc & Hdoc & Ha)%list_elem_of_omap.
  specialize (Hl x eq_refl). apply (elem_of_submseteq _ _ _ Hdoc) in Hl.
  apply list_elem_of_fmap in Hl as ([id doc'] & -> & Hin%elem_of_map_to_list). by exists id, doc'.
Qed.

Lemma query_objs_same {A} (de : Doc → option A) c fs (d : D) r d' : query_objs de c fs d = (r, d') → same_docs d d'.
Proof.
  intros (x & [(l0 & d1 & Hq%query_law & [= _ <-])|(e & Hq%query_law & ->)]%M_bind_inv & _)%fs_call_inv; by destruct Hq.
Qed.

Lemma firestore_listed (d : D) l d' :
  True → list_all_policies d = (Ok l, d') → Forall (λ p, viewed firestore_view d (statement p)) l.
Proof.
  intros _ [(objs & d1 & Ho%list_objs_spec & [= <- <-])|(e & _ & [=])]%M_bind_inv. destruct Ho as [_ Ho].
  apply Forall_fmap, Forall_forall. intros p (id & doc & Hdoc & Hp)%(Ho objs eq_refl). exists id.
  unfold firestore_view. rewrite Hdoc. cbn. apply de_policy_Some in Hp. naive_solver.
Qed.

Lemma firestore_cascade_less n d r d' :
  f_delete_billet_cascade st n d = (r, d') →
  docs d' (policies_collection st) ⊆ docs d (policies_collection st).
Proof.
  intros [(l & d1 & Hl%query_objs_same & Hk)|(e & Hl%query_objs_same & ->)]%M_bind_inv; [|by rewrite Hl].
  apply M_bind_inv in Hk as [([] & d2 & Hdb & Hk)|(e & Hdb & ->)];
    apply delete_batches_purge in Hdb as (gone & _ & Hc & _);
    pose proof (fs_changed_at _ _ _ _ Hc) as Hp; rewrite (Hl (policies_collection st)) in Hp.
  2:{ rewrite Hp. apply map_filter_subseteq. }
  assert (docs d' (policies_collection st) = docs d2 (policies_collection st)) as ->; [|rewrite Hp; apply map_filter_subseteq].
  apply M_bind_inv in Hk as [(u & d3 & (x & Hd%delete_law & _)%fs_call_inv & [= _ <-])|(e & (x & Hd%delete_law & _)%fs_call_inv & ->)].
  all: eapply outcome_either; [exact Hd|intros Hs; apply Hs|].
  all: intros Hb; by apply (fs_changed_other _ _ _ _ _ Hb), not_eq_sym.
Qed.

Definition firestore_safe : StoreSafety D.
Proof.
  refine {| ss_ok := λ _, True; ss_holds := viewed firestore_view; listed_held := firestore_listed |}.
  all: intros; apply writes_view; intros d r' d' _ Hr.
  - apply create_obj_effect in Hr. eapply outcome_either; [exact Hr|intros Hs; apply firestore_same, Hs|].
    intros [_ Hc]. by eapply firestore_other.
  - apply M_bind_inv in Hr as [(o & d1 & Hg%get_obj_spec & [= _ <-])|(e & Hg%get_obj_spec & _)];
      destruct Hg as [Hs _]; apply firestore_same, Hs.
  - apply update_obj_spec in Hr. eapply outcome_either; [exact Hr|intros Hs; apply firestore_same, Hs|].
    intros Hc. by eapply firestore_other.
  - apply firestore_less. exact (firestore_cascade_less _ _ _ _ Hr).
  - apply M_bind_inv in Hr as [(o & d1 & Hg%list_objs_spec & [= _ <-])|(e & Hg%list_objs_spec & _)];
      destruct Hg as [Hs _]; apply firestore_same, Hs.
  - apply create_obj_effect in Hr. eapply outcome_either; [exact Hr|intros Hs; apply firestore_same, Hs|].
    intros [_ Hc]. by eapply firestore_insert.
  - apply M_bind_inv in Hr as [(o & d1 & Hg%get_obj_spec & [= _ <-])|(e & Hg%get_obj_spec & _)];
      destruct Hg as [Hs _]; apply firestore_same, Hs.
  - apply update_obj_spec in Hr. eapply outcome_either; [exact Hr|intros Hs; apply firestore_same, Hs|].
    intros Hc. eapply firestore_insert; [exact Hc|]. by rewrite merge_field_s.
  - apply fs_call_inv in Hr as (x & Hx%delete_law & _).
    eapply outcome_either; [exact Hx|intros Hs; apply firestore_same, Hs|].
    intros Hc. apply firestore_less. rewrite (fs_changed_at _ _ _ _ Hc). apply delete_subseteq.
  - apply M_bind_inv in Hr as [(o & d1 & Hg%query_objs_same & [= _ <-])|(e & Hg%query_objs_same & _)];
      apply firestore_same, Hg.
  - apply M_bind_inv in Hr as [(o & d1 & Hg%list_objs_spec & [= _ <-])|(e & Hg%list_objs_spec & _)];
      destruct Hg as [Hs _]; apply firestore_same, Hs.
Defined.

Hypothesis keys_differ : keys_collection st ≠ policies_collection st.

Lemma firestore_keys W d d' f : changed d d' (keys_collection st) f → step W d d'.
Proof. intros Hc. by apply firestore_same, (fs_changed_other _ _ _ _ _ Hc), not_eq_sym. Qed.

Definition firestore_key_safe : KeySafety D (H0 := firestore_safe).
Proof.
  split; intros; apply writes_view; intros d r' d' _ Hr.
  - apply update_obj_spec in Hr. eapply outcome_either; [exact Hr|intros Hs; apply firestore_same, Hs|apply firestore_keys].
  - apply M_bind_inv in Hr as [(o & d1 & Hg%query_objs_same & [= _ <-])|(e & Hg%query_objs_same & _)];
      apply firestore_same, Hg.
  - apply M_bind_inv in Hr as [(l & d1 & Hl%query_objs_same & Hk)|(e & Hl%query_objs_same & _)]; [|apply firestore_same, Hl].
    assert (docs d' (policies_collection st) = docs d1 (policies_collection st)) as Hp; [|apply firestore_same; rewrite Hp; apply Hl].
    apply M_bind_inv in Hk as [([] & d2 & Hdb & [= _ <-])|(e & Hdb & _)];
      apply delete_batches_purge in Hdb as (gone & _ & Hc & _);
      by apply (fs_changed_other _ _ _ _ _ Hc), not_eq_sym.
Defined.
End firestore.

(* ------------------------------------------------------------------ *)
(** ** Files *)

Section local.
Import LocalStore.
Context `{FileSystem F} `{HashIter} `{Codec BilletRecord} `{Codec PolicyRecord} `{Codec EphemeralKeyRecord}.

(** The keys are a field of their own. *)
Lemma local_keys_quiet {E A} (m : M (LocalDataStore (F := F)) E A) :
  (∀ d r d', m d = (r, d') → billets (state d') = billets (state d) ∧ policies (state d') = policies (state d)) →
  quiet ss_ok ss_holds m.
Proof.
  intros Hm. apply writes_view. intros d r d' Hd Hr. destruct (Hm _ _ _ Hr) as [Hb Hp]. apply lawful_same; [|exact Hp].
  cbn in *. by rewrite Hb, Hp.
Qed.

Lemma remove_key_files_state root ids n (d : LocalDataStore (F := F)) r d' :
  remove_key_files root ids n d = (r, d') → state d' = state d.
Proof.
  revert n d. induction ids as [|i ids IH]; intros n d Hr; [by injection Hr as _ <-|].
  apply M_bind_inv in Hr as [(u & d1 & (x & f & _ & _ & ->)%ignore_err_inv & Hr)|(e & (x & f & _ & _ & ->)%ignore_err_inv & _)]; [|done].
  by rewrite (IH _ _ Hr).
Qed.

#[export] Instance local_key_safe : KeySafety (LocalDataStore (F := F)).
Proof.
  split; intros; apply local_keys_quiet; intros d r' d' Hr.
  - apply M_bind_inv in Hr as [(d0 & d1 & [= <- <-] & Hr)|(e & [=] & _)].
    apply M_bind_inv in Hr as [(j & d1 & (f & _ & ->)%on_disk_inv & Hr)|(e & (f & _ & ->)%on_disk_inv & _)]; [|done].
    by apply M_bind_inv in Hr as [(u & d2 & (f' & _ & ->)%on_disk_inv & [= _ <-])|(e & (f' & _ & ->)%on_disk_inv & _)].
  - by apply M_bind_inv in Hr as [(d0 & d1 & [= <- <-] & [= _ <-])|(e & [=] & _)].
  - apply M_bind_inv in Hr as [(d0 & d1 & [= <- <-] & Hr)|(e & [=] & _)].
    apply M_bind_inv in Hr as [(n & d1 & Hk%remove_key_files_state & Hr)|(e & Hk%remove_key_files_state & _)]; [|by rewrite Hk].
    apply M_bind_inv in Hr as [(u & d2 & [= _ <-] & [= _ <-])|(e & [=] & _)]. cbn. by rewrite Hk.
Qed.
End local.

End Backends.
