(* ===== verification/Authorization.v ===== *)
(** * Administration, synchronisation and resolution together

    The running system: administrators change the store, the synchroniser copies
    it into memory, workloads resolve their billets through the cache.  The
    theorem follows a billet in an answer, cached or fresh, back to a stored
    policy that was allowed to grant it. *)

From S2P Require Import Prelude Cache PathPattern DataStore LocalStore CedarApi AuditLog Demo Sync.
From S2P Require Import Cedar Resolver Tags PolicyCrud BilletCrud.

Module Authorization.
Import Cache PathPattern DataStore CedarApi Sync Resolver.

Section system.
Context `{CedarLaws} `{RegexLib} `{HashIter} {D : Type} `{DataStoreLaws D} {C : Type} `{CacheLaws C}.

(** What does not change while the service runs. *)
Context (system_billets : list string) (cache_ttl : Z) (matcher : PathPatternMatcher)
  (to_rfc3339 : Z → string).

(** The shared state; [history] records every policy that was ever stored. *)
Record System : Type := mkSystem {
  sync : PolicySyncService (D := D);
  cache : C;
  history : list PolicyRecord
}.

Definition stored (d : D) : list PolicyRecord := (map_to_list (ds_policies d)).*2.

Definition authorizer_of (s : System) : Cedar.CedarAuthorizer (D := D) :=
  Cedar.mkAuthorizer (sync s) system_billets.
Definition resolver_of (s : System) : BilletResolverImpl (D := D) :=
  mkResolver (Cedar.batch_is_authorized_entity (authorizer_of s)) (sync s) cache_ttl matcher to_rfc3339.

Definition admin_request (o : BilletCrud.admin_op) (s : System) : System :=
  let d := BilletCrud.admin_exec system_billets o (data_store (sync s)) in
  mkSystem (mkSync (state (sync s)) (policy_set_handle (sync s)) d (audit_service (sync s)))
    (cache s) (history s ++ stored d).

(** Every step the system can take; a resolution carries its answer. *)
Inductive step : System → option Resolution → System → Prop :=
| step_admin o s : step s None (admin_request o s)
| step_sync now dur uuid s :
    step s None (mkSystem (sync_round now dur uuid (sync s)) (cache s) (history s))
| step_resolve now wall input s r c' :
    resolve (resolver_of s) now wall input (cache s) = (Ok r, c') →
    step s (Some r) (mkSystem (sync s) c' (history s))
| step_resolve_err now wall input s e c' :
    resolve (resolver_of s) now wall input (cache s) = (Err e, c') →
    step s None (mkSystem (sync s) c' (history s)).

Inductive run : System → list Resolution → System → Prop :=
| run_nil s : run s [] s
| run_cons s o s1 rs s2 : step s o s1 → run s1 rs s2 → run s (option_list o ++ rs) s2.

(** A record of the history that may grant billet [b]: it holds a permit policy
    whose scope covers [b], and it belongs to [b] itself or to a system billet
    other than the guardrails. *)
Definition granted (h : list PolicyRecord) (b : string) : Prop :=
  ∃ r ps q u, r ∈ h ∧ parse_policy_set (statement r) = Ok ps ∧ q ∈ ps_policies ps ∧
    policy_effect q = Permit ∧ Cedar.is_billet u b ∧ resource_matches (policy_resource q) u ∧
    (billet_name r = b ∨ (billet_name r ∈ system_billets ∧ billet_name r ≠ "quartermaster-guardrails")).

(** A record is valid when it was stored and passed the administration checks. *)
Definition valid_in (h : list PolicyRecord) (r : PolicyRecord) : Prop :=
  r ∈ h ∧ PolicyCrud.admitted system_billets r.

Definition system_inv (s : System) : Prop :=
  BilletCrud.admin_inv system_billets (data_store (sync s)) ∧
  sync_inv (valid_in (history s)) (sync s) ∧
  cache_holds (λ _ bs, Forall (granted (history s)) bs) (cache s).

Lemma valid_parses h r : valid_in h r → is_ok (parse_policy_set (statement r)) = true.
Proof. intros [_ (ps & -> & _)]. done. Qed.

Lemma granted_mono h h' b : granted h b → granted (h ++ h') b.
Proof.
  intros (r & ps & q & u & Hr & Hrest). exists r, ps, q, u. split; [|done].
  apply elem_of_app. by left.
Qed.

Lemma in_force_mono h h' ps : in_force (valid_in h) ps → in_force (valid_in (h ++ h')) ps.
Proof.
  intros Hf p Hp. destruct (Hf p Hp) as (r & ps' & q & [Hr Ha] & Hrest). exists r, ps', q.
  split; [|done]. split; [|done]. apply elem_of_app. by left.
Qed.

(** The heart of the argument: a permit that is in force on [b] is a grant. *)
Lemma permitted_granted h ps b : in_force (valid_in h) ps → Cedar.permitted ps b → granted h b.
Proof.
  intros Hf (rq & es & Hb & (p & Hp & Heff & Hsat) & _).
  destruct (Hf p Hp) as (r & ps' & q & [Hr (ps'' & Hps'' & Hguard & Hown)] & Hps' & Hq & (He & Hres & _)).
  rewrite Hps' in Hps''. injection Hps'' as <-. apply scope_spec in Hsat. rewrite Hres in Hsat.
  rewrite Heff in He. symmetry in He.
  exists r, ps', q, (request_resource rq). split_and!; try done.
  destruct (decide (billet_name r ∈ system_billets)) as [Hs|Hs].
  - right. split; [done|]. intros Hg. specialize (Hguard Hg q Hq). congruence.
  - left. specialize (Hown Hs q Hq). unfold PolicyCrud.owned_by in Hown. destruct Hb as [_ <-].
    destruct (policy_resource q); cbn in *; try done; [by subst; destruct Hown..|].
    destruct Hsat as [_ ->]. by destruct Hown.
Qed.

Lemma stored_elem d k r : ds_policies d !! k = Some r → r ∈ stored d.
Proof. intros Hk. apply list_elem_of_fmap. exists (k, r). by rewrite elem_of_map_to_list. Qed.

Lemma admin_request_inv o s : system_inv s → system_inv (admin_request o s).
Proof.
  intros (Ha & (Hok & Hv & Hst) & Hc). unfold system_inv. cbn.
  destruct (BilletCrud.admin_exec_inv system_billets o _ Ha) as [Ha' _].
  pose proof Ha' as [[Hd' ?] Hadm]. destruct Hok as (Hh & ? & Hk). split; [done|]. split.
  - split; [done|]. split; cbn.
    + intros k r Hr. split; [|by apply (Hadm k)]. apply elem_of_app. right. by eapply stored_elem.
    + intros st Hs. by apply in_force_mono, Hst.
  - refine (cache_holds_mono _ _ _ _ Hc). intros k bs Hbs. eapply Forall_impl; [exact Hbs|]. intros b. apply granted_mono.
Qed.

Lemma round_store now dur uuid s :
  sync_ok s → let d := data_store (sync_round now dur uuid s) in
  ds_ok d ∧ ds_policies d = ds_policies (data_store s) ∧ ds_billets d = ds_billets (data_store s).
Proof.
  intros Hok. destruct (sync_round_state now dur uuid s) as (_ & _ & ->).
  pose proof (sync_once_merged s Hok) as Hm. destruct (sync_once s) as [r s'].
  by destruct Hm as ((_ & ? & _) & _ & ? & ? & _).
Qed.

Lemma round_inv now dur uuid s :
  system_inv s → system_inv (mkSystem (sync_round now dur uuid (sync s)) (cache s) (history s)).
Proof.
  intros (Ha & Hs & Hc). unfold system_inv. cbn. split_and!; [|by apply sync_round_inv; [apply valid_parses|]|done].
  destruct (round_store now dur uuid (sync s)) as (Hd & Hp & Hb); [by destruct Hs|].
  destruct Ha as [(_ & Ht & Ho) Hadm]. split; [split_and!; [done|..]|].
  - unfold BilletCrud.tags_ok. by rewrite Hb.
  - unfold BilletCrud.no_orphans. by rewrite Hb, Hp.
  - unfold PolicyCrud.store_admitted. by rewrite Hp.
Qed.

Lemma resolve_inv now wall input s r c' :
  system_inv s → resolve (resolver_of s) now wall input (cache s) = (r, c') →
  system_inv (mkSystem (sync s) c' (history s)) ∧
  ∀ res, r = Ok res → Forall (granted (history s)) (rbillets res).
Proof.
  intros (Ha & Hs & Hc) Hr.
  destruct (resolve_preserves (resolver_of s) (authorizer_of s) (granted (history s))
              now wall input (cache s) r c' eq_refl) as [Hc' Hres]; [|done|done|done].
  intros ps b Hps Hp. destruct Hs as ((Hh & _) & _ & Hst). cbn in Hps. rewrite Hh in Hps.
  apply fmap_Some in Hps as (st & Hst' & ->). eapply permitted_granted; [|done]. by apply Hst.
Qed.

Lemma step_inv s o s' :
  system_inv s → step s o s' →
  system_inv s' ∧ (∃ h, history s' = history s ++ h) ∧
  ∀ res, o = Some res → Forall (granted (history s')) (rbillets res).
Proof.
  intros Hs Hstep. destruct Hstep as [o s|now dur uuid s|now wall input s r c' Hr|now wall input s e c' Hr].
  - split_and!; [by apply admin_request_inv|by eexists|done].
  - split_and!; [by apply round_inv|exists []; by rewrite app_nil_r|done].
  - apply resolve_inv in Hr as [Hi Hres]; [|done]. split_and!; [done|exists []; by rewrite app_nil_r|].
    intros res [= <-]. by apply Hres.
  - apply resolve_inv in Hr as [Hi Hres]; [|done]. split_and!; [done|exists []; by rewrite app_nil_r|done].
Qed.

(** In every run of the system, with any administration requests,
    synchronisation rounds and resolutions in any order, each billet in any
    answer, cached or fresh, was granted by a policy that had been stored: a
    permit policy whose resource scope covers the billet, attached to that very
    billet or to a system billet other than the guardrails.  A policy attached to
    one ordinary billet never grants another. *)
Theorem no_privilege_escalation s rs s' :
  system_inv s → run s rs s' →
  system_inv s' ∧ ∀ res b, res ∈ rs → b ∈ rbillets res → granted (history s') b.
Proof.
  intros Hs Hrun. enough (system_inv s' ∧ (∃ h, history s' = history s ++ h) ∧
    ∀ res b, res ∈ rs → b ∈ rbillets res → granted (history s') b) by naive_solver.
  induction Hrun as [s|s o s1 rs s2 Hstep _ IH].
  - split_and!; [done|exists []; by rewrite app_nil_r|]. by intros ? ? ?%not_elem_of_nil.
  - apply step_inv in Hstep as (Hs1 & [h1 Hh1] & Ho); [|done].
    destruct (IH Hs1) as (Hs2 & [h2 Hh2] & Hrs). split_and!; [done| |].
    + exists (h1 ++ h2). by rewrite Hh2, Hh1, app_assoc.
    + intros res b [Hres|Hres]%elem_of_app Hb; [|by eapply Hrs].
      destruct o as [res'|]; [|by apply not_elem_of_nil in Hres].
      apply list_elem_of_singleton in Hres as ->. specialize (Ho res' eq_refl).
      rewrite Forall_forall in Ho. rewrite Hh2. by apply granted_mono, Ho.
Qed.
End system.

(* ------------------------------------------------------------------ *)
(** ** Witness *)

Import Demo.
#[local] Existing Instance no_regex.

Abbreviation demo_sys_step := (step (C := Memory.InMemoryCache) PolicyCrud.demo_system (secs 300) demo_matcher (λ _, "t")).
Abbreviation demo_run := (run (C := Memory.InMemoryCache) PolicyCrud.demo_system (secs 300) demo_matcher (λ _, "t")).

Definition demo_start : System (D := Demo.store) (C := Memory.InMemoryCache) :=
  mkSystem demo_sync Memory.new (stored demo_store).

Lemma demo_start_inv : system_inv PolicyCrud.demo_system demo_start.
Proof.
  split; [exact BilletCrud.demo_admin_inv|]. split; [|exact (map_Forall_empty _)].
  destruct demo_sync_inv as (Hok & _ & _). split; [exact Hok|]. split; [|by intros st].
  intros k r Hr. split; [by eapply stored_elem|]. exact (PolicyCrud.demo_store_admitted k r Hr).
Qed.

Definition demo_synced : System (D := Demo.store) (C := Memory.InMemoryCache) :=
  mkSystem (sync_round 0 5 "u1" demo_sync) Memory.new (stored demo_store).

Definition demo_answer : Memory.InMemoryCache :=
  (resolve (resolver_of PolicyCrud.demo_system (secs 300) demo_matcher (λ _, "t") demo_synced)
     0 0 demo_input Memory.new).2.

Lemma demo_resolve :
  resolve (resolver_of PolicyCrud.demo_system (secs 300) demo_matcher (λ _, "t") demo_synced)
    0 0 demo_input Memory.new = (Ok (mkResolution ["reader"] false), demo_answer).
Proof. vm_compute. reflexivity. Qed.

Lemma demo_run_ok :
  demo_run demo_start [mkResolution ["reader"] false]
    (mkSystem (sync demo_synced) demo_answer (stored demo_store)).
Proof.
  apply (run_cons _ _ _ _ demo_start None demo_synced); [exact (step_sync _ _ _ _ 0 5 "u1" demo_start)|].
  eapply (run_cons _ _ _ _ demo_synced (Some (mkResolution ["reader"] false)) _ []); [|apply run_nil].
  exact (step_resolve _ _ _ _ 0 0 demo_input demo_synced _ _ demo_resolve).
Qed.

Lemma no_privilege_escalation_witness : granted PolicyCrud.demo_system (stored demo_store) "reader".
Proof.
  exact (proj2 (no_privilege_escalation _ _ _ _ demo_start _ _ demo_start_inv demo_run_ok)
           (mkResolution ["reader"] false) "reader" (list_elem_of_here _ _) (list_elem_of_here _ _)).
Defined.

End Authorization.
