(* ===== verification/Token.v ===== *)
(** * JWT issuance ([src/src/domain/token/mod.rs], [src/src/signing/mod.rs])

    The [jsonwebtoken] crate is a parameter: [JwtLib] has one field per function
    the sources call, [JwtLaws] what its documentation promises. *)

From S2P Require Import Prelude Jwt.

Module Token.
Export Jwt.
Local Open Scope Z_scope.

Inductive TokenError : Type := SigningFailed (msg : string).

Definition TokenError_fmt (e : TokenError) : string :=
  match e with SigningFailed msg => "signing failed: " +:+ msg end.

Record IssueRequest : Type := mkIssueRequest {
  req_spiffe_id : string;
  req_audience : string;
  req_billets : list string;
  req_identity_claim : option json;
  req_subject_override : option string
}.

Record IssueResponse : Type := mkIssueResponse {
  access_token : string;
  issued_token_type : string;
  token_type : string;
  expires_in : Z;
  jti : string
}.

Record Claims : Type := mkClaims {
  iss : string;
  sub : string;
  aud : string;
  billets : list string;
  billet_claims : gmap string (list string);
  iat : Z;
  exp : Z;
  cjti : string;
  identity : option json
}.

(* ------------------------------------------------------------------ *)
(** ** The JWT library *)

Class JwtLib := {
  EncodingKey : Type;
  DecodingKey : Type;
  jwt_encode : Header → Claims → EncodingKey → result string string;
  jwt_decode_header : string → result string Header;
  from_ec_components : string → string → result string DecodingKey;
  (** [decode::<Claims>] at the given unix time *)
  jwt_decode : Z → string → DecodingKey → Validation → result JwtError Claims
}.

(** The names of the fixed claims: a flattened claim of the same name would
    appear twice in the payload. *)
Definition fixed_claims : list string :=
  ["iss"; "sub"; "aud"; "billets"; "iat"; "exp"; "jti"; "identity"].

Definition claims_ok (c : Claims) : Prop :=
  map_Forall (λ k _, k ∉ fixed_claims) (billet_claims c).

Class JwtLaws `{JwtLib} := {
  (** The two halves of one key pair. *)
  key_pair : EncodingKey → DecodingKey → Prop;
  (** The token carries these claims under a signature of the key pair of the
      decoding key. *)
  signed : DecodingKey → string → Claims → Prop;
  encode_signed : ∀ h c k dk tok, jwt_encode h c k = Ok tok → key_pair k dk → signed dk tok c;
  (** A token is three dot-separated base64url texts. *)
  encode_graphic : ∀ h c k tok, jwt_encode h c k = Ok tok →
    Str.all_chars is_graphic tok = true ∧ tok ≠ "";
  decode_header_encode : ∀ h c k tok, jwt_encode h c k = Ok tok → jwt_decode_header tok = Ok h;
  (** Verification: signature, algorithm, expiry (60 s of leeway) and issuer. *)
  decode_sound : ∀ now tok dk v c, jwt_decode now tok dk v = Ok c →
    signed dk tok c ∧ now ≤ exp c + 60 ∧ (∀ l, issuers v = Some l → iss c ∈ l);
  decode_complete : ∀ now h c k dk v tok, jwt_encode h c k = Ok tok → key_pair k dk → claims_ok c →
    alg h ∈ algorithms v → validate_aud v = false → now ≤ exp c →
    (∀ l, issuers v = Some l → iss c ∈ l) → jwt_decode now tok dk v = Ok c
}.

(** The [SigningManager] trait. *)
Record SigningManager `{JwtLib} : Type := mkSigningManager {
  encoding_key : EncodingKey;
  header : Header;
  jwks : json;
  key_id : string
}.

(* ------------------------------------------------------------------ *)
Section issuer.
Context `{JwtLib}.

Record Es256Issuer : Type := mkIssuer {
  signing_manager : SigningManager;
  issuer_url : string;
  ttl_secs : Z;
  cfg_billet_claims : list string
}.

(** [now] is the unix time as [u64], [uuid] the fresh identifier; the sum wraps
    as unsigned arithmetic of a release build does. *)
Definition make_claims (i : Es256Issuer) (now : Z) (uuid : string) (req : IssueRequest) : Claims :=
  {| iss := issuer_url i;
     sub := default (req_spiffe_id req) (req_subject_override req);
     aud := req_audience req;
     billets := req_billets req;
     billet_claims := list_to_map ((λ claim_name, (claim_name, req_billets req)) <$> cfg_billet_claims i);
     iat := now;
     exp := wrap 64 (now + ttl_secs i);
     cjti := uuid;
     identity := req_identity_claim req |}.

Definition issue (i : Es256Issuer) (now : Z) (uuid : string) (req : IssueRequest) :
    result TokenError IssueResponse :=
  token ← map_err SigningFailed
            (jwt_encode (header (signing_manager i)) (make_claims i now uuid req)
               (encoding_key (signing_manager i)));
  Ok {| access_token := token;
        issued_token_type := "urn:ietf:params:oauth:token-type:jwt";
        token_type := "Bearer";
        expires_in := ttl_secs i;
        jti := uuid |}.

(** The manager publishes the public half of its signing key under its [kid]. *)
Definition publishes `{!JwtLaws} (m : SigningManager) (dk : DecodingKey) : Prop :=
  alg (header m) = ES256 ∧ kid (header m) = Some (key_id m) ∧ key_pair (encoding_key m) dk ∧
  ∃ keys pre entry post x y, json_get "keys" (jwks m) = Some (JArr keys) ∧ keys = pre ++ entry :: post ∧
    (∀ e, e ∈ pre → (json_get "kid" e ≫= json_as_str) ≠ Some (key_id m)) ∧
    (json_get "kid" entry ≫= json_as_str) = Some (key_id m) ∧
    (json_get "x" entry ≫= json_as_str) = Some x ∧ (json_get "y" entry ≫= json_as_str) = Some y ∧
    from_ec_components x y = Ok dk.

Lemma issue_inv i now uuid req resp :
  issue i now uuid req = Ok resp →
  jwt_encode (header (signing_manager i)) (make_claims i now uuid req)
    (encoding_key (signing_manager i)) = Ok (access_token resp) ∧
  expires_in resp = ttl_secs i ∧ jti resp = uuid.
Proof. unfold issue. by intros (tok & Htok%map_err_Ok & [= <-])%bind_Ok. Qed.

Lemma list_to_map_same {A} (l : list string) (v : A) k :
  (list_to_map ((λ x, (x, v)) <$> l) : gmap string A) !! k = if bool_decide (k ∈ l) then Some v else None.
Proof.
  induction l as [|x l IH]; [done|]. cbn. destruct (decide (x = k)) as [->|Hne].
  - rewrite lookup_insert_eq, bool_decide_eq_true_2; [done|]. left.
  - rewrite lookup_insert_ne, IH by done. assert (k ∈ l ↔ k ∈ x :: l) as Hin by set_solver.
    by rewrite (bool_decide_ext _ _ Hin).
Qed.

(** An issued token carries, under the manager's key, exactly the requested
    billets (also under every configured extra claim, and nowhere else), the
    subject override, the configured issuer and an expiry of its lifetime after
    now; the answer names the same lifetime and identifier. *)
Theorem issue_claims `{!JwtLaws} i now uuid req resp dk :
  issue i now uuid req = Ok resp → key_pair (encoding_key (signing_manager i)) dk →
  0 ≤ now → 0 ≤ ttl_secs i → now + ttl_secs i < 2 ^ 64 →
  ∃ c, signed dk (access_token resp) c ∧ billets c = req_billets req ∧
    (∀ k, billet_claims c !! k = if bool_decide (k ∈ cfg_billet_claims i) then Some (req_billets req) else None) ∧
    sub c = default (req_spiffe_id req) (req_subject_override req) ∧ aud c = req_audience req ∧
    iss c = issuer_url i ∧ exp c - iat c = expires_in resp ∧ cjti c = jti resp.
Proof.
  intros (Henc & He & Hj)%issue_inv Hk Hnow Httl Hmax. exists (make_claims i now uuid req).
  split_and!; [by eapply encode_signed|done| |done|done|done| |done].
  - intros k. cbn. apply list_to_map_same.
  - cbn. rewrite He. unfold wrap. rewrite Z.mod_small by lia. lia.
Qed.
End issuer.

(* ------------------------------------------------------------------ *)
(** ** A library for the witnesses: it has one key and signs the claims of a table *)

Module ToyJwt.

Definition workload (id : string) : json := JObj [("type", JStr "workload"); ("spiffe_id", JStr id)].

Definition toy_table : list (string * Claims) :=
  [("h.p.s", mkClaims "https://qm" "spiffe://td/admin" "qm" ["quartermaster-admin"] ∅ 1000 1900 "id-1" None);
   ("h.q.s", mkClaims "https://qm" "spiffe://td/app" "aud" ["reader"] ∅ 1000 1900 "id-2"
               (Some (workload "spiffe://td/app")));
   ("h.b.s", mkClaims "https://qm.example.org" "bootstrap:admin" "https://qm.example.org" ["quartermaster-admin"] ∅
               1000 1600 "u7" None)].

(** The token of the command line has the header of the key file of [KeyManager]. *)
Definition toy_kid (t : string) : string :=
  let q s := String "034" (s +:+ String "034" "") in
  let zeros := "0000000000000000000000000000000" in
  if bool_decide (t = "h.b.s")
  then "{" +:+ q "crv" +:+ ":" +:+ q "P-256" +:+ "," +:+ q "kty" +:+ ":" +:+ q "EC" +:+ "," +:+
       q "x" +:+ ":" +:+ q ("A" +:+ zeros) +:+ "," +:+ q "y" +:+ ":" +:+ q ("0" +:+ zeros) +:+ "}"
  else "k1".
Definition toy_header (t : string) : Header := mkHeader ES256 (Some (toy_kid t)).

Definition identity_eqb (a b : option json) : bool :=
  match a, b with
  | None, None => true
  | Some (JObj [(k1, JStr x1); (k2, JStr x2)]), Some (JObj [(l1, JStr y1); (l2, JStr y2)]) =>
      bool_decide ((k1, x1, k2, x2) = (l1, y1, l2, y2))
  | _, _ => false
  end.

Definition claims_eqb (c c' : Claims) : bool :=
  bool_decide ((iss c, sub c, aud c, billets c, billet_claims c, iat c, exp c, cjti c) =
               (iss c', sub c', aud c', billets c', billet_claims c', iat c', exp c', cjti c')) &&
  identity_eqb (identity c) (identity c').

Lemma claims_eqb_eq c c' : claims_eqb c c' = true → c = c'.
Proof.
  unfold claims_eqb, identity_eqb. intros [Hf%bool_decide_eq_true Hi]%andb_true_iff. destruct c, c'; cbn in *.
  simplify_eq. f_equal. repeat case_match; try done. apply bool_decide_eq_true in Hi. by simplify_eq.
Qed.

Definition toy_encode (c : Claims) : option string :=
  fst ∘ snd <$> list_find (λ e, claims_eqb c e.2 = true) toy_table.
Definition toy_lookup (t : string) : option Claims :=
  snd ∘ snd <$> list_find (λ e, e.1 = t) toy_table.

#[export] Instance toy_jwt : JwtLib := {|
  EncodingKey := unit;
  DecodingKey := unit;
  jwt_encode := λ h c _,
    match toy_encode c with
    | Some t => if bool_decide (h = toy_header t) then Ok t else Err "unsupported"
    | None => Err "unsupported"
    end;
  jwt_decode_header := λ t,
    if bool_decide (is_Some (toy_lookup t)) then Ok (toy_header t) else Err "malformed";
  from_ec_components := λ x y, Ok tt;
  jwt_decode := λ now t _ v,
    match toy_lookup t with
    | Some c =>
        if (exp c + 60 <? now)%Z then Err ExpiredSignature
        else if match issuers v with Some l => bool_decide (iss c ∈ l) | None => true end
        then Ok c else Err (OtherJwtError "InvalidIssuer")
    | None => Err (OtherJwtError "InvalidSignature")
    end
|}.

Lemma toy_encode_inv h c k tok :
  jwt_encode h c k = Ok tok →
  (tok, c) ∈ toy_table ∧ toy_lookup tok = Some c ∧ h = toy_header tok.
Proof.
  cbv [jwt_encode toy_jwt]. destruct (toy_encode c) as [t|] eqn:Ht; [|done]. case_bool_decide as Hh; [|done].
  intros [= ->]. revert Ht. unfold toy_encode.
  intros ([i [t' c']] & (Hi & Hc & _)%list_find_Some & ->)%fmap_Some. cbn in *. apply claims_eqb_eq in Hc as ->.
  split; [by eapply list_elem_of_lookup_2|]. split; [|done].
  destruct i as [|[|[|i]]]; cbn in Hi; [injection Hi as <- <-..|done]; done.
Qed.

#[export] Instance toy_jwt_laws : JwtLaws.
Proof.
  refine {| key_pair := λ _ _, True; signed := λ _ t c, toy_lookup t = Some c |}.
  - intros h c k dk tok (_ & ? & _)%toy_encode_inv. done.
  - intros h c k tok (Hin & _)%toy_encode_inv.
    repeat (apply elem_of_cons in Hin as [[= -> _]|Hin]; [done|]). by apply not_elem_of_nil in Hin.
  - intros h c k tok (_ & Hl & ->)%toy_encode_inv. cbv [jwt_decode_header toy_jwt].
    by rewrite Hl, bool_decide_eq_true_2.
  - intros now tok dk v c. cbv [jwt_decode toy_jwt]. destruct (toy_lookup tok) as [c'|] eqn:Hl; [|done].
    destruct (Z.ltb_spec (exp c' + 60) now); [done|]. destruct (issuers v) as [l|] eqn:Hv.
    + case_bool_decide as Hin; [|done]. intros [= <-]. split_and!; [done..|]. by intros ? [= <-].
    + intros [= <-]. split_and!; done.
  - intros now h c k dk v tok (_ & Hl & ->)%toy_encode_inv _ _ _ _ Hexp Hiss. cbv [jwt_decode toy_jwt].
    rewrite Hl. destruct (Z.ltb_spec (exp c + 60) now); [lia|].
    destruct (issuers v) as [l|] eqn:Hv; [|done]. rewrite bool_decide_eq_true_2; [done|]. by apply Hiss.
Defined.

Definition toy_manager : SigningManager :=
  mkSigningManager _ tt (mkHeader ES256 (Some "k1"))
    (JObj [("keys", JArr [JObj [("kid", JStr "k1"); ("x", JStr "X"); ("y", JStr "Y")]])]) "k1".

Definition toy_issuer : Es256Issuer := mkIssuer toy_manager "https://qm" 900 [].

Lemma toy_publishes : publishes toy_manager tt.
Proof.
  split_and!; try done. eexists _, [], _, [], "X", "Y". split_and!; try done.
  by intros e ?%not_elem_of_nil.
Qed.

End ToyJwt.

Import ToyJwt.

Lemma issue_claims_witness :
  ∃ c, signed tt "h.p.s" c ∧ billets c = ["quartermaster-admin"].
Proof.
  destruct (issue_claims toy_issuer 1000 "id-1"
    (mkIssueRequest "" "qm" ["quartermaster-admin"] None (Some "spiffe://td/admin"))
    (mkIssueResponse "h.p.s" "urn:ietf:params:oauth:token-type:jwt" "Bearer" 900 "id-1") tt)
    as (c & Hs & Hb & _); [reflexivity|exact I|cbn; lia..|]. exists c. split; [exact Hs|exact Hb].
Defined.

End Token.
