(* ===== verification/Der.v ===== *)
(** * DER lengths and elements (X.690)

    The reference the hand-written encoders of [src/src/signing/static_key.rs] and
    [src/src/domain/cert/mod.rs] are compared with: the definite-length octets of
    DER as a relation with exactly one solution, an element as tag, length and
    contents, and an executable reader of elements.  Bytes are integers below 256. *)

From S2P Require Import Prelude.

Module Der.
Local Open Scope Z_scope.

Abbreviation bytes := (list Z).

Definition is_byte (b : Z) : Prop := 0 ≤ b < 256.

Definition len (l : bytes) : Z := Z.of_nat (length l).

(** [n as u8] *)
Definition as_u8 (n : Z) : Z := Z.land n 255.

(** Big-endian value. *)
Definition be_value (ds : bytes) : Z := foldl (λ a b, a * 256 + b) 0 ds.

(** The length octets of [n]: short form below 128, else the count of the digits
    and the digits, as few as possible. *)
Inductive length_octets (n : Z) : bytes → Prop :=
| short_form : 0 ≤ n < 128 → length_octets n [n]
| long_form d ds : 128 ≤ n → len (d :: ds) < 127 → d ≠ 0 → Forall is_byte (d :: ds) →
    be_value (d :: ds) = n → length_octets n ((128 + len (d :: ds)) :: d :: ds).

(** An element: tag, length, contents. *)
Definition element (tag : Z) (contents enc : bytes) : Prop :=
  ∃ l, length_octets (len contents) l ∧ enc = tag :: l ++ contents.

(** Reading the length octets at the head of the input. *)
Definition read_length (input : bytes) : option (Z * bytes) :=
  match input with
  | [] => None
  | b :: rest =>
      if (0 <=? b) && (b <? 128) then Some (b, rest)
      else
        let k := Z.to_nat (b - 128) in
        let ds := take k rest in
        match ds with
        | d :: _ =>
            if (128 <? b) && (b <? 255) && (length ds =? k)%nat && negb (d =? 0) &&
               bool_decide (Forall is_byte ds) && (128 <=? be_value ds)
            then Some (be_value ds, drop k rest) else None
        | [] => None
        end
  end.

#[export] Instance is_byte_dec b : Decision (is_byte b).
Proof. unfold is_byte. apply _. Defined.

(** The contents of an element with that tag and what follows it. *)
Definition read_element (tag : Z) (input : bytes) : option (bytes * bytes) :=
  match input with
  | [] => None
  | t :: input' =>
      if t =? tag then
        match read_length input' with
        | Some (n, rest) =>
            if n <=? len rest then Some (take (Z.to_nat n) rest, drop (Z.to_nat n) rest) else None
        | None => None
        end
      else None
  end.

(* ------------------------------------------------------------------ *)
(** ** The length octets are unique *)

Lemma len_cons b l : len (b :: l) = 1 + len l.
Proof. unfold len. cbn [length]. lia. Qed.

Lemma len_app l k : len (l ++ k) = len l + len k.
Proof. unfold len. rewrite length_app. lia. Qed.

Lemma len_nonneg l : 0 ≤ len l.
Proof. unfold len. lia. Qed.

Lemma as_u8_mod n : as_u8 n = n mod 256.
Proof. unfold as_u8. change 255 with (Z.ones 8). by rewrite Z.land_ones. Qed.

Lemma as_u8_byte n : is_byte (as_u8 n).
Proof. rewrite as_u8_mod. unfold is_byte. apply Z.mod_pos_bound. lia. Qed.

Lemma be_value_acc a ds : foldl (λ a b, a * 256 + b) a ds = a * 256 ^ len ds + be_value ds.
Proof.
  revert a. induction ds as [|b ds IH]; intros a.
  { change (len []) with 0. change (be_value []) with 0. cbn [foldl]. lia. }
  unfold be_value. cbn [foldl]. rewrite len_cons, Z.pow_add_r by (pose proof (len_nonneg ds); lia).
  rewrite !IH. lia.
Qed.

Lemma be_value_cons b ds : be_value (b :: ds) = b * 256 ^ len ds + be_value ds.
Proof. unfold be_value at 1. cbn [foldl]. rewrite be_value_acc. lia. Qed.

Lemma be_value_bounds ds : Forall is_byte ds → 0 ≤ be_value ds < 256 ^ len ds.
Proof.
  induction 1 as [|b ds Hb Hds IH].
  { change (len []) with 0. change (be_value []) with 0. lia. }
  rewrite be_value_cons, len_cons.
  rewrite Z.pow_add_r by (pose proof (len_nonneg ds); lia).
  change (256 ^ 1) with 256. unfold is_byte in Hb. nia.
Qed.

(** Digits without a leading zero are as many as the value needs. *)
Lemma be_value_lower d ds :
  d ≠ 0 → Forall is_byte (d :: ds) → 256 ^ len ds ≤ be_value (d :: ds).
Proof.
  intros Hd [Hb Hds]%Forall_cons. rewrite be_value_cons.
  pose proof (be_value_bounds ds Hds). unfold is_byte in Hb. nia.
Qed.

Lemma be_value_length d ds d' ds' :
  d ≠ 0 → Forall is_byte (d :: ds) → Forall is_byte (d' :: ds') →
  be_value (d :: ds) = be_value (d' :: ds') → len ds ≤ len ds'.
Proof.
  intros Hd Hb Hb' Heq. pose proof (be_value_lower d ds Hd Hb) as Hlow.
  pose proof (be_value_bounds _ Hb') as [_ Hup]. rewrite len_cons in Hup.
  assert (256 ^ len ds < 256 ^ (1 + len ds')) as Hlt by lia.
  apply Z.pow_lt_mono_r_iff in Hlt; [lia|lia|pose proof (len_nonneg ds'); lia].
Qed.

Lemma be_value_inj ds ds' :
  Forall is_byte ds → Forall is_byte ds' → len ds = len ds' → be_value ds = be_value ds' → ds = ds'.
Proof.
  intros Hb. revert ds'. induction Hb as [|b ds Hb Hds IH]; intros ds' Hb' Hlen Heq.
  - destruct ds'; [done|]. rewrite len_cons in Hlen. pose proof (len_nonneg ds'). change (len []) with 0 in Hlen. lia.
  - destruct Hb' as [|b' ds' Hb' Hds']; [rewrite len_cons in Hlen; pose proof (len_nonneg ds); change (len []) with 0 in Hlen; lia|].
    rewrite !len_cons in Hlen. assert (len ds = len ds') as Hl by lia. rewrite !be_value_cons, Hl in Heq.
    pose proof (be_value_bounds ds Hds) as B. rewrite Hl in B. pose proof (be_value_bounds ds' Hds') as B'.
    assert (b = b') as -> by nia. f_equal. apply IH; [done|done|nia].
Qed.

Lemma length_octets_unique n l l' : length_octets n l → length_octets n l' → l = l'.
Proof.
  intros [Hn|d ds Hn Hk Hd Hb Hv] [Hn'|d' ds' Hn' Hk' Hd' Hb' Hv']; [done|lia|lia|].
  assert (len ds = len ds') as Hlen.
  { pose proof (be_value_length d ds d' ds' Hd Hb Hb' ltac:(congruence)).
    pose proof (be_value_length d' ds' d ds Hd' Hb' Hb ltac:(congruence)). lia. }
  assert (d :: ds = d' :: ds') as E; [|by rewrite E].
  apply be_value_inj; [done|done| |congruence]. rewrite !len_cons. lia.
Qed.

Lemma element_unique tag c e e' : element tag c e → element tag c e' → e = e'.
Proof.
  intros (l & Hl & ->) (l' & Hl' & ->). by rewrite (length_octets_unique _ _ _ Hl Hl').
Qed.

(* ------------------------------------------------------------------ *)
(** ** The reader *)

Lemma read_length_sound input n rest :
  read_length input = Some (n, rest) → ∃ l, length_octets n l ∧ input = l ++ rest.
Proof.
  destruct input as [|b input]; [done|]. cbn [read_length].
  destruct ((0 <=? b) && (b <? 128)) eqn:Hb.
  { intros [= <- <-]. exists [b]. split; [|done]. apply andb_true_iff in Hb. constructor. lia. }
  destruct (take (Z.to_nat (b - 128)) input) as [|d ds] eqn:Ht; [done|].
  destruct (_ && _ && _ && _ && _ && _) eqn:Hc; [|done]. intros [= <- <-].
  rewrite !andb_true_iff in Hc. destruct Hc as (((((H1 & H2) & H3) & H4) & H5) & H6).
  apply Nat.eqb_eq in H3. apply negb_true_iff, Z.eqb_neq in H4. apply bool_decide_eq_true in H5.
  assert (b = 128 + len (d :: ds)) as Eb by (unfold len; lia).
  exists (b :: d :: ds). split.
  - rewrite Eb. apply long_form; try done; [lia|]. lia.
  - cbn. f_equal. rewrite <- (take_drop (Z.to_nat (b - 128)) input) at 1. by rewrite Ht.
Qed.

Lemma read_length_complete l n rest :
  length_octets n l → read_length (l ++ rest) = Some (n, rest).
Proof.
  intros [Hn|d ds Hn Hk Hd Hb Hv].
  - cbn. by rewrite (proj2 (Z.leb_le 0 n)), (proj2 (Z.ltb_lt n 128)) by lia.
  - pose proof (len_nonneg ds). rewrite len_cons in Hk |- *.
    cbn [app read_length]. rewrite (proj2 (Z.ltb_ge (128 + (1 + len ds)) 128)), andb_false_r by lia.
    replace (Z.to_nat (128 + (1 + len ds) - 128)) with (length (d :: ds)) by (unfold len; cbn [length]; lia).
    change (d :: ds ++ rest) with ((d :: ds) ++ rest). rewrite take_app_length, drop_app_length.
    rewrite (proj2 (Z.ltb_lt 128 _)), (proj2 (Z.ltb_lt _ 255)), Nat.eqb_refl, (proj2 (Z.eqb_neq d 0)),
      bool_decide_eq_true_2, (proj2 (Z.leb_le 128 _)) by (done || lia).
    cbn [andb negb]. by rewrite Hv.
Qed.

Lemma read_element_sound tag input v rest :
  read_element tag input = Some (v, rest) → ∃ e, element tag v e ∧ input = e ++ rest.
Proof.
  destruct input as [|t input]; [done|]. cbn [read_element].
  destruct (t =? tag) eqn:Ht; [apply Z.eqb_eq in Ht as ->|done].
  destruct (read_length input) as [[n rest']|] eqn:Hl; [|done].
  destruct (n <=? len rest') eqn:Hn; [|done]. intros [= <- <-]. apply Z.leb_le in Hn.
  apply read_length_sound in Hl as (l & Hl & ->).
  assert (0 ≤ n) by (destruct Hl; lia).
  exists (tag :: l ++ take (Z.to_nat n) rest'). split.
  - exists l. split; [|done]. unfold len in *. rewrite length_take_le by lia. by rewrite Z2Nat.id.
  - cbn. by rewrite <- app_assoc, take_drop.
Qed.

Lemma read_element_complete tag v e rest :
  element tag v e → read_element tag (e ++ rest) = Some (v, rest).
Proof.
  intros (l & Hl & ->). cbn [app read_element]. rewrite Z.eqb_refl, <- app_assoc, (read_length_complete l _ _ Hl).
  rewrite len_app, (proj2 (Z.leb_le _ _)) by (pose proof (len_nonneg rest); lia).
  unfold len. rewrite Nat2Z.id. by rewrite take_app_length, drop_app_length.
Qed.

End Der.
