(* ===== verification/Cert.v ===== *)
(** * The certificate authority ([src/src/domain/cert/mod.rs], [kms_authority.rs])

    [CertApi] has the interface the token handler uses.  [Cert] models the parsing
    and verification of signing requests, the parameters of the issued leaf and the
    two authorities.  The DER reader and the signature verification of [ring] are the
    parameter [RingIo], the certificate builder [rcgen] the parameter [Rcgen]. *)

From S2P Require Import Prelude Der.

Module CertApi.

(** Byte vectors are strings of bytes. *)
Record CertIssueRequest : Type := mkCertRequest {
  csr_der : string;
  cert_spiffe_id : string;
  cert_billets : list string
}.

Record CertIssueResponse : Type := mkCertResponse {
  leaf_pem : string;
  intermediate_pem : string;
  chain_pem : string
}.

Inductive CertError : Type :=
| InvalidCsr (msg : string)
| SigningFailed (msg : string)
| CaNotReady (msg : string).

Definition CertError_fmt (e : CertError) : string :=
  match e with
  | InvalidCsr msg => "invalid CSR: " +:+ msg
  | SigningFailed msg => "signing failed: " +:+ msg
  | CaNotReady msg => "CA not ready: " +:+ msg
  end.

End CertApi.

Module Cert.
Import Der.
Export CertApi.
Local Open Scope Z_scope.

Definition to_bytes (s : string) : bytes := Z.of_N ∘ N_of_ascii <$> String.list_ascii_of_string s.

(* ------------------------------------------------------------------ *)
(** ** [ring] *)

Inductive VerificationAlgorithm : Type :=
| ECDSA_P256_SHA256_ASN1
| ECDSA_P384_SHA384_ASN1
| ED25519
| RSA_PKCS1_2048_8192_SHA256
| RSA_PKCS1_2048_8192_SHA384
| RSA_PKCS1_2048_8192_SHA512.

(** Readers return what they read and the rest of the input. *)
Class RingIo := {
  expect_tag_and_get_value : Z → bytes → option (bytes * bytes);
  bit_string_with_no_unused_bits : bytes → option (bytes * bytes);
  (** [UnparsedPublicKey::new(alg, key).verify(message, signature).is_ok()] *)
  verify_signature : VerificationAlgorithm → bytes → bytes → bytes → bool
}.

(** The readers accept DER only: minimal definite lengths; a bit string has a first
    byte that counts the unused bits. *)
Class RingIoLaws `{RingIo} := {
  expect_tag_sound : ∀ tag input v rest, expect_tag_and_get_value tag input = Some (v, rest) →
    ∃ e, element tag v e ∧ input = e ++ rest;
  bit_string_sound : ∀ input v rest, bit_string_with_no_unused_bits input = Some (v, rest) →
    ∃ e, element 3 (0 :: v) e ∧ input = e ++ rest
}.

Definition tag_integer : Z := 2.
Definition tag_oid : Z := 6.
Definition tag_sequence : Z := 48.

(** [Input::read_all]: nothing may be left. *)
Definition read_all {A} (read : bytes → option (A * bytes)) (input : bytes) : option A :=
  match read input with Some (a, []) => Some a | _ => None end.

Section csr.
Context `{RingIo}.

(** [ring::io::der::nested] *)
Definition nested {A} (tag : Z) (read : bytes → option (A * bytes)) (input : bytes) : option (A * bytes) :=
  '(v, rest) ← expect_tag_and_get_value tag input;
  a ← read_all read v;
  Some (a, rest).

Definition spki_of_tbs (tbs : bytes) : option bytes :=
  '(_, r) ← expect_tag_and_get_value tag_integer tbs;
  '(_, r) ← expect_tag_and_get_value tag_sequence r;
  '(spki, _) ← expect_tag_and_get_value tag_sequence r;
  Some spki.

Definition read_csr (seq : bytes) : option ((bytes * bytes * bytes * bytes) * bytes) :=
  '(tbs, seq) ← expect_tag_and_get_value tag_sequence seq;
  spki ← spki_of_tbs tbs;
  '(alg_seq, seq) ← expect_tag_and_get_value tag_sequence seq;
  '(oid, _) ← expect_tag_and_get_value tag_oid alg_seq;
  '(sig, seq) ← bit_string_with_no_unused_bits seq;
  Some ((tbs, spki, oid, sig), seq).

Definition encode_length (len : Z) (out : bytes) : bytes :=
  if len <? 128 then out ++ [as_u8 len]
  else if len <? 256 then (out ++ [129]) ++ [as_u8 len]
  else if len <? 65536 then ((out ++ [130]) ++ [as_u8 (Z.shiftr len 8)]) ++ [as_u8 len]
  else if len <? 16777216 then
    (((out ++ [131]) ++ [as_u8 (Z.shiftr len 16)]) ++ [as_u8 (Z.shiftr len 8)]) ++ [as_u8 len]
  else
    ((((out ++ [132]) ++ [as_u8 (Z.shiftr len 24)]) ++ [as_u8 (Z.shiftr len 16)]) ++ [as_u8 (Z.shiftr len 8)]) ++
    [as_u8 len].

Definition encode_sequence (content : bytes) : bytes := encode_length (len content) [48] ++ content.

Definition extract_public_key_from_spki (spki_content : bytes) : result CertError bytes :=
  ok_or (InvalidCsr "failed to extract public key from SPKI")
    (read_all (λ reader,
       '(_, reader) ← expect_tag_and_get_value tag_sequence reader;
       bit_string_with_no_unused_bits reader) spki_content).

(** The [{:?}] of a byte slice. *)
Definition debug_bytes (b : bytes) : string := "[" +:+ Str.join ", " (pretty <$> b) +:+ "]".

Definition oid_to_ring_algorithm (oid : bytes) : result CertError VerificationAlgorithm :=
  if bool_decide (oid = [42; 134; 72; 206; 61; 4; 3; 2]) then Ok ECDSA_P256_SHA256_ASN1
  else if bool_decide (oid = [42; 134; 72; 206; 61; 4; 3; 3]) then Ok ECDSA_P384_SHA384_ASN1
  else if bool_decide (oid = [43; 101; 112]) then Ok ED25519
  else if bool_decide (oid = [42; 134; 72; 134; 247; 13; 1; 1; 11]) then Ok RSA_PKCS1_2048_8192_SHA256
  else if bool_decide (oid = [42; 134; 72; 134; 247; 13; 1; 1; 12]) then Ok RSA_PKCS1_2048_8192_SHA384
  else if bool_decide (oid = [42; 134; 72; 134; 247; 13; 1; 1; 13]) then Ok RSA_PKCS1_2048_8192_SHA512
  else Err (InvalidCsr ("unsupported signature algorithm OID: " +:+ debug_bytes oid)).

Definition verify_csr_signature (csr : string) : result CertError unit :=
  '(tbs_bytes, spki_bytes, algorithm_oid, sig_bytes) ←
    ok_or (InvalidCsr "failed to parse CSR DER structure")
      (read_all (nested tag_sequence read_csr) (to_bytes csr));
  let tbs_with_tag := encode_sequence tbs_bytes in
  verification_alg ← oid_to_ring_algorithm algorithm_oid;
  public_key_bytes ← extract_public_key_from_spki spki_bytes;
  fail_if (negb (verify_signature verification_alg public_key_bytes tbs_with_tag sig_bytes))
    (InvalidCsr "CSR self-signature verification failed").
End csr.

(* ------------------------------------------------------------------ *)
(** ** Leaf certificates *)

Inductive DnType : Type := CommonName | OrganizationalUnitName.
Inductive KeyUsagePurpose : Type := DigitalSignature | KeyEncipherment.
Inductive ExtendedKeyUsagePurpose : Type := ClientAuth | ServerAuth.

(** [CertificateParams]: the fields the sources set. *)
Record CertificateParams : Type := mkParams {
  distinguished_name : list (DnType * string);
  subject_alt_names : list string;
  not_before : Z;
  not_after : Z;
  key_usages : list KeyUsagePurpose;
  extended_key_usages : list ExtendedKeyUsagePurpose;
  is_ca : bool;
  serial_number : option bytes
}.

(** [rcgen] and the [time] crate ([None]: out of range, a panic). *)
Class Rcgen := {
  RcKeyPair : Type;
  CaParams : Type;
  RcPublicKey : Type;
  RcCertificate : Type;
  keypair_from_pem : string → result string RcKeyPair;
  from_ca_cert_pem : string → result string CaParams;
  (** the public key of [CertificateSigningRequestParams::from_der] *)
  csr_public_key : string → result string RcPublicKey;
  ia5_try_from : string → result string string;
  self_signed : CaParams → RcKeyPair → result string RcCertificate;
  signed_by : CertificateParams → RcPublicKey → RcCertificate → RcKeyPair → result string RcCertificate;
  pem : RcCertificate → string;
  (** [OffsetDateTime + time::Duration], in nanoseconds *)
  odt_add : Z → Z → option Z
}.

Class RcgenLaws `{Rcgen} := {
  ia5_value : ∀ s t, ia5_try_from s = Ok t → t = s;
  odt_add_value : ∀ t d t', odt_add t d = Some t' → t' = t + d
}.

(** [n as i64] *)
Definition as_i64 (n : Z) : Z := let m := n mod 2 ^ 64 in if m <? 2 ^ 63 then m else m - 2 ^ 64.

(** The 20 random bytes are an argument; [None]: the generator failed. *)
Definition generate_random_serial (random : option bytes) : result CertError bytes :=
  serial_bytes ← ok_or (SigningFailed "failed to generate random serial") random;
  Ok match serial_bytes with
     | b :: rest => Z.lor (Z.land b 127) 1 :: rest
     | [] => []
     end.

Definition extract_trust_domain (spiffe_id : string) : result CertError string :=
  match Str.strip_prefix "spiffe://" spiffe_id with
  | Some stripped =>
      ok_or (InvalidCsr ("cannot extract trust domain from: " +:+ spiffe_id)) (head (Str.split "/" stripped))
  | None => Ok "quartermaster"
  end.

Definition billet_uri (trust_domain billet : string) : string := "qm-billet://" +:+ trust_domain +:+ "/" +:+ billet.

Definition billets_ou (billets : list string) : string := "qm-billets:" +:+ Str.join ":" billets +:+ ":".

Section authority.
Context `{RingIo, Rcgen}.

(** The alternative names: the identity and one URI per billet. *)
Definition build_sans (spiffe_id trust_domain : string) (billets : list string) : result CertError (list string) :=
  spiffe_ia5 ← map_err (λ e, SigningFailed ("invalid SPIFFE ID for IA5String: " +:+ e)) (ia5_try_from spiffe_id);
  uris ← try_map (λ billet, map_err (λ e, SigningFailed ("invalid billet URI for IA5String: " +:+ e))
                              (ia5_try_from (billet_uri trust_domain billet))) billets;
  Ok (spiffe_ia5 :: uris).

(** The body the two [issue] functions share; [dn] is the subject.  [None] is a
    panic of the time arithmetic. *)
Definition issue_leaf (ca_key_pair : RcKeyPair) (ca_cert_pem : string) (ca_cert_params : CaParams) (ttl : Z)
    (dn : list (DnType * string)) (now : Z) (random : option bytes) (req : CertIssueRequest) :
    option (result CertError CertIssueResponse) :=
  match verify_csr_signature (csr_der req) with
  | Err e => Some (Err e)
  | Ok _ =>
  match map_err (λ e, InvalidCsr ("failed to parse CSR: " +:+ e)) (csr_public_key (csr_der req)) with
  | Err e => Some (Err e)
  | Ok public_key =>
  match extract_trust_domain (cert_spiffe_id req) with
  | Err e => Some (Err e)
  | Ok trust_domain =>
  match build_sans (cert_spiffe_id req) trust_domain (cert_billets req) with
  | Err e => Some (Err e)
  | Ok sans =>
  match odt_add now (secs (as_i64 ttl)) with
  | None => None
  | Some not_after => Some (
      serial ← generate_random_serial random;
      let params := mkParams dn sans now not_after [DigitalSignature; KeyEncipherment] [ClientAuth; ServerAuth]
                      false (Some serial) in
      ca_cert ← map_err (λ e, SigningFailed ("failed to create CA cert: " +:+ e)) (self_signed ca_cert_params ca_key_pair);
      leaf_cert ← map_err (λ e, SigningFailed ("failed to sign leaf cert: " +:+ e))
                    (signed_by params public_key ca_cert ca_key_pair);
      Ok (mkCertResponse (pem leaf_cert) ca_cert_pem (pem leaf_cert +:+ ca_cert_pem)))
  end end end end end.

Record LocalAuthority : Type := mkLocalAuthority {
  ca_key_pair : RcKeyPair;
  ca_cert_pem : string;
  ca_cert_params : CaParams;
  ttl : Z;
  include_billets_ou : bool
}.

Definition LocalAuthority_new (ca_key_pem ca_cert_pem : string) (ttl : Z) (include_billets_ou : bool) :
    result CertError LocalAuthority :=
  key ← map_err (λ e, CaNotReady ("failed to parse CA key: " +:+ e)) (keypair_from_pem ca_key_pem);
  params ← map_err (λ e, CaNotReady ("failed to parse CA cert: " +:+ e)) (from_ca_cert_pem ca_cert_pem);
  Ok (mkLocalAuthority key ca_cert_pem params ttl include_billets_ou).

Definition subject_dn (include_ou : bool) (req : CertIssueRequest) : list (DnType * string) :=
  (CommonName, cert_spiffe_id req) ::
  (if include_ou && negb (bool_decide (cert_billets req = []))
   then [(OrganizationalUnitName, billets_ou (cert_billets req))] else []).

Definition issue (a : LocalAuthority) (now : Z) (random : option bytes) (req : CertIssueRequest) :
    option (result CertError CertIssueResponse) :=
  issue_leaf (ca_key_pair a) (ca_cert_pem a) (ca_cert_params a) (ttl a) (subject_dn (include_billets_ou a) req)
    now random req.

Definition authority_chain_pem (a : LocalAuthority) : string := ca_cert_pem a.

(** [K] is the type of its key manager, which [issue] does not use. *)
Record KmsBackedAuthority (K : Type) : Type := mkKmsAuthority {
  key_manager : K;
  kms_ca_key_pair : RcKeyPair;
  kms_ca_cert_pem : string;
  kms_ca_cert_params : CaParams;
  kms_ttl : Z
}.

Definition KmsBackedAuthority_new {K} (key_manager : K) (ca_key_pem ca_cert_pem : string) (ttl : Z) :
    result CertError (KmsBackedAuthority K) :=
  key ← map_err (λ e, CaNotReady ("failed to parse CA key: " +:+ e)) (keypair_from_pem ca_key_pem);
  params ← map_err (λ e, CaNotReady ("failed to parse CA cert: " +:+ e)) (from_ca_cert_pem ca_cert_pem);
  Ok (mkKmsAuthority K key_manager key ca_cert_pem params ttl).

Definition kms_issue {K} (a : KmsBackedAuthority K) (now : Z) (random : option bytes) (req : CertIssueRequest) :
    option (result CertError CertIssueResponse) :=
  issue_leaf (kms_ca_key_pair K a) (kms_ca_cert_pem K a) (kms_ca_cert_params K a) (kms_ttl K a)
    [(CommonName, cert_spiffe_id req)] now random req.

Definition kms_chain_pem {K} (a : KmsBackedAuthority K) : string := kms_ca_cert_pem K a.
End authority.

(* ------------------------------------------------------------------ *)
(** ** Lengths *)

Lemma encode_length_spec n out :
  0 ≤ n < 2 ^ 32 → ∃ l, length_octets n l ∧ encode_length n out = out ++ l.
Proof.
  change (2 ^ 32) with 4294967296. intros Hn. unfold encode_length.
  destruct (Z.ltb_spec n 128); [|destruct (Z.ltb_spec n 256); [|destruct (Z.ltb_spec n 65536);
    [|destruct (Z.ltb_spec n 16777216)]]]; rewrite <- ?app_assoc; cbn [app]; eexists; (split; [|reflexivity]).
  - rewrite as_u8_mod, Z.mod_small by lia. constructor. lia.
  - apply (long_form n (as_u8 n) []); [lia|done|..].
    + rewrite as_u8_mod. Z.to_euclidean_division_equations. lia.
    + repeat constructor; apply as_u8_byte.
    + unfold be_value. cbn [foldl]. rewrite as_u8_mod. Z.to_euclidean_division_equations. lia.
  - apply (long_form n (as_u8 (Z.shiftr n 8)) [as_u8 n]); [lia|done|..].
    + rewrite as_u8_mod, Z.shiftr_div_pow2 by lia. change (2 ^ 8) with 256. Z.to_euclidean_division_equations. lia.
    + repeat constructor; apply as_u8_byte.
    + unfold be_value. cbn [foldl]. rewrite !as_u8_mod, Z.shiftr_div_pow2 by lia. change (2 ^ 8) with 256.
      Z.to_euclidean_division_equations. lia.
  - apply (long_form n (as_u8 (Z.shiftr n 16)) [as_u8 (Z.shiftr n 8); as_u8 n]); [lia|done|..].
    + rewrite as_u8_mod, Z.shiftr_div_pow2 by lia. change (2 ^ 16) with 65536. Z.to_euclidean_division_equations. lia.
    + repeat constructor; apply as_u8_byte.
    + unfold be_value. cbn [foldl]. rewrite !as_u8_mod, !Z.shiftr_div_pow2 by lia.
      change (2 ^ 8) with 256. change (2 ^ 16) with 65536. Z.to_euclidean_division_equations. lia.
  - apply (long_form n (as_u8 (Z.shiftr n 24)) [as_u8 (Z.shiftr n 16); as_u8 (Z.shiftr n 8); as_u8 n]); [lia|done|..].
    + rewrite as_u8_mod, Z.shiftr_div_pow2 by lia. change (2 ^ 24) with 16777216. Z.to_euclidean_division_equations. lia.
    + repeat constructor; apply as_u8_byte.
    + unfold be_value. cbn [foldl]. rewrite !as_u8_mod, !Z.shiftr_div_pow2 by lia.
      change (2 ^ 8) with 256. change (2 ^ 16) with 65536. change (2 ^ 24) with 16777216.
      Z.to_euclidean_division_equations. lia.
Qed.

Lemma encode_sequence_element c : len c < 2 ^ 32 → element 48 c (encode_sequence c).
Proof.
  intros Hc. unfold encode_sequence. pose proof (len_nonneg c).
  destruct (encode_length_spec (len c) [48] ltac:(lia)) as (l & Hl & ->). by exists l.
Qed.

(* ------------------------------------------------------------------ *)
(** ** Signing requests *)

Section sound.
Context `{RingIoLaws} `{RcgenLaws}.

(** The structure of a request whose signature verified: the signed bytes are the
    bytes of its first element as they were sent. *)
Definition csr_proved (csr : bytes) : Prop :=
  ∃ tbs tbs_enc alg_enc sig sig_enc spki key alg,
    element tag_sequence (tbs_enc ++ alg_enc ++ sig_enc) csr ∧
    element tag_sequence tbs tbs_enc ∧ element 3 (0 :: sig) sig_enc ∧
    spki_of_tbs tbs = Some spki ∧ extract_public_key_from_spki spki = Ok key ∧
    verify_signature alg key tbs_enc sig = true.

Lemma read_all_inv {A} (read : bytes → option (A * bytes)) input a :
  read_all read input = Some a → read input = Some (a, []).
Proof. unfold read_all. destruct (read input) as [[a' [|]]|]; naive_solver. Qed.

Lemma read_csr_inv seq tbs spki oid sig rest :
  read_csr seq = Some ((tbs, spki, oid, sig), rest) →
  ∃ tbs_e alg_e sig_e, element tag_sequence tbs tbs_e ∧ spki_of_tbs tbs = Some spki ∧
    element 3 (0 :: sig) sig_e ∧ seq = tbs_e ++ alg_e ++ sig_e ++ rest.
Proof.
  unfold read_csr. intros ([tbs' s1] & Ht & Hm)%bind_Some. apply bind_Some in Hm as (spki' & Hs & Hm).
  apply bind_Some in Hm as ([alg s2] & Ha & Hm). apply bind_Some in Hm as ([oid' s3] & _ & Hm).
  apply bind_Some in Hm as ([sig' s4] & Hb & [= -> -> -> -> ->]).
  apply expect_tag_sound in Ht as (tbs_e & Het & ->). apply expect_tag_sound in Ha as (alg_e & _ & ->).
  apply bit_string_sound in Hb as (sig_e & Hes & ->). by exists tbs_e, alg_e, sig_e.
Qed.

Lemma element_len tag v e : element tag v e → len v ≤ len e.
Proof. intros (l & _ & ->). rewrite len_cons, len_app. pose proof (len_nonneg l). lia. Qed.

Lemma verify_csr_signature_sound csr u :
  len (to_bytes csr) < 2 ^ 32 → verify_csr_signature csr = Ok u → csr_proved (to_bytes csr).
Proof.
  intros Hlen. unfold verify_csr_signature.
  intros ([[[tbs spki] oid] sig] & Hr & Hv)%bind_Ok. apply ok_or_Ok, read_all_inv in Hr.
  apply bind_Ok in Hv as (alg & _ & Hv). apply bind_Ok in Hv as (key & Hk & Hv).
  apply fail_if_Ok, negb_false_iff in Hv.
  apply bind_Some in Hr as ([v rest] & Hout & Hr). apply bind_Some in Hr as (a & Hin & [= -> ->]).
  apply read_all_inv, read_csr_inv in Hin as (tbs_e & alg_e & sig_e & Htbs & Hspki & Hsig & ->).
  apply expect_tag_sound in Hout as (e & Hout & He). rewrite app_nil_r in He. subst e. rewrite app_nil_r in Hout.
  pose proof (element_len _ _ _ Htbs). pose proof (element_len _ _ _ Hout) as Hl. rewrite !len_app in Hl.
  pose proof (len_nonneg alg_e). pose proof (len_nonneg sig_e).
  rewrite (element_unique _ _ _ _ (encode_sequence_element tbs ltac:(lia)) Htbs) in Hv.
  by exists tbs, tbs_e, alg_e, sig, sig_e, spki, key, alg.
Qed.

(* ------------------------------------------------------------------ *)
(** ** Issued certificates *)

Lemma build_sans_spec id td billets sans :
  build_sans id td billets = Ok sans → sans = id :: (billet_uri td <$> billets).
Proof.
  unfold build_sans. intros (id' & Hid%map_err_Ok & Hs)%bind_Ok. apply ia5_value in Hid as ->.
  apply bind_Ok in Hs as (uris & Hu & [= <-]). f_equal. revert uris Hu.
  induction billets as [|b billets IH]; cbn; intros uris; [by intros [= <-]|].
  intros (u & Hb%map_err_Ok & Hu)%bind_Ok. apply ia5_value in Hb as ->.
  apply bind_Ok in Hu as (us & Hu & [= <-]). f_equal. by apply IH.
Qed.

Lemma serial_byte b : is_byte b → 1 ≤ Z.lor (Z.land b 127) 1 ≤ 127.
Proof.
  intros Hb. assert (Forall (λ n, 1 ≤ Z.lor (Z.land (Z.of_nat n) 127) 1 ≤ 127) (seq 0 256)) as Hall by compute_decide.
  rewrite Forall_forall in Hall. unfold is_byte in Hb.
  specialize (Hall (Z.to_nat b)). rewrite Z2Nat.id in Hall by lia. apply Hall. apply elem_of_seq. lia.
Qed.

(** A leaf certificate for a request: what the authority signs. *)
Record leaf_for (a : LocalAuthority) (req : CertIssueRequest) (now : Z) (params : CertificateParams) : Prop := {
  lf_dn : distinguished_name params = subject_dn (include_billets_ou a) req;
  lf_sans : ∃ td, extract_trust_domain (cert_spiffe_id req) = Ok td ∧
    subject_alt_names params = cert_spiffe_id req :: (billet_uri td <$> cert_billets req);
  lf_from : not_before params = now;
  lf_until : not_after params = now + secs (as_i64 (ttl a));
  lf_leaf : is_ca params = false;
  lf_serial : ∃ b rest, serial_number params = Some (b :: rest) ∧ length rest = 19%nat ∧ 1 ≤ b ≤ 127
}.

(** C11: a certificate is issued only for a request that proves possession of the
    requested key, by a signature over the request's bytes exactly as sent; it is a
    leaf in the name of the authenticated subject, whose alternative names are that
    subject and its billets and nothing of the request, valid for the configured time
    and with a positive 20-byte serial; the answer is that leaf followed by the
    authority's certificate. *)
Theorem cert_issue_sound a now random req resp :
  len (to_bytes (csr_der req)) < 2 ^ 32 →
  (∀ bs, random = Some bs → length bs = 20%nat ∧ Forall is_byte bs) →
  issue a now random req = Some (Ok resp) →
  csr_proved (to_bytes (csr_der req)) ∧
  ∃ key params ca leaf, csr_public_key (csr_der req) = Ok key ∧ leaf_for a req now params ∧
    self_signed (ca_cert_params a) (ca_key_pair a) = Ok ca ∧
    signed_by params key ca (ca_key_pair a) = Ok leaf ∧
    resp = mkCertResponse (pem leaf) (ca_cert_pem a) (pem leaf +:+ ca_cert_pem a).
Proof.
  intros Hlen Hrand. unfold issue, issue_leaf.
  destruct (verify_csr_signature _) as [u|] eqn:Hv; [|done].
  destruct (map_err _ _) as [key|] eqn:Hkey; [|done]. apply map_err_Ok in Hkey.
  destruct (extract_trust_domain _) as [td|] eqn:Htd; [|done].
  destruct (build_sans _ _ _) as [sans|] eqn:Hsans; [|done]. apply build_sans_spec in Hsans as ->.
  destruct (odt_add _ _) as [na|] eqn:Hna; [|done]. apply odt_add_value in Hna as ->.
  intros [= (serial & Hserial & Hrest)%bind_Ok]. apply bind_Ok in Hrest as (ca & Hca%map_err_Ok & Hrest).
  apply bind_Ok in Hrest as (leaf & Hleaf%map_err_Ok & [= <-]).
  split; [by eapply verify_csr_signature_sound|]. eexists key, _, ca, leaf. split; [done|].
  split; [|by split_and!]. split; cbn; try done; [by exists td|].
  unfold generate_random_serial in Hserial. apply bind_Ok in Hserial as (bs & Hbs%ok_or_Ok & [= <-]).
  destruct (Hrand bs Hbs) as [Hl Hb]. destruct bs as [|b rest]; [done|]. apply Forall_cons in Hb as [Hb _].
  exists (Z.lor (Z.land b 127) 1), rest. split; [done|]. split; [cbn in Hl; lia|]. by apply serial_byte.
Qed.

(** The organizational unit cannot tell a billet with a colon from two billets, so a
    condition on [":admin:"] holds for holders of ["okta:admin"] too. *)
Lemma ou_confusion : billets_ou ["okta:admin"] = billets_ou ["okta"; "admin"].
Proof. reflexivity. Qed.

End sound.

(* ------------------------------------------------------------------ *)
(** ** Witness *)

Module DemoCert.

(** The reader of [Der]; a signature is the length of the signed bytes. *)
#[export] Instance demo_ring : RingIo := {|
  expect_tag_and_get_value := read_element;
  bit_string_with_no_unused_bits := λ input,
    match read_element 3 input with Some (0 :: v, rest) => Some (v, rest) | _ => None end;
  verify_signature := λ _ _ msg sig, bool_decide (sig = [len msg])
|}.

#[export] Instance demo_ring_laws : RingIoLaws.
Proof.
  split; cbn; [apply read_element_sound|]. intros input v rest.
  destruct (read_element 3 input) as [[[|[| |] v'] rest']|] eqn:E; try done.
  intros [= -> ->]. by apply read_element_sound.
Qed.

#[export] Instance demo_rcgen : Rcgen := {|
  RcKeyPair := unit; CaParams := unit; RcPublicKey := unit; RcCertificate := list string;
  keypair_from_pem := λ _, Ok tt; from_ca_cert_pem := λ _, Ok tt; csr_public_key := λ _, Ok tt;
  ia5_try_from := Ok; self_signed := λ _ _, Ok []; signed_by := λ p _ _ _, Ok (subject_alt_names p);
  pem := Str.join " "; odt_add := λ t d, Some (t + d)
|}.

#[export] Instance demo_rcgen_laws : RcgenLaws.
Proof. split; cbn; by intros; simplify_eq. Qed.

(** Version, empty subject, a key, an empty attribute list is left out; Ed25519. *)
Definition demo_csr : string :=
  Str.bytes [48; 26; 48; 13; 2; 1; 0; 48; 0; 48; 6; 48; 0; 3; 2; 0; 9;
             48; 5; 6; 3; 43; 101; 112; 3; 2; 0; 15]%N.

Definition demo_authority : LocalAuthority := mkLocalAuthority tt "CA" tt 3600 true.
Definition demo_request : CertIssueRequest := mkCertRequest demo_csr "spiffe://example.org/web" ["deploy"; "read"].
Definition demo_response : CertIssueResponse :=
  mkCertResponse "spiffe://example.org/web qm-billet://example.org/deploy qm-billet://example.org/read" "CA"
    "spiffe://example.org/web qm-billet://example.org/deploy qm-billet://example.org/readCA".
End DemoCert.

Import DemoCert.

Lemma cert_issue_sound_witness :
  issue demo_authority 0 (Some (repeat 200 20)) demo_request = Some (Ok demo_response) ∧
  csr_proved (to_bytes demo_csr).
Proof.
  assert (issue demo_authority 0 (Some (repeat 200 20)) demo_request = Some (Ok demo_response)) as Hi
    by (vm_compute; reflexivity).
  split; [done|].
  refine (proj1 (cert_issue_sound demo_authority 0 (Some (repeat 200 20)) demo_request demo_response _ _ Hi)).
  - vm_compute. reflexivity.
  - intros bs [= <-]. split; [done|]. compute_decide.
Defined.

End Cert.
