(* ===== verification/AdminAuth.v ===== *)
(** * Authentication of administrators ([src/src/domain/admin/authenticator.rs])
    and of callers of [GET /billets/{name}] ([src/src/handler/billets.rs])

    An [Authorization] header reaches these functions through
    [HeaderValue::to_str], so it is visible ASCII and every byte index is a
    character boundary. *)

From S2P Require Import Prelude Errors DataStore LocalStore CedarApi AuditLog Demo Sync Cedar Token.

Module AdminAuth.
Import Token.
Local Open Scope Z_scope.

Inductive AdminAuthError : Type :=
| MissingCredentials
| InvalidToken (msg : string)
| TokenExpired
| InsufficientPrivileges.

Definition AdminAuthError_fmt (e : AdminAuthError) : string :=
  match e with
  | MissingCredentials => "missing or malformed credentials"
  | InvalidToken msg => "invalid token: " +:+ msg
  | TokenExpired => "token expired"
  | InsufficientPrivileges => "insufficient privileges"
  end.

Definition extract_bearer_token (auth_header : string) : result AdminAuthError string :=
  let trimmed := Str.trim auth_header in
  _ ← fail_if (String.length trimmed <? 8)%nat MissingCredentials;
  let prefix := Str.take_bytes 7 trimmed in
  _ ← fail_if (negb (Str.eq_ignore_ascii_case prefix "bearer ")) MissingCredentials;
  let token := Str.trim (Str.drop_bytes 7 trimmed) in
  _ ← fail_if (Str.is_empty token) MissingCredentials;
  Ok token.

Section auth.
Context `{JwtLib}.

(** [v\[key\].as_str()] *)
Definition str_field (k : string) (v : json) : option string := json_get k v ≫= json_as_str.

Fixpoint find_key (kid : string) (keys : list json) : result AdminAuthError DecodingKey :=
  match keys with
  | [] => Err (InvalidToken ("no key found with kid: " +:+ kid))
  | key :: keys' =>
      if bool_decide (str_field "kid" key = Some kid) then
        x ← ok_or (InvalidToken "JWKS key missing x component") (str_field "x" key);
        y ← ok_or (InvalidToken "JWKS key missing y component") (str_field "y" key);
        map_err (λ e, InvalidToken ("failed to build decoding key: " +:+ e)) (from_ec_components x y)
      else find_key kid keys'
  end.

Definition decoding_key_from_jwks (m : SigningManager) (kid : string) : result AdminAuthError DecodingKey :=
  keys ← ok_or (InvalidToken "JWKS missing keys array") (json_get "keys" (jwks m) ≫= json_as_array);
  find_key kid keys.

Record AdminAuthenticatorImpl : Type := mkAuthenticator {
  auth_signing_manager : SigningManager;
  local_authorizer : Cedar.AdminAuthzRequest → gmap string (list string) → result Cedar.CedarError bool;
  auth_issuer_url : string
}.

(** Validation of the service's own tokens: ES256, our issuer, any audience. *)
Definition own_validation (issuer : string) : Validation :=
  let v := Validation_new ES256 in
  mkValidation (algorithms v) (Some [issuer]) false (validate_exp v) (validate_signature v) (required_spec_claims v).

Definition map_decode_error (e : JwtError) : AdminAuthError :=
  match e with
  | ExpiredSignature => TokenExpired
  | _ => InvalidToken ("JWT verification failed: " +:+ JwtError_fmt e)
  end.

Definition admin_request (now_text : string) (claims : Claims) (action resource : string) :
    Cedar.AdminAuthzRequest :=
  Cedar.mkAdminReq (billets claims) action resource (Cedar.mkContext "" "" now_text "" "" []).

(** [now] is the unix time at which the token is checked, [now_text] the time put
    in the Cedar context. *)
Definition authenticate (a : AdminAuthenticatorImpl) (now : Z) (now_text auth_header action resource : string) :
    result AdminAuthError string :=
  token ← extract_bearer_token auth_header;
  header ← map_err (λ e, InvalidToken ("malformed JWT header: " +:+ e)) (jwt_decode_header token);
  kid ← ok_or (InvalidToken "JWT header missing kid") (kid header);
  decoding_key ← decoding_key_from_jwks (auth_signing_manager a) kid;
  claims ← map_err map_decode_error (jwt_decode now token decoding_key (own_validation (auth_issuer_url a)));
  authorized ← map_err (λ e, InvalidToken ("authorization evaluation failed: " +:+ Cedar.CedarError_fmt e))
                 (local_authorizer a (admin_request now_text claims action resource) ∅);
  if authorized : bool then Ok (sub claims) else Err InsufficientPrivileges.

(* ------------------------------------------------------------------ *)
(** ** [handler/billets.rs] *)

Import Errors.

Definition handler_bearer_token (auth_header : string) : result DomainError string :=
  let trimmed := Str.trim auth_header in
  _ ← fail_if (String.length trimmed <? 8)%nat (invalid_token "malformed Authorization header");
  let prefix := Str.take_bytes 7 trimmed in
  _ ← fail_if (negb (Str.eq_ignore_ascii_case prefix "bearer "))
        (invalid_token "Authorization header must use Bearer scheme");
  let token := Str.trim (Str.drop_bytes 7 trimmed) in
  _ ← fail_if (Str.is_empty token) (invalid_token "Bearer token is empty");
  Ok token.

Definition verify_quartermaster_jwt (m : SigningManager) (issuer_url : string) (now : Z) (token : string) :
    result DomainError Claims :=
  header ← map_err (λ e, invalid_token ("malformed JWT: " +:+ e)) (jwt_decode_header token);
  kid ← ok_or (invalid_token "JWT header missing kid") (kid header);
  keys ← ok_or (service_unavailable "JWKS not available") (json_get "keys" (jwks m) ≫= json_as_array);
  key_entry ← ok_or (invalid_token ("unknown kid: " +:+ kid))
                (snd <$> list_find (λ k, str_field "kid" k = Some kid) keys);
  x ← ok_or (service_unavailable "JWKS key missing x") (str_field "x" key_entry);
  y ← ok_or (service_unavailable "JWKS key missing y") (str_field "y" key_entry);
  decoding_key ← map_err (λ e, service_unavailable ("failed to build key: " +:+ e)) (from_ec_components x y);
  map_err (λ e, match e with
                | ExpiredSignature => invalid_token "token expired"
                | _ => invalid_token ("JWT verification failed: " +:+ JwtError_fmt e)
                end)
    (jwt_decode now token decoding_key (own_validation issuer_url)).

Record BilletMetadataResponse : Type := mkMetadata {
  bm_name : string;
  bm_description : string;
  bm_associated_aws_roles : list string;
  bm_associated_gcp_sas : list string
}.

(** [header] is the Authorization header, when it is there and visible ASCII. *)
Definition get_billet_handler {D} `{DataStore.DataStore D} (m : SigningManager) (issuer_url : string)
    (authz : Cedar.AdminAuthzRequest → gmap string (list string) → result Cedar.CedarError bool)
    (now : Z) (now_text : string) (header : option string) (name : string) :
    M D DomainError BilletMetadataResponse :=
  auth_header ← lift_res (ok_or (invalid_token "missing Authorization header") header);
  token ← lift_res (handler_bearer_token auth_header);
  claims ← lift_res (verify_quartermaster_jwt m issuer_url now token);
  authorized ← lift_res (map_err (λ e, service_unavailable (Cedar.CedarError_fmt e))
                 (authz (admin_request now_text claims "readBillet" name) ∅));
  _ ← lift_res (fail_if (negb authorized) (insufficient_scope "not authorized to read this billet"));
  record ← m_map_err (λ e, service_unavailable (DataStore.DataStoreError_fmt e)) (DataStore.get_billet name);
  record ← lift_res (ok_or (not_found ("billet '" +:+ name +:+ "' not found")) record);
  mret (mkMetadata (DataStore.name record) (DataStore.description record)
          (DataStore.associated_aws_roles record) (DataStore.associated_gcp_sas record)).

(* ------------------------------------------------------------------ *)
(** ** Properties *)

Context `{!JwtLaws}.

Lemma authenticate_inv a now now_text hdr action resource who :
  authenticate a now now_text hdr action resource = Ok who ↔
  ∃ token h k dk c, extract_bearer_token hdr = Ok token ∧ jwt_decode_header token = Ok h ∧
    kid h = Some k ∧ decoding_key_from_jwks (auth_signing_manager a) k = Ok dk ∧
    jwt_decode now token dk (own_validation (auth_issuer_url a)) = Ok c ∧
    local_authorizer a (admin_request now_text c action resource) ∅ = Ok true ∧ who = sub c.
Proof.
  unfold authenticate. rewrite bind_Ok. split.
  - intros (token & Ht & E). apply bind_Ok in E as (h & Hh%map_err_Ok & E).
    apply bind_Ok in E as (k & Hk%ok_or_Ok & E). apply bind_Ok in E as (dk & Hdk & E).
    apply bind_Ok in E as (c & Hc%map_err_Ok & E). apply bind_Ok in E as ([] & Ha%map_err_Ok & E);
      [|done]. injection E as <-. by exists token, h, k, dk, c.
  - intros (token & h & k & dk & c & Ht & Hh & Hk & Hdk & Hc & Ha & ->). exists token. split; [done|].
    rewrite Hh. cbn. rewrite Hk. cbn. rewrite Hdk. cbn. rewrite Hc. cbn. by rewrite Ha.
Qed.

Lemma find_key_published m k dk :
  decoding_key_from_jwks m k = Ok dk ↔
  ∃ keys pre entry post x y, json_get "keys" (jwks m) = Some (JArr keys) ∧ keys = pre ++ entry :: post ∧
    (∀ e, e ∈ pre → str_field "kid" e ≠ Some k) ∧ str_field "kid" entry = Some k ∧
    str_field "x" entry = Some x ∧ str_field "y" entry = Some y ∧ from_ec_components x y = Ok dk.
Proof.
  unfold decoding_key_from_jwks. destruct (json_get "keys" (jwks m)) as [j|]; cbn;
    [|split; [done|by intros (? & ? & ? & ? & ? & ? & ? & _)]].
  destruct j as [| | | |keys|]; cbn; try (split; [done|by intros (? & ? & ? & ? & ? & ? & ? & _)]).
  trans (∃ pre entry post x y, keys = pre ++ entry :: post ∧
    (∀ e, e ∈ pre → str_field "kid" e ≠ Some k) ∧ str_field "kid" entry = Some k ∧
    str_field "x" entry = Some x ∧ str_field "y" entry = Some y ∧ from_ec_components x y = Ok dk).
  2:{ split; [intros (? & ? & ? & ? & ? & ?); by eexists keys, _, _, _, _, _|].
      intros (? & ? & ? & ? & ? & ? & [= <-] & ?). by eexists _, _, _, _, _. }
  induction keys as [|key keys IH]; cbn.
  - split; [done|]. intros ([|??] & ? & ? & ? & ? & ? & _); done.
  - case_bool_decide as Hk.
    + rewrite bind_Ok. setoid_rewrite ok_or_Ok. split.
      * intros (x & Hx & (y & Hy%ok_or_Ok & Hd%map_err_Ok)%bind_Ok). exists [], key, keys, x, y.
        split_and!; try done. by intros e ?%not_elem_of_nil.
      * intros ([|k0 pre] & entry & post & x & y & Heq & Hpre & He & Hx & Hy & Hd); injection Heq as <- ->.
        -- exists x. split; [done|]. rewrite Hy. cbn. by rewrite Hd.
        -- exfalso. by apply (Hpre key); [left|].
    + rewrite IH. split.
      * intros (pre & entry & post & x & y & -> & Hpre & Hrest). exists (key :: pre), entry, post, x, y.
        split; [done|]. split; [|done]. intros e [->|He]%elem_of_cons; [done|by apply Hpre].
      * intros ([|k0 pre] & entry & post & x & y & Heq & Hpre & He & Hrest); injection Heq as <- ->; [done|].
        exists pre, entry, post, x, y. split; [done|]. split; [|done]. intros e He'. apply Hpre. by right.
Qed.

(** C6: an administrator is authenticated only by a bearer token whose claims are
    signed under a key that the service publishes, issued by this service and not
    expired (within the minute of leeway), and only if the local authorizer allows
    the action on the resource to the billets of those claims; the answer is the
    subject of the claims. *)
Theorem admin_authentication_sound a now now_text hdr action resource who :
  authenticate a now now_text hdr action resource = Ok who →
  ∃ token k dk c, extract_bearer_token hdr = Ok token ∧
    decoding_key_from_jwks (auth_signing_manager a) k = Ok dk ∧ signed dk token c ∧
    iss c = auth_issuer_url a ∧ now ≤ exp c + 60 ∧ who = sub c ∧
    local_authorizer a (admin_request now_text c action resource) ∅ = Ok true.
Proof.
  intros (token & h & k & dk & c & Ht & Hh & Hk & Hdk & Hc & Ha & ->)%authenticate_inv.
  apply decode_sound in Hc as (Hs & Hexp & Hiss). specialize (Hiss _ eq_refl).
  apply list_elem_of_singleton in Hiss. by exists token, k, dk, c.
Qed.

(** The header a client builds from an issued token. *)
Lemma extract_bearer_issued h c k tok :
  jwt_encode h c k = Ok tok → extract_bearer_token ("Bearer " +:+ tok) = Ok tok.
Proof.
  intros [Hg Hne]%encode_graphic. unfold extract_bearer_token.
  assert (graphic_last ("Bearer " +:+ tok) = true) as Hlast.
  { rewrite graphic_last_app by done. by apply graphic_all_last. }
  rewrite (trim_graphic_ends ("Bearer " +:+ tok)) by done.
  rewrite !app_cons, app_empty_l. cbn [String.length Str.take_bytes Str.drop_bytes].
  rewrite trim_graphic by done. destruct tok as [|c0 tok]; [done|]. cbn. unfold Str.is_empty.
  by rewrite bool_decide_eq_false_2.
Qed.

(** A token signed with the published key authenticates until it expires. *)
Lemma signed_token_authenticates a m dk c tok now now_text action resource :
  jwt_encode (header m) c (encoding_key m) = Ok tok → publishes m dk → auth_signing_manager a = m →
  iss c = auth_issuer_url a → claims_ok c → now ≤ exp c →
  authenticate a now now_text ("Bearer " +:+ tok) action resource =
  match local_authorizer a (admin_request now_text c action resource) ∅ with
  | Ok true => Ok (sub c)
  | Ok false => Err InsufficientPrivileges
  | Err e => Err (AdminAuth.InvalidToken ("authorization evaluation failed: " +:+ Cedar.CedarError_fmt e))
  end.
Proof.
  intros Henc (Halg & Hkid & Hkp & Hpub) Hm Hu Hcl Hnow.
  assert (decoding_key_from_jwks m (key_id m) = Ok dk) as Hdk by by apply find_key_published.
  assert (jwt_decode now tok dk (own_validation (auth_issuer_url a)) = Ok c) as Hdec.
  { eapply decode_complete; [done|done|done|rewrite Halg; by left|done|done|].
    intros l [= <-]. rewrite Hu. by left. }
  unfold authenticate. rewrite (extract_bearer_issued _ _ _ _ Henc). cbn [mbind result_bind].
  rewrite (decode_header_encode _ _ _ _ Henc). cbn. rewrite Hkid. cbn. rewrite Hm, Hdk. cbn.
  rewrite Hdec. cbn. by destruct (local_authorizer a _ ∅) as [[]|].
Qed.

(** C26: a token the service issues is accepted by the service until it expires:
    presented as a bearer token before its expiry, with the signing key published
    and no extra claim overwriting a fixed one, it authenticates as its subject
    exactly when the authorizer allows the action to its billets. *)
Theorem issued_token_authenticates i a dk t0 uuid req resp now now_text action resource :
  issue i t0 uuid req = Ok resp →
  publishes (signing_manager i) dk →
  auth_signing_manager a = signing_manager i → auth_issuer_url a = issuer_url i →
  Forall (λ k, k ∉ fixed_claims) (cfg_billet_claims i) →
  0 ≤ t0 → 0 ≤ ttl_secs i → t0 + ttl_secs i < 2 ^ 64 → now ≤ t0 + ttl_secs i →
  let c := make_claims i t0 uuid req in
  authenticate a now now_text ("Bearer " +:+ access_token resp) action resource =
  match local_authorizer a (admin_request now_text c action resource) ∅ with
  | Ok true => Ok (default (req_spiffe_id req) (req_subject_override req))
  | Ok false => Err InsufficientPrivileges
  | Err e => Err (AdminAuth.InvalidToken ("authorization evaluation failed: " +:+ Cedar.CedarError_fmt e))
  end.
Proof.
  intros (Henc & _ & _)%issue_inv Hpub Hm Hu Hcl H0' Httl Hmax Hnow c.
  apply (signed_token_authenticates a (signing_manager i) dk c (access_token resp)); try done.
  - intros k bs Hk. cbn in Hk. rewrite list_to_map_same in Hk. case_bool_decide as Hin; [|done].
    rewrite Forall_forall in Hcl. by apply Hcl.
  - cbn. unfold wrap. rewrite Z.mod_small by lia. lia.
Qed.
End auth.

(* ------------------------------------------------------------------ *)
(** ** Witnesses *)

Import Demo ToyJwt.

Definition demo_auth : AdminAuthenticatorImpl :=
  mkAuthenticator toy_manager (Cedar.is_authorized_admin Cedar.demo_authorizer) "https://qm".

Lemma admin_authentication_sound_witness :
  ∃ c, signed tt "h.p.s" c ∧ sub c = "spiffe://td/admin".
Proof.
  destruct (admin_authentication_sound demo_auth 1500 "t" "bearer h.p.s" "deleteBillet" "reader"
    "spiffe://td/admin") as (token & k & [] & c & Ht & _ & Hs & _ & _ & Hsub & _);
    [vm_compute; reflexivity|].
  exists c. split; [|exact (eq_sym Hsub)]. vm_compute in Ht. injection Ht as <-. exact Hs.
Defined.

Lemma issued_token_authenticates_witness :
  authenticate demo_auth 1800 "t" ("Bearer " +:+ "h.p.s") "deleteBillet" "reader" =
  Ok "spiffe://td/admin".
Proof.
  refine (eq_trans (issued_token_authenticates toy_issuer demo_auth tt 1000 "id-1"
    (mkIssueRequest "" "qm" ["quartermaster-admin"] None (Some "spiffe://td/admin"))
    (mkIssueResponse "h.p.s" "urn:ietf:params:oauth:token-type:jwt" "Bearer" 900 "id-1")
    1800 "t" "deleteBillet" "reader" _ toy_publishes _ _ _ _ _ _ _) _);
    [reflexivity|reflexivity|reflexivity|constructor|cbn; lia..|vm_compute; reflexivity].
Defined.

End AdminAuth.
