(* ===== verification/TokenHandler.v ===== *)
(** * Token exchange and billet discovery
    ([src/src/handler/token.rs], [src/src/handler/billets_discovery.rs])

    The two data-plane handlers, with everything they call.  The mutable part of
    [AppState] is the record [Shared]; the rest of [AppState] is read-only while a
    request runs.  Clock readings and the fresh identifier are arguments. *)

From S2P Require Import Prelude Errors RateLimit Cache Identity PathPattern IdentityConfig Implicit.
From S2P Require Import DataStore LocalStore CedarApi AuditLog Demo Sync Cedar Entity Resolver Token Cert.

Module TokenHandler.
Import Errors Identity CertApi.

(** The [base64] crate's standard engine. *)
Class Base64Lib := base64_decode : string → result string string.

(* ------------------------------------------------------------------ *)
(** ** Requests and responses *)

Record TokenExchangeForm : Type := mkForm {
  grant_type : option string;
  subject_token : option string;
  subject_token_type : option string;
  form_audience : option string;
  csr : option string;
  form_billets : option string
}.

Record TokenExchangeResponse : Type := mkTokenResponse {
  access_token : string;
  issued_token_type : string;
  token_type : string;
  expires_in : Z;
  certificate_chain : option string
}.

Record BilletDiscoveryForm : Type := mkDiscoveryForm {
  d_subject_token : option string;
  d_subject_token_type : option string
}.

Record BilletDiscoveryResponse : Type := mkDiscoveryResponse {
  d_billets : list string;
  d_implicit_billets : list string;
  d_cedar_billets : list string
}.

(** When the parts of a request read their clocks, and the identifier drawn. *)
Record Instants : Type := mkInstants {
  t_limit : Z;
  t_request : Z;
  t_cache : Z;
  t_wall : Z;
  t_issue : Z;
  t_audit : Z;
  fresh_jti : string
}.

(* ------------------------------------------------------------------ *)
(** ** Helper functions *)

(** [filter(|s| seen.insert(s.clone()))] keeps first occurrences. *)
Definition parse_requested_billets (raw : string) : option (list string) :=
  let billets := foldl Implicit.push_new []
    (filter (λ s, s ≠ "") (Str.trim <$> Str.split "," raw)) in
  if bool_decide (billets = []) then None else Some billets.

Definition identity_error_to_domain_error (e : IdentityError) : DomainError :=
  match e with
  | UnknownTokenType _ => invalid_request (IdentityError_fmt e)
  | IssuerNotFound _ | InvalidSignature _ | TokenExpired | AudienceMismatch _
  | InvalidPresignedUrl _ | UpstreamCallFailed _ | NotAllowed _ | MissingClaim _ =>
      invalid_token (IdentityError_fmt e)
  | KeysStale _ => service_unavailable (IdentityError_fmt e)
  end.

Definition source_type_from_token_type (token_type : string) : string :=
  if bool_decide (token_type = "urn:ietf:params:oauth:token-type:jwt") then "spire"
  else if bool_decide (token_type = "urn:quartermaster:token-type:oidc") then "oidc"
  else if bool_decide (token_type = "urn:quartermaster:token-type:aws-presigned-sts") then "aws-sts"
  else if bool_decide (token_type = "urn:quartermaster:token-type:gcp-identity") then "gcp"
  else "unknown".

Definition build_identity_audit_details `{HashIter} (identity : AuthenticatedIdentity) :
    AuditLog.IdentityAuditDetails :=
  match identity with
  | Spire spire => AuditLog.DSpire (spiffe_id spire)
  | Oidc oidc => AuditLog.DOidc (oidc_email oidc) (idp_prefix oidc) (flat_claims (claims oidc))
  | AwsSts aws => AuditLog.DAwsSts (account_id aws) (role_arn aws)
  | Gcp gcp => AuditLog.DGcp (project_id gcp) (gcp_email gcp)
  end.

Section handler.
Context `{CedarApi.CedarLib} `{PathPattern.RegexLib} `{HashIter} `{Token.JwtLib} `{Base64Lib}.
Context {D : Type} `{DataStore.DataStore D} {C : Type} `{Cache.Cache C} {L : Type} `{RateLimit.Limiter L}.

Record AppState : Type := mkApp {
  identity_dispatcher : DefaultIdentityDispatcher;
  mtls_validator : option (string → option SpireIdentity);
  resolver : Resolver.BilletResolverImpl (D := D);
  implicit_billet_mapper : Implicit.ImplicitBilletMapper;
  issuer : Token.Es256Issuer;
  authority_issue : CertIssueRequest → result CertError CertIssueResponse
}.

Record Shared : Type := mkShared {
  rate_limiter : L;
  cache : C;
  audit_service : AuditLog.AuditService
}.

Definition on_limiter {E A} (m : M L E A) : M Shared E A :=
  λ s, match m (rate_limiter s) with (r, l) => (r, mkShared l (cache s) (audit_service s)) end.
Definition on_cache {E A} (m : M C E A) : M Shared E A :=
  λ s, match m (cache s) with (r, c) => (r, mkShared (rate_limiter s) c (audit_service s)) end.
Definition emit {E} (e : AuditLog.AuditEnvelope) : M Shared E unit :=
  modify_st (λ s, mkShared (rate_limiter s) (cache s) (AuditLog.emit e (audit_service s)).2).

(** [client_cert.0.as_ref()?; state.mtls_validator.as_ref()?; validator.validate(..)] *)
Definition extract_mtls_identity (app : AppState) (client_cert : option string) : option SpireIdentity :=
  cert_der ← client_cert; validator ← mtls_validator app; validator cert_der.

(** The [unreachable!] arms: [identity] is not a SPIRE identity there, for which
    [build_principal] is always defined ([build_principal_defined]). *)
Definition principal_type_of (identity : AuthenticatedIdentity) : string :=
  match identity with
  | Oidc _ => "OidcIdentity"
  | AwsSts _ => "AwsRoleIdentity"
  | Gcp _ => "GcpIdentity"
  | Spire _ => ""
  end.

Definition build_resolver_input (now : Z) (identity : AuthenticatedIdentity) (subject audience : string) :
    result DomainError Resolver.ResolverInput :=
  match identity, Entity.build_principal identity with
  | Spire spire, _ =>
      Ok (Resolver.mkInput (spiffe_id spire) (trust_domain spire) (environment spire) (region spire)
            audience now "" None)
  | _, Some principal =>
      let failed e := service_unavailable ("entity construction failed: " +:+ Entity.EntityBuildError_fmt e) in
      entity ← map_err failed (Entity.build_cedar_entity principal);
      uid ← map_err failed (Entity.principal_entity_uid principal);
      let source_cloud := match identity with AwsSts _ => "aws" | Gcp _ => "gcp" | _ => "" end in
      let typed := Resolver.mkTyped (principal_type_of identity) (CedarApi.uid_id uid) [entity]
                     (Entity.source_type_for_identity identity) source_cloud in
      Ok (Resolver.mkInput subject "" "" "" audience now source_cloud (Some typed))
  | _, None => Err (service_unavailable "unreachable")
  end.

Definition failure_details (audience : string) (d : AuditLog.IdentityAuditDetails) :
    AuditLog.TokenExchangeDetails :=
  AuditLog.mkTokenExchangeDetails [] [] audience None d.

(** Step 2 of both handlers; discovery has no audience. *)
Definition authenticate_caller (app : AppState) (ts : Instants) (request_id audience : string)
    (client_cert subject_token subject_token_type : option string) :
    M Shared DomainError (AuthenticatedIdentity * SpireAuthSource) :=
  match subject_token with
  | Some tok =>
      token_type ← lift_res (ok_or
        (invalid_request "subject_token_type is required when subject_token is provided") subject_token_type);
      identity ← m_on_err
        (λ e,
          _ ← emit (AuditLog.token_exchange_failure (t_audit ts) request_id
                 (AuditLog.mkActor "" (source_type_from_token_type token_type)) (IdentityError_fmt e)
                 (failure_details audience (AuditLog.DSpire "")));
          throw (identity_error_to_domain_error e))
        (lift_res (validate (identity_dispatcher app) tok token_type));
      mret (identity, JwtSvid)
  | None =>
      match extract_mtls_identity app client_cert with
      | Some mtls_identity => mret (Spire mtls_identity, MtlsCert)
      | None => throw (invalid_request "subject_token is required when no client certificate is presented")
      end
  end.

Definition source_type_of (identity : AuthenticatedIdentity) (auth_source : SpireAuthSource) : string :=
  match identity with
  | Spire _ => Entity.source_type_for_spire_identity auth_source
  | _ => Entity.source_type_for_identity identity
  end.

Definition billet_error_to_domain_error (e : Resolver.BilletError) : DomainError :=
  match e with
  | Resolver.NoBilletsResolved => insufficient_scope "identity holds no billets"
  | Resolver.PolicySetNotInitialized => service_unavailable "policy set not initialized"
  | Resolver.InternalError msg => service_unavailable msg
  end.

Definition implicit_for (app : AppState) (identity : AuthenticatedIdentity) : Implicit.ImplicitBilletResult :=
  match identity with
  | Oidc oidc => Implicit.derive_billets (implicit_billet_mapper app) (idp_prefix oidc) (claims oidc)
  | _ => Implicit.empty_result
  end.

(** Step 7.5. *)
Definition apply_scope (billets_param : option string) (final_billets : list string) :
    result DomainError (list string) :=
  match billets_param with
  | Some raw =>
      match parse_requested_billets raw with
      | Some requested =>
          match Resolver.scope_billets final_billets requested with
          | Ok r => Ok (Resolver.scoped r)
          | Err d => Err (insufficient_scope ("requested billets not entitled: " +:+
                                              Str.join ", " (Resolver.denied d)))
          end
      | None => Ok final_billets
      end
  | None => Ok final_billets
  end.

(** Step 10. *)
Definition issue_certificate (app : AppState) (csr : option string) (subject : string)
    (billets : list string) : result DomainError (option string) :=
  match csr with
  | Some csr_b64 =>
      der ← map_err (λ e, invalid_request ("invalid CSR base64: " +:+ e)) (base64_decode csr_b64);
      resp ← map_err (λ e, invalid_request (CertError_fmt e))
               (authority_issue app (mkCertRequest der subject billets));
      Ok (Some (Str.from_utf8_lossy (chain_pem resp)))
  | None => Ok None
  end.

Definition rate_limit_error (e : RateLimit.RateLimitError) : DomainError :=
  mkDomainError ServiceUnavailable (RateLimit.RateLimitError_fmt e).

Definition GRANT_TYPE : string := "urn:ietf:params:oauth:grant-type:token-exchange".

(** [request_id_header] is the [x-request-id] header when it is visible ASCII. *)
Definition token_exchange (app : AppState) (ts : Instants) (request_id_header client_cert : option string)
    (form : TokenExchangeForm) : M Shared DomainError TokenExchangeResponse :=
  let request_id := default "unknown" request_id_header in
  _ ← lift_res (fail_if (bool_decide (default "" (grant_type form) ≠ GRANT_TYPE))
        (invalid_request "grant_type must be urn:ietf:params:oauth:grant-type:token-exchange"));
  audience ← lift_res (ok_or (invalid_request "audience is required") (form_audience form));
  caller ← authenticate_caller app ts request_id audience client_cert (subject_token form)
             (subject_token_type form);
  let identity := caller.1 in
  let subject := format_subject identity in
  let actor := AuditLog.mkActor subject (source_type_of identity caller.2) in
  let audit_failure err := AuditLog.token_exchange_failure (t_audit ts) request_id actor err
                             (failure_details audience (build_identity_audit_details identity)) in
  allowed ← m_map_err rate_limit_error (on_limiter (RateLimit.limiter_allow (t_limit ts) subject));
  _ ← (if allowed : bool then mret tt
       else _ ← emit (audit_failure "rate limit exceeded"); throw (rate_limited "rate limit exceeded"));
  resolver_input ← lift_res (build_resolver_input (t_request ts) identity subject audience);
  resolution ← m_on_err
    (λ e, _ ← emit (audit_failure (Resolver.BilletError_fmt e)); throw (billet_error_to_domain_error e))
    (on_cache (Resolver.resolve (resolver app) (t_cache ts) (t_wall ts) resolver_input));
  let implicit_result := implicit_for app identity in
  let final_billets := Implicit.assemble_token_billets (Resolver.rbillets resolution) implicit_result
                         (Implicit.reserved_prefixes (implicit_billet_mapper app)) in
  scoped_billets ← lift_res (apply_scope (form_billets form) final_billets);
  issue_resp ← lift_res (map_err (λ e, service_unavailable (Token.TokenError_fmt e))
    (Token.issue (issuer app) (t_issue ts) (fresh_jti ts)
       (Token.mkIssueRequest subject audience scoped_billets (Some (build_identity_claim identity))
          (Some subject))));
  chain ← lift_res (issue_certificate app (csr form) subject scoped_billets);
  _ ← emit (AuditLog.token_exchange_success (t_audit ts) request_id actor
         (AuditLog.mkTokenExchangeDetails (Resolver.rbillets resolution) (Implicit.all_billets implicit_result)
            audience (Some (Token.jti issue_resp)) (build_identity_audit_details identity)));
  mret (mkTokenResponse (Token.access_token issue_resp) (Token.issued_token_type issue_resp)
          (Token.token_type issue_resp) (Token.expires_in issue_resp) chain).

(** [match m.await { Ok(x) => .., Err(e) => .. }]: the result as a value. *)
Definition attempt {S E E' A} (m : M S E A) : M S E' (result E A) :=
  λ s, match m s with (r, s') => (Ok r, s') end.

(** [handler/billets_discovery.rs] has its own copies of these helpers. *)
Definition discovery_extract_mtls_identity (app : AppState) (client_cert : option string) : option SpireIdentity :=
  cert_der ← client_cert; validator ← mtls_validator app; validator cert_der.

Definition discovery_identity_error (e : IdentityError) : DomainError :=
  match e with
  | UnknownTokenType _ => invalid_request (IdentityError_fmt e)
  | IssuerNotFound _ | InvalidSignature _ | TokenExpired | AudienceMismatch _
  | InvalidPresignedUrl _ | UpstreamCallFailed _ | NotAllowed _ | MissingClaim _ => invalid_token (IdentityError_fmt e)
  | KeysStale _ => service_unavailable (IdentityError_fmt e)
  end.

Definition discovery_source_type (token_type : string) : string :=
  if bool_decide (token_type = "urn:ietf:params:oauth:token-type:jwt") then "spire"
  else if bool_decide (token_type = "urn:quartermaster:token-type:oidc") then "oidc"
  else if bool_decide (token_type = "urn:quartermaster:token-type:aws-presigned-sts") then "aws-sts"
  else if bool_decide (token_type = "urn:quartermaster:token-type:gcp-identity") then "gcp" else "unknown".

(** Discovery has no audience. *)
Definition discovery_resolver_input (now : Z) (identity : AuthenticatedIdentity) (subject : string) :
    result DomainError Resolver.ResolverInput :=
  match identity, Entity.build_principal identity with
  | Spire spire, _ =>
      Ok (Resolver.mkInput (spiffe_id spire) (trust_domain spire) (environment spire) (region spire) "" now "" None)
  | _, Some principal =>
      let failed e := service_unavailable ("entity construction failed: " +:+ Entity.EntityBuildError_fmt e) in
      entity ← map_err failed (Entity.build_cedar_entity principal);
      uid ← map_err failed (Entity.principal_entity_uid principal);
      let source_cloud := match identity with AwsSts _ => "aws" | Gcp _ => "gcp" | _ => "" end in
      Ok (Resolver.mkInput subject "" "" "" "" now source_cloud
            (Some (Resolver.mkTyped (principal_type_of identity) (CedarApi.uid_id uid) [entity]
                     (Entity.source_type_for_identity identity) source_cloud)))
  | _, None => Err (service_unavailable "unreachable")
  end.

Definition discovery_caller (app : AppState) (ts : Instants) (request_id : string)
    (client_cert subject_token subject_token_type : option string) :
    M Shared DomainError (AuthenticatedIdentity * SpireAuthSource) :=
  match subject_token with
  | Some tok =>
      token_type ← lift_res (ok_or
        (invalid_request "subject_token_type is required when subject_token is provided") subject_token_type);
      identity ← m_on_err
        (λ e,
          _ ← emit (AuditLog.token_exchange_failure (t_audit ts) request_id
                 (AuditLog.mkActor "" (discovery_source_type token_type)) (IdentityError_fmt e)
                 (failure_details "" (AuditLog.DSpire "")));
          throw (discovery_identity_error e))
        (lift_res (validate (identity_dispatcher app) tok token_type));
      mret (identity, JwtSvid)
  | None =>
      match discovery_extract_mtls_identity app client_cert with
      | Some mtls_identity => mret (Spire mtls_identity, MtlsCert)
      | None => throw (invalid_request "subject_token is required when no client certificate is presented")
      end
  end.

Definition discovery_response (app : AppState) (identity : AuthenticatedIdentity)
    (r : result Resolver.BilletError Resolver.Resolution) : result DomainError BilletDiscoveryResponse :=
  match r with
  | Ok resolution =>
      let implicit_result := implicit_for app identity in
      let final_billets := Implicit.assemble_token_billets (Resolver.rbillets resolution) implicit_result
                             (Implicit.reserved_prefixes (implicit_billet_mapper app)) in
      Ok (mkDiscoveryResponse final_billets (Implicit.token_billets implicit_result)
            (Resolver.rbillets resolution))
  | Err Resolver.NoBilletsResolved => Ok (mkDiscoveryResponse [] [] [])
  | Err Resolver.PolicySetNotInitialized => Err (service_unavailable "policy set not initialized")
  | Err (Resolver.InternalError msg) => Err (service_unavailable msg)
  end.

(** [POST /billets/me] *)
Definition billet_discovery (app : AppState) (ts : Instants) (request_id_header client_cert : option string)
    (form : BilletDiscoveryForm) : M Shared DomainError BilletDiscoveryResponse :=
  let request_id := default "unknown" request_id_header in
  caller ← discovery_caller app ts request_id client_cert (d_subject_token form) (d_subject_token_type form);
  let identity := caller.1 in
  let subject := format_subject identity in
  allowed ← m_map_err rate_limit_error (on_limiter (RateLimit.limiter_allow (t_limit ts) subject));
  _ ← lift_res (fail_if (negb allowed) (rate_limited "rate limit exceeded"));
  resolver_input ← lift_res (discovery_resolver_input (t_request ts) identity subject);
  resolved ← attempt (on_cache (Resolver.resolve (resolver app) (t_cache ts) (t_wall ts) resolver_input));
  lift_res (discovery_response app identity resolved).

(* ------------------------------------------------------------------ *)
(** ** Lemmas *)

(** Discovery treats its callers as the exchange with an empty audience does. *)
Lemma discovery_caller_same app ts rid cert tok tt' :
  discovery_caller app ts rid cert tok tt' = authenticate_caller app ts rid "" cert tok tt'.
Proof. reflexivity. Qed.

Lemma discovery_input_same now identity subject :
  discovery_resolver_input now identity subject = build_resolver_input now identity subject "".
Proof. by destruct identity. Qed.

Lemma build_principal_defined (identity : AuthenticatedIdentity) :
  (∀ s, identity ≠ Spire s) → is_Some (Entity.build_principal identity).
Proof. destruct identity; cbn; intros Hs; [by destruct (Hs i)|by eexists..]. Qed.

Lemma parse_requested_spec raw l :
  parse_requested_billets raw = Some l →
  l ≠ [] ∧ NoDup l ∧ ∀ b, b ∈ l ↔ b ≠ "" ∧ b ∈ Str.trim <$> Str.split "," raw.
Proof.
  unfold parse_requested_billets. case_bool_decide as Hn; [done|]. intros [= <-]. split; [done|].
  destruct (Implicit.foldl_push_new [] (filter (λ s, s ≠ "") (Str.trim <$> Str.split "," raw)))
    as (ext & Heq & Hin & Hnd). rewrite Heq in *. cbn in *. split; [by apply Hnd, NoDup_nil|].
  intros b. rewrite Hin, list_elem_of_filter. split; [|by right]. by intros [?%not_elem_of_nil|?].
Qed.

(** Who the caller is: the declared token's subject, or without a token the
    client certificate's. *)
Definition authenticated (app : AppState) (client_cert subject_token subject_token_type : option string)
    (identity : AuthenticatedIdentity) : Prop :=
  match subject_token with
  | Some tok => ∃ tt, subject_token_type = Some tt ∧ validate (identity_dispatcher app) tok tt = Ok identity
  | None => ∃ cert v s, client_cert = Some cert ∧ mtls_validator app = Some v ∧ v cert = Some s ∧
              identity = Spire s
  end.

Lemma authenticate_caller_Ok app ts rid aud cert tok tt s p s' :
  authenticate_caller app ts rid aud cert tok tt s = (Ok p, s') →
  s' = s ∧ authenticated app cert tok tt p.1.
Proof.
  unfold authenticate_caller, authenticated, extract_mtls_identity. destruct tok as [tok|].
  - destruct tt as [tt|]; [|done]. unfold_monad.
    destruct (validate (identity_dispatcher app) tok tt) as [i|e] eqn:Hv; cbn; [|done].
    intros [= <- <-]. split; [done|]. by exists tt.
  - destruct cert as [cert|]; [|done]. cbn. destruct (mtls_validator app) as [v|] eqn:Hv; [|done]. cbn.
    destruct (v cert) as [i|] eqn:Hi; [|done]. intros [= <- <-]. split; [done|]. by exists cert, v, i.
Qed.

Lemma authenticate_caller_of app ts rid aud cert tok tt s i :
  authenticated app cert tok tt i → ∃ src, authenticate_caller app ts rid aud cert tok tt s = (Ok (i, src), s).
Proof.
  unfold authenticate_caller, authenticated, extract_mtls_identity. destruct tok as [tok|].
  - intros (ty & -> & Hv). unfold_monad. rewrite Hv. by eexists.
  - intros (c & v & w & -> & Hv & Hw & ->). cbn. rewrite Hv. cbn. rewrite Hw. by eexists.
Qed.

(** The events a run of a handler hands to the audit service. *)
Definition audited (s s' : Shared) (evs : list AuditLog.AuditEnvelope) : Prop :=
  audit_service s' = foldl (λ a e, (AuditLog.emit e a).2) (audit_service s) evs.

Definition silent {E A} (m : M Shared E A) : Prop :=
  ∀ s r s', m s = (r, s') → audit_service s' = audit_service s.

Lemma on_limiter_silent {E F A} (g : E → F) (m : M L E A) : silent (m_map_err g (on_limiter m)).
Proof. intros s r s' (x & Hx & ->)%m_map_err_inv. unfold on_limiter in Hx.
  destruct (m (rate_limiter s)). by injection Hx as <- <-. Qed.
Lemma on_cache_silent {E A} (m : M C E A) : silent (on_cache m).
Proof. intros s r s' Hx. unfold on_cache in Hx. destruct (m (cache s)). by injection Hx as <- <-. Qed.

Lemma on_limiter_cache {E F A} (g : E → F) (m : M L E A) s r s' :
  m_map_err g (on_limiter m) s = (r, s') → cache s' = cache s.
Proof. intros (x & Hx & ->)%m_map_err_inv. unfold on_limiter in Hx. destruct (m (rate_limiter s)). by injection Hx as <- <-. Qed.

Lemma authenticate_caller_cache app ts rid aud cert tok tt s r s' :
  authenticate_caller app ts rid aud cert tok tt s = (r, s') → cache s' = cache s.
Proof.
  unfold authenticate_caller. destruct tok as [tok|].
  - destruct tt as [tt|]; [|by intros [= <- <-]]. unfold_monad.
    by destruct (validate (identity_dispatcher app) tok tt) as [i|e]; cbn; intros [= <- <-].
  - by destruct (extract_mtls_identity app cert); intros [= <- <-].
Qed.

Lemma authenticate_caller_audit app ts rid aud cert tok tt s r s' :
  authenticate_caller app ts rid aud cert tok tt s = (r, s') →
  audited s s' [] ∨ (∃ a e d, is_ok r = false ∧ audited s s' [AuditLog.token_exchange_failure (t_audit ts) rid a e d]).
Proof.
  unfold authenticate_caller. destruct tok as [tok|].
  - destruct tt as [tt|]; [|intros [= <- <-]; by left]. unfold_monad.
    destruct (validate (identity_dispatcher app) tok tt) as [i|e] eqn:Hv; cbn; intros [= <- <-];
      [by left|]. right. by repeat eexists.
  - destruct (extract_mtls_identity app cert); intros [= <- <-]; by left.
Qed.

(** What a successful exchange went through. *)
Record exchange (app : AppState) (ts : Instants) (cert : option string) (form : TokenExchangeForm)
    (s s' : Shared) (identity : AuthenticatedIdentity) (audience : string)
    (resolution : Resolver.Resolution) (bs : list string) (resp : TokenExchangeResponse) : Prop := {
  ex_grant : grant_type form = Some GRANT_TYPE;
  ex_audience : form_audience form = Some audience;
  ex_caller : authenticated app cert (subject_token form) (subject_token_type form) identity;
  ex_allowed : ∃ l', RateLimit.limiter_allow (t_limit ts) (format_subject identity) (rate_limiter s) = (Ok true, l');
  ex_resolution : ∃ input, build_resolver_input (t_request ts) identity (format_subject identity) audience = Ok input ∧
    Resolver.resolve (resolver app) (t_cache ts) (t_wall ts) input (cache s) = (Ok resolution, cache s');
  ex_scope : apply_scope (form_billets form)
    (Implicit.assemble_token_billets (Resolver.rbillets resolution) (implicit_for app identity)
       (Implicit.reserved_prefixes (implicit_billet_mapper app))) = Ok bs;
  ex_token : ∃ ir, Token.issue (issuer app) (t_issue ts) (fresh_jti ts)
      (Token.mkIssueRequest (format_subject identity) audience bs (Some (build_identity_claim identity))
         (Some (format_subject identity))) = Ok ir ∧
    access_token resp = Token.access_token ir ∧ expires_in resp = Token.expires_in ir;
  ex_cert : issue_certificate app (csr form) (format_subject identity) bs = Ok (certificate_chain resp)
}.

(** The success event of an exchange. *)
Definition success_event (app : AppState) (ts : Instants) (rid : string) (identity : AuthenticatedIdentity)
    (src : SpireAuthSource) (audience : string) (resolution : Resolver.Resolution) : AuditLog.AuditEnvelope :=
  AuditLog.token_exchange_success (t_audit ts) rid
    (AuditLog.mkActor (format_subject identity) (source_type_of identity src))
    (AuditLog.mkTokenExchangeDetails (Resolver.rbillets resolution)
       (Implicit.all_billets (implicit_for app identity)) audience (Some (fresh_jti ts))
       (build_identity_audit_details identity)).

Definition failure_event (ts : Instants) (rid : string) (e : AuditLog.AuditEnvelope) : Prop :=
  ∃ a m d, e = AuditLog.token_exchange_failure (t_audit ts) rid a m d.

Lemma audited_silent s s1 s' evs :
  audit_service s1 = audit_service s → audited s1 s' evs → audited s s' evs.
Proof. unfold audited. by intros ->. Qed.

(** The part of the handler after the rate limit, for a caller that is known. *)
Lemma exchange_steps app ts rh cert form s r s' :
  token_exchange app ts rh cert form s = (r, s') →
  match r with
  | Ok resp => ∃ identity src audience resolution bs,
      exchange app ts cert form s s' identity audience resolution bs resp ∧
      audited s s' [success_event app ts (default "unknown" rh) identity src audience resolution]
  | Err _ => audited s s' [] ∨ ∃ e, failure_event ts (default "unknown" rh) e ∧ audited s s' [e]
  end.
Proof.
  intros Hx. unfold token_exchange in Hx.
  apply M_bind_inv in Hx as [([] & s1 & Hg & Hx)|(e & Hg & ->)]; injection Hg as Hg <-; [|by left].
  apply fail_if_Ok, bool_decide_eq_false, dec_stable in Hg.
  apply M_bind_inv in Hx as [(aud & s1 & Ha & Hx)|(e & Ha & ->)]; injection Ha as Ha <-; [|by left].
  apply ok_or_Ok in Ha.
  apply M_bind_inv in Hx as [([i src] & s1 & Hc & Hx)|(e & Hc & ->)].
  2:{ apply authenticate_caller_audit in Hc as [?|(a & m & d & _ & ?)]; [by left|right].
      eexists. split; [by eexists _, _, _|done]. }
  apply authenticate_caller_Ok in Hc as [-> Hc]. cbn [fst snd] in Hc, Hx.
  apply M_bind_inv in Hx as [(al & s1 & Hl & Hx)|(e & Hl & ->)]; pose proof (on_limiter_silent _ _ _ _ _ Hl) as Hs1;
    [|by left].
  apply m_map_err_inv in Hl as (x & Hl & Hx0). destruct x as [al'|]; [|done]. injection Hx0 as <-.
  unfold on_limiter in Hl. destruct (RateLimit.limiter_allow _ _ _) as [x l'] eqn:Hlim. injection Hl as -> <-.
  destruct al; cbn [M_bind] in Hx.
  2:{ injection Hx as <- <-. right. eexists. split; [by eexists _, _, _|done]. }
  apply M_bind_inv in Hx as [([] & s1 & Hg1 & Hx)|(e & Hg1 & _)]; [|done]. injection Hg1 as <-.
  apply M_bind_inv in Hx as [(input & s1 & Hi & Hx)|(e & Hi & ->)]; injection Hi as Hi <-; [|by left].
  apply M_bind_inv in Hx as [(res & s1 & Hr & Hx)|(e & Hr & ->)]; unfold m_on_err in Hr;
    destruct (on_cache _ _) as [[res'|e'] s2] eqn:Hoc; pose proof (on_cache_silent _ _ _ _ Hoc) as Hs2; try done.
  2:{ injection Hr as <- <-. right. eexists. split; [by eexists _, _, _|].
      unfold audited. cbn. by rewrite Hs2. }
  injection Hr as -> ->. unfold on_cache in Hoc. cbn [cache] in Hoc.
  destruct (Resolver.resolve _ _ _ _ _) as [x c'] eqn:Hres. injection Hoc as -> <-.
  apply M_bind_inv in Hx as [(bs & s1 & Hsc & Hx)|(e & Hsc & ->)]; injection Hsc as Hsc <-; [|by left].
  apply M_bind_inv in Hx as [(ir & s1 & Hir & Hx)|(e & Hir & ->)]; injection Hir as Hir <-; [|by left].
  apply map_err_Ok in Hir.
  apply M_bind_inv in Hx as [(chain & s1 & Hch & Hx)|(e & Hch & ->)]; injection Hch as Hch <-; [|by left].
  injection Hx as <- <-. exists i, src, aud, res, bs.
  apply Token.issue_inv in Hir as Hij. destruct Hij as (_ & _ & Hjti). split.
  - split; cbn; try done; [|by eexists|by eexists|by eexists].
    destruct (grant_type form); cbn in Hg; [by subst|done].
  - unfold audited, success_event. cbn. by rewrite Hjti.
Qed.

(** A scoped request yields exactly what was asked; an unscoped one everything. *)
Lemma apply_scope_Ok raw final bs :
  apply_scope raw final = Ok bs →
  (∀ b, b ∈ bs → b ∈ final) ∧
  match raw ≫= parse_requested_billets with Some l => bs = l | None => bs = final end.
Proof.
  unfold apply_scope. destruct raw as [raw|]; cbn; [|by intros [= <-]].
  destruct (parse_requested_billets raw) as [l|]; cbn; [|by intros [= <-]].
  unfold Resolver.scope_billets. case_bool_decide as Hd; [|done]. intros [= <-]. cbn. split; [|done].
  intros b Hb. apply bool_filter_nil in Hd. rewrite Forall_forall in Hd. specialize (Hd b Hb).
  apply dec_stable in Hd. by apply elem_of_list_to_set in Hd.
Qed.

(** C27: every token exchange, successful or not, hands at most one event to the
    audit service: a success hands exactly the success event, naming the caller,
    the audience, the Cedar and implicit billets and the identifier of the issued
    token; a failure hands either one failure event or none. *)
Theorem token_exchange_audited app ts rh cert form s :
  let '(r, s') := token_exchange app ts rh cert form s in
  match r with
  | Ok resp => ∃ identity src audience resolution bs,
      exchange app ts cert form s s' identity audience resolution bs resp ∧
      audited s s' [success_event app ts (default "unknown" rh) identity src audience resolution]
  | Err _ => audited s s' [] ∨ ∃ e, failure_event ts (default "unknown" rh) e ∧ audited s s' [e]
  end.
Proof.
  destruct (token_exchange app ts rh cert form s) as [r s'] eqn:E. by apply exchange_steps in E.
Qed.

Context `{!CedarApi.CedarLaws} `{!Cache.CacheLaws C} `{!Token.JwtLaws}.

(* ------------------------------------------------------------------ *)
(** ** Entitlement *)

(** Who an identity is to Cedar: the type and identifier of its principal. *)
Definition kind_of (i : AuthenticatedIdentity) : string :=
  match i with
  | Spire _ => "Workload"
  | Oidc _ => "OidcIdentity"
  | AwsSts _ => "AwsRoleIdentity"
  | Gcp _ => "GcpIdentity"
  end.
Definition name_of (i : AuthenticatedIdentity) : string :=
  match i with
  | Spire i => spiffe_id i
  | Oidc i => oidc_email i
  | AwsSts i => role_arn i
  | Gcp i => gcp_email i
  end.

(** What Cedar may be told of it: for a workload also what the path patterns capture; for
    a human the claim values as [groups] and the claims by name. *)
Definition described_by (m : PathPattern.PathPatternMatcher) (i : AuthenticatedIdentity)
    (attrs : gmap string CedarApi.RestrictedExpression) : Prop :=
  match i with
  | Spire i =>
      attrs = (CedarApi.ExprString <$> PathPattern.extract m (spiffe_id i)) ∪
        {["spiffe_id" := CedarApi.ExprString (spiffe_id i); "trust_domain" := CedarApi.ExprString (trust_domain i)]}
  | Oidc i => ∃ groups named_claims,
      (∀ g, g ∈ groups ↔ ∃ k vs, claims i !! k = Some vs ∧ g ∈ vs) ∧
      (∀ c, c ∈ named_claims ↔ ∃ k vs v, claims i !! k = Some vs ∧ v ∈ vs ∧ c = k +:+ ":" +:+ v) ∧
      attrs = {["email" := CedarApi.ExprString (oidc_email i); "idp_prefix" := CedarApi.ExprString (idp_prefix i);
                "groups" := CedarApi.ExprSet groups; "subject" := CedarApi.ExprString (oidc_subject i);
                "subject_type" := CedarApi.ExprString "human"; "claims" := CedarApi.ExprSet named_claims]}
  | AwsSts i =>
      attrs = {["account_id" := CedarApi.ExprString (account_id i); "role_arn" := CedarApi.ExprString (role_arn i);
                "role_name" := CedarApi.ExprString (role_name i); "role_path" := CedarApi.ExprString (role_path i)]}
  | Gcp i =>
      attrs = {["project_id" := CedarApi.ExprString (project_id i); "email" := CedarApi.ExprString (gcp_email i);
                "zone" := CedarApi.ExprString (zone i)]}
  end.

(** The circumstances of its request. *)
Definition circumstances (i : AuthenticatedIdentity) (time : string) : Cedar.CommonContext :=
  match i with
  | Spire i => Cedar.mkContext (environment i) (region i) time "spire" "" []
  | Oidc _ => Cedar.mkContext "" "" time "oidc" "" []
  | AwsSts _ => Cedar.mkContext "" "" time "aws-sts" "aws" []
  | Gcp _ => Cedar.mkContext "" "" time "gcp" "gcp" []
  end.

(** The policies [ps], with the billets' [tags], let this very identity assume billet
    [b] at [time]: of the request with its principal, described as it is, some permit is
    satisfied and no forbid is. *)
Definition may_assume (app : AppState) (ps : CedarApi.PolicySet) (tags : string → list string) (time : string)
    (i : AuthenticatedIdentity) (b : string) : Prop :=
  ∃ u attrs e, Cedar.named (kind_of i) (name_of i) u ∧
    described_by (Resolver.path_pattern_matcher (resolver app)) i attrs ∧ CedarApi.entity_new u attrs = Ok e ∧
    Cedar.allows ps tags (kind_of i) (name_of i) [e] "assumeBillet" (Cedar.facts_of (circumstances i time)) b.

(** What stands in a cache slot: billets that policies of [J] let a caller with that slot,
    that is of that subject, assume. *)
Definition answer_for (app : AppState) (J : CedarApi.PolicySet → (string → list string) → Prop)
    (slot : string) (b : string) : Prop :=
  ∃ i aud ps tags time, Cache.cache_slot (C := C) (format_subject i) aud = slot ∧ J ps tags ∧ may_assume app ps tags time i b.

(** What a caller may hold: a billet justified by [G] outside the reserved
    prefixes, or one derived for tokens from the caller's own claims. *)
Definition entitled (app : AppState) (G : string → Prop) (identity : AuthenticatedIdentity) (b : string) : Prop :=
  (G b ∧ ¬ ∃ p rest, p ∈ Implicit.reserved_prefixes (implicit_billet_mapper app) ∧ b = p +:+ ":" +:+ rest) ∨
  b ∈ Implicit.token_billets (implicit_for app identity).

Lemma assembled_entitled app G identity cedar b :
  Forall G cedar →
  b ∈ Implicit.assemble_token_billets cedar (implicit_for app identity)
        (Implicit.reserved_prefixes (implicit_billet_mapper app)) →
  entitled app G identity b.
Proof.
  intros HG [[Hc Hr]|Ht]%Implicit.assemble_elem; [left|by right]. rewrite Forall_forall in HG.
  split; [by apply HG|]. by rewrite <-Implicit.has_reserved_prefix_spec, Hr.
Qed.

Lemma resolver_input_slot t i aud input : build_resolver_input t i (format_subject i) aud = Ok input →
  Resolver.spiffe_id input = format_subject i ∧ Resolver.audience input = aud.
Proof.
  unfold build_resolver_input. destruct i as [i|i|i|i]; cbn [Entity.build_principal].
  1: by intros [= <-].
  all: intros (e & _ & Hi)%bind_Ok; apply bind_Ok in Hi as (u & _ & [= <-]); done.
Qed.

Lemma entity_uid_named t n u : Entity.make_entity_uid t n = Ok u → Cedar.named t n u.
Proof. unfold Entity.make_entity_uid. rewrite bind_Ok. by intros (tn & Ht%map_err_Ok & [= <-]). Qed.

(** What is built of an identity describes it. *)
Lemma entity_describes m i p e u : Entity.build_principal i = Some p →
  Entity.build_cedar_entity p = Ok e → Entity.principal_entity_uid p = Ok u →
  Cedar.named (kind_of i) (name_of i) u ∧ ∃ attrs, described_by m i attrs ∧ CedarApi.entity_new u attrs = Ok e.
Proof.
  destruct i as [i|i|i|i]; [done|..]; intros [= <-];
    cbn [Entity.build_cedar_entity Entity.principal_entity_uid];
    unfold Entity.build_oidc_cedar_entity, Entity.build_aws_cedar_entity, Entity.build_gcp_cedar_entity;
    intros (u' & Hu' & He%map_err_Ok)%bind_Ok Hu; rewrite Hu in Hu'; injection Hu' as <-; apply entity_uid_named in Hu;
    (split; [exact Hu|]); eexists; (split; [|exact He]); cbn [described_by]; [|done..].
  destruct (Entity.oidc_entity_order_independent _ _ i) as (_ & Hg & Hc).
  exists (Entity.oe_groups (Entity.build_oidc_entity i)), (Entity.oe_claims (Entity.build_oidc_entity i)). done.
Qed.

(** The request Cedar is asked about is the caller's own. *)
Lemma request_of_caller app t i aud input rs req ps tags b :
  build_resolver_input t i (format_subject i) aud = Ok input →
  Resolver.build_request (resolver app) input rs = Ok req →
  Cedar.allows ps tags (Cedar.principal_type req) (Cedar.principal_id req) (Cedar.principal_entities req)
    (Cedar.action req) (Cedar.facts_of (Cedar.context req)) b →
  may_assume app ps tags (Resolver.to_rfc3339 (resolver app) t) i b.
Proof.
  intros Hi Hreq Hal.
  assert (∀ p, Entity.build_principal i = Some p → may_assume app ps tags (Resolver.to_rfc3339 (resolver app) t) i b) as Hp.
  { intros p Hp. destruct i as [i|i|i|i]; [done|..]; unfold build_resolver_input in Hi; rewrite Hp in Hi;
      apply bind_Ok in Hi as (e & He%map_err_Ok & Hi); apply bind_Ok in Hi as (u & Hu%map_err_Ok & [= <-]);
      injection Hreq as <-; cbn in Hal;
      destruct (entity_describes (Resolver.path_pattern_matcher (resolver app)) _ _ _ _ Hp He Hu) as (Hn & attrs & Hd & Hnew);
      exists u, attrs, e; pose proof Hn as [_ Hid]; rewrite Hid in Hal; done. }
  destruct i as [i|i|i|i]; [|by eapply Hp..]. injection Hi as <-.
  apply bind_Ok in Hreq as (es & Hes%map_err_Ok & [= <-]). cbn in Hes, Hal.
  apply bind_Ok in Hes as (u & Hu%Cedar.make_uid_named & Hes). apply bind_Ok in Hes as (e & He%map_err_Ok & [= <-]).
  by eexists u, _, e.
Qed.

(** What a resolution for a caller gives and leaves in the cache. *)
Lemma resolution_for app (a : Cedar.CedarAuthorizer (D := D)) (J : CedarApi.PolicySet → (string → list string) → Prop)
    t i aud input now wall c r c' :
  Resolver.authorizer (resolver app) = Cedar.batch_is_authorized_entity a →
  (∀ ps, Sync.policy_set_handle (Cedar.policy_sync a) = Some ps → J ps (Sync.billet_tags (Cedar.policy_sync a))) →
  Cache.cache_holds (λ k bs, Forall (answer_for app J k) bs) c →
  build_resolver_input t i (format_subject i) aud = Ok input →
  Resolver.resolve (resolver app) now wall input c = (r, c') →
  Cache.cache_holds (λ k bs, Forall (answer_for app J k) bs) c' ∧ ∀ res, r = Ok res →
    Forall (answer_for app J (Cache.cache_slot (C := C) (format_subject i) aud)) (Resolver.rbillets res) ∧
    ((∀ e c1, Cache.cache_get now (format_subject i) aud c ≠ (Ok (Some e), c1)) →
     Forall (λ b, ∃ ps, Sync.policy_set_handle (Cedar.policy_sync a) = Some ps ∧
       may_assume app ps (Sync.billet_tags (Cedar.policy_sync a)) (Resolver.to_rfc3339 (resolver app) t) i b)
       (Resolver.rbillets res)).
Proof.
  intros Ha HJ Hc Hi Hr. pose proof (resolver_input_slot _ _ _ _ Hi) as [Hs Hau].
  assert (∀ bs, Resolver.evaluate (resolver app) input = Ok bs →
    Forall (λ b, ∃ ps, Sync.policy_set_handle (Cedar.policy_sync a) = Some ps ∧
       may_assume app ps (Sync.billet_tags (Cedar.policy_sync a)) (Resolver.to_rfc3339 (resolver app) t) i b) bs) as Hev.
  { intros bs He. apply Forall_forall. intros b Hb.
    destruct (Resolver.evaluate_allows _ _ _ _ _ Ha He Hb) as (_ & ps & req & rs & Hps & Hreq & Hal).
    exists ps. split; [done|]. by eapply request_of_caller. }
  eapply Resolver.resolve_justified in Hr as [Hc' Hres]; [|clear Hc|exact Hc]; rewrite ?Hs, ?Hau in *; cbv beta.
  - split; [done|]. intros res Hr'. destruct (Hres res Hr') as [Hj Hn]. split; [done|]. intros Hm. by apply Hev, Hn.
  - intros bs He%Hev. eapply Forall_impl; [exact He|]. intros b (ps & Hps & Hm). exists i, aud, ps. by eexists _, _; split; [|split; [by apply HJ|]].
Qed.

(** Discovery answers with what resolution found for the caller, if it gets there. *)
Lemma discovery_steps app ts rh cert form s r s' :
  billet_discovery app ts rh cert form s = (r, s') →
  (∃ e, r = Err e ∧ cache s' = cache s) ∨
  ∃ i input x, authenticated app cert (d_subject_token form) (d_subject_token_type form) i ∧
    build_resolver_input (t_request ts) i (format_subject i) "" = Ok input ∧
    Resolver.resolve (resolver app) (t_cache ts) (t_wall ts) input (cache s) = (x, cache s') ∧ r = discovery_response app i x.
Proof.
  intros Hx. unfold billet_discovery in Hx. rewrite discovery_caller_same in Hx.
  apply M_bind_inv in Hx as [([i src] & s1 & Hcall & Hx)|(e & Hcall & ->)].
  2:{ left. exists e. split; [done|]. by eapply authenticate_caller_cache. }
  apply authenticate_caller_Ok in Hcall as [-> Hcall].
  apply M_bind_inv in Hx as [(al & s1 & Hl & Hx)|(e & Hl & ->)]; pose proof (on_limiter_cache _ _ _ _ _ Hl) as Hc1.
  2:{ left. by exists e. }
  apply M_bind_inv in Hx as [([] & s2 & Hal & Hx)|(e & He & ->)]; [|injection He as _ <-; left; by exists e].
  injection Hal as _ <-.
  apply M_bind_inv in Hx as [(input & s2 & Hi & Hx)|(e & He & ->)]; [|injection He as _ <-; left; by exists e].
  injection Hi as Hi <-. rewrite discovery_input_same in Hi.
  apply M_bind_inv in Hx as [(x & s2 & Hr & Hx)|(e & He & ->)];
    [|unfold attempt in He; by destruct (on_cache _ _)]. injection Hx as <- <-. right.
  unfold attempt, on_cache in Hr. rewrite Hc1 in Hr. destruct (Resolver.resolve _ _ _ _ _) as [y c'] eqn:Hres.
  injection Hr as <- <-. by exists i, input, y.
Qed.

Lemma discovery_runs app ts rh cert form s i l input :
  authenticated app cert (d_subject_token form) (d_subject_token_type form) i →
  RateLimit.limiter_allow (t_limit ts) (format_subject i) (rate_limiter s) = (Ok true, l) →
  build_resolver_input (t_request ts) i (format_subject i) "" = Ok input →
  (billet_discovery app ts rh cert form s).1 =
  discovery_response app i (Resolver.resolve (resolver app) (t_cache ts) (t_wall ts) input (cache s)).1.
Proof.
  intros Hcall Hl Hi. unfold billet_discovery. rewrite discovery_caller_same.
  destruct (authenticate_caller_of app ts (default "unknown" rh) "" _ _ _ s _ Hcall) as [src Hc].
  unfold_monad. rewrite Hc. cbn. unfold m_map_err, on_limiter. rewrite Hl. cbn. rewrite discovery_input_same, Hi. cbn.
  unfold attempt, on_cache. cbn. by destruct (Resolver.resolve _ _ _ _ _).
Qed.

(** C3: a token that an exchange returns is signed by the service for the caller
    that was authenticated (by the validator of the declared token type, or by its
    client certificate when there is no token): its subject names that caller, its
    audience is the requested one, and a request for specific billets yields exactly
    those.  Each of its billets is derived for tokens from the caller's own claims, or is
    outside the reserved prefixes and allowed by Cedar.  Allowed, if the cache had no live
    answer for subject and audience: by the policy set and the tags in force now, for a
    request whose principal is the caller, described as it was authenticated.  A cached
    answer was allowed so, by a policy set that was in force ([J]), to a caller with the
    same cache slot: the slot is the subject and the audience, and does not hold the
    claims.  The cache keeps only such answers. *)
Theorem token_exchange_sound app (a : Cedar.CedarAuthorizer (D := D)) (J : CedarApi.PolicySet → (string → list string) → Prop)
    ts rh cert form s s' resp dk :
  Resolver.authorizer (resolver app) = Cedar.batch_is_authorized_entity a →
  (∀ ps, Sync.policy_set_handle (Cedar.policy_sync a) = Some ps → J ps (Sync.billet_tags (Cedar.policy_sync a))) →
  Cache.cache_holds (λ k bs, Forall (answer_for app J k) bs) (cache s) →
  Token.key_pair (Token.encoding_key (Token.signing_manager (issuer app))) dk →
  token_exchange app ts rh cert form s = (Ok resp, s') →
  Cache.cache_holds (λ k bs, Forall (answer_for app J k) bs) (cache s') ∧
  ∃ identity c, authenticated app cert (subject_token form) (subject_token_type form) identity ∧
    Token.signed dk (access_token resp) c ∧
    Token.sub c = format_subject identity ∧ form_audience form = Some (Token.aud c) ∧
    Forall (entitled app (answer_for app J (Cache.cache_slot (C := C) (Token.sub c) (Token.aud c))) identity) (Token.billets c) ∧
    ((∀ e c', Cache.cache_get (t_cache ts) (Token.sub c) (Token.aud c) (cache s) ≠ (Ok (Some e), c')) →
     Forall (entitled app (λ b, ∃ ps, Sync.policy_set_handle (Cedar.policy_sync a) = Some ps ∧
       may_assume app ps (Sync.billet_tags (Cedar.policy_sync a))
         (Resolver.to_rfc3339 (resolver app) (t_request ts)) identity b) identity) (Token.billets c)) ∧
    (∀ l, form_billets form ≫= parse_requested_billets = Some l → Token.billets c = l).
Proof.
  intros Ha HJ Hc Hk (identity & src & aud & res & bs & Hex & _)%exchange_steps.
  destruct Hex as [_ Haud Hcall _ (input & Hi & Hres) Hsc (ir & Hir & Hat & _) _].
  destruct (resolution_for _ _ _ _ _ _ _ _ _ _ _ _ Ha HJ Hc Hi Hres) as [Hc' Hb].
  destruct (Hb res eq_refl) as [Hslot Hown]. split; [done|]. apply apply_scope_Ok in Hsc as [Hsub Hreq].
  apply Token.issue_inv in Hir as (Henc & _ & _). rewrite Hat. exists identity. eexists.
  split; [done|]. split; [by eapply Token.encode_signed|]. cbn. split_and!; [done|done| | |].
  - apply Forall_forall. intros b Hin. by eapply assembled_entitled, Hsub, Hin.
  - intros Hmiss. apply Forall_forall. intros b Hin. by eapply assembled_entitled, Hsub, Hin; apply Hown.
  - intros l Hl. by rewrite Hl in Hreq.
Qed.


End handler.

(* ------------------------------------------------------------------ *)
(** ** Witnesses *)

Import Demo Token.ToyJwt.
#[local] Existing Instance Resolver.no_regex.
#[local] Existing Instance RateLimit.InMemoryLimiter_Limiter.
#[local] Instance no_base64 : Base64Lib := λ _, Err "unsupported".

Definition demo_dispatcher : DefaultIdentityDispatcher :=
  mkDispatcher (Some (λ t, if bool_decide (t = "svid")
                           then Ok (mkSvidClaims "spiffe://td/app" "td" "" "" [] 0) else Err SvidExpired))
    None None None.

Definition demo_app : AppState (D := Demo.store) :=
  mkApp demo_dispatcher None Resolver.demo_resolver (Implicit.from_config []) toy_issuer
    (λ _, Err (CaNotReady "no CA")).

Definition demo_shared : Shared (C := Cache.Memory.InMemoryCache) (L := RateLimit.InMemoryLimiter) :=
  mkShared (RateLimit.new 10) Cache.Memory.new demo_audit.

Definition demo_instants : Instants := mkInstants 0 0 0 0 1000 0 "id-2".

Definition demo_form : TokenExchangeForm :=
  mkForm (Some GRANT_TYPE) (Some "svid") (Some TOKEN_TYPE_SPIRE) (Some "aud") None (Some " reader,reader ").

Definition demo_in_force (ps : CedarApi.PolicySet) (tags : string → list string) : Prop :=
  Sync.policy_set_handle (Cedar.policy_sync Cedar.demo_authorizer) = Some ps ∧
  tags = Sync.billet_tags (Cedar.policy_sync Cedar.demo_authorizer).

Lemma demo_handle ps : Sync.policy_set_handle (Cedar.policy_sync Cedar.demo_authorizer) = Some ps →
  demo_in_force ps (Sync.billet_tags (Cedar.policy_sync Cedar.demo_authorizer)).
Proof. intros Hps. exact (conj Hps eq_refl). Qed.

Lemma demo_cache_holds : Cache.cache_holds (λ k bs, Forall (answer_for demo_app demo_in_force k) bs) (cache demo_shared).
Proof. exact (map_Forall_empty _). Qed.

Lemma demo_miss now sub aud e c' : Cache.cache_get now sub aud (cache demo_shared) ≠ (Ok (Some e), c').
Proof. cbn. unfold Cache.Memory.get, Cache.Memory.get_read, Cache.Memory.new. by rewrite lookup_empty. Qed.

Lemma demo_key_pair :
  Token.key_pair (Token.encoding_key (Token.signing_manager (issuer demo_app))) (tt : Token.DecodingKey).
Proof. exact I. Qed.

Lemma run_fst {A B} (p : A * B) (a : A) : p.1 = a → p = (a, p.2).
Proof. intros <-. apply surjective_pairing. Qed.

Lemma demo_exchange_token :
  (token_exchange demo_app demo_instants None None demo_form demo_shared).1 =
  Ok (mkTokenResponse "h.q.s" "urn:ietf:params:oauth:token-type:jwt" "Bearer" 900 None).
Proof. vm_compute. reflexivity. Qed.

Lemma demo_exchange_run :
  token_exchange demo_app demo_instants None None demo_form demo_shared =
  (Ok (mkTokenResponse "h.q.s" "urn:ietf:params:oauth:token-type:jwt" "Bearer" 900 None),
   (token_exchange demo_app demo_instants None None demo_form demo_shared).2).
Proof. exact (run_fst _ _ demo_exchange_token). Qed.

Definition demo_own (identity : AuthenticatedIdentity) (b : string) : Prop :=
  ∃ ps, Sync.policy_set_handle (Cedar.policy_sync Cedar.demo_authorizer) = Some ps ∧
    may_assume demo_app ps (Sync.billet_tags (Cedar.policy_sync Cedar.demo_authorizer)) "t" identity b.

Lemma token_exchange_sound_witness :
  ∃ identity c, authenticated demo_app None (Some "svid") (Some TOKEN_TYPE_SPIRE) identity ∧
    Token.signed tt "h.q.s" c ∧ Token.billets c = ["reader"] ∧ Forall (entitled demo_app (demo_own identity) identity) (Token.billets c).
Proof.
  destruct (token_exchange_sound demo_app Cedar.demo_authorizer demo_in_force demo_instants None None demo_form
    demo_shared _ _ tt eq_refl demo_handle demo_cache_holds demo_key_pair
    demo_exchange_run) as (_ & identity & c & Hauth & Hs & _ & _ & _ & Hown & Hb).
  exists identity, c. split; [exact Hauth|]. split; [exact Hs|]. split.
  - apply Hb. vm_compute. reflexivity.
  - apply Hown. intros e c'. apply demo_miss.
Defined.

Lemma demo_discovery_run :
  billet_discovery demo_app demo_instants None None (mkDiscoveryForm (Some "svid") (Some TOKEN_TYPE_SPIRE))
    demo_shared =
  (Ok (mkDiscoveryResponse ["reader"] [] ["reader"]),
   (billet_discovery demo_app demo_instants None None (mkDiscoveryForm (Some "svid") (Some TOKEN_TYPE_SPIRE))
      demo_shared).2).
Proof.
  refine (run_fst _ _ _). vm_compute. reflexivity.
Qed.


(** A caller that is authenticated but asks for a billet it does not hold is
    refused without any audit event, although the exchange failed. *)
Lemma scope_denied_not_audited :
  match token_exchange demo_app demo_instants None None
          (mkForm (Some GRANT_TYPE) (Some "svid") (Some TOKEN_TYPE_SPIRE) (Some "aud") None (Some "writer"))
          demo_shared with
  | (Err e, s') => err_code e = InsufficientScope ∧ AuditLog.queue (audit_service s') = []
  | (Ok _, _) => False
  end.
Proof. vm_compute. done. Qed.

(* ------------------------------------------------------------------ *)
(** ** The cache does not see the claims *)

Section claims.
Context `{CedarApi.CedarLib} `{PathPattern.RegexLib} `{HashIter} {D : Type} `{DataStore.DataStore D}.

(** An answer is found again under the subject and the audience alone: a human with the
    same e-mail address, but whom another identity provider vouches for or who has other
    claims, is given the billets that were resolved for the first, whatever the policies
    say of the second, until the entry expires. *)
Lemma cached_for_other_claims (rv rv' : Resolver.BilletResolverImpl (D := D)) (alice alice' : OidcIdentity) aud t t' input input'
    now wall now' wall' (c c' : Cache.Memory.InMemoryCache) res :
  oidc_email alice = oidc_email alice' →
  build_resolver_input t (Oidc alice) (format_subject (Oidc alice)) aud = Ok input →
  build_resolver_input t' (Oidc alice') (format_subject (Oidc alice')) aud = Ok input' →
  Resolver.resolve rv now wall input c = (Ok res, c') → Resolver.cache_hit res = false →
  (now' < now + Resolver.cache_ttl rv)%Z →
  (Resolver.resolve rv' now' wall' input' c').1 = Ok (Resolver.mkResolution (Resolver.rbillets res) true).
Proof.
  intros Hemail [Hs Ha]%resolver_input_slot [Hs' Ha']%resolver_input_slot Hr Hfresh Hnow.
  cbn [format_subject] in Hs, Hs'. rewrite <-Hemail in Hs'.
  apply Resolver.resolve_cases in Hr as [(e & _ & [= ->])|(x & c1 & _ & _ & Hr)]; [done|].
  destruct (Resolver.evaluate rv input) as [bs|e]; destruct Hr as [[= ->] ->].
  unfold Resolver.resolve, Resolver.try_get. unfold_monad. cbn. rewrite Hs, Ha, Hs', Ha'.
  unfold Cache.Memory.get, Cache.Memory.get_read. rewrite lookup_insert_eq. unfold Cache.Memory.is_expired. cbn.
  rewrite (proj2 (Z.leb_gt _ _)) by done. done.
Qed.
End claims.

End TokenHandler.
