(* ===== verification/AdminHandlers.v ===== *)
(** * The administration API ([src/src/handler/admin_billets.rs])

    The ten [/admin] handlers over the store and the audit service.  Path
    parameters, bodies and the two headers arrive parsed; a header that is absent
    or not visible ASCII is [None]. *)

From S2P Require Import Prelude Errors IdentityConfig Implicit DataStore LocalStore CedarApi AuditLog Demo.
From S2P Require Import Tags PolicyCrud BilletCrud Sync Cedar Token AdminAuth.

Module AdminHandlers.
Import Errors DataStore.

(** The crates that read the payload of a token for the audit record. *)
Class PayloadLib := {
  base64_url_decode : string → result string string;
  json_from_slice : string → result string json
}.

Record CreateBilletRequest : Type := mkCreateBillet {
  cb_name : string;
  cb_description : string;
  cb_associated_aws_roles : list string;
  cb_associated_gcp_sas : list string;
  cb_tags : list string
}.

Record UpdateBilletRequest : Type := mkUpdateBillet {
  ub_description : option string;
  ub_associated_aws_roles : option (list string);
  ub_associated_gcp_sas : option (list string);
  ub_tags : option (list string)
}.

Record AdminBilletMetadataResponse : Type := mkBilletMetadata {
  am_name : string;
  am_description : string;
  am_associated_aws_roles : list string;
  am_associated_gcp_sas : list string;
  am_tags : list string;
  am_updated_at : string
}.

(** The bodies of policy creation and update have the same fields. *)
Record PolicyRequest : Type := mkPolicyRequest { pr_statement : string; pr_description : string }.

Record PolicyResponse : Type := mkPolicyResponse {
  pp_id : string;
  pp_statement : string;
  pp_description : string
}.

Definition map_auth_error (err : AdminAuth.AdminAuthError) : DomainError :=
  match err with
  | AdminAuth.MissingCredentials => invalid_token "missing or malformed credentials"
  | AdminAuth.InvalidToken msg => invalid_token msg
  | AdminAuth.TokenExpired => invalid_token "token expired"
  | AdminAuth.InsufficientPrivileges => insufficient_scope "insufficient privileges"
  end.

Definition map_billet_error (err : BilletCrud.BilletCrudError) : DomainError :=
  match err with
  | BilletCrud.NameEmpty => invalid_request "billet name must not be empty"
  | BilletCrud.InvalidTags msg => invalid_request msg
  | BilletCrud.AlreadyExists name => conflict ("billet '" +:+ name +:+ "' already exists")
  | BilletCrud.NotFound name => not_found ("billet '" +:+ name +:+ "' not found")
  | BilletCrud.ProtectedBillet name =>
      insufficient_scope ("billet '" +:+ name +:+ "' is protected and cannot be deleted")
  | BilletCrud.InternalError msg => service_unavailable msg
  end.

Definition map_policy_error (err : PolicyCrud.PolicyCrudError) : DomainError :=
  match err with
  | PolicyCrud.InvalidStatement msg => invalid_request ("invalid Cedar statement: " +:+ msg)
  | PolicyCrud.InvalidResourceScope msg => invalid_request ("invalid resource scope: " +:+ msg)
  | PolicyCrud.BilletNotFound name => not_found ("billet '" +:+ name +:+ "' not found")
  | PolicyCrud.NotFound id => not_found ("policy '" +:+ id +:+ "' not found")
  | PolicyCrud.InternalError msg => service_unavailable msg
  end.

(** The first dot-separated piece after the header. *)
Definition extract_admin_subject `{PayloadLib} (auth_header : string) : string :=
  default "unknown" (
    token ← Str.strip_prefix "Bearer " auth_header;
    payload ← Str.split "." token !! 1;
    decoded ← match base64_url_decode payload with Ok d => Some d | Err _ => None end;
    claims ← match json_from_slice decoded with Ok c => Some c | Err _ => None end;
    json_get "sub" claims ≫= json_as_str).

Section handlers.
Context `{CedarApi.CedarLib} `{PayloadLib} `{HashIter} {D : Type} `{DataStore D}.

(** What the handlers read of [AppState], and the parts they change. *)
Record AdminApp : Type := mkAdminApp {
  admin_authenticator : string → string → string → result AdminAuth.AdminAuthError string;
  implicit_billet_mapper : Implicit.ImplicitBilletMapper;
  system_billets : list string
}.

Record AdminState : Type := mkAdminState { data_store : D; audit_service : AuditLog.AuditService }.

(** The headers of a request, the instants of its clock readings and the fresh
    policy identifier. *)
Record Req : Type := mkReq {
  x_request_id : option string;
  authorization : option string;
  t_now : string;
  t_audit : Z;
  uuid : string
}.

Definition on_store {E A} (m : M D E A) : M AdminState E A :=
  λ s, match m (data_store s) with (r, d) => (r, mkAdminState d (audit_service s)) end.
Definition emit {E} (e : AuditLog.AuditEnvelope) : M AdminState E unit :=
  modify_st (λ s, mkAdminState (data_store s) (AuditLog.emit e (audit_service s)).2).

Definition extract_request_id (q : Req) : string := default "unknown" (x_request_id q).

Definition extract_auth_header (q : Req) : result DomainError string :=
  ok_or (invalid_token "missing Authorization header") (authorization q).

(** The event of an operation: its type comes from [event_action], its details
    name the operation, its target and the policy statement. *)
Definition operation_event (q : Req) (auth_header event_action action target : string)
    (statement : option string) (o : AuditLog.Outcome) (err : option string) : AuditLog.AuditEnvelope :=
  AuditLog.admin_operation (t_audit q) (extract_request_id q)
    (AuditLog.mkActor (extract_admin_subject auth_header) "admin") event_action target o err
    (AuditLog.AdminOperationDetails_json (AuditLog.mkAdminOperationDetails action target statement)).

(** [if let Err(ref e) = authenticate(..) { emit(..); return Err(..) }] *)
Definition authenticate_audited (app : AdminApp) (q : Req) (auth_header action resource target : string)
    (statement : option string) : M AdminState DomainError unit :=
  match admin_authenticator app auth_header action resource with
  | Ok _ => mret tt
  | Err e =>
      _ ← emit (operation_event q auth_header "authFailure" action target statement AuditLog.Failure
             (Some (AdminAuth.AdminAuthError_fmt e)));
      throw (map_auth_error e)
  end.

(** [authenticate(..).await.map_err(map_auth_error)?] *)
Definition authenticate_plain (app : AdminApp) (auth_header action resource : string) :
    M AdminState DomainError unit :=
  _ ← lift_res (map_err map_auth_error (admin_authenticator app auth_header action resource));
  mret tt.

Definition emit_success (q : Req) (auth_header action target : string) (statement : option string) :
    M AdminState DomainError unit :=
  emit (operation_event q auth_header action action target statement AuditLog.Success None).

(** The loop over the reserved prefixes, in hash order. *)
Fixpoint check_reserved (name : string) (prefixes : list string) : result DomainError unit :=
  match prefixes with
  | [] => Ok tt
  | prefix :: prefixes' =>
      if Str.starts_with (prefix +:+ ":") name
      then Err (invalid_request ("billet name '" +:+ name +:+ "' uses reserved implicit prefix '" +:+
                                 prefix +:+ "'"))
      else check_reserved name prefixes'
  end.

Definition metadata_response (b : BilletRecord) : AdminBilletMetadataResponse :=
  mkBilletMetadata (name b) (description b) (associated_aws_roles b) (associated_gcp_sas b) (tags b)
    (updated_at b).

(** Handlers return the status with the body. *)
Definition create_billet (app : AdminApp) (q : Req) (body : CreateBilletRequest) :
    M AdminState DomainError (Z * AdminBilletMetadataResponse) :=
  auth_header ← lift_res (extract_auth_header q);
  _ ← authenticate_audited app q auth_header "createBillet" (cb_name body) (cb_name body) None;
  _ ← lift_res (check_reserved (cb_name body)
        (hash_iter (elements (Implicit.reserved_prefixes (implicit_billet_mapper app)))));
  metadata ← m_map_err map_billet_error (on_store
    (BilletCrud.create (t_now q) (cb_name body) (cb_description body) (cb_associated_aws_roles body)
       (cb_associated_gcp_sas body) (cb_tags body)));
  _ ← emit_success q auth_header "createBillet" (name metadata) None;
  mret (201%Z, metadata_response metadata).

Definition list_billets (app : AdminApp) (q : Req) :
    M AdminState DomainError (Z * list BilletCrud.BilletListItem) :=
  auth_header ← lift_res (extract_auth_header q);
  _ ← authenticate_plain app auth_header "listBillets" "billets";
  items ← m_map_err map_billet_error (on_store BilletCrud.list_);
  mret (200%Z, items).

Definition get_billet (app : AdminApp) (q : Req) (n : string) :
    M AdminState DomainError (Z * BilletCrud.BilletWithPolicies) :=
  auth_header ← lift_res (extract_auth_header q);
  _ ← authenticate_plain app auth_header "readBillet" n;
  billet_with_policies ← m_map_err map_billet_error (on_store (BilletCrud.get_with_policies n));
  mret (200%Z, billet_with_policies).

Definition update_billet (app : AdminApp) (q : Req) (n : string) (body : UpdateBilletRequest) :
    M AdminState DomainError (Z * AdminBilletMetadataResponse) :=
  auth_header ← lift_res (extract_auth_header q);
  _ ← authenticate_audited app q auth_header "updateBillet" n n None;
  metadata ← m_map_err map_billet_error (on_store
    (BilletCrud.update (t_now q) n (ub_description body) (ub_associated_aws_roles body)
       (ub_associated_gcp_sas body) (ub_tags body)));
  _ ← emit_success q auth_header "updateBillet" n None;
  mret (200%Z, metadata_response metadata).

Definition delete_billet (app : AdminApp) (q : Req) (n : string) : M AdminState DomainError (Z * unit) :=
  auth_header ← lift_res (extract_auth_header q);
  _ ← authenticate_audited app q auth_header "deleteBillet" n n None;
  _ ← m_map_err map_billet_error (on_store (BilletCrud.delete_cascade n));
  _ ← emit_success q auth_header "deleteBillet" n None;
  mret (204%Z, tt).

Definition create_policy (app : AdminApp) (q : Req) (n : string) (body : PolicyRequest) :
    M AdminState DomainError (Z * PolicyResponse) :=
  auth_header ← lift_res (extract_auth_header q);
  _ ← authenticate_audited app q auth_header "createPolicy" n n (Some (pr_statement body));
  result ← m_map_err map_policy_error (on_store
    (PolicyCrud.create (system_billets app) (uuid q) (t_now q) n (pr_statement body) (pr_description body)));
  let target := n +:+ "/" +:+ PolicyCrud.cr_policy_id result in
  _ ← emit_success q auth_header "createPolicy" target (Some (pr_statement body));
  mret (201%Z, mkPolicyResponse (PolicyCrud.cr_policy_id result) (PolicyCrud.cr_statement result)
                 (PolicyCrud.cr_description result)).

Definition policy_response (r : PolicyRecord) : PolicyResponse :=
  mkPolicyResponse (policy_id r) (statement r) (pdescription r).

Definition list_policies (app : AdminApp) (q : Req) (n : string) :
    M AdminState DomainError (Z * list PolicyResponse) :=
  auth_header ← lift_res (extract_auth_header q);
  _ ← authenticate_plain app auth_header "readBillet" n;
  records ← m_map_err map_policy_error (on_store (PolicyCrud.list_for_billet n));
  mret (200%Z, policy_response <$> records).

Definition get_policy (app : AdminApp) (q : Req) (n id : string) :
    M AdminState DomainError (Z * PolicyResponse) :=
  auth_header ← lift_res (extract_auth_header q);
  _ ← authenticate_plain app auth_header "readBillet" n;
  record ← m_map_err map_policy_error (on_store (PolicyCrud.get n id));
  mret (200%Z, policy_response record).

Definition update_policy (app : AdminApp) (q : Req) (n id : string) (body : PolicyRequest) :
    M AdminState DomainError (Z * PolicyResponse) :=
  auth_header ← lift_res (extract_auth_header q);
  _ ← authenticate_audited app q auth_header "updatePolicy" n (n +:+ "/" +:+ id) (Some (pr_statement body));
  record ← m_map_err map_policy_error (on_store
    (PolicyCrud.update (system_billets app) (t_now q) n id (pr_statement body) (pr_description body)));
  let target := n +:+ "/" +:+ id in
  _ ← emit_success q auth_header "updatePolicy" target (Some (pr_statement body));
  mret (200%Z, policy_response record).

Definition delete_policy (app : AdminApp) (q : Req) (n id : string) : M AdminState DomainError (Z * unit) :=
  auth_header ← lift_res (extract_auth_header q);
  _ ← authenticate_audited app q auth_header "deletePolicy" n (n +:+ "/" +:+ id) None;
  _ ← m_map_err map_policy_error (on_store (PolicyCrud.delete n id));
  let target := n +:+ "/" +:+ id in
  _ ← emit_success q auth_header "deletePolicy" target None;
  mret (204%Z, tt).

(* ------------------------------------------------------------------ *)
(** ** All requests *)

Inductive admin_request : Type :=
| CreateBillet (body : CreateBilletRequest)
| ListBillets
| GetBillet (n : string)
| UpdateBillet (n : string) (body : UpdateBilletRequest)
| DeleteBillet (n : string)
| CreatePolicy (n : string) (body : PolicyRequest)
| ListPolicies (n : string)
| GetPolicy (n id : string)
| UpdatePolicy (n id : string) (body : PolicyRequest)
| DeletePolicy (n id : string).

(** The router: the status of the answer. *)
Definition handle (app : AdminApp) (q : Req) (rq : admin_request) : M AdminState DomainError Z :=
  match rq with
  | CreateBillet body => r ← create_billet app q body; mret r.1
  | ListBillets => r ← list_billets app q; mret r.1
  | GetBillet n => r ← get_billet app q n; mret r.1
  | UpdateBillet n body => r ← update_billet app q n body; mret r.1
  | DeleteBillet n => r ← delete_billet app q n; mret r.1
  | CreatePolicy n body => r ← create_policy app q n body; mret r.1
  | ListPolicies n => r ← list_policies app q n; mret r.1
  | GetPolicy n id => r ← get_policy app q n id; mret r.1
  | UpdatePolicy n id body => r ← update_policy app q n id body; mret r.1
  | DeletePolicy n id => r ← delete_policy app q n id; mret r.1
  end.

(** The action and the billet a request needs authorization for. *)
Definition action_of (rq : admin_request) : string :=
  match rq with
  | CreateBillet _ => "createBillet" | ListBillets => "listBillets" | GetBillet _ => "readBillet"
  | UpdateBillet _ _ => "updateBillet" | DeleteBillet _ => "deleteBillet"
  | CreatePolicy _ _ => "createPolicy" | ListPolicies _ => "readBillet" | GetPolicy _ _ => "readBillet"
  | UpdatePolicy _ _ _ => "updatePolicy" | DeletePolicy _ _ => "deletePolicy"
  end.
Definition resource_of (rq : admin_request) : string :=
  match rq with
  | CreateBillet body => cb_name body | ListBillets => "billets"
  | GetBillet n | UpdateBillet n _ | DeleteBillet n | CreatePolicy n _ | ListPolicies n | GetPolicy n _
  | UpdatePolicy n _ _ | DeletePolicy n _ => n
  end.
Definition is_write (rq : admin_request) : bool :=
  match rq with ListBillets | GetBillet _ | ListPolicies _ | GetPolicy _ _ => false | _ => true end.

(** The operation on the store behind a request. *)
Definition op_of (q : Req) (rq : admin_request) : BilletCrud.admin_op :=
  match rq with
  | CreateBillet b => BilletCrud.OnBillet (BilletCrud.BCreate (t_now q) (cb_name b) (cb_description b)
      (cb_associated_aws_roles b) (cb_associated_gcp_sas b) (cb_tags b))
  | ListBillets => BilletCrud.OnBillet BilletCrud.BList
  | GetBillet n => BilletCrud.OnBillet (BilletCrud.BGetWithPolicies n)
  | UpdateBillet n b => BilletCrud.OnBillet (BilletCrud.BUpdate (t_now q) n (ub_description b)
      (ub_associated_aws_roles b) (ub_associated_gcp_sas b) (ub_tags b))
  | DeleteBillet n => BilletCrud.OnBillet (BilletCrud.BDeleteCascade n)
  | CreatePolicy n b => BilletCrud.OnPolicy (PolicyCrud.PCreate (uuid q) (t_now q) n (pr_statement b) (pr_description b))
  | ListPolicies n => BilletCrud.OnPolicy (PolicyCrud.PList n)
  | GetPolicy n id => BilletCrud.OnPolicy (PolicyCrud.PGet n id)
  | UpdatePolicy n id b => BilletCrud.OnPolicy (PolicyCrud.PUpdate (t_now q) n id (pr_statement b) (pr_description b))
  | DeletePolicy n id => BilletCrud.OnPolicy (PolicyCrud.PDelete n id)
  end.

(** The policy statement recorded with a request. *)
Definition statement_of (rq : admin_request) : option string :=
  match rq with
  | CreatePolicy _ b | UpdatePolicy _ _ b => Some (pr_statement b)
  | _ => None
  end.

(** A created billet's name begins with a reserved prefix. *)
Definition uses_reserved (app : AdminApp) (n : string) : bool :=
  Implicit.has_reserved_prefix (Implicit.reserved_prefixes (implicit_billet_mapper app)) n.
Definition refused_name (app : AdminApp) (rq : admin_request) : bool :=
  match rq with CreateBillet b => uses_reserved app (cb_name b) | _ => false end.

(* ------------------------------------------------------------------ *)
(** ** Lemmas *)

Lemma check_reserved_Ok n ps u :
  check_reserved n ps = Ok u ↔ existsb (λ p, Str.starts_with (p +:+ ":") n) ps = false.
Proof.
  induction ps as [|p ps IH]; cbn; [by destruct u|]. destruct (Str.starts_with _ n); [done|exact IH].
Qed.

Lemma existsb_hash_iter {A} (f : A → bool) (l : list A) : existsb f (hash_iter l) = existsb f l.
Proof.
  apply eq_true_iff_eq. rewrite !existsb_exists. setoid_rewrite <-list_elem_of_In.
  by setoid_rewrite elem_of_hash_iter.
Qed.

Lemma check_reserved_spec app n :
  check_reserved n (hash_iter (elements (Implicit.reserved_prefixes (implicit_billet_mapper app)))) = Ok tt
  ↔ uses_reserved app n = false.
Proof. rewrite check_reserved_Ok, existsb_hash_iter. done. Qed.

Lemma check_reserved_Err n ps e : check_reserved n ps = Err e → err_code e = InvalidRequest.
Proof. induction ps as [|p ps IH]; cbn; [done|]. destruct (Str.starts_with _ n); [by intros [= <-]|exact IH]. Qed.

(** A write after authentication: the store operation, then the event if it
    succeeded. *)
Lemma write_tail {E A B} (m : M D E A) (g : E → DomainError) q h act (tg : A → string) stm (f : A → B) s r s' :
  (m_map_err g (on_store m) ≫= λ x, emit_success q h act (tg x) stm ≫= λ _, mret (f x)) s = (r, s') →
  data_store s' = (m (data_store s)).2 ∧
  if is_ok r
  then ∃ tgt, audit_service s' =
         (AuditLog.emit (operation_event q h act act tgt stm AuditLog.Success None) (audit_service s)).2
  else audit_service s' = audit_service s.
Proof.
  unfold emit_success, emit, on_store. unfold_monad.
  destruct (m (data_store s)) as [[x|e] d]; cbn; intros [= <- <-]; [|done]. split; [done|]. by exists (tg x).
Qed.

Lemma read_tail {E A B} (m : M D E A) (g : E → DomainError) (f : A → B) s r s' :
  (m_map_err g (on_store m) ≫= λ x, mret (f x)) s = (r, s') →
  data_store s' = (m (data_store s)).2 ∧ audit_service s' = audit_service s ∧
  match (m (data_store s)).1 with Ok x => r = Ok (f x) | Err e => r = Err (g e) end.
Proof.
  unfold on_store. unfold_monad. destruct (m (data_store s)) as [[x|e] d]; cbn; by intros [= <- <-].
Qed.

(** The status of a handler is the handler's, with its effects. *)
Lemma status_inv {A} (m : M AdminState DomainError (Z * A)) s r s' :
  (m ≫= λ x, mret x.1) s = (r, s') → ∃ y, m s = (y, s') ∧ r = (match y with Ok x => Ok x.1 | Err e => Err e end).
Proof. unfold_monad. destruct (m s) as [[x|e] s1]; intros [= <- <-]; eauto. Qed.

(** How a request with an accepted header ends. *)
Definition answered (app : AdminApp) (q : Req) (h : string) (rq : admin_request) (s : AdminState)
    (r : result DomainError Z) (s' : AdminState) : Prop :=
  data_store s' = BilletCrud.admin_exec (system_billets app) (op_of q rq) (data_store s) ∧
  (if is_write rq && is_ok r
   then ∃ tgt, audit_service s' = (AuditLog.emit (operation_event q h (action_of rq) (action_of rq) tgt
                 (statement_of rq) AuditLog.Success None) (audit_service s)).2
   else audit_service s' = audit_service s).

Definition rejected (q : Req) (h : string) (rq : admin_request) (e : AdminAuth.AdminAuthError) (s : AdminState)
    (r : result DomainError Z) (s' : AdminState) : Prop :=
  r = Err (map_auth_error e) ∧ data_store s' = data_store s ∧
  (if is_write rq
   then ∃ tgt, audit_service s' = (AuditLog.emit (operation_event q h "authFailure" (action_of rq) tgt
                 (statement_of rq) AuditLog.Failure (Some (AdminAuth.AdminAuthError_fmt e))) (audit_service s)).2
   else audit_service s' = audit_service s).

Lemma bind_done {S E A B} (m : M S E A) (k : A → M S E B) s a s1 :
  m s = (Ok a, s1) → (m ≫= k) s = k a s1.
Proof. unfold mbind, M_bind. by intros ->. Qed.

Lemma bind_fail {S E A B} (m : M S E A) (k : A → M S E B) s e s1 :
  m s = (Err e, s1) → (m ≫= k) s = (Err e, s1).
Proof. unfold mbind, M_bind. by intros ->. Qed.

Lemma header_done q h (s : AdminState) :
  authorization q = Some h → lift_res (S := AdminState) (extract_auth_header q) s = (Ok h, s).
Proof. unfold lift_res, extract_auth_header. by intros ->. Qed.

Lemma audited_done app q h act res tgt stm who s :
  admin_authenticator app h act res = Ok who → authenticate_audited app q h act res tgt stm s = (Ok tt, s).
Proof. unfold authenticate_audited. by intros ->. Qed.

Lemma plain_done app h act res who s :
  admin_authenticator app h act res = Ok who → authenticate_plain app h act res s = (Ok tt, s).
Proof. unfold authenticate_plain. unfold_monad. by intros ->. Qed.

Lemma audited_fail app q h act res tgt stm e s :
  admin_authenticator app h act res = Err e →
  authenticate_audited app q h act res tgt stm s =
  (Err (map_auth_error e), mkAdminState (data_store s) (AuditLog.emit (operation_event q h "authFailure" act tgt stm
     AuditLog.Failure (Some (AdminAuth.AdminAuthError_fmt e))) (audit_service s)).2).
Proof. unfold authenticate_audited. by intros ->. Qed.

Lemma plain_fail app h act res e s :
  admin_authenticator app h act res = Err e → authenticate_plain app h act res s = (Err (map_auth_error e), s).
Proof. unfold authenticate_plain. unfold_monad. by intros ->. Qed.

Ltac unfold_handler H :=
  unfold create_billet, list_billets, get_billet, update_billet, delete_billet, create_policy,
    list_policies, get_policy, update_policy, delete_policy in H.

Lemma rejected_case app q h rq e s r s' :
  authorization q = Some h → admin_authenticator app h (action_of rq) (resource_of rq) = Err e →
  handle app q rq s = (r, s') → rejected q h rq e s r s'.
Proof.
  intros Hh Ha Hx. unfold rejected. destruct rq; apply status_inv in Hx as (y & Hy & ->); unfold_handler Hy;
    rewrite (bind_done _ _ _ _ _ (header_done q h s Hh)) in Hy;
    first [rewrite (bind_fail _ _ _ _ _ (audited_fail app q h _ _ _ _ e s Ha)) in Hy
          |rewrite (bind_fail _ _ _ _ _ (plain_fail app h _ _ e s Ha)) in Hy];
    injection Hy as <- <-; split_and!; try done; by eexists.
Qed.

Lemma no_header_case app q rq s r s' :
  authorization q = None → handle app q rq s = (r, s') →
  s' = s ∧ r = Err (invalid_token "missing Authorization header").
Proof.
  intros Hh Hx. destruct rq; apply status_inv in Hx as (y & Hy & ->); unfold_handler Hy;
    erewrite bind_fail in Hy by (unfold lift_res, extract_auth_header; by rewrite Hh);
    by injection Hy as <- <-.
Qed.

Lemma answered_case app q h rq who s r s' :
  authorization q = Some h → admin_authenticator app h (action_of rq) (resource_of rq) = Ok who →
  handle app q rq s = (r, s') →
  if refused_name app rq then s' = s ∧ ∃ e, r = Err e ∧ err_code e = InvalidRequest
  else answered app q h rq s r s'.
Proof.
  intros Hh Ha Hx. unfold answered. destruct rq; apply status_inv in Hx as (y & Hy & ->); unfold_handler Hy;
    rewrite (bind_done _ _ _ _ _ (header_done q h s Hh)) in Hy;
    first [rewrite (bind_done _ _ _ _ _ (audited_done app q h _ _ _ _ who s Ha)) in Hy
          |rewrite (bind_done _ _ _ _ _ (plain_done app h _ _ who s Ha)) in Hy].
  { cbn [refused_name]. pose proof (check_reserved_spec app (cb_name body)) as Hr.
    destruct (check_reserved _ _) as [[]|e] eqn:Hc in Hr, Hy.
    - rewrite (proj1 Hr eq_refl). erewrite bind_done in Hy by done.
      apply write_tail in Hy as [Hs Ht]. split; [done|]. by destruct y.
    - erewrite bind_fail in Hy by done. injection Hy as <- <-.
      destruct (uses_reserved app (cb_name body)) eqn:Hu.
      + split; [done|]. eexists. split; [done|]. by eapply check_reserved_Err.
      + pose proof (proj2 Hr eq_refl). done. }
  all: cbn [refused_name].
  all: first [apply write_tail in Hy as [Hs Ht]; split; [exact Hs|by destruct y]
             |apply read_tail in Hy as (Hs & Ht & _); split; [exact Hs|exact Ht]].
Qed.

(** C4: the administration API protects the store: a request without an
    Authorization header, or one whose header does not authenticate for the
    request's action on the request's billet, leaves the store as it is and is
    answered with 401 or 403; and if the answer is a success the header did
    authenticate for exactly that. *)
Theorem admin_api_protected app q rq s :
  let '(r, s') := handle app q rq s in
  (∀ status, r = Ok status → ∃ h who, authorization q = Some h ∧
     admin_authenticator app h (action_of rq) (resource_of rq) = Ok who) ∧
  ((∀ h who, authorization q = Some h → admin_authenticator app h (action_of rq) (resource_of rq) ≠ Ok who) →
     data_store s' = data_store s ∧ ∃ e, r = Err e ∧ status_code (err_code e) ∈ [401%Z; 403%Z]).
Proof.
  destruct (handle app q rq s) as [r s'] eqn:Hx. destruct (authorization q) as [h|] eqn:Hh.
  - destruct (admin_authenticator app h (action_of rq) (resource_of rq)) as [who|e] eqn:Ha.
    + split; [by eexists _, _|]. intros Hno. by destruct (Hno h who).
    + destruct (rejected_case _ _ _ _ _ _ _ _ Hh Ha Hx) as (-> & Hs & _). split; [done|]. intros _.
      split; [done|]. eexists. split; [done|]. destruct e; cbn; set_solver.
  - destruct (no_header_case _ _ _ _ _ _ Hh Hx) as [-> ->]. split; [done|]. intros _. split; [done|]. eexists. split; [done|]. cbn. set_solver.
Qed.

(** C28: every write that an administrator performs and every refused write
    attempt with a header hands exactly one event to the audit service, of the
    type of its action and outcome; reads, refused names and store errors hand
    none. *)
Theorem admin_api_audited app q h rq s :
  authorization q = Some h →
  let '(r, s') := handle app q rq s in
  match admin_authenticator app h (action_of rq) (resource_of rq) with
  | Ok _ =>
      if is_write rq && is_ok r
      then ∃ tgt, audit_service s' = (AuditLog.emit (operation_event q h (action_of rq) (action_of rq) tgt
                    (statement_of rq) AuditLog.Success None) (audit_service s)).2
      else audit_service s' = audit_service s
  | Err e =>
      if is_write rq
      then ∃ tgt, audit_service s' = (AuditLog.emit (operation_event q h "authFailure" (action_of rq) tgt
                    (statement_of rq) AuditLog.Failure (Some (AdminAuth.AdminAuthError_fmt e))) (audit_service s)).2
      else audit_service s' = audit_service s
  end.
Proof.
  intros Hh. destruct (handle app q rq s) as [r s'] eqn:Hx.
  destruct (admin_authenticator app h (action_of rq) (resource_of rq)) as [who|e] eqn:Ha.
  - pose proof (answered_case _ _ _ _ _ _ _ _ Hh Ha Hx) as Hc. destruct (refused_name app rq) eqn:Hr.
    + destruct Hc as [-> (e & -> & _)]. by rewrite andb_false_r.
    + by destruct Hc.
  - by destruct (rejected_case _ _ _ _ _ _ _ _ Hh Ha Hx) as (_ & _ & Hev).
Qed.

Context `{!DataStoreLaws D}.

(** No stored billet is named like an implicit one. *)
Definition names_free (app : AdminApp) (d : D) : Prop :=
  map_Forall (λ n _, uses_reserved app n = false) (ds_billets d).

Definition api_inv (app : AdminApp) (s : AdminState) : Prop :=
  BilletCrud.admin_inv (system_billets app) (data_store s) ∧ names_free app (data_store s).

(** The operations add at most the billet they create. *)
Lemma exec_names app q rq d n :
  BilletCrud.admin_inv (system_billets app) d →
  is_Some (ds_billets (BilletCrud.admin_exec (system_billets app) (op_of q rq) d) !! n) →
  is_Some (ds_billets d !! n) ∨ (∃ body, rq = CreateBillet body ∧ n = cb_name body).
Proof.
  intros [(Hd & _) Hadm].
  assert (∀ o, is_Some (ds_billets (PolicyCrud.exec (system_billets app) o d) !! n) → is_Some (ds_billets d !! n)) as Hp.
  { intros o. by destruct (PolicyCrud.exec_admitted (system_billets app) o d Hd Hadm) as (_ & _ & ->). }
  destruct rq; cbn; [| | | | |by intros ?%(Hp (PolicyCrud.PCreate _ _ _ _ _)); left
    |by intros ?%(Hp (PolicyCrud.PList _)); left|by intros ?%(Hp (PolicyCrud.PGet _ _)); left
    |by intros ?%(Hp (PolicyCrud.PUpdate _ _ _ _ _)); left|by intros ?%(Hp (PolicyCrud.PDelete _ _)); left].
  - destruct (BilletCrud.create _ _ _ _ _ _ d) as [r d'] eqn:E.
    apply BilletCrud.billet_create_inv in E as (_ & _ & Hr); [|done]. cbn. destruct r.
    + destruct Hr as (_ & _ & _ & _ & ->). rewrite lookup_insert_is_Some. intros [<-|[_ ?]]; eauto.
    + destruct Hr as [-> _]. auto.
  - destruct (BilletCrud.list_ d) as [r d'] eqn:E. apply BilletCrud.list_inv in E as [(_ & Hb & _) _]; [|done].
    cbn. rewrite Hb. auto.
  - destruct (BilletCrud.get_with_policies _ d) as [r d'] eqn:E.
    apply BilletCrud.get_with_policies_inv in E as [(_ & Hb & _) _]; [|done]. cbn. rewrite Hb. auto.
  - destruct (BilletCrud.update _ _ _ _ _ _ d) as [r d'] eqn:E.
    apply BilletCrud.billet_update_inv in E as (_ & _ & Hr); [|done]. cbn. destruct r.
    + destruct Hr as (_ & old & Hold & _ & ->). rewrite lookup_insert_is_Some. intros [<-|[_ ?]]; eauto.
    + destruct Hr as [-> _]. auto.
  - destruct (BilletCrud.delete_cascade _ d) as [r d'] eqn:E.
    destruct (BilletCrud.billet_delete_inv _ d r d' Hd (or_intror E)) as (_ & Hr). cbn. destruct r.
    + destruct Hr as (_ & _ & -> & _). rewrite lookup_delete_is_Some. naive_solver.
    + destruct Hr as [-> _]. auto.
Qed.

Lemma handle_store app q rq s :
  let s' := (handle app q rq s).2 in
  data_store s' = data_store s ∨
  (refused_name app rq = false ∧
   data_store s' = BilletCrud.admin_exec (system_billets app) (op_of q rq) (data_store s)).
Proof.
  destruct (handle app q rq s) as [r s'] eqn:Hx. cbn. destruct (authorization q) as [h|] eqn:Hh.
  - destruct (admin_authenticator app h (action_of rq) (resource_of rq)) as [who|e] eqn:Ha.
    + pose proof (answered_case _ _ _ _ _ _ _ _ Hh Ha Hx) as Hc. destruct (refused_name app rq).
      * left. by destruct Hc as [-> _].
      * right. by destruct Hc.
    + left. by destruct (rejected_case _ _ _ _ _ _ _ _ Hh Ha Hx) as (_ & ? & _).
  - left. by destruct (no_header_case _ _ _ _ _ _ Hh Hx) as [-> _].
Qed.

Lemma handle_inv app q rq s :
  api_inv app s →
  api_inv app (handle app q rq s).2 ∧ BilletCrud.keeps_protected (data_store s) (data_store (handle app q rq s).2).
Proof.
  intros [Hi Hn]. destruct (handle_store app q rq s) as [Hs|[Href Hs]]; unfold api_inv; rewrite Hs.
  - split; [done|]. by intros n.
  - destruct (BilletCrud.admin_exec_inv _ (op_of q rq) _ Hi) as [Hi' Hk]. split; [split; [done|]|done].
    intros n b Hb. destruct (exec_names app q rq (data_store s) n Hi) as [[b' Hb']|(body & -> & ->)];
      [by eexists|by apply (Hn n b')|done].
Qed.

(** C5: over a store that keeps the full contract of the data store ([DataStoreLaws], which
    the file-backed store meets with its calls failing as they may; the cloud stores do
    not), and with requests handled one after the other, whatever requests reach the
    administration API, from whomever, it keeps the store in order: tags well formed,
    no orphaned policy, every policy admitted for its billet, no billet that takes
    a reserved implicit prefix, and no protected billet lost. *)
Theorem admin_api_invariant app reqs s :
  api_inv app s →
  let s' := foldl (λ s qr, (handle app qr.1 qr.2 s).2) s reqs in
  api_inv app s' ∧ BilletCrud.keeps_protected (data_store s) (data_store s').
Proof.
  revert s. induction reqs as [|[q rq] reqs IH]; intros s Hi; cbn; [split; [done|by intros n]|].
  destruct (handle_inv app q rq s Hi) as [Hi' Hk]. destruct (IH _ Hi') as [Hi'' Hk'].
  split; [done|]. intros n Hn Hs. by apply Hk', Hk.
Qed.

End handlers.

(* ------------------------------------------------------------------ *)
(** ** Witnesses *)

Import Demo Token.ToyJwt.

(** A payload decoder for the demo token. *)
#[local] Instance demo_payload : PayloadLib := {|
  base64_url_decode := λ p, Ok p;
  json_from_slice := λ p, if bool_decide (p = "p") then Ok (JObj [("sub", JStr "spiffe://td/admin")])
                          else Err "invalid"
|}.

Definition demo_admin_app : AdminApp :=
  mkAdminApp (AdminAuth.authenticate AdminAuth.demo_auth 1500 "t")
    (Implicit.from_config (IdentityConfig.oidc Implicit.demo_config)) PolicyCrud.demo_system.

Definition demo_admin_state : AdminState (D := Demo.store) := mkAdminState demo_store demo_audit.

Definition demo_req (h : option string) : Req := mkReq (Some "r1") h "t1" 0 "u1".

Lemma demo_api_inv : api_inv demo_admin_app demo_admin_state.
Proof. split; [exact BilletCrud.demo_admin_inv|]. 
  intros n b Hb. apply elem_of_map_to_list in Hb. vm_compute in Hb.
  repeat (apply elem_of_cons in Hb as [Hb|Hb]; [injection Hb as -> ->; vm_compute; reflexivity|]).
  by apply not_elem_of_nil in Hb.
Qed.

Lemma admin_api_invariant_witness :
  let reqs := [(demo_req (Some "Bearer h.p.s"), CreateBillet (mkCreateBillet "okta-group:x" "" [] [] []));
               (demo_req (Some "Bearer h.p.s"), DeleteBillet "quartermaster-admin");
               (demo_req None, DeleteBillet "writer"); (demo_req (Some "Bearer h.p.s"), DeleteBillet "reader")] in
  let s' := foldl (λ s qr, (handle demo_admin_app qr.1 qr.2 s).2) demo_admin_state reqs in
  api_inv demo_admin_app s' ∧ size (ds_billets (data_store s')) = 3.
Proof.
  intros reqs s'. split; [|by vm_compute].
  exact (proj1 (admin_api_invariant demo_admin_app reqs demo_admin_state demo_api_inv)).
Defined.

Lemma admin_api_audited_witness :
  ∃ tgt, audit_service (handle demo_admin_app (demo_req (Some "Bearer h.p.s")) (DeleteBillet "reader") demo_admin_state).2 =
    (AuditLog.emit (operation_event (demo_req (Some "Bearer h.p.s")) "Bearer h.p.s" "deleteBillet" "deleteBillet" tgt None
       AuditLog.Success None) demo_audit).2.
Proof.
  pose proof (admin_api_audited demo_admin_app (demo_req (Some "Bearer h.p.s")) "Bearer h.p.s" (DeleteBillet "reader")
    demo_admin_state eq_refl) as Hev.
  assert ((handle demo_admin_app (demo_req (Some "Bearer h.p.s")) (DeleteBillet "reader") demo_admin_state).1 = Ok 204%Z)
    as Hr by (vm_compute; reflexivity).
  assert (admin_authenticator demo_admin_app "Bearer h.p.s" (action_of (DeleteBillet "reader"))
    (resource_of (DeleteBillet "reader")) = Ok "spiffe://td/admin") as Ha by (vm_compute; reflexivity).
  rewrite Ha in Hev. destruct (handle _ _ _ _) as [r s']. cbn [fst] in Hr. rewrite Hr in Hev. exact Hev.
Defined.

(** The authenticator accepts the scheme in any case, the audit record reads the
    subject only after an exact [Bearer]: an administrator who writes [bearer]
    deletes a billet as an unknown actor. *)
Lemma lowercase_bearer_audited_unknown :
  match handle demo_admin_app (demo_req (Some "bearer h.p.s")) (DeleteBillet "reader") demo_admin_state with
  | (Ok status, s') => status = 204%Z ∧
      (AuditLog.subject ∘ AuditLog.actor <$> AuditLog.queue (audit_service s')) = ["unknown"]
  | (Err _, _) => False
  end ∧
  extract_admin_subject "Bearer h.p.s" = "spiffe://td/admin".
Proof. vm_compute. done. Qed.

End AdminHandlers.
