(* ===== verification/StaticKey.v ===== *)
(** * Static signing keys ([src/src/signing/static_key.rs])

    Loading an EC P-256 key from PEM: the PEM and PKCS#8 handling of the source is
    modelled, and so is the PEM armour the key managers write
    ([pkcs8_to_pem] of [src/src/keymanager/kms_delegated.rs]).  Base64, SHA-256, the
    key parser of [ring] and [EncodingKey::from_ec_pem] are a parameter,
    [SigningCrypto], with its documented behaviour in [SigningCryptoLaws]. *)

From S2P Require Import Prelude Token Der.

Module StaticKey.
Import Token Der.
Local Open Scope Z_scope.

Definition nl : string := String "010" "".
Definition dq : string := String "034" "".

(* ------------------------------------------------------------------ *)
(** ** PEM *)

(** [b64.as_bytes().chunks(64)], one line per chunk. *)
Fixpoint chunk_lines (fuel : nat) (s : string) : string :=
  match fuel, s with
  | S n, String _ _ => Str.take_bytes 64 s +:+ nl +:+ chunk_lines n (Str.drop_bytes 64 s)
  | _, _ => EmptyString
  end.

(** [.chars().filter(|c| !c.is_whitespace()).collect()] *)
Fixpoint drop_whitespace (fuel : nat) (s : string) : string :=
  match fuel, s with
  | S n, String c s' =>
      match Str.first_some (λ w, Str.strip_prefix w s) Str.whitespace with
      | Some r => drop_whitespace n r
      | None => String c (drop_whitespace n s')
      end
  | _, _ => EmptyString
  end.

Definition begin_line (label : string) : string := "-----BEGIN " +:+ label +:+ "-----".
Definition end_line (label : string) : string := "-----END " +:+ label +:+ "-----".

(** The libraries. *)
Class SigningCrypto `{JwtLib} := {
  (** [URL_SAFE_NO_PAD.encode], [STANDARD.encode] and [STANDARD.decode] *)
  url_safe_encode : bytes → string;
  std_encode : bytes → string;
  std_decode : string → option bytes;
  (** [ring::digest::digest(&SHA256, text)] *)
  sha256 : string → bytes;
  (** [EcdsaKeyPair::from_pkcs8] for P-256: the public key of the pair *)
  from_pkcs8 : bytes → result string bytes;
  from_ec_pem : string → result string EncodingKey;
  (** the text of the error of [str::from_utf8] *)
  utf8_error : string → string
}.

Section static_key.
Context `{SigningCrypto}.

Definition pem_armor (label : string) (der : bytes) : string :=
  let b64 := std_encode der in
  begin_line label +:+ nl +:+ chunk_lines (String.length b64) b64 +:+ end_line label +:+ nl.

Definition pkcs8_to_pem (der : bytes) : string := pem_armor "PRIVATE KEY" der.

Definition extract_pem_der (pem_str label : string) : option bytes :=
  '(_, after_begin) ← Str.find_str (begin_line label) pem_str;
  '(base64_content, _) ← Str.find_str (end_line label) after_begin;
  std_decode (drop_whitespace (String.length base64_content) base64_content).

(* ------------------------------------------------------------------ *)
(** ** PKCS#8 *)

Definition encode_asn1_length (len : Z) (out : bytes) : bytes :=
  if len <? 128 then out ++ [as_u8 len]
  else if len <? 256 then (out ++ [129]) ++ [as_u8 len]
  else ((out ++ [130]) ++ [as_u8 (Z.shiftr len 8)]) ++ [as_u8 (Z.land len 255)].

Definition algo_id : bytes :=
  [48; 19; 6; 7; 42; 134; 72; 206; 61; 2; 1; 6; 8; 42; 134; 72; 206; 61; 3; 1; 7].

Definition version : bytes := [2; 1; 0].

Definition wrap_sec1_in_pkcs8 (sec1_der : bytes) : bytes :=
  let octet_string := encode_asn1_length (len sec1_der) [4] ++ sec1_der in
  let inner_len := len version + len algo_id + len octet_string in
  encode_asn1_length inner_len [48] ++ version ++ algo_id ++ octet_string.

Inductive StaticKeyError : Type := IoError (msg : string) | InvalidKey (msg : string).

Definition StaticKeyError_fmt (e : StaticKeyError) : string :=
  match e with
  | IoError msg => "I/O error: " +:+ msg
  | InvalidKey msg => "invalid key: " +:+ msg
  end.

Definition parse_ec_private_key_pem (pem_str : string) : result StaticKeyError bytes :=
  match extract_pem_der pem_str "PRIVATE KEY" with
  | Some der => Ok der
  | None =>
      match extract_pem_der pem_str "EC PRIVATE KEY" with
      | Some sec1_der => Ok (wrap_sec1_in_pkcs8 sec1_der)
      | None => Err (InvalidKey "PEM does not contain a recognized EC private key (expected PRIVATE KEY or EC PRIVATE KEY header)")
      end
  end.

(* ------------------------------------------------------------------ *)
(** ** The published form of a P-256 key *)

Definition uncompressed_point (pub : bytes) : bool :=
  (length pub =? 65)%nat && bool_decide (head pub = Some 4).

Definition x_b64 (pub : bytes) : string := url_safe_encode (take 32 (drop 1 pub)).
Definition y_b64 (pub : bytes) : string := url_safe_encode (take 32 (drop 33 pub)).

(** [{"crv":"P-256","kty":"EC","x":"...","y":"..."}] *)
Definition thumbprint_input (pub : bytes) : string :=
  let q s := dq +:+ s +:+ dq in
  "{" +:+ q "crv" +:+ ":" +:+ q "P-256" +:+ "," +:+ q "kty" +:+ ":" +:+ q "EC" +:+ "," +:+
  q "x" +:+ ":" +:+ q (x_b64 pub) +:+ "," +:+ q "y" +:+ ":" +:+ q (y_b64 pub) +:+ "}".

Definition kid_of (pub : bytes) : string := url_safe_encode (sha256 (thumbprint_input pub)).

Definition jwk_of (pub : bytes) : json :=
  JObj [("kty", JStr "EC"); ("crv", JStr "P-256"); ("x", JStr (x_b64 pub)); ("y", JStr (y_b64 pub));
        ("kid", JStr (kid_of pub)); ("alg", JStr "ES256"); ("use", JStr "sig")].

Definition header_of (pub : bytes) : Header := mkHeader ES256 (Some (kid_of pub)).

Record StaticKeyManager : Type := mkStaticKeyManager {
  sk_encoding_key : EncodingKey;
  sk_header : Header;
  sk_jwks : json;
  sk_key_id : string
}.

(** [impl SigningManager for StaticKeyManager] *)
Definition StaticKeyManager_SigningManager (m : StaticKeyManager) : SigningManager :=
  mkSigningManager _ (sk_encoding_key m) (sk_header m) (sk_jwks m) (sk_key_id m).

Definition from_pem (pem_bytes : string) : result StaticKeyError StaticKeyManager :=
  _ ← fail_if (negb (bool_decide (Str.from_utf8_lossy pem_bytes = pem_bytes)))
        (InvalidKey ("PEM is not valid UTF-8: " +:+ utf8_error pem_bytes));
  der_bytes ← parse_ec_private_key_pem pem_bytes;
  public_key_bytes ← map_err (λ e, InvalidKey ("failed to parse EC key: " +:+ e)) (from_pkcs8 der_bytes);
  _ ← fail_if (negb (uncompressed_point public_key_bytes))
        (InvalidKey "unexpected public key format (expected uncompressed P-256 point)");
  let jwks := JObj [("keys", JArr [jwk_of public_key_bytes])] in
  encoding_key ← map_err (λ e, InvalidKey ("failed to create encoding key: " +:+ e)) (from_ec_pem pem_bytes);
  Ok (mkStaticKeyManager encoding_key (header_of public_key_bytes) jwks (kid_of public_key_bytes)).

(** [std::fs::read] *)
Definition from_pem_file (read : string → result string string) (path : string) :
    result StaticKeyError StaticKeyManager :=
  pem_bytes ← map_err (λ e, IoError ("failed to read key file: " +:+ e)) (read path);
  from_pem pem_bytes.

End static_key.

(** What the documentation of the libraries promises. *)
Class SigningCryptoLaws `{SigningCrypto} `{!JwtLaws} := {
  (** Base64: decoding undoes encoding, and the alphabet is letters, digits and [+ / =]. *)
  std_decode_encode : ∀ b, std_decode (std_encode b) = Some b;
  std_encode_chars : ∀ b, Str.all_chars (λ c, is_graphic c && bool_decide (c ≠ "-"%char)) (std_encode b) = true;
  (** Both libraries read the PKCS#8 document of a PEM text, and the coordinates of
      its public point make the verification key of its private key. *)
  ec_pem_pair : ∀ der pub k, from_pkcs8 der = Ok pub → from_ec_pem (pkcs8_to_pem der) = Ok k →
    ∃ dk, from_ec_components (x_b64 pub) (y_b64 pub) = Ok dk ∧ key_pair k dk;
  (** [from_ec_pem] takes PKCS#8 only. *)
  ec_pem_pkcs8_only : ∀ der, is_ok (from_ec_pem (pem_armor "EC PRIVATE KEY" der)) = false
}.

(* ------------------------------------------------------------------ *)
(** ** PEM round trip *)

Lemma strip_prefix_ne a p b s : b ≠ a → Str.strip_prefix (String a p) (String b s) = None.
Proof.
  intros Hne. destruct (Str.strip_prefix _ _) as [r|] eqn:E; [|done].
  apply strip_prefix_Some in E. rewrite app_cons in E. congruence.
Qed.

Lemma find_str_cons p a s :
  Str.find_str p (String a s) =
    match Str.strip_prefix p (String a s) with
    | Some r => Some (EmptyString, r)
    | None => prod_map (String a) id <$> Str.find_str p s
    end.
Proof. reflexivity. Qed.

Lemma find_str_skip a p s t :
  free_of a s = true →
  Str.find_str (String a p) (s +:+ t) = prod_map (String.append s) id <$> Str.find_str (String a p) t.
Proof.
  induction s as [|c s IH]; intros Hs.
  - destruct (Str.find_str _ _) as [[x y]|] eqn:E; cbn; by rewrite ?E.
  - cbn in Hs. apply andb_true_iff in Hs as [Hc%bool_decide_eq_true Hs]. rewrite app_cons.
    rewrite find_str_cons, strip_prefix_ne by done.
    rewrite (IH Hs). by destruct (Str.find_str _ t) as [[x y]|].
Qed.

Lemma find_str_prefix p r : Str.find_str p (p +:+ r) = Some (EmptyString, r).
Proof.
  pose proof (proj2 (strip_prefix_Some p (p +:+ r) r) eq_refl) as E.
  destruct (p +:+ r); unfold Str.find_str; by rewrite E.
Qed.

Lemma drop_whitespace_graphic n c s :
  is_graphic c = true → drop_whitespace (S n) (String c s) = String c (drop_whitespace n s).
Proof.
  intros Hc. cbn [drop_whitespace]. rewrite (proj2 (first_some_None _ _)); [done|].
  eapply Forall_impl; [apply whitespace_ends|]. intros [|b w] (Hne & Hw & _); [done|].
  apply strip_prefix_ne. intros ->. cbn in Hw. congruence.
Qed.

Lemma drop_whitespace_nl n s : drop_whitespace (S n) (nl +:+ s) = drop_whitespace n s.
Proof. reflexivity. Qed.


Lemma drop_whitespace_text n b t :
  Str.all_chars is_graphic b = true →
  drop_whitespace (String.length b + n) (b +:+ t) = b +:+ drop_whitespace n t.
Proof.
  induction b as [|c b IH]; intros Hb; [done|]. cbn in Hb. apply andb_true_iff in Hb as [Hc Hb].
  rewrite !app_cons. cbn [String.length Nat.add]. rewrite drop_whitespace_graphic by done. by rewrite IH.
Qed.

Lemma take_drop_bytes n s : Str.take_bytes n s +:+ Str.drop_bytes n s = s.
Proof.
  revert s. induction n as [|n IH]; intros [|c s]; try done. cbn [Str.take_bytes Str.drop_bytes].
  by rewrite app_cons, IH.
Qed.

Lemma all_chars_take_drop P n s :
  Str.all_chars P s = true →
  Str.all_chars P (Str.take_bytes n s) = true ∧ Str.all_chars P (Str.drop_bytes n s) = true.
Proof. intros Hs. rewrite <- (take_drop_bytes n s), all_chars_app in Hs. by apply andb_true_iff in Hs. Qed.

Lemma drop_bytes_shorter n s : s ≠ "" → (String.length (Str.drop_bytes (S n) s) < String.length s)%nat.
Proof.
  destruct s as [|c s]; [done|]. intros _. cbn [Str.drop_bytes String.length].
  pose proof (f_equal String.length (take_drop_bytes n s)) as Hl. rewrite str_length_app in Hl. lia.
Qed.

Lemma chunk_lines_free a fuel b :
  a ≠ "010"%char → free_of a b = true → free_of a (chunk_lines fuel b) = true.
Proof.
  intros Ha. revert b. induction fuel as [|fuel IH]; intros b Hb; [done|].
  destruct b as [|c b]; [done|]. cbn [chunk_lines]. apply (all_chars_take_drop _ 64) in Hb as [H1 H2].
  unfold free_of in *. rewrite !all_chars_app, H1. cbn [andb]. apply andb_true_iff. split; [|by apply IH].
  cbn. rewrite bool_decide_eq_true_2; done.
Qed.

(** Removing whitespace undoes the line breaks. *)
Lemma chunk_lines_join fuel b :
  Str.all_chars is_graphic b = true → (String.length b ≤ fuel)%nat →
  drop_whitespace (String.length (chunk_lines fuel b)) (chunk_lines fuel b) = b.
Proof.
  revert b. induction fuel as [|fuel IH]; intros b Hb Hl; [destruct b; [done|cbn in Hl; lia]|].
  destruct b as [|c b]; [done|]. cbn [chunk_lines]. set (s := String c b) in *.
  pose proof (all_chars_take_drop _ 64 s Hb) as [H1 H2].
  rewrite !str_length_app, drop_whitespace_text by done. change (String.length nl) with 1%nat.
  cbn [Nat.add]. rewrite drop_whitespace_nl, IH; [apply take_drop_bytes|done|].
  pose proof (drop_bytes_shorter 63 s ltac:(done)). lia.
Qed.

(* ------------------------------------------------------------------ *)
(** ** PKCS#8 *)

Lemma encode_asn1_length_spec n out :
  0 ≤ n < 65536 → ∃ l, length_octets n l ∧ encode_asn1_length n out = out ++ l.
Proof.
  intros Hn. unfold encode_asn1_length. change 255 with (Z.ones 8).
  rewrite Z.land_ones, !as_u8_mod, Z.shiftr_div_pow2 by lia. change (2 ^ 8) with 256.
  destruct (n <? 128) eqn:H1; [|destruct (n <? 256) eqn:H2].
  - exists [n]. split; [constructor; lia|]. by rewrite Z.mod_small by lia.
  - exists [129; n]. rewrite Z.mod_small, <- app_assoc by lia. split; [|done].
    apply (long_form n n []); rewrite ?len_cons; change (len []) with 0; try lia; [|done].
    repeat constructor; unfold is_byte; lia.
  - exists [130; n / 256; n mod 256].
    rewrite Z.mod_mod, (Z.mod_small (n / 256)), <- !app_assoc by (Z.to_euclidean_division_equations; lia).
    split; [|done].
    apply (long_form n (n / 256) [n mod 256]); rewrite ?len_cons; change (len []) with 0; try lia.
    + Z.to_euclidean_division_equations; lia.
    + repeat constructor; unfold is_byte; Z.to_euclidean_division_equations; lia.
    + unfold be_value. cbn [foldl]. Z.to_euclidean_division_equations; lia.
Qed.

(** Wrapping a SEC1 key yields a PKCS#8 document: a sequence, and nothing more,
    of the version 0, the algorithm identifier of P-256 keys and the key. *)
Lemma wrap_sec1_wellformed sec1 :
  len sec1 < 65000 →
  ∃ body, read_element 48 (wrap_sec1_in_pkcs8 sec1) = Some (version ++ algo_id ++ body, []) ∧
    read_element 4 body = Some (sec1, []).
Proof.
  intros Hlen. pose proof (len_nonneg sec1). unfold wrap_sec1_in_pkcs8.
  destruct (encode_asn1_length_spec (len sec1) [4] ltac:(lia)) as (l & Hl & ->).
  assert (len l ≤ 4) as Hl4.
  { destruct Hl as [|d ds ? Hk ? Hb Hv]; [unfold len; cbn; lia|].
    pose proof (be_value_lower d ds ltac:(done) Hb) as Hlow. rewrite Hv in Hlow. rewrite !len_cons.
    destruct (decide (2 < len ds)); [|lia].
    assert (256 ^ 3 ≤ 256 ^ len ds) by (apply Z.pow_le_mono_r; lia). lia. }
  set (body := ([4] ++ l) ++ sec1). change (len version) with 3. change (len algo_id) with 21.
  assert (len body = 1 + len l + len sec1) as Hbody by (unfold body; rewrite !len_app; done).
  pose proof (len_nonneg l).
  destruct (encode_asn1_length_spec (3 + 21 + len body) [48] ltac:(lia)) as (l' & Hl' & ->).
  exists body. split.
  - rewrite <- (app_nil_r (_ ++ version ++ _)). apply read_element_complete. exists l'.
    split; [|done]. rewrite !len_app. change (len version) with 3. change (len algo_id) with 21.
    by replace (3 + (21 + len body)) with (3 + 21 + len body) by lia.
  - rewrite <- (app_nil_r body). apply read_element_complete. by exists l.
Qed.

Section laws.
Context `{SigningCryptoLaws}.

Lemma std_encode_graphic b : Str.all_chars is_graphic (std_encode b) = true.
Proof.
  pose proof (std_encode_chars b) as Hb. induction (std_encode b) as [|c s IH]; [done|].
  cbn in *. rewrite !andb_true_iff in *. destruct Hb as [[? ?] ?]. auto.
Qed.

Lemma std_encode_no_dash b : free_of "-" (std_encode b) = true.
Proof.
  pose proof (std_encode_chars b) as Hb. unfold free_of. induction (std_encode b) as [|c s IH]; [done|].
  cbn in *. rewrite !andb_true_iff in *. destruct Hb as [[? ?] ?]. auto.
Qed.

(** The PEM text the key managers write is read back to the same document, under its
    own label. *)
Lemma extract_armor label der : extract_pem_der (pem_armor label der) label = Some der.
Proof.
  unfold extract_pem_der, pem_armor. rewrite find_str_prefix. cbn [mbind option_bind].
  set (b := std_encode der). set (ls := chunk_lines (String.length b) b).
  change (end_line label) with (String "-" ("----END " +:+ label +:+ "-----")).
  rewrite (str_app_assoc nl ls), find_str_skip, find_str_prefix.
  - cbn [fmap option_fmap option_map prod_map fst snd mbind option_bind]. rewrite app_empty_r.
    rewrite str_length_app. change (String.length nl) with 1%nat. cbn [Nat.add].
    rewrite drop_whitespace_nl. unfold ls. rewrite chunk_lines_join by (done || apply std_encode_graphic).
    apply std_decode_encode.
  - unfold free_of. rewrite all_chars_app. apply andb_true_iff. split; [done|].
    by apply chunk_lines_free; [|apply std_encode_no_dash].
Qed.

(** What [from_pem] returns. *)
Lemma from_pem_inv pem m :
  from_pem pem = Ok m → ∃ der pub k, parse_ec_private_key_pem pem = Ok der ∧ from_pkcs8 der = Ok pub ∧
    from_ec_pem pem = Ok k ∧
    m = mkStaticKeyManager k (header_of pub) (JObj [("keys", JArr [jwk_of pub])]) (kid_of pub).
Proof.
  unfold from_pem. intros (_ & _ & Hm)%bind_Ok. apply bind_Ok in Hm as (der & Hd & Hm).
  apply bind_Ok in Hm as (pub & Hp & Hm). apply bind_Ok in Hm as (_ & _ & Hm).
  apply bind_Ok in Hm as (k & Hk & [= <-]). apply map_err_Ok in Hp, Hk. eauto 10.
Qed.

(** The published entry of a key has the key's own identifier. *)
Lemma jwk_of_kid pub : (json_get "kid" (jwk_of pub) ≫= json_as_str) = Some (kid_of pub).
Proof. done. Qed.

(** A manager that signs with the key of a document and lists its entry first
    publishes the verification key. *)
Lemma publishes_first der pub k ks :
  from_pkcs8 der = Ok pub → from_ec_pem (pkcs8_to_pem der) = Ok k →
  ∃ dk, publishes (mkSigningManager _ k (header_of pub) (JObj [("keys", JArr (jwk_of pub :: ks))]) (kid_of pub)) dk.
Proof.
  intros Hp Hk. destruct (ec_pem_pair der pub k Hp Hk) as (dk & Hdk & Hpair). exists dk.
  split_and!; try done. exists (jwk_of pub :: ks), [], (jwk_of pub), ks, (x_b64 pub), (y_b64 pub).
  split_and!; try done. by intros e ?%not_elem_of_nil.
Qed.

(** A key loaded from a PKCS#8 PEM text signs tokens that the published key set
    verifies: the set has the key's coordinates under the [kid] of its tokens. *)
Lemma from_pem_publishes der m :
  from_pem (pkcs8_to_pem der) = Ok m → ∃ dk, publishes (StaticKeyManager_SigningManager m) dk.
Proof.
  intros (der' & pub & k & Hd & Hp & Hk & ->)%from_pem_inv.
  unfold parse_ec_private_key_pem, pkcs8_to_pem in Hd. rewrite (extract_armor "PRIVATE KEY" der) in Hd. injection Hd as <-.
  by apply (publishes_first der).
Qed.

(** A SEC1 file, which the source names as supported, is always refused. *)
Lemma sec1_pem_refused der : is_ok (from_pem (pem_armor "EC PRIVATE KEY" der)) = false.
Proof.
  destruct (from_pem _) as [m|e] eqn:E; [|done]. apply from_pem_inv in E as (? & ? & k & _ & _ & Hk & _).
  pose proof (ec_pem_pkcs8_only der) as Hno. by rewrite Hk in Hno.
Qed.

End laws.

(* ------------------------------------------------------------------ *)
(** ** Witnesses *)

Lemma wrap_sec1_wellformed_witness :
  ∃ body, read_element 48 (wrap_sec1_in_pkcs8 (repeat 7 300)) = Some (version ++ algo_id ++ body, []) ∧
    read_element 4 body = Some (repeat 7 300, []).
Proof. apply wrap_sec1_wellformed. vm_compute. reflexivity. Defined.

(** Libraries that satisfy the laws: the documents are single bytes, the text of a
    document spells the bits of its number. *)
Module ToyCrypto.
Export ToyJwt.

Fixpoint bits (p : positive) : string :=
  match p with xH => "H" | xO p => String "O" (bits p) | xI p => String "I" (bits p) end.

Fixpoint unbits (s : string) : option positive :=
  match s with
  | String c s' =>
      if bool_decide (c = "H"%char) then Some xH
      else if bool_decide (c = "O"%char) then xO <$> unbits s' else xI <$> unbits s'
  | EmptyString => None
  end.

Lemma unbits_bits p : unbits (bits p) = Some p.
Proof. induction p as [p IH|p IH|]; cbn; by rewrite ?IH. Qed.

Lemma bits_chars p : Str.all_chars (λ c, is_graphic c && bool_decide (c ≠ "-"%char)) (bits p) = true.
Proof. by induction p. Qed.

#[export] Instance toy_crypto : SigningCrypto := {|
  url_safe_encode := foldr (λ z s, String (ascii_of_N (Z.to_N z)) s) EmptyString;
  std_encode := λ b, bits (encode b);
  std_decode := λ s, unbits s ≫= decode;
  sha256 := λ s, Z.of_N ∘ N_of_ascii <$> String.list_ascii_of_string s;
  from_pkcs8 := λ der, match der with [n] => Ok (4 :: n :: repeat 48 63) | _ => Err "InvalidEncoding" end;
  from_ec_pem := λ pem, if Str.starts_with (begin_line "EC PRIVATE KEY") pem then Err "InvalidKeyFormat" else Ok tt;
  utf8_error := λ _, "invalid utf-8"
|}.

#[export] Instance toy_crypto_laws : SigningCryptoLaws.
Proof.
  split.
  - intros b. cbn. by rewrite unbits_bits; cbn; rewrite decode_encode.
  - intros b. apply bits_chars.
  - intros der pub k _ _. by exists tt.
  - intros der. cbn. unfold pem_armor. by rewrite starts_with_app.
Qed.

End ToyCrypto.

End StaticKey.
