(* ===== verification/KeyManager.v ===== *)
(** * Key managers ([src/src/keymanager/])

    The [KeyManager] trait with its two implementations: the static key of
    [memory.rs] and the rotated ephemeral keys of [kms_delegated.rs], the KMS clients
    of [kms_client.rs] and the factory.  The clock, the random key documents, [chrono]
    and the AWS client are arguments or parameters; the data store is any
    [DataStore].  A panic is a fault of its own. *)

From S2P Require Import Prelude Token Der StaticKey DataStore Config LocalStore Demo.

Module KeyManager.
Import Token Der StaticKey.
Local Open Scope Z_scope.

Inductive KeyError : Type :=
| KeyUnavailable (msg : string)
| SigningFailed (msg : string)
| KmsUnavailable (msg : string).

Definition KeyError_fmt (e : KeyError) : string :=
  match e with
  | KeyUnavailable msg => "key unavailable: " +:+ msg
  | SigningFailed msg => "signing failed: " +:+ msg
  | KmsUnavailable msg => "KMS unavailable: " +:+ msg
  end.

Inductive KeyHealth : Type :=
| Healthy
| Degraded (reason : string)
| Unhealthy (reason : string).

(** An error value, or a panic. *)
Inductive fault (E : Type) : Type := Failed (e : E) | Panicked.
Arguments Failed {E} e.
Arguments Panicked {E}.

Definition map_fault {E F A} (f : E → F) (r : result (fault E) A) : result (fault F) A :=
  match r with
  | Ok a => Ok a
  | Err (Failed e) => Err (Failed (f e))
  | Err Panicked => Err Panicked
  end.

Definition m_map_fault {T E F A} (f : E → F) (m : M T (fault E) A) : M T (fault F) A :=
  λ s, let '(r, s') := m s in (map_fault f r, s').

Definition or_panic {E A} (o : option A) : result (fault E) A := ok_or Panicked o.

(* ------------------------------------------------------------------ *)
(** ** Durations *)

(** [chrono], in nanoseconds; [None] is a panic. *)
Class Chrono := {
  (** [Duration::seconds(n)], [minutes], [hours] and [days], by the seconds of the unit *)
  td_units : Z → Z → option Z;
  (** [d * 2] *)
  td_twice : Z → option Z;
  (** [t + d] for a [DateTime<Utc>] *)
  dt_add : Z → Z → option Z;
  to_rfc3339 : Z → string;
  (** [text.parse::<DateTime<Utc>>()] *)
  parse_utc : string → result string Z
}.

Class ChronoLaws `{Chrono} := {
  td_units_value : ∀ n u d, td_units n u = Some d → d = secs (n * u);
  (** durations reach to [i64::MAX] milliseconds *)
  td_units_total : ∀ n u, Z.abs (n * u) ≤ 9223372036854775 → is_Some (td_units n u);
  td_twice_value : ∀ d d', td_twice d = Some d' → d' = 2 * d;
  dt_add_value : ∀ t d t', dt_add t d = Some t' → t' = t + d
}.

Definition i64_min : Z := -9223372036854775808.
Definition i64_max : Z := 9223372036854775807.

(** [str::parse::<i64>], with the text of its errors. *)
Fixpoint parse_i64_digits (neg : bool) (acc : Z) (s : string) : result string Z :=
  match s with
  | EmptyString => Ok acc
  | String c s' =>
      if Str.is_ascii_digit c then
        let d := Z.of_N (Str.code c) - 48 in
        let v := if neg then acc * 10 - d else acc * 10 + d in
        if v <? i64_min then Err "number too small to fit in target type"
        else if i64_max <? v then Err "number too large to fit in target type"
        else parse_i64_digits neg v s'
      else Err "invalid digit found in string"
  end.

Definition parse_i64 (s : string) : result string Z :=
  match s with
  | EmptyString => Err "cannot parse integer from empty string"
  | String c s' =>
      if bool_decide (c = "-"%char ∨ c = "+"%char) then
        if Str.is_empty s' then Err "invalid digit found in string"
        else parse_i64_digits (bool_decide (c = "-"%char)) 0 s'
      else parse_i64_digits false 0 s
  end.

(** The last byte of a text. *)
Definition last_byte (s : string) : string := Str.drop_bytes (String.length s - 1) s.

Section durations.
Context `{Chrono}.

(** [split_at] panics inside a character: at a continuation byte. *)
Definition parse_duration (text : string) : result (fault string) Z :=
  let s := Str.trim text in
  if Str.is_empty s then Err (Failed "empty duration string")
  else
    let num_str := Str.take_bytes (String.length s - 1) s in
    let suffix := last_byte s in
    if Str.all_chars (λ c, (128 <=? Str.code c)%N && (Str.code c <=? 191)%N) suffix then Err Panicked
    else
      match parse_i64 num_str with
      | Err e => Err (Failed ("invalid number '" +:+ num_str +:+ "': " +:+ e))
      | Ok num =>
          if bool_decide (suffix = "s") then or_panic (td_units num 1)
          else if bool_decide (suffix = "m") then or_panic (td_units num 60)
          else if bool_decide (suffix = "h") then or_panic (td_units num 3600)
          else if bool_decide (suffix = "d") then or_panic (td_units num 86400)
          else Err (Failed ("unknown duration suffix '" +:+ suffix +:+ "' (expected s, m, h, or d)"))
      end.

(** [d.num_seconds()] rounds towards zero. *)
Definition format_duration (d : Z) : string :=
  let total_secs := Z.quot d 1000000000 in
  if (86400 <=? total_secs) && (Z.rem total_secs 86400 =? 0) then pretty (Z.quot total_secs 86400) +:+ "d"
  else if (3600 <=? total_secs) && (Z.rem total_secs 3600 =? 0) then pretty (Z.quot total_secs 3600) +:+ "h"
  else if (60 <=? total_secs) && (Z.rem total_secs 60 =? 0) then pretty (Z.quot total_secs 60) +:+ "m"
  else pretty total_secs +:+ "s".
End durations.

(* ------------------------------------------------------------------ *)
(** ** The trait *)

(** What one rotation check sees of the world: the readings of the clock, in order,
    and the outcome of generating a key document. *)
Record RotateEnv : Type := mkRotateEnv {
  t_check : Z;
  t_generate : Z;
  t_cleanup : Z;
  t_build : Z;
  fresh_doc : result string bytes
}.

(** The accessors of [KeyManager] other than [algorithm] are those of
    [SigningManager]; [health] may panic ([None]). *)
Class KeyManager `{JwtLib} (K : Type) := {
  signing_view : K → SigningManager;
  algorithm : K → Algorithm;
  health : Z → K → option KeyHealth;
  maybe_rotate : RotateEnv → M K (fault KeyError) unit
}.

(** What the token issuer needs of a key manager: it always publishes the key it
    signs with, and checking for rotation, whatever its outcome, keeps it so. *)
Class KeyManagerLaws `{JwtLaws} (K : Type) `{!KeyManager K} := {
  km_ok : K → Prop;
  km_publishes : ∀ s, km_ok s → ∃ dk, publishes (signing_view s) dk;
  km_rotate_ok : ∀ env s r s', km_ok s → maybe_rotate env s = (r, s') → km_ok s'
}.

(** [SigningManagerAdapter] *)
Definition SigningManagerAdapter {K} `{KeyManager K} (key_manager : K) : SigningManager := signing_view key_manager.

(* ------------------------------------------------------------------ *)
(** ** KMS clients *)

Record KmsClient : Type := mkKmsClient {
  kms_sign : bytes → result KeyError bytes;
  kms_verify : bytes → bytes → result KeyError bool
}.

(** The AWS SDK: [sign] and [verify] with [ECDSA_SHA_256] over a digest, by region
    and key; [sign] may return no signature. *)
Class AwsKms := {
  aws_sign_send : string → string → bytes → result string (option bytes);
  aws_verify_send : string → string → bytes → bytes → result string bool
}.

(** With message type [DIGEST] and [ECDSA_SHA_256] the message must have 32 bytes. *)
Class AwsKmsLaws `{AwsKms} := {
  aws_sign_digest_only : ∀ region arn data, len data ≠ 32 → is_ok (aws_sign_send region arn data) = false
}.

Definition AwsKmsClient `{AwsKms} (region key_arn : string) : KmsClient :=
  {| kms_sign := λ data,
       response ← map_err (λ e, KmsUnavailable ("AWS KMS sign failed: " +:+ e)) (aws_sign_send region key_arn data);
       ok_or (SigningFailed "AWS KMS returned no signature") response;
     kms_verify := λ data signature,
       map_err (λ e, KmsUnavailable ("AWS KMS verify failed: " +:+ e)) (aws_verify_send region key_arn data signature) |}.

Definition GcpKmsClient (key_name : string) : KmsClient :=
  {| kms_sign := λ _, Err (KmsUnavailable "GCP KMS not yet implemented");
     kms_verify := λ _ _, Err (KmsUnavailable "GCP KMS not yet implemented") |}.

(* ------------------------------------------------------------------ *)
(** ** The static key ([memory.rs]) *)

Section memory.
Context `{SigningCrypto}.

Record MemoryKeyManager : Type := mkMemory { inner : StaticKeyManager }.

Definition MemoryKeyManager_new (read : string → result string string) (config : Config.MemorySigningConfig) :
    result KeyError MemoryKeyManager :=
  let path := Config.ms_key_path config in
  inner ← map_err (λ e, KeyUnavailable ("failed to load signing key from " +:+ path +:+ ": " +:+ StaticKeyError_fmt e))
            (from_pem_file read path);
  Ok (mkMemory inner).

#[export] Instance MemoryKeyManager_KeyManager : KeyManager MemoryKeyManager := {|
  signing_view := λ m, StaticKeyManager_SigningManager (inner m);
  algorithm := λ _, ES256;
  health := λ _ _, Some Healthy;
  maybe_rotate := λ _, mret tt
|}.
End memory.

(* ------------------------------------------------------------------ *)
(** ** Ephemeral keys ([kms_delegated.rs]) *)

Section kms_delegated.
Context `{SigningCrypto, Chrono} {D : Type} `{!DataStore.DataStore D}.

Record EphemeralKeyState : Type := mkEphemeral {
  ek_encoding_key : EncodingKey;
  ek_header : Header;
  ek_jwk : json;
  ek_key_id : string;
  ek_created_at : Z;
  ek_expires_at : Z
}.

(** The data store, which the manager shares, is kept beside it. *)
Record KmsDelegatedKeyManager : Type := mkKmsManager {
  active_key : EphemeralKeyState;
  previous_keys : list EphemeralKeyState;
  cached_jwks : json;
  kms_client : KmsClient;
  config : Config.KmsDelegatedConfig;
  purpose : string;
  rotation_interval : Z;
  key_overlap : Z
}.

Definition generate_ephemeral_key (kms : KmsClient) (doc : result string bytes) (now overlap : Z) :
    result (fault KeyError) EphemeralKeyState :=
  pkcs8_doc ← map_err (λ e, Failed (KeyUnavailable ("failed to generate EC key pair: " +:+ e))) doc;
  public_key_bytes ← map_err (λ e, Failed (KeyUnavailable ("failed to parse generated key: " +:+ e)))
                       (from_pkcs8 pkcs8_doc);
  _ ← fail_if (negb (uncompressed_point public_key_bytes)) (Failed (KeyUnavailable "unexpected public key format"));
  _ ← map_err (λ e, Failed (KmsUnavailable ("KMS attestation failed: " +:+ KeyError_fmt e)))
        (kms_sign kms public_key_bytes);
  encoding_key ← map_err (λ e, Failed (KeyUnavailable ("failed to create encoding key: " +:+ e)))
                   (from_ec_pem (pkcs8_to_pem pkcs8_doc));
  expires_at ← or_panic (dt_add now overlap);
  Ok (mkEphemeral encoding_key (header_of public_key_bytes) (jwk_of public_key_bytes)
        (kid_of public_key_bytes) now expires_at).

Definition ephemeral_key_to_record (state : EphemeralKeyState) (purpose : string) : DataStore.EphemeralKeyRecord :=
  DataStore.mkKey (ek_key_id state) "" [] [] "ES256"
    (to_rfc3339 (ek_created_at state)) (to_rfc3339 (ek_expires_at state)) purpose.

(** The slices of the public key panic when it has less than 65 bytes. *)
Definition record_to_ephemeral_key (doc : result string bytes) (record : DataStore.EphemeralKeyRecord) :
    result (fault KeyError) EphemeralKeyState :=
  created_at ← map_err (λ e, Failed (KeyUnavailable ("invalid created_at timestamp: " +:+ e)))
                 (parse_utc (DataStore.kcreated_at record));
  expires_at ← map_err (λ e, Failed (KeyUnavailable ("invalid expires_at timestamp: " +:+ e)))
                 (parse_utc (DataStore.kexpires_at record));
  pkcs8_doc ← map_err (λ e, Failed (KeyUnavailable ("failed to generate key on load: " +:+ e))) doc;
  public_key_bytes ← map_err (λ e, Failed (KeyUnavailable ("failed to parse generated key: " +:+ e)))
                       (from_pkcs8 pkcs8_doc);
  _ ← fail_if (length public_key_bytes <? 65)%nat Panicked;
  encoding_key ← map_err (λ e, Failed (KeyUnavailable ("failed to create encoding key: " +:+ e)))
                   (from_ec_pem (pkcs8_to_pem pkcs8_doc));
  Ok (mkEphemeral encoding_key (header_of public_key_bytes) (jwk_of public_key_bytes)
        (kid_of public_key_bytes) created_at expires_at).

Definition build_jwks (now : Z) (active : EphemeralKeyState) (previous : list EphemeralKeyState) : json :=
  JObj [("keys", JArr (ek_jwk active :: (ek_jwk <$> filter (λ prev, now < ek_expires_at prev) previous)))].

(** [for record in &existing_keys]: a record that cannot be loaded is skipped; the
    [i]-th one is given the [i]-th fresh document. *)
Fixpoint load_states (docs : nat → result string bytes) (i : nat) (records : list DataStore.EphemeralKeyRecord) :
    result (fault KeyError) (list EphemeralKeyState) :=
  match records with
  | [] => Ok []
  | record :: records' =>
      match record_to_ephemeral_key (docs i) record with
      | Ok state => states ← load_states docs (S i) records'; Ok (state :: states)
      | Err (Failed _) => load_states docs (S i) records'
      | Err Panicked => Err Panicked
      end
  end.

(** [states.sort_by(|a, b| b.created_at.cmp(&a.created_at))], a stable sort. *)
Fixpoint insert_newest (x : EphemeralKeyState) (l : list EphemeralKeyState) : list EphemeralKeyState :=
  match l with
  | [] => [x]
  | y :: l' => if ek_created_at y <=? ek_created_at x then x :: y :: l' else y :: insert_newest x l'
  end.
Definition sort_newest (l : list EphemeralKeyState) : list EphemeralKeyState := foldr insert_newest [] l.

(** What the start sees: the instant as the store reads it, the clock when the
    initial key is generated and when the key set is built, the fresh documents. *)
Record NewEnv : Type := mkNewEnv {
  n_now_text : string;
  n_generate : Z;
  n_build : Z;
  n_docs : nat → result string bytes
}.

(** Generate and persist the initial key. *)
Definition initial_key (kms : KmsClient) (doc : result string bytes) (now overlap : Z) (purpose : string) :
    M D (fault KeyError) (EphemeralKeyState * list EphemeralKeyState) :=
  state ← lift_res (generate_ephemeral_key kms doc now overlap);
  _ ← m_map_err (λ e, Failed (KeyUnavailable ("failed to persist initial key: " +:+ DataStore.DataStoreError_fmt e)))
        (DataStore.put_ephemeral_key (ephemeral_key_to_record state purpose));
  mret (state, []).

Definition new (cfg : Config.KmsDelegatedConfig) (kms : KmsClient) (purpose : string) (env : NewEnv) :
    M D (fault KeyError) KmsDelegatedKeyManager :=
  interval ← lift_res (map_fault (λ e, KeyUnavailable ("invalid rotation_interval '" +:+
               Config.rotation_interval cfg +:+ "': " +:+ e)) (parse_duration (Config.rotation_interval cfg)));
  overlap ← lift_res (map_fault (λ e, KeyUnavailable ("invalid key_overlap '" +:+
              Config.key_overlap cfg +:+ "': " +:+ e)) (parse_duration (Config.key_overlap cfg)));
  existing_keys ← m_map_err (λ e, Failed (KeyUnavailable ("failed to load keys from datastore: " +:+
                     DataStore.DataStoreError_fmt e)))
                    (DataStore.get_active_ephemeral_keys purpose (n_now_text env));
  states ← lift_res (load_states (n_docs env) 0 existing_keys);
  '(active_state, previous_states) ←
    match sort_newest states with
    | [] => initial_key kms (n_docs env (length existing_keys)) (n_generate env) overlap purpose
    | active :: rest => mret (active, rest)
    end;
  mret (mkKmsManager active_state previous_states (build_jwks (n_build env) active_state previous_states)
          kms cfg purpose interval overlap).

(** Move the active key to the previous ones and set the new one. *)
Definition swap_active (new_state : EphemeralKeyState) (m : KmsDelegatedKeyManager) : KmsDelegatedKeyManager :=
  mkKmsManager new_state (previous_keys m ++ [active_key m]) (cached_jwks m) (kms_client m) (config m) (purpose m)
    (rotation_interval m) (key_overlap m).

Definition cleanup_expired_keys (now : Z) (md : KmsDelegatedKeyManager * D) : KmsDelegatedKeyManager * D :=
  let '(m, d) := md in
  let m' := mkKmsManager (active_key m) (filter (λ k, now < ek_expires_at k) (previous_keys m)) (cached_jwks m)
              (kms_client m) (config m) (purpose m) (rotation_interval m) (key_overlap m) in
  (m', (DataStore.delete_expired_ephemeral_keys (purpose m) (to_rfc3339 now) d).2).

Definition rebuild_cached_jwks (now : Z) (m : KmsDelegatedKeyManager) : KmsDelegatedKeyManager :=
  mkKmsManager (active_key m) (previous_keys m) (build_jwks now (active_key m) (previous_keys m)) (kms_client m)
    (config m) (purpose m) (rotation_interval m) (key_overlap m).

Definition should_rotate (now : Z) (m : KmsDelegatedKeyManager) : bool :=
  rotation_interval m <=? now - ek_created_at (active_key m).

Definition kms_maybe_rotate (env : RotateEnv) : M (KmsDelegatedKeyManager * D) (fault KeyError) unit := λ '(m, d),
  if negb (should_rotate (t_check env) m) then (Ok tt, (m, d))
  else
    match generate_ephemeral_key (kms_client m) (fresh_doc env) (t_generate env) (key_overlap m) with
    | Err e => (Err e, (m, d))
    | Ok new_state =>
        match DataStore.put_ephemeral_key (ephemeral_key_to_record new_state (purpose m)) d with
        | (Err e, d1) => (Err (Failed (KeyUnavailable ("failed to persist rotated key: " +:+
                            DataStore.DataStoreError_fmt e))), (m, d1))
        | (Ok _, d1) =>
            let '(m2, d2) := cleanup_expired_keys (t_cleanup env) (swap_active new_state m, d1) in
            (Ok tt, (rebuild_cached_jwks (t_build env) m2, d2))
        end
    end.

Definition kms_health (now : Z) (m : KmsDelegatedKeyManager) : option KeyHealth :=
  let key_age := now - ek_created_at (active_key m) in
  threshold ← td_twice (rotation_interval m);
  Some (if threshold <? key_age
        then Degraded ("key age (" +:+ format_duration key_age +:+ ") exceeds 2x rotation_interval (" +:+
                       format_duration threshold +:+ ")")
        else Healthy).

Definition kms_signing_view (m : KmsDelegatedKeyManager) : SigningManager :=
  mkSigningManager _ (ek_encoding_key (active_key m)) (ek_header (active_key m)) (cached_jwks m)
    (ek_key_id (active_key m)).

#[export] Instance KmsDelegatedKeyManager_KeyManager : KeyManager (KmsDelegatedKeyManager * D) := {|
  signing_view := λ md, kms_signing_view md.1;
  algorithm := λ _, ES256;
  health := λ now md, kms_health now md.1;
  maybe_rotate := kms_maybe_rotate
|}.

(* ------------------------------------------------------------------ *)
(** ** The factory ([factory.rs]) *)

Inductive AnyKeyManager : Type :=
| MemoryManager (m : MemoryKeyManager)
| KmsManager (m : KmsDelegatedKeyManager).

(** The accessors of [dyn KeyManager]. *)
Definition key_view (m : AnyKeyManager) : SigningManager :=
  match m with
  | MemoryManager m => signing_view m
  | KmsManager m => kms_signing_view m
  end.

Definition build_key_manager `{!AwsKms} (read : string → result string string) (config : Config.SigningBackendConfig)
    (purpose : string) (env : NewEnv) : M D (fault string) AnyKeyManager :=
  match Config.sb_backend config with
  | Config.Memory =>
      memory_config ← lift_res (ok_or (Failed "signing backend is 'memory' but [signing.memory] section is missing")
                                  (Config.sb_memory config));
      manager ← lift_res (map_err (λ e, Failed ("failed to initialize memory key manager: " +:+ KeyError_fmt e))
                            (MemoryKeyManager_new read memory_config));
      mret (MemoryManager manager)
  | Config.KmsDelegated =>
      kms_config ← lift_res (ok_or (Failed "signing backend is 'kms_delegated' but [signing.kms_delegated] section is missing")
                               (Config.sb_kms_delegated config));
      kms_client ← lift_res
        match Config.aws_kms kms_config, Config.gcp_kms kms_config with
        | Some aws_kms, _ => Ok (AwsKmsClient (Config.kms_region aws_kms) (Config.kms_key_arn aws_kms))
        | None, Some gcp_kms => Ok (GcpKmsClient (Config.kms_key_name gcp_kms))
        | None, None => Err (Failed "signing backend is 'kms_delegated' but neither [signing.kms_delegated.aws_kms] nor [signing.kms_delegated.gcp_kms] is configured")
        end;
      manager ← m_map_fault (λ e, "failed to initialize KMS-delegated key manager: " +:+ KeyError_fmt e)
                  (new kms_config kms_client purpose env);
      mret (KmsManager manager)
  end.
End kms_delegated.

(* ------------------------------------------------------------------ *)
(** ** Durations are read back *)

Definition signed (neg : bool) (n : N) : Z := if neg then - Z.of_N n else Z.of_N n.

Lemma parse_i64_digits_pretty_go neg x s :
  i64_min ≤ signed neg x ≤ i64_max →
  parse_i64_digits neg 0 (pretty_N_go x s) = parse_i64_digits neg (signed neg x) s.
Proof.
  revert s. induction (N.lt_wf_0 x) as [x _ IH]; intros s Hx.
  destruct (decide (x = 0)%N) as [->|Hx0]; [rewrite pretty_N_go_0; by destruct neg|].
  rewrite pretty_N_go_step by lia.
  assert (x `div` 10 < x)%N by (apply N.div_lt; lia).
  unfold i64_min, i64_max in *.
  rewrite IH; [|done|clear IH; generalize dependent (x `div` 10)%N; intros; destruct neg; cbn [signed] in *; lia]. cbn [parse_i64_digits].
  destruct (pretty_N_char_digit (x `mod` 10)) as [-> ->]; [apply N.mod_lt; lia|].
  pose proof (N.div_mod x 10 ltac:(done)).
  assert ((if neg then signed neg (x `div` 10) * 10 - (Z.of_N (48 + x `mod` 10) - 48)
           else signed neg (x `div` 10) * 10 + (Z.of_N (48 + x `mod` 10) - 48)) = signed neg x) as ->
    by (destruct neg; cbn [signed]; lia).
  by rewrite (proj2 (Z.ltb_ge (signed neg x) i64_min)), (proj2 (Z.ltb_ge i64_max (signed neg x)))
    by (unfold i64_min, i64_max; lia).
Qed.

Lemma parse_i64_digits_pretty neg (x : N) :
  i64_min ≤ signed neg x ≤ i64_max → parse_i64_digits neg 0 (pretty x) = Ok (signed neg x).
Proof.
  intros Hx. unfold pretty, pretty_N. case_decide as H0; [subst; by destruct neg|].
  by rewrite parse_i64_digits_pretty_go.
Qed.

Lemma parse_i64_pretty z : i64_min ≤ z ≤ i64_max → parse_i64 (pretty z) = Ok z.
Proof.
  intros Hz. destruct z as [|p|p]; [done|..].
  - change (parse_i64 (pretty (Npos p)) = Ok (Zpos p)). pose proof (parse_i64_digits_pretty false (Npos p) Hz) as Hd.
    pose proof (pretty_N_digits (Npos p)) as Hc. pose proof (pretty_N_nonempty (Npos p)).
    destruct (pretty (Npos p)) as [|c s]; [done|]. cbn in Hc. apply andb_true_iff in Hc as [Hc _].
    cbn [parse_i64]. rewrite bool_decide_eq_false_2; [done|]. by intros [-> | ->].
  - pose proof (parse_i64_digits_pretty true (Npos p) Hz) as Hd.
    pose proof (pretty_N_nonempty (Npos p)).
    change (parse_i64 (String "-" (pretty (Npos p))) = Ok (Zneg p)). cbn [parse_i64]. rewrite bool_decide_eq_true_2 by auto.
    rewrite bool_decide_eq_true_2 by done. unfold Str.is_empty. rewrite bool_decide_eq_false_2 by done. exact Hd.
Qed.

(** Every text [format_duration] writes is one graphic word. *)
Lemma pretty_Z_graphic (z : Z) : Str.all_chars is_graphic (pretty z) = true ∧ pretty z ≠ "".
Proof.
  assert (∀ n : N, Str.all_chars is_graphic (pretty n) = true) as Hn.
  { intros n. unfold pretty, pretty_N. case_decide; [done|]. apply pretty_go_chars; [|done].
    intros y Hy. destruct (pretty_N_char_digit y Hy) as [_ Hc]. unfold is_graphic.
    rewrite Hc, andb_true_iff, !N.leb_le. lia. }
  destruct z as [|p|p]; [done|..].
  - exact (conj (Hn (Npos p)) (pretty_N_nonempty (Npos p))).
  - split; [|done]. apply (Hn (Npos p)).
Qed.

Lemma take_last_byte t c :
  Str.take_bytes (String.length (t +:+ String c "") - 1) (t +:+ String c "") = t ∧
  last_byte (t +:+ String c "") = String c "".
Proof.
  unfold last_byte. rewrite str_length_app. cbn [String.length].
  replace (String.length t + 1 - 1)%nat with (String.length t) by lia.
  induction t as [|a t [IH1 IH2]]; [done|]. rewrite app_cons. cbn [String.length Str.take_bytes Str.drop_bytes].
  by rewrite IH1, IH2.
Qed.

Section duration_laws.
Context `{ChronoLaws}.

(** Reading a printed number with a unit. *)
Lemma parse_duration_unit n (c : ascii) unit :
  (c = "s"%char ∧ unit = 1) ∨ (c = "m"%char ∧ unit = 60) ∨ (c = "h"%char ∧ unit = 3600) ∨
    (c = "d"%char ∧ unit = 86400) →
  Z.abs (n * unit) ≤ 9223372036854775 → parse_duration (pretty n +:+ String c "") = Ok (secs (n * unit)).
Proof.
  intros Hc Hn. destruct (pretty_Z_graphic n) as [Hg Hne].
  assert (is_graphic c = true ∧ (128 <=? Str.code c)%N = false) as [Hcg Hcc] by (destruct_or!; destruct_and!; by subst).
  unfold parse_duration. rewrite trim_graphic by (rewrite all_chars_app, Hg; cbn; by rewrite Hcg).
  destruct (take_last_byte (pretty n) c) as [-> ->].
  unfold Str.is_empty. rewrite bool_decide_eq_false_2 by (destruct (pretty n); by rewrite ?app_cons).
  cbn [Str.all_chars]. rewrite Hcc. cbn [andb].
  rewrite parse_i64_pretty by (unfold i64_min, i64_max; destruct_or!; lia).
  destruct (td_units_total n unit Hn) as [d Hd]. pose proof (td_units_value _ _ _ Hd) as ->.
  destruct_or!; destruct_and!; subst; unfold or_panic; by rewrite ?bool_decide_eq_true_2, ?Hd by done.
Qed.

(** A duration printed for the health report is read back by [parse_duration] to
    the same whole number of seconds, negative ones included. *)
Lemma duration_roundtrip n :
  Z.abs n ≤ 9223372036854775 → parse_duration (format_duration (secs n)) = Ok (secs n).
Proof.
  intros Hn. assert (Z.quot (secs n) 1000000000 = n) as Hs by (apply Z.quot_mul; lia).
  unfold format_duration. rewrite Hs.
  assert (∀ u, 0 < u → (u <=? n) && (Z.rem n u =? 0) = true → Z.quot n u * u = n) as Hq.
  { intros u Hu [Hle%Z.leb_le Hr%Z.eqb_eq]%andb_true_iff. pose proof (Z.quot_rem n u ltac:(lia)). lia. }
  destruct ((86400 <=? n) && _) eqn:H1; [|destruct ((3600 <=? n) && _) eqn:H2; [|destruct ((60 <=? n) && _) eqn:H3]].
  - rewrite (parse_duration_unit _ "d" 86400); [by rewrite Hq|tauto|by rewrite Hq].
  - rewrite (parse_duration_unit _ "h" 3600); [by rewrite Hq|tauto|by rewrite Hq].
  - rewrite (parse_duration_unit _ "m" 60); [by rewrite Hq|tauto|by rewrite Hq].
  - rewrite (parse_duration_unit _ "s" 1); [by rewrite Z.mul_1_r|tauto|lia].
Qed.
End duration_laws.

(* ------------------------------------------------------------------ *)
(** ** Rotation *)

Section rotation.
Context `{SigningCryptoLaws} `{ChronoLaws} {D : Type} `{!DataStore.DataStore D}.

(** A key state holds the private key, the identifier and the published entry of
    one document. *)
Definition key_state_ok (st : EphemeralKeyState) : Prop :=
  ∃ der pub, from_pkcs8 der = Ok pub ∧ from_ec_pem (pkcs8_to_pem der) = Ok (ek_encoding_key st) ∧
    ek_header st = header_of pub ∧ ek_jwk st = jwk_of pub ∧ ek_key_id st = kid_of pub.

(** The cached key set is the one of the current keys, built at some instant. *)
Record manager_ok (m : KmsDelegatedKeyManager) : Prop := {
  mo_active : key_state_ok (active_key m);
  mo_previous : Forall key_state_ok (previous_keys m);
  mo_cached : ∃ t, cached_jwks m = build_jwks t (active_key m) (previous_keys m)
}.

Lemma generate_ok kms doc now overlap st :
  generate_ephemeral_key kms doc now overlap = Ok st →
  key_state_ok st ∧ ek_created_at st = now ∧ ek_expires_at st = now + overlap.
Proof.
  unfold generate_ephemeral_key. intros (der & Hd & Hst)%bind_Ok. apply bind_Ok in Hst as (pub & Hp & Hst).
  apply bind_Ok in Hst as (_ & _ & Hst). apply bind_Ok in Hst as (_ & _ & Hst).
  apply bind_Ok in Hst as (k & Hk & Hst). apply bind_Ok in Hst as (e & He & [= <-]).
  apply map_err_Ok in Hp, Hk. apply ok_or_Ok, dt_add_value in He as ->. split; [|done]. by exists der, pub.
Qed.

Lemma record_ok doc record st :
  record_to_ephemeral_key doc record = Ok st → key_state_ok st.
Proof.
  unfold record_to_ephemeral_key. intros (c & _ & Hst)%bind_Ok. apply bind_Ok in Hst as (x & _ & Hst).
  apply bind_Ok in Hst as (der & Hd & Hst). apply bind_Ok in Hst as (pub & Hp & Hst).
  apply bind_Ok in Hst as (_ & _ & Hst). apply bind_Ok in Hst as (k & Hk & [= <-]).
  apply map_err_Ok in Hp, Hk. by exists der, pub.
Qed.

Lemma load_states_ok docs i records states :
  load_states docs i records = Ok states → Forall key_state_ok states.
Proof.
  revert i states. induction records as [|r records IH]; intros i states; cbn; [by intros [= <-]|].
  destruct (record_to_ephemeral_key (docs i) r) as [st|[e|]] eqn:Hr; [|apply IH|done].
  intros (sts & Hs & [= <-])%bind_Ok. constructor; [by eapply record_ok|by eapply IH].
Qed.

Lemma insert_newest_perm x l : insert_newest x l ≡ₚ x :: l.
Proof.
  induction l as [|y l IH]; [done|]. cbn. destruct (_ <=? _); [done|]. rewrite IH. apply Permutation_swap.
Qed.

Lemma sort_newest_perm l : sort_newest l ≡ₚ l.
Proof. induction l as [|x l IH]; [done|]. cbn. rewrite insert_newest_perm. by rewrite IH. Qed.

Lemma manager_ok_publishes m : manager_ok m → ∃ dk, publishes (kms_signing_view m) dk.
Proof.
  intros [(der & pub & Hp & Hk & Hh & Hj & Hi) _ [t Ht]].
  destruct (publishes_first der pub _ (ek_jwk <$> filter (λ prev, t < ek_expires_at prev) (previous_keys m)) Hp Hk)
    as [dk Hdk].
  exists dk. unfold kms_signing_view. rewrite Ht, Hh, Hi. unfold build_jwks. by rewrite Hj.
Qed.

(** The cases of a rotation check. *)
Lemma kms_maybe_rotate_inv env m d r m' d' :
  kms_maybe_rotate env (m, d) = (r, (m', d')) →
  m' = m ∨
  (r = Ok tt ∧ should_rotate (t_check env) m = true ∧ ∃ st,
     generate_ephemeral_key (kms_client m) (fresh_doc env) (t_generate env) (key_overlap m) = Ok st ∧
     m' = rebuild_cached_jwks (t_build env) (cleanup_expired_keys (t_cleanup env) (swap_active st m, d)).1).
Proof.
  unfold kms_maybe_rotate. destruct (should_rotate _ m); [|by intros [= <- <- <-]; left]. cbn [negb].
  destruct (generate_ephemeral_key _ _ _ _) as [st|e]; [|by intros [= <- <- <-]; left].
  destruct (DataStore.put_ephemeral_key _ d) as [[u|e] d1]; [|by intros [= <- <- <-]; left].
  intros [= <- <- <-]. right. split_and!; try done. by exists st.
Qed.

Lemma manager_ok_rotate env m d r m' d' :
  manager_ok m → kms_maybe_rotate env (m, d) = (r, (m', d')) → manager_ok m'.
Proof.
  intros Hm [->|(_ & _ & st & [Hst _]%generate_ok & ->)]%kms_maybe_rotate_inv; [done|].
  destruct Hm as [Ha Hp _]. split; cbn; [done| |by eexists]. apply Forall_filter_keep, Forall_app. by repeat constructor.
Qed.

Lemma new_ok cfg kms p env d m d' : new cfg kms p env d = (Ok m, d') → manager_ok m.
Proof.
  unfold new. intros Hm. apply M_bind_inv in Hm as [(? & ? & _ & Hm)|(? & _ & ?)]; [|done].
  apply M_bind_inv in Hm as [(? & ? & _ & Hm)|(? & _ & ?)]; [|done].
  apply M_bind_inv in Hm as [(existing & d1 & _ & Hm)|(? & _ & ?)]; [|done].
  apply M_bind_inv in Hm as [(states & d2 & Hs & Hm)|(? & _ & ?)]; [|done].
  injection Hs as Hs <-. apply load_states_ok in Hs. rewrite <- sort_newest_perm in Hs.
  apply M_bind_inv in Hm as [([act prev] & d3 & Hk & [= <- <-])|(? & _ & ?)]; [|done].
  assert (key_state_ok act ∧ Forall key_state_ok prev) as [? ?]; [|split; cbn; try done; by eexists].
  destruct (sort_newest states) as [|act' rest]; [|by injection Hk as <- <- <-; apply Forall_cons].
  unfold initial_key in Hk. apply M_bind_inv in Hk as [(st & d4 & Hg & Hk)|(? & _ & ?)]; [|done].
  apply M_bind_inv in Hk as [(? & ? & _ & [= <- <- <-])|(? & _ & ?)]; [|done].
  injection Hg as Hg _. apply generate_ok in Hg as [? _]. done.
Qed.

#[export] Instance KmsDelegatedKeyManager_laws : KeyManagerLaws (KmsDelegatedKeyManager * D).
Proof.
  refine {| km_ok := λ md, manager_ok md.1 |}.
  - intros [m d]. apply manager_ok_publishes.
  - intros env [m d] r [m' d'] Hm Hr. cbn in *. eapply manager_ok_rotate; [exact Hm|exact Hr].
Defined.

(** A run of rotation checks; the store may have changed in between. *)
Definition rotations (m : KmsDelegatedKeyManager) (steps : list (RotateEnv * D)) : KmsDelegatedKeyManager :=
  foldl (λ m '(env, d), (kms_maybe_rotate env (m, d)).2.1) m steps.

Lemma rotations_ind (P : KmsDelegatedKeyManager → Prop) m steps :
  P m → (∀ env d m r m' d', (env, d) ∈ steps → P m → kms_maybe_rotate env (m, d) = (r, (m', d')) → P m') →
  P (rotations m steps).
Proof.
  revert m. induction steps as [|[env d] steps IH]; intros m Hm Hstep; [done|]. cbn [rotations foldl].
  destruct (kms_maybe_rotate env (m, d)) as [r [m' d']] eqn:E. apply IH.
  - eapply Hstep; [apply list_elem_of_here|exact Hm|exact E].
  - intros env' d1 m1 r1 m1' d1' Hin. apply Hstep. by apply list_elem_of_further.
Qed.

(** C30: from start-up on and through any number of rotation checks, whether they
    rotate, do nothing or fail, the manager publishes the key it signs with, under
    the [kid] its tokens carry. *)
Theorem rotation_keeps_publishing cfg kms p env d m d' steps :
  new cfg kms p env d = (Ok m, d') →
  ∃ dk, publishes (SigningManagerAdapter (rotations m steps, d')) dk.
Proof.
  intros Hm%new_ok. apply (manager_ok_publishes (rotations m steps)).
  apply (rotations_ind manager_ok); [done|]. intros. by eapply manager_ok_rotate.
Qed.

(** A rotation check that fails (no key document, no attestation, or the store
    refuses the new key) leaves the manager exactly as it was: it goes on signing
    with, and publishing, the current key. *)
Theorem failed_rotation_keeps_keys env m d e m' d' :
  kms_maybe_rotate env (m, d) = (Err e, (m', d')) → m' = m.
Proof. by intros [->|(? & _)]%kms_maybe_rotate_inv. Qed.

#[export] Instance MemoryKeyManager_laws : KeyManagerLaws MemoryKeyManager.
Proof.
  refine {| km_ok := λ m, ∃ der, from_pem (pkcs8_to_pem der) = Ok (inner m) |}.
  - intros m [der Hm]. by apply (from_pem_publishes der).
  - by intros env m r m' Hm [= <- <-].
Defined.

(** The manager of a PKCS#8 key file publishes the key it signs with, and no
    rotation check changes that. *)
Lemma memory_manager_publishes read cfg der m env r m' :
  read (Config.ms_key_path cfg) = Ok (pkcs8_to_pem der) → MemoryKeyManager_new read cfg = Ok m →
  maybe_rotate env m = (r, m') → m' = m ∧ ∃ dk, publishes (SigningManagerAdapter m') dk.
Proof.
  intros Hread Hnew [= <- <-]. split; [done|]. apply (km_publishes m). exists der.
  unfold MemoryKeyManager_new, from_pem_file in Hnew. rewrite Hread in Hnew.
  apply bind_Ok in Hnew as (k & Hk%map_err_Ok & [= <-]). done.
Qed.

(** The entries of the published key set. *)
Definition served_keys (m : KmsDelegatedKeyManager) : list json :=
  default [] (json_get "keys" (cached_jwks m) ≫= json_as_array).

Lemma served_build t m :
  cached_jwks m = build_jwks t (active_key m) (previous_keys m) →
  served_keys m = ek_jwk (active_key m) :: (ek_jwk <$> filter (λ k, t < ek_expires_at k) (previous_keys m)).
Proof. unfold served_keys. by intros ->. Qed.

Lemma served_active m : manager_ok m → ek_jwk (active_key m) ∈ served_keys m.
Proof. intros [_ _ [t Ht]]. rewrite (served_build t m Ht). apply list_elem_of_here. Qed.

Lemma rotations_app m s1 s2 : rotations m (s1 ++ s2) = rotations (rotations m s1) s2.
Proof. apply foldl_app. Qed.

Lemma rotations_ok m steps : manager_ok m → manager_ok (rotations m steps).
Proof. intros Hm. apply (rotations_ind manager_ok); [done|]. intros. by eapply manager_ok_rotate. Qed.

(** C31: a key that signed tokens at some time stays in the published key set through
    all later rotations, until its expiry. *)
Theorem signed_keys_served_until_expiry cfg kms p env d m d' steps1 steps2 :
  new cfg kms p env d = (Ok m, d') →
  let st := active_key (rotations m steps1) in
  (∀ env d, (env, d) ∈ steps2 → t_cleanup env < ek_expires_at st ∧ t_build env < ek_expires_at st) →
  ek_jwk st ∈ served_keys (rotations m (steps1 ++ steps2)).
Proof.
  intros Hm%new_ok st Ht. rewrite rotations_app. apply (rotations_ok m steps1) in Hm.
  set (m1 := rotations m steps1) in *.
  assert (manager_ok (rotations m1 steps2) ∧ st ∈ active_key (rotations m1 steps2) :: previous_keys (rotations m1 steps2) ∧
          ek_jwk st ∈ served_keys (rotations m1 steps2)) as (_ & _ & ?); [|done].
  apply (rotations_ind (λ m, manager_ok m ∧ st ∈ active_key m :: previous_keys m ∧ ek_jwk st ∈ served_keys m)).
  { split_and!; [done|apply list_elem_of_here|by apply served_active]. }
  intros env' d1 m0 r m' d2 Hin (Hok & Hst & Hserved) Hr.
  split; [by eapply manager_ok_rotate|]. destruct (Ht _ _ Hin) as [Hc Hb].
  apply kms_maybe_rotate_inv in Hr as [->|(_ & _ & new_st & _ & ->)]; [done|].
  assert (st ∈ filter (λ k, t_cleanup env' < ek_expires_at k) (previous_keys m0 ++ [active_key m0])) as Hprev.
  { apply list_elem_of_filter. split; [done|]. apply elem_of_app. apply elem_of_cons in Hst as [->|?]; [|by left].
    right. apply list_elem_of_here. }
  split; cbn [rebuild_cached_jwks cleanup_expired_keys swap_active active_key previous_keys fst].
  - by apply list_elem_of_further.
  - unfold served_keys. cbn. apply list_elem_of_further, list_elem_of_fmap. exists st. split; [done|].
    by apply list_elem_of_filter.
Qed.

(** The overlap runs from the creation of a key, not from its replacement: with an
    overlap no longer than the rotation interval, a rotation unpublishes the key it
    replaces at once. *)
Lemma short_overlap_unpublishes env m d m' d' :
  kms_maybe_rotate env (m, d) = (Ok tt, (m', d')) → should_rotate (t_check env) m = true →
  m' ≠ m → t_check env ≤ t_cleanup env →
  ek_expires_at (active_key m) ≤ ek_created_at (active_key m) + rotation_interval m →
  active_key m ∉ previous_keys m'.
Proof.
  intros Hr Hs%Z.leb_le Hne Ht He. apply kms_maybe_rotate_inv in Hr as [?|(_ & _ & st & _ & ->)]; [done|].
  cbn. intros [Hlt _]%list_elem_of_filter. lia.
Qed.

(** Between the exchange of the keys and the rebuilding of the key set, while the
    expired keys are deleted from the store, tokens carry a [kid] that the served
    set does not have. *)
Lemma swapped_key_unpublished st m dk :
  (∀ e, e ∈ served_keys m → (json_get "kid" e ≫= json_as_str) ≠ Some (ek_key_id st)) →
  ¬ publishes (kms_signing_view (swap_active st m)) dk.
Proof.
  intros Hno (_ & _ & _ & keys & pre & entry & post & x & y & Hk & -> & _ & Hkid & _).
  apply (Hno entry); [|done]. unfold served_keys. cbn [kms_signing_view swap_active jwks cached_jwks] in Hk.
  rewrite Hk. cbn. apply elem_of_app. right. apply list_elem_of_here.
Qed.

(** A restart never restores a key: the state loaded for a record has the
    identifier of the freshly generated document. *)
Lemma reload_fresh_kid doc record st :
  record_to_ephemeral_key doc record = Ok st →
  ∃ der pub, doc = Ok der ∧ from_pkcs8 der = Ok pub ∧ ek_key_id st = kid_of pub.
Proof.
  unfold record_to_ephemeral_key. intros (c & _ & Hst)%bind_Ok. apply bind_Ok in Hst as (x & _ & Hst).
  apply bind_Ok in Hst as (der & Hd & Hst). apply bind_Ok in Hst as (pub & Hp & Hst).
  apply bind_Ok in Hst as (_ & _ & Hst). apply bind_Ok in Hst as (k & Hk & [= <-]).
  apply map_err_Ok in Hd, Hp. by exists der, pub.
Qed.

(* ------------------------------------------------------------------ *)
(** ** No KMS client attests a public key *)

Lemma generate_attested kms doc now overlap st :
  generate_ephemeral_key kms doc now overlap = Ok st →
  ∃ data, len data = 65 ∧ is_ok (kms_sign kms data) = true.
Proof.
  unfold generate_ephemeral_key. intros (der & _ & Hst)%bind_Ok. apply bind_Ok in Hst as (pub & _ & Hst).
  apply bind_Ok in Hst as (u & Hu & Hst). apply bind_Ok in Hst as (sig & Hs & _).
  apply fail_if_Ok, negb_false_iff, andb_true_iff in Hu as [Hu%Nat.eqb_eq _]. apply map_err_Ok in Hs.
  exists pub. rewrite Hs. split; [|done]. unfold len. by rewrite Hu.
Qed.

(** C32: with a store that holds no keys yet, the factory never builds a
    KMS-delegated manager: the AWS client is asked to sign the 65 bytes of the public
    key as a digest, which the service refuses, and the GCP client always fails. *)
Theorem kms_delegated_never_starts `{!AwsKms, !AwsKmsLaws} read cfg p env d d' :
  Config.sb_backend cfg = Config.KmsDelegated →
  DataStore.get_active_ephemeral_keys p (n_now_text env) d = (Ok [], d') →
  is_ok (build_key_manager read cfg p env d).1 = false.
Proof.
  intros Hb Hempty. unfold build_key_manager. rewrite Hb.
  destruct (Config.sb_kms_delegated cfg) as [kc|]; [|done].
  assert (∀ kms, (∀ data, len data = 65 → is_ok (kms_sign kms data) = false) →
            ∀ m d1, new kc kms p env d ≠ (Ok m, d1)) as Hno.
  { intros kms Hk m d1 Hm. unfold new in Hm.
    apply M_bind_inv in Hm as [(? & ? & Hl & Hm)|(? & _ & ?)]; [|done]. injection Hl as _ <-.
    apply M_bind_inv in Hm as [(? & ? & Hl & Hm)|(? & _ & ?)]; [|done]. injection Hl as _ <-.
    apply M_bind_inv in Hm as [(existing & d2 & Hl & Hm)|(? & _ & ?)]; [|done].
    unfold m_map_err in Hl. rewrite Hempty in Hl. injection Hl as <- <-.
    apply M_bind_inv in Hm as [(states & d3 & Hl & Hm)|(? & _ & ?)]; [|done]. injection Hl as <- <-.
    apply M_bind_inv in Hm as [(k & d3 & Hl & Hm)|(? & _ & ?)]; [|done]. cbn [sort_newest foldr] in Hl.
    apply M_bind_inv in Hl as [(st & d4 & Hg & _)|(? & _ & ?)]; [|done]. injection Hg as Hg _.
    apply generate_attested in Hg as (data & Hd & Hok). rewrite (Hk data Hd) in Hok. done. }
  unfold mbind, M_bind, lift_res, ok_or, m_map_fault, mret, M_ret.
  destruct (Config.aws_kms kc) as [aws|]; [|destruct (Config.gcp_kms kc) as [gcp|]; [|done]].
  - destruct (new _ _ _ _ _) as [[m|[e|]] d1] eqn:E; [|done..]. exfalso. refine (Hno _ _ m d1 E).
    intros data Hd. cbn. pose proof (aws_sign_digest_only (Config.kms_region aws) (Config.kms_key_arn aws) data ltac:(lia)) as Hs.
    by destruct (aws_sign_send _ _ _).
  - destruct (new _ _ _ _ _) as [[m|[e|]] d1] eqn:E; [|done..]. exfalso. by refine (Hno _ _ m d1 E).
Qed.

End rotation.

(* ------------------------------------------------------------------ *)
(** ** Witnesses *)

Module DemoKeys.
Export StaticKey.ToyCrypto.
Import Demo.

#[export] Instance demo_store_ops : DataStore.DataStore Demo.store := LocalStore.LocalDataStore_DataStore.

#[export] Instance demo_chrono : Chrono := {|
  td_units := λ n u, Some (secs (n * u));
  td_twice := λ d, Some (2 * d);
  dt_add := λ t d, Some (t + d);
  to_rfc3339 := λ t, pretty t;
  parse_utc := parse_i64
|}.

#[export] Instance demo_chrono_laws : ChronoLaws.
Proof. split; cbn; by intros; simplify_eq. Qed.

(** A service that attests everything, and AWS with its limit on digests. *)
Definition demo_kms : KmsClient := mkKmsClient Ok (λ _ _, Ok true).

#[export] Instance demo_aws : AwsKms := {|
  aws_sign_send := λ _ _ data, if len data =? 32 then Ok (Some data) else Err "ValidationException";
  aws_verify_send := λ _ _ _ _, Ok true
|}.

#[export] Instance demo_aws_laws : AwsKmsLaws.
Proof. split. intros region arn data Hd%Z.eqb_neq. cbn. by rewrite Hd. Qed.

Definition demo_config : Config.KmsDelegatedConfig :=
  Config.mkKmsDelegated "6h" "24h" "ES256" (Some (Config.mkAwsKms "arn:aws:kms:k" "eu-west-1")) None.

Definition hours (n : Z) : Z := secs (n * 3600).

Definition demo_new_env : NewEnv := mkNewEnv "0" (hours 1) (hours 1) (λ _, Ok [65]).
Definition demo_start : result (fault KeyError) KmsDelegatedKeyManager * Demo.store :=
  new demo_config demo_kms "signing" demo_new_env Demo.demo_store.

(** One check before the key is due, a failing one, and one that rotates. *)
Definition rotate_at (n : Z) (doc : result string bytes) : RotateEnv * Demo.store :=
  (mkRotateEnv (hours n) (hours n) (hours n) (hours n) doc, Demo.demo_store).
Definition demo_steps : list (RotateEnv * Demo.store) :=
  [rotate_at 2 (Ok [66]); rotate_at 8 (Err "no entropy"); rotate_at 9 (Ok [66])].

Lemma demo_started : is_ok demo_start.1 = true.
Proof. vm_compute. reflexivity. Qed.

Lemma demo_expiry : match demo_start.1 with Ok m => ek_expires_at (active_key m) | Err _ => 0 end = hours 25.
Proof. vm_compute. reflexivity. Qed.
End DemoKeys.

Import DemoKeys.

Lemma duration_roundtrip_witness : parse_duration (format_duration (secs (-90))) = Ok (secs (-90)).
Proof. apply duration_roundtrip. vm_compute. discriminate. Defined.

Lemma rotation_keeps_publishing_witness :
  ∃ m d', demo_start = (Ok m, d') ∧
    ∃ dk, publishes (SigningManagerAdapter (rotations m demo_steps, d')) dk.
Proof.
  pose proof demo_started as Hs. destruct demo_start as [[m|e] d'] eqn:E; [|discriminate Hs].
  exists m, d'. split; [done|]. exact (rotation_keeps_publishing demo_config demo_kms "signing" demo_new_env Demo.demo_store m d' demo_steps E).
Defined.

Lemma signed_keys_served_until_expiry_witness :
  ∃ m d', demo_start = (Ok m, d') ∧ ek_jwk (active_key m) ∈ served_keys (rotations m ([] ++ demo_steps)).
Proof.
  pose proof demo_started as Hs. pose proof demo_expiry as He.
  destruct demo_start as [[m|e] d'] eqn:E; [|discriminate Hs]. cbn [fst] in He.
  exists m, d'. split; [done|].
  apply (signed_keys_served_until_expiry demo_config demo_kms "signing" demo_new_env Demo.demo_store m d' [] demo_steps E).
  cbn [rotations foldl]. rewrite He. intros env d Hin.
  repeat (apply elem_of_cons in Hin as [[= -> ->]|Hin]; [split; reflexivity|]). by apply not_elem_of_nil in Hin.
Defined.

Definition demo_state : EphemeralKeyState :=
  let pub := 4 :: 65 :: repeat 48 63 in
  mkEphemeral tt (header_of pub) (jwk_of pub) (kid_of pub) (hours 1) (hours 25).
Definition demo_manager : KmsDelegatedKeyManager :=
  mkKmsManager demo_state [] (build_jwks (hours 1) demo_state []) demo_kms demo_config "signing" (hours 6) (hours 24).
Definition failing_env : RotateEnv := (rotate_at 8 (Err "no entropy")).1.

Lemma failed_rotation_keeps_keys_witness :
  (kms_maybe_rotate failing_env (demo_manager, Demo.demo_store)).2.1 = demo_manager.
Proof.
  apply (failed_rotation_keeps_keys failing_env demo_manager Demo.demo_store
           (Failed (KeyUnavailable "failed to generate EC key pair: no entropy")) _ Demo.demo_store).
  reflexivity.
Defined.

Definition demo_memory : Config.MemorySigningConfig := Config.mkMemorySigning "/etc/qm/key.pem".
Definition demo_read (path : string) : result string string := Ok (pkcs8_to_pem [65]).

Lemma memory_manager_publishes_witness :
  ∃ m dk, MemoryKeyManager_new demo_read demo_memory = Ok m ∧ publishes (SigningManagerAdapter m) dk.
Proof.
  assert (is_ok (MemoryKeyManager_new demo_read demo_memory) = true) as Hs by (vm_compute; reflexivity).
  destruct (MemoryKeyManager_new demo_read demo_memory) as [m|e] eqn:E; [|discriminate Hs].
  destruct (memory_manager_publishes demo_read demo_memory [65] m failing_env (Ok tt) m eq_refl E eq_refl) as [_ [dk Hdk]].
  by exists m, dk.
Defined.

Definition demo_backend : Config.SigningBackendConfig :=
  Config.mkSigningBackend Config.KmsDelegated None (Some demo_config).

Lemma kms_delegated_never_starts_witness :
  is_ok (build_key_manager demo_read demo_backend "signing" demo_new_env Demo.demo_store).1 = false.
Proof.
  apply (kms_delegated_never_starts demo_read demo_backend "signing" demo_new_env Demo.demo_store Demo.demo_store);
    [reflexivity|]. vm_compute. reflexivity.
Defined.

End KeyManager.
