(* ===== verification/KeySteps.v ===== *)
(** * What key management does to the store ([src/src/keymanager/])

    Building a key manager, rotating its key and dropping expired keys read and write
    records of ephemeral keys.  Over a store that keeps keys apart ([KeySafety]) they
    leave the policies alone, whether they succeed, fail half way or panic. *)

From S2P Require Import Prelude DataStore Config StaticKey KeyManager PolicyCrud BilletCrud StoreSafety.

Module KeySteps.
Import DataStore StaticKey KeyManager StoreSafety.

Section keys.
Context `{SigningCrypto} `{Chrono} `{AwsKms} {D : Type} `{KeySafety D}.

Lemma writes_map_fault {E F A} W (f : E → F) (m : M D (fault E) A) :
  writes ss_ok ss_holds W m → writes ss_ok ss_holds W (m_map_fault f m).
Proof.
  intros Hm d r d' Hd Hr. unfold m_map_fault in Hr. destruct (m d) as [x d1] eqn:Hx. injection Hr as _ <-.
  by apply (Hm _ _ _ Hd Hx).
Qed.

Lemma new_quiet cfg kms p env : quiet ss_ok ss_holds (new cfg kms p env).
Proof. unfold new, initial_key. footprint. Qed.

#[local] Hint Resolve writes_map_fault new_quiet : footprint.

Lemma build_key_manager_quiet read cfg p env :
  quiet ss_ok ss_holds (build_key_manager read cfg p env : M D (fault string) AnyKeyManager).
Proof. unfold build_key_manager. footprint. Qed.

Lemma build_key_manager_step read cfg p env d : ss_ok d →
  store_step [] d ((build_key_manager read cfg p env : M D (fault string) AnyKeyManager) d).2.
Proof. apply writes_step, build_key_manager_quiet. Qed.

Lemma cleanup_step now m d : ss_ok d → store_step [] d (cleanup_expired_keys now (m, d)).2.
Proof. apply writes_step, safe_delete_expired_ephemeral_keys. Qed.

(** Each way out of a rotation, the ones that leave the key unswapped included. *)
Lemma rotate_step env m d : ss_ok d → store_step [] d (kms_maybe_rotate env (m, d)).2.2.
Proof.
  intros Hd. unfold kms_maybe_rotate. case_match; [by apply store_step_refl|].
  destruct (generate_ephemeral_key _ _ _ _) as [k|e]; [|by apply store_step_refl].
  pose proof (writes_step [] _ d (safe_put_ephemeral_key (ephemeral_key_to_record k (purpose m))) Hd) as Hp.
  destruct (put_ephemeral_key _ d) as [[u|e] d1]; [|exact Hp]. cbn [fst snd] in *.
  pose proof (cleanup_step (t_cleanup env) (swap_active k m) d1 (proj1 Hp)) as Hc.
  destruct (cleanup_expired_keys _ _) as [m2 d2]. by eapply store_step_trans.
Qed.
End keys.

End KeySteps.
