(* ===== verification/AnyStore.v ===== *)
(** * No privilege escalation, whatever the store

    The running system of [Authorization] over any store that is [StoreSafety], which
    the cloud stores are: writes that fail half way, errors that do not say whether
    they happened, identifiers that collide.  The theorem follows a billet of an answer
    back to the request of an administrator that was allowed to grant it. *)

From S2P Require Import Prelude Cache PathPattern DataStore DynamoApi Dynamo CedarApi AuditLog Demo Sync.
From S2P Require Import Cedar Resolver PolicyCrud BilletCrud StoreSafety Backends Token Config StaticKey KeyManager KeySteps.

Module AnyStore.
Import Cache PathPattern DataStore CedarApi Sync Resolver StoreSafety.

(* ------------------------------------------------------------------ *)
(** ** Synchronisation *)

Section sync.
Context `{CedarLaws} {D : Type} `{StoreSafety D} (S : string → Prop).
Hypothesis S_parses : ∀ s, S s → is_ok (parse_policy_set s) = true.

(** Every policy of the set comes from a statement of [S]. *)
Definition from_statements (ps : PolicySet) : Prop :=
  ∀ p, p ∈ ps_policies ps → ∃ s ps' q, S s ∧ parse_policy_set s = Ok ps' ∧ q ∈ ps_policies ps' ∧ policy_equiv p q.

Definition store_safe (d : D) : Prop := ss_ok d ∧ ∀ s, ss_holds d s → S s.

Definition sync_safe (s : PolicySyncService (D := D)) : Prop :=
  policy_set_handle s = policy_set <$> state s ∧ store_safe (data_store s) ∧
  ∀ st, state s = Some st → from_statements (policy_set st).

Lemma quiet_safe {E A} (m : M D E A) d r d' : quiet ss_ok ss_holds m → store_safe d → m d = (r, d') → store_safe d'.
Proof.
  intros Hm [Hd Hs] Hr. destruct (Hm _ _ _ Hd Hr) as [Hd' Hs']. split; [done|].
  intros s [Hh|Hh]%Hs'; [by apply Hs|by apply not_elem_of_nil in Hh].
Qed.

(** What is listed and parses comes from the store. *)
Lemma listed_from d l d' ps :
  store_safe d → list_all_policies d = (Ok l, d') → parse_policies l = Ok ps → from_statements ps.
Proof.
  intros [Hd Hs] Hl Hps p Hp. apply map_err_Ok in Hps. pose proof (listed_held _ _ _ Hd Hl) as Hheld.
  rewrite Forall_forall in Hheld.
  assert (∀ s, s ∈ statement <$> l → S s) as Hall by (intros s (r & -> & Hr)%list_elem_of_fmap; by apply Hs, Hheld).
  destruct (parse_join (statement <$> l) ps) with (p := p) as (s & ps' & q & Hin & Hrest); [|done|done|].
  - apply Forall_forall. intros s Hin. by apply S_parses, Hall.
  - exists s, ps', q. split; [by apply Hall|done].
Qed.

Lemma empty_from ps : parse_policy_set "" = Ok ps → from_statements ps.
Proof. destruct parse_empty as (ps0 & -> & He). intros [= <-] p. rewrite He. by intros ?%not_elem_of_nil. Qed.

(** A round reads the store only. *)
Lemma sync_round_store now dur uuid s : ss_ok (data_store s) →
  store_step [] (data_store s) (data_store (sync_round now dur uuid s)).
Proof.
  intros Hd. destruct (sync_round_state now dur uuid s) as (_ & _ & ->).
  unfold sync_once, try_ok, on_store, set_handle, set_sync_state. unfold_monad.
  pose proof (writes_step [] _ _ safe_list_all_policies Hd) as H1'.
  destruct (list_all_policies (data_store s)) as [rp d1]. cbn [fst snd] in *.
  pose proof (writes_step [] _ _ safe_list_billets (proj1 H1')) as H2'.
  destruct (list_billets d1) as [rb d2] eqn:Eb. cbn [fst snd] in *.
  pose proof (store_step_trans _ _ _ _ H1' H2') as H12.
  destruct rp as [rp|ep], rb as [rb|eb]; cbn; rewrite ?Eb; cbn;
    try destruct (parse_policies rp) as [ps|pe]; cbn; rewrite ?Eb; cbn;
    destruct (state s); cbn; try destruct (parse_policy_set ""); cbn; done.
Qed.

Lemma sync_once_safe s : sync_safe s → sync_safe (sync_once s).2.
Proof.
  intros (Hh & Hd & Hst). unfold sync_once, try_ok, on_store, set_handle, set_sync_state. unfold_monad.
  destruct (list_all_policies (data_store s)) as [rp d1] eqn:Ep.
  pose proof (quiet_safe _ _ _ _ safe_list_all_policies Hd Ep) as Hd1. cbn [fst snd].
  destruct (list_billets d1) as [rb d2] eqn:Eb.
  pose proof (quiet_safe _ _ _ _ safe_list_billets Hd1 Eb) as Hd2. unfold sync_safe.
  destruct rp as [rp|ep], rb as [rb|eb]; cbn; rewrite ?Eb; cbn;
    try destruct (parse_policies rp) as [ps|pe] eqn:Ps; cbn; rewrite ?Eb; cbn;
    destruct (state s) as [st|] eqn:Est; cbn;
    try destruct (parse_policy_set "") as [ps0|] eqn:P0; cbn; split_and!; try done;
    try (intros ? [= <-]; cbn); eauto using listed_from, empty_from.
Qed.

Lemma sync_round_safe now dur uuid s : sync_safe s → sync_safe (sync_round now dur uuid s).
Proof.
  intros Hs%sync_once_safe. destruct (sync_round_state now dur uuid s) as (E1 & E2 & E3).
  unfold sync_safe. by rewrite E1, E2, E3.
Qed.
End sync.
(* ------------------------------------------------------------------ *)
(** ** The system *)

Section system.
Context `{CedarLaws} `{RegexLib} `{HashIter} {D : Type} `{KeySafety D} {C : Type} `{CacheLaws C}.
Context `{StaticKey.SigningCrypto} `{KeyManager.Chrono} `{KeyManager.AwsKms}.
Context (system_billets : list string) (cache_ttl : Z) (matcher : PathPatternMatcher)
  (to_rfc3339 : Z → string).

(** [requests] records the statements that passed the checks, with their billets. *)
Record System : Type := mkSystem {
  sync : PolicySyncService (D := D);
  cache : C;
  requests : list (string * string)
}.

Definition authorizer_of (s : System) : Cedar.CedarAuthorizer (D := D) :=
  Cedar.mkAuthorizer (sync s) system_billets.
Definition resolver_of (s : System) : BilletResolverImpl (D := D) :=
  mkResolver (Cedar.batch_is_authorized_entity (authorizer_of s)) (sync s) cache_ttl matcher to_rfc3339.

Definition with_store (d : D) (s : PolicySyncService (D := D)) : PolicySyncService :=
  mkSync (state s) (policy_set_handle s) d (audit_service s).

(** A request of an administrator, and another instance that starts up. *)
Definition admin_request (o : BilletCrud.admin_op) (s : System) : System :=
  mkSystem (with_store (BilletCrud.admin_exec system_billets o (data_store (sync s))) (sync s)) (cache s)
    (option_list (admitted_request system_billets o) ++ requests s).
Definition bootstrap (now : string) (s : System) : System :=
  mkSystem (with_store (BilletCrud.bootstrap_system_billets now (data_store (sync s))).2 (sync s)) (cache s) (requests s).

(** Key managers on the same store, of this instance or of another: one is built, or
    rotates its key. *)
Definition new_keys (read : string → result string string) (cfg : Config.SigningBackendConfig) (purpose : string)
    (env : KeyManager.NewEnv) (s : System) : System :=
  mkSystem (with_store (KeyManager.build_key_manager read cfg purpose env (data_store (sync s))).2 (sync s)) (cache s)
    (requests s).
Definition rotate_keys (env : KeyManager.RotateEnv) (m : KeyManager.KmsDelegatedKeyManager) (s : System) : System :=
  mkSystem (with_store (KeyManager.kms_maybe_rotate env (m, data_store (sync s))).2.2 (sync s)) (cache s) (requests s).

Inductive step : System → option Resolution → System → Prop :=
| step_admin o s : step s None (admin_request o s)
| step_bootstrap now s : step s None (bootstrap now s)
| step_new_keys read cfg purpose env s : step s None (new_keys read cfg purpose env s)
| step_rotate_keys env m s : step s None (rotate_keys env m s)
| step_sync now dur uuid s :
    step s None (mkSystem (sync_round now dur uuid (sync s)) (cache s) (requests s))
| step_resolve now wall input s r c' :
    resolve (resolver_of s) now wall input (cache s) = (r, c') →
    step s (match r with Ok res => Some res | Err _ => None end) (mkSystem (sync s) c' (requests s)).

Inductive run : System → list Resolution → System → Prop :=
| run_nil s : run s [] s
| run_cons s o s1 rs s2 : step s o s1 → run s1 rs s2 → run s (option_list o ++ rs) s2.

(** A request that may grant billet [b]: its statement holds a permit policy whose scope
    covers [b], and it was made for [b] itself or for a system billet other than the
    guardrails. *)
Definition granted (h : list (string * string)) (b : string) : Prop :=
  ∃ b' s ps q u, (b', s) ∈ h ∧ parse_policy_set s = Ok ps ∧ q ∈ ps_policies ps ∧
    policy_effect q = Permit ∧ Cedar.is_billet u b ∧ resource_matches (policy_resource q) u ∧
    (b' = b ∨ (b' ∈ system_billets ∧ b' ≠ "quartermaster-guardrails")).

(** The statement of a request that passed the checks. *)
Definition requested (h : list (string * string)) (s : string) : Prop :=
  ∃ b, (b, s) ∈ h ∧ PolicyCrud.admitted_statement system_billets b s.

Definition system_inv (s : System) : Prop :=
  sync_safe (requested (requests s)) (sync s) ∧
  cache_holds (λ _ bs, Forall (granted (requests s)) bs) (cache s).

Lemma requested_parses h s : requested h s → is_ok (parse_policy_set s) = true.
Proof. intros (b & _ & ps & -> & _). done. Qed.

Lemma any_granted_mono h h' b : h ⊆ h' → granted h b → granted h' b.
Proof. intros Hh (b' & s & ps & q & u & Hin & Hrest). exists b', s, ps, q, u. auto. Qed.

Lemma requested_mono h h' s : h ⊆ h' → requested h s → requested h' s.
Proof. intros Hh (b & Hin & Ha). exists b. auto. Qed.

Lemma from_mono (S S' : string → Prop) ps :
  (∀ s, S s → S' s) → from_statements S ps → from_statements S' ps.
Proof. intros HS Hf p Hp. destruct (Hf p Hp) as (s & ps' & q & Hs & Hrest). exists s, ps', q. auto. Qed.

(** The heart of the argument: a permit that is in force on [b] is a grant. *)
Lemma any_permitted_granted h ps b :
  from_statements (requested h) ps → Cedar.permitted ps b → granted h b.
Proof.
  intros Hf (rq & es & Hb & (p & Hp & Heff & Hsat) & _).
  destruct (Hf p Hp) as (s & ps' & q & (b' & Hin & ps'' & Hps'' & Hguard & Hown) & Hps' & Hq & (He & Hres & _)).
  rewrite Hps' in Hps''. injection Hps'' as <-. apply scope_spec in Hsat. rewrite Hres in Hsat.
  rewrite Heff in He. symmetry in He.
  exists b', s, ps', q, (request_resource rq). split_and!; try done.
  destruct (decide (b' ∈ system_billets)) as [Hs|Hs].
  - right. split; [done|]. intros Hg. specialize (Hguard Hg q Hq). congruence.
  - left. specialize (Hown Hs q Hq). unfold PolicyCrud.owned_by in Hown. destruct Hb as [_ <-].
    destruct (policy_resource q); cbn in *; try done; [by subst; destruct Hown..|].
    destruct Hsat as [_ ->]. by destruct Hown.
Qed.

(** Changing the store, when what is written was requested. *)
Lemma store_change W d h' s :
  system_inv s → store_step W (data_store (sync s)) d → requests s ⊆ h' → (∀ x, x ∈ W → requested h' x) →
  system_inv (mkSystem (with_store d (sync s)) (cache s) h').
Proof.
  intros ((Hh & (Hd & Hs) & Hst) & Hc) [Hd' Hs'] Hin HW. split; [split_and!; cbn|].
  - done.
  - split; [done|]. intros x [Hx|Hx]%Hs'; [by eapply requested_mono, Hs|by apply HW].
  - intros st Hstate. eapply from_mono; [intros x; by apply requested_mono|by apply Hst].
  - refine (cache_holds_mono _ _ _ _ Hc). intros k bs Hbs. eapply Forall_impl; [exact Hbs|].
    intros b. by apply any_granted_mono.
Qed.

Lemma admin_inv o s : system_inv s → system_inv (admin_request o s).
Proof.
  intros Hs. pose proof Hs as ((_ & (Hd & _) & _) & _). eapply store_change; [done|by apply admin_exec_step|set_solver|].
  intros x Hx. destruct (admitted_request system_billets o) as [[b s']|] eqn:Ho; cbn in Hx; [|set_solver].
  apply list_elem_of_singleton in Hx as ->. exists b. split; [left|]. by eapply admitted_request_admitted.
Qed.

(** A change that adds no statement. *)
Lemma quiet_change d s :
  system_inv s → (ss_ok (data_store (sync s)) → store_step [] (data_store (sync s)) d) →
  system_inv (mkSystem (with_store d (sync s)) (cache s) (requests s)).
Proof.
  intros Hs Hd. eapply store_change; [done|apply Hd, Hs|done|]. by intros x ?%not_elem_of_nil.
Qed.

Lemma bootstrap_inv now s : system_inv s → system_inv (bootstrap now s).
Proof. intros Hs. apply quiet_change; [done|apply bootstrap_step]. Qed.

Lemma new_keys_inv read cfg p env s : system_inv s → system_inv (new_keys read cfg p env s).
Proof. intros Hs. apply quiet_change; [done|apply KeySteps.build_key_manager_step]. Qed.

Lemma rotate_keys_inv env m s : system_inv s → system_inv (rotate_keys env m s).
Proof. intros Hs. apply quiet_change; [done|apply KeySteps.rotate_step]. Qed.

Lemma any_resolve_inv now wall input s r c' :
  system_inv s → resolve (resolver_of s) now wall input (cache s) = (r, c') →
  system_inv (mkSystem (sync s) c' (requests s)) ∧
  ∀ res, r = Ok res → Forall (granted (requests s)) (rbillets res).
Proof.
  intros (Hs & Hc) Hr.
  destruct (resolve_preserves (resolver_of s) (authorizer_of s) (granted (requests s))
              now wall input (cache s) r c' eq_refl) as [Hc' Hres]; [|done|done|done].
  intros ps b Hps Hp. destruct Hs as (Hh & _ & Hst). cbn in Hps. rewrite Hh in Hps.
  apply fmap_Some in Hps as (st & Hst' & ->). eapply any_permitted_granted; [|done]. by apply Hst.
Qed.

Lemma any_step_inv s o s' :
  system_inv s → step s o s' →
  system_inv s' ∧ requests s ⊆ requests s' ∧
  ∀ res, o = Some res → Forall (granted (requests s')) (rbillets res).
Proof.
  intros Hs Hstep. destruct Hstep as [o s|now s|read cfg p env s|env m s|now dur uuid s|now wall input s r c' Hr].
  - split_and!; [by apply admin_inv|set_solver|done].
  - split_and!; [by apply bootstrap_inv|done|done].
  - split_and!; [by apply new_keys_inv|done|done].
  - split_and!; [by apply rotate_keys_inv|done|done].
  - destruct Hs as [Hs Hc]. split_and!; [split; [|done]|done|done].
    apply sync_round_safe; [apply requested_parses|done].
  - apply any_resolve_inv in Hr as [Hi Hres]; [|done]. split_and!; [done|done|].
    intros res Ho. apply Hres. destruct r; [by injection Ho as ->|done].
Qed.

Lemma run_inv s rs s' :
  system_inv s → run s rs s' →
  system_inv s' ∧ requests s ⊆ requests s' ∧ ∀ res b, res ∈ rs → b ∈ rbillets res → granted (requests s') b.
Proof.
  intros Hs Hrun. induction Hrun as [s|s o s1 rs s2 Hstep _ IH].
  - split_and!; [done|done|]. by intros ? ? ?%not_elem_of_nil.
  - apply any_step_inv in Hstep as (Hs1 & Hh1 & Ho); [|done].
    destruct (IH Hs1) as (Hs2 & Hh2 & Hrs). split_and!; [done|by etrans|].
    intros res b [Hres|Hres]%elem_of_app Hb; [|by eapply Hrs].
    destruct o as [res'|]; [|by apply not_elem_of_nil in Hres].
    apply list_elem_of_singleton in Hres as ->. specialize (Ho res' eq_refl).
    rewrite Forall_forall in Ho. by eapply any_granted_mono, Ho.
Qed.

(** C1: in a system whose store, loaded policy set and cache hold at the start only what
    goes back to requests that passed the checks ([system_inv]: an empty store and cache,
    say; not a store into which [qm-bootstrap add-policy] or an operator wrote a policy past
    the checks), and over any store that adds no statement of its own, in particular the
    cloud stores with their errors that do not say whether the write happened: in every
    run of administration requests, start-ups of other instances, key managers that are
    built or rotate their keys, synchronisation rounds and resolutions, each billet of
    any answer, cached or fresh, goes back to a request that passed the checks.  It
    carried a permit policy whose scope covers the billet and was made for that very
    billet or for a system billet other than the guardrails; and the system stays so. *)
Theorem no_escalation_any_store s rs s' :
  system_inv s → run s rs s' →
  system_inv s' ∧ ∀ res b, res ∈ rs → b ∈ rbillets res → granted (requests s') b.
Proof. intros Hs Hrun. destruct (run_inv _ _ _ Hs Hrun) as (? & _ & ?). done. Qed.
End system.

(* ------------------------------------------------------------------ *)
(** ** Witness: a run over DynamoDB *)

Import Demo DynamoApi.ToyDynamo.
#[local] Existing Instance no_regex.

#[local] Instance table_store : DataStore ToyTables := Dynamo.Dynamo_DataStore Dynamo.DemoDynamo.demo_store.
#[local] Instance table_safe : StoreSafety ToyTables :=
  Backends.dynamo_safe Dynamo.DemoDynamo.demo_store Dynamo.DemoDynamo.demo_deployed.
#[local] Instance table_key_safe : KeySafety ToyTables :=
  Backends.dynamo_key_safe Dynamo.DemoDynamo.demo_store Dynamo.DemoDynamo.demo_deployed.
#[local] Existing Instance Token.ToyJwt.toy_jwt.
#[local] Existing Instance StaticKey.ToyCrypto.toy_crypto.
#[local] Existing Instance KeyManager.DemoKeys.demo_chrono.
#[local] Existing Instance KeyManager.DemoKeys.demo_aws.

Definition demo_system : Type := System (D := ToyTables) (C := Memory.InMemoryCache).

Abbreviation demo_admin := (admin_request PolicyCrud.demo_system).

Definition demo_empty : demo_system := mkSystem (Sync.new (∅ : ToyTables) demo_audit) Memory.new [].

(** A billet and a policy are created and loaded. *)
Definition demo_billet (s : demo_system) : demo_system :=
  demo_admin (BilletCrud.OnBillet (BilletCrud.BCreate "t1" "reader" "" [] [] [])) s.
Definition demo_policy (s : demo_system) : demo_system :=
  demo_admin (BilletCrud.OnPolicy (PolicyCrud.PCreate "7" "t1" "reader" "permit reader" "")) (demo_billet s).
Definition demo_synced (s : demo_system) : demo_system :=
  let s := demo_policy s in mkSystem (sync_round 0 5 "u1" (sync s)) (cache s) (requests s).

Definition demo_resolved (ttl : Z) (matcher : PathPatternMatcher) (s : demo_system) :=
  resolve (resolver_of PolicyCrud.demo_system ttl matcher (λ _, "t") (demo_synced s)) 0 0 demo_input (cache (demo_synced s)).
Definition demo_end (ttl : Z) (matcher : PathPatternMatcher) (s : demo_system) : demo_system :=
  mkSystem (sync (demo_synced s)) (demo_resolved ttl matcher s).2 (requests (demo_synced s)).

Lemma demo_empty_inv : system_inv PolicyCrud.demo_system demo_empty.
Proof.
  split; [split_and!; [done| |done]|exact (map_Forall_empty _)]. split; [done|].
  intros s (it & [k Hk] & _). cbn in Hk. discriminate.
Qed.

Lemma any_demo_run_ok ttl matcher s res :
  (demo_resolved ttl matcher s).1 = Ok res →
  run (C := Memory.InMemoryCache) PolicyCrud.demo_system ttl matcher (λ _, "t") s [res] (demo_end ttl matcher s).
Proof.
  intros Hres. apply (run_cons _ _ _ _ s None (demo_billet s)); [apply step_admin|].
  apply (run_cons _ _ _ _ (demo_billet s) None (demo_policy s)); [apply step_admin|].
  apply (run_cons _ _ _ _ (demo_policy s) None (demo_synced s)); [apply step_sync|].
  apply (run_cons _ _ _ _ (demo_synced s) (Some res) (demo_end ttl matcher s) []); [|apply run_nil].
  exact (step_resolve _ _ _ _ 0 0 demo_input (demo_synced s) _ _
    (eq_trans (surjective_pairing (demo_resolved ttl matcher s)) (f_equal (λ x, (x, (demo_resolved ttl matcher s).2)) Hres))).
Qed.

Lemma any_demo_answer : (demo_resolved (secs 300) demo_matcher demo_empty).1 = Ok (mkResolution ["reader"] false).
Proof. vm_compute. reflexivity. Qed.

Lemma no_escalation_any_store_witness :
  granted PolicyCrud.demo_system (requests (demo_end (secs 300) demo_matcher demo_empty)) "reader".
Proof.
  exact (proj2 (no_escalation_any_store _ _ _ _ demo_empty _ _ demo_empty_inv (any_demo_run_ok _ _ _ _ any_demo_answer))
           (mkResolution ["reader"] false) "reader" (list_elem_of_here _ _) (list_elem_of_here _ _)).
Defined.

End AnyStore.
