(* ===== verification/Server.v ===== *)
(** * The server ([src/src/server/], [src/src/oidc/mod.rs], and the small endpoints
    [health.rs], [oidc.rs], [jwks.rs], [ca.rs] of [src/src/handler/])

    Health report, discovery document, key set and certificate chain; the routing
    tables; the two middleware functions of the source; and the TLS configuration.
    [axum], [tower] and [rustls] themselves are not modelled: a router is its table,
    and the functions of [rustls] are arguments. *)

From S2P Require Import Prelude DataStore Jwt Token Cert Config Der StaticKey KeyManager Sync.

Module Server.
Import DataStore.
Local Open Scope Z_scope.

(* ------------------------------------------------------------------ *)
(** ** Health *)

Record HealthChecks : Type := mkHealthChecks {
  hc_datastore : string;
  hc_signing_key : string;
  hc_policy_sync : string
}.

Record HealthResponse : Type := mkHealthResponse {
  health_status : string;
  checks : HealthChecks
}.

(** The derived order. *)
Inductive OverallStatus : Type := Healthy | Degraded | Unhealthy.

Definition rank (s : OverallStatus) : Z := match s with Healthy => 0 | Degraded => 1 | Unhealthy => 2 end.

(** [if worst_status < s { worst_status = s }] *)
Definition worsen (worst s : OverallStatus) : OverallStatus := if rank worst <? rank s then s else worst.

Definition healthz {D} `{DataStore D} (key_health : KeyManager.KeyHealth) (policy_sync_initialized : bool) (d : D) :
    (Z * HealthResponse) * D :=
  let worst_status := Healthy in
  let '(pinged, d') := ping d in
  let '(worst_status, datastore_check) :=
    match pinged with
    | Ok _ => (worst_status, "healthy")
    | Err e => (Unhealthy, "unhealthy: " +:+ DataStoreError_fmt e)
    end in
  let '(worst_status, signing_key_check) :=
    match key_health with
    | KeyManager.Healthy => (worst_status, "healthy")
    | KeyManager.Degraded reason => (worsen worst_status Degraded, "degraded: " +:+ reason)
    | KeyManager.Unhealthy reason => (Unhealthy, "unhealthy: " +:+ reason)
    end in
  let '(worst_status, policy_sync_check) :=
    if policy_sync_initialized then (worst_status, "healthy")
    else (worsen worst_status Degraded, "degraded: policy set not initialized") in
  let status_str := match worst_status with Healthy => "healthy" | Degraded => "degraded" | Unhealthy => "unhealthy" end in
  let http_status := match worst_status with Healthy | Degraded => 200 | Unhealthy => 503 end in
  ((http_status, mkHealthResponse status_str (mkHealthChecks datastore_check signing_key_check policy_sync_check)), d').

(* ------------------------------------------------------------------ *)
(** ** Discovery *)

Record DiscoveryDocument : Type := mkDiscovery {
  issuer : string;
  jwks_uri : string;
  response_types_supported : list string;
  subject_types_supported : list string;
  id_token_signing_alg_values_supported : list string;
  claims_supported : list string
}.

Definition DiscoveryDocument_new (iss alg : string) : DiscoveryDocument :=
  mkDiscovery iss (iss +:+ "/jwks.json") ["id_token"] ["public"] [alg]
    ["sub"; "iss"; "aud"; "exp"; "iat"; "billets"; "jti"].

(** The state of the server these endpoints read. *)
Record Published `{Token.JwtLib} : Type := mkPublished {
  issuer_url : string;
  algorithm : string;
  signing_manager : Token.SigningManager;
  authority_chain : string
}.

Definition openid_configuration `{Token.JwtLib} (s : Published) : DiscoveryDocument :=
  DiscoveryDocument_new (issuer_url s) (algorithm s).

Definition jwks `{Token.JwtLib} (s : Published) : json := Token.jwks (signing_manager s).

(** Content type and body. *)
Definition ca_chain `{Token.JwtLib} (s : Published) : string * string := ("text/plain", authority_chain s).

(* ------------------------------------------------------------------ *)
(** ** Middleware *)

Definition X_REQUEST_ID : string := "x-request-id".

(** A request: its headers, whose value is [None] when it is not visible ASCII, the
    certificates of the TLS session if there is one, and the two values the
    middleware adds. *)
Record Request : Type := mkRequest {
  headers : list (string * option string);
  peer_certificates : option (list string);
  request_id : option string;
  client_certificate : option (option string)
}.

Definition header_get (name : string) (req : Request) : option (option string) :=
  snd ∘ snd <$> list_find (λ h, h.1 = name) (headers req).

Definition inject_request_id (req : Request) : Request :=
  let id := default "unknown" (header_get X_REQUEST_ID req ≫= id) in
  mkRequest (headers req) (peer_certificates req) (Some id) (client_certificate req).

Definition inject_client_certificate (req : Request) : Request :=
  let client_cert := peer_certificates req ≫= head in
  mkRequest (headers req) (peer_certificates req) (request_id req) (Some client_cert).

(** [SetRequestIdLayer] with [MakeRequestUuid]: a header that is there is kept. *)
Definition set_request_id (uuid : string) (req : Request) : Request :=
  match header_get X_REQUEST_ID req with
  | Some _ => req
  | None => mkRequest (headers req ++ [(X_REQUEST_ID, Some uuid)]) (peer_certificates req) (request_id req)
              (client_certificate req)
  end.

(** What a handler sees of a request. *)
Definition apply_middleware (uuid : string) (req : Request) : Request :=
  inject_client_certificate (inject_request_id (set_request_id uuid req)).

(** [serve_tls]: the certificates of the session, none being an empty list. *)
Definition tls_request (session_certs : option (list string)) (hs : list (string * option string)) : Request :=
  mkRequest hs (Some (default [] session_certs)) None None.

(* ------------------------------------------------------------------ *)
(** ** Routes *)

Inductive Method : Type := GET | POST | PUT | DELETE.

Inductive Handler : Type :=
| h_openapi_json | h_token_exchange | h_openid_configuration | h_jwks | h_ca_chain | h_healthz
| h_get_billet | h_billet_discovery
| h_admin_create_billet | h_admin_list_billets | h_admin_get_billet | h_admin_update_billet | h_admin_delete_billet
| h_admin_create_policy | h_admin_list_policies | h_admin_get_policy | h_admin_update_policy | h_admin_delete_policy.

#[export] Instance Method_eq_dec : EqDecision Method.
Proof. solve_decision. Defined.
#[export] Instance Handler_eq_dec : EqDecision Handler.
Proof. solve_decision. Defined.

(** The registered routes, in order: a path pattern with its method handlers. *)
Definition Router : Type := list (string * list (Method * Handler)).

Definition data_plane_routes : Router :=
  [("/openapi.json", [(GET, h_openapi_json)]);
   ("/token", [(POST, h_token_exchange)]);
   ("/.well-known/openid-configuration", [(GET, h_openid_configuration)]);
   ("/jwks.json", [(GET, h_jwks)]);
   ("/ca/chain.pem", [(GET, h_ca_chain)]);
   ("/healthz", [(GET, h_healthz)]);
   ("/billets/:name", [(GET, h_get_billet)]);
   ("/billets/me", [(POST, h_billet_discovery)])].

Definition build_main_router (include_admin : bool) : Router :=
  data_plane_routes ++
  (if include_admin then
     [("/admin/billets", [(POST, h_admin_create_billet); (GET, h_admin_list_billets)]);
      ("/admin/billets/:name", [(GET, h_admin_get_billet); (PUT, h_admin_update_billet); (DELETE, h_admin_delete_billet)]);
      ("/admin/billets/:name/policies", [(POST, h_admin_create_policy); (GET, h_admin_list_policies)]);
      ("/admin/billets/:name/policies/:id",
         [(GET, h_admin_get_policy); (PUT, h_admin_update_policy); (DELETE, h_admin_delete_policy)])]
   else []).

Definition build_admin_router : Router :=
  [("/admin/billets", [(POST, h_admin_create_billet); (GET, h_admin_list_billets)]);
   ("/admin/billets/:name", [(GET, h_admin_get_billet); (PUT, h_admin_update_billet); (DELETE, h_admin_delete_billet)]);
   ("/admin/billets/:name/policies", [(POST, h_admin_create_policy); (GET, h_admin_list_policies)]);
   ("/admin/billets/:name/policies/:id",
      [(GET, h_admin_get_policy); (PUT, h_admin_update_policy); (DELETE, h_admin_delete_policy)])].

Definition build_router : Router := build_main_router true.

(** The listeners [main] opens.  Whether one is served by [serve_tls] or by
    [axum::serve] depends on the [tls] section. *)
Record Listener : Type := mkListener {
  address : string;
  over_tls : bool;
  router : Router
}.

Definition listeners (server : Config.ServerConfig) : list Listener :=
  let main_addr := Config.host server +:+ ":" +:+ pretty (Z.to_N (Config.port server)) in
  let tls_server_config := bool_decide (is_Some (Config.tls server)) in
  match Config.admin_addr server with
  | Some admin_addr =>
      [mkListener main_addr tls_server_config (build_main_router false); mkListener admin_addr false build_admin_router]
  | None => [mkListener main_addr tls_server_config (build_main_router true)]
  end.

(* ------------------------------------------------------------------ *)
(** ** TLS *)

Inductive TlsSetupError : Type :=
| FileNotFound (path source : string)
| CertParseError (msg : string)
| KeyParseError (msg : string)
| RustlsError (e : string)
| VerifierBuilderError (msg : string).

Definition TlsSetupError_fmt (e : TlsSetupError) : string :=
  match e with
  | FileNotFound path source => "TLS file not found '" +:+ path +:+ "': " +:+ source
  | CertParseError msg => "TLS certificate parse error: " +:+ msg
  | KeyParseError msg => "TLS private key parse error: " +:+ msg
  | RustlsError e => "rustls configuration error: " +:+ e
  | VerifierBuilderError msg => "client verifier builder error: " +:+ msg
  end.

(** [PermissiveClientCertVerifier] *)
Record ClientCertVerifier : Type := mkVerifier {
  offer_client_auth : bool;
  client_auth_mandatory : bool;
  verify_client_cert : string → result string unit
}.

Definition PermissiveClientCertVerifier : ClientCertVerifier := mkVerifier true false (λ _, Ok tt).

Section tls.
Context {PrivateKey ServerConfig : Type}.
(** Opening a file, the PEM readers of [rustls_pemfile], and the configuration
    builder. *)
Context (open_file : string → result string string).
Context (certs : string → result string (list string)).
Context (private_key : string → result string (option PrivateKey)).
Context (with_single_cert : ClientCertVerifier → list string → PrivateKey → result string ServerConfig).

Definition build_tls_config (tls_config : Config.TlsConfig) : result TlsSetupError ServerConfig :=
  cert_file ← map_err (FileNotFound (Config.tls_cert_path tls_config)) (open_file (Config.tls_cert_path tls_config));
  cert_chain ← map_err CertParseError (certs cert_file);
  _ ← fail_if (bool_decide (cert_chain = [])) (CertParseError "no certificates found in PEM file");
  key_file ← map_err (FileNotFound (Config.tls_key_path tls_config)) (open_file (Config.tls_key_path tls_config));
  key ← map_err KeyParseError (private_key key_file);
  key ← ok_or (KeyParseError "no private key found in PEM file") key;
  map_err RustlsError (with_single_cert PermissiveClientCertVerifier cert_chain key).
End tls.

(* ------------------------------------------------------------------ *)
(** ** Properties *)

(** The components of a report, and how bad each is. *)
Definition ping_status (r : result DataStoreError unit) : OverallStatus :=
  match r with Ok _ => Healthy | Err _ => Unhealthy end.
Definition key_status (k : KeyManager.KeyHealth) : OverallStatus :=
  match k with KeyManager.Healthy => Healthy | KeyManager.Degraded _ => Degraded | KeyManager.Unhealthy _ => Unhealthy end.
Definition sync_status (initialized : bool) : OverallStatus := if initialized then Healthy else Degraded.

Definition status_text (s : OverallStatus) : string :=
  match s with Healthy => "healthy" | Degraded => "degraded" | Unhealthy => "unhealthy" end.

(** The health report has the worst of the three checks as its status; it is an
    error (503) exactly when the store does not answer or there is no usable key, and
    healthy exactly when all three are. *)
Theorem health_worst_of {D} `{DataStore D} k i (d : D) :
  let r := (healthz k i d).1 in
  let s := worsen (worsen (ping_status (ping d).1) (key_status k)) (sync_status i) in
  health_status r.2 = status_text s ∧
  (r.1 = 503 ↔ (∃ e, (ping d).1 = Err e) ∨ ∃ reason, k = KeyManager.Unhealthy reason) ∧
  (r.1 = 200 ∨ r.1 = 503) ∧
  (health_status r.2 = "healthy" ↔ (ping d).1 = Ok tt ∧ k = KeyManager.Healthy ∧ i = true).
Proof.
  unfold healthz. destruct (ping d) as [[[]|e] d'], k as [|reason|reason], i; cbn; split_and!; naive_solver.
Qed.

(** The routes by method. *)
Definition flat (r : Router) : list (string * Method * Handler) :=
  r ≫= λ '(p, hs), (λ '(m, h), (p, m, h)) <$> hs.

Definition is_admin (h : Handler) : bool :=
  match h with
  | h_admin_create_billet | h_admin_list_billets | h_admin_get_billet | h_admin_update_billet | h_admin_delete_billet
  | h_admin_create_policy | h_admin_list_policies | h_admin_get_policy | h_admin_update_policy | h_admin_delete_policy => true
  | _ => false
  end.

(** With an admin address the administration handlers are reachable on that
    listener only, and in plain HTTP whatever the [tls] section; without one they are on
    the main listener, which is encrypted when the section is there.  In both modes the
    listeners together serve the same routes, each once. *)
Theorem listeners_equivalent server admin_addr :
  Config.admin_addr server = Some admin_addr →
  let combined := Config.mkServerConfig (Config.host server) (Config.port server) None (Config.tls server) in
  concat (flat ∘ router <$> listeners server) = concat (flat ∘ router <$> listeners combined) ∧
  NoDup (concat (flat ∘ router <$> listeners server)) ∧
  (∀ l, l ∈ listeners server → (∃ e, e ∈ flat (router l) ∧ is_admin e.2 = true) →
     address l = admin_addr ∧ over_tls l = false) ∧
  (∀ l, l ∈ listeners combined → over_tls l = true ↔ is_Some (Config.tls server)).
Proof.
  intros Ha combined. unfold listeners. rewrite Ha. cbn [Config.admin_addr combined]. split_and!.
  - reflexivity.
  - compute_decide.
  - intros l Hin [e [He Hadm]].
    apply elem_of_cons in Hin as [->|[->|?%not_elem_of_nil]%elem_of_cons]; [|done|done].
    assert (Forall (λ e, is_admin e.2 = false) (flat (build_main_router false))) as Hno by compute_decide.
    rewrite Forall_forall in Hno. by rewrite (Hno e He) in Hadm.
  - intros l ->%list_elem_of_singleton. cbn. apply bool_decide_eq_true.
Qed.

(** A handler always sees a request identifier, the sent one if it is readable, and
    the leaf certificate of the session if a certificate was presented. *)
Lemma middleware_values uuid req :
  request_id (apply_middleware uuid req) = Some match header_get X_REQUEST_ID req with
                                                | Some v => default "unknown" v
                                                | None => uuid
                                                end ∧
  client_certificate (apply_middleware uuid req) = Some (peer_certificates req ≫= head).
Proof.
  unfold apply_middleware, set_request_id. destruct (header_get X_REQUEST_ID req) as [v|] eqn:Hv.
  - split; [|done]. cbn. by rewrite Hv.
  - split; [|done]. cbn. unfold header_get in *. cbn in *. apply fmap_None in Hv.
    rewrite list_find_app_r by done. reflexivity.
Qed.

(** The discovery document repeats the configured algorithm, whatever the key that
    signs: an accepted configuration can advertise RS256 for tokens signed with ES256. *)
Lemma discovery_algorithm_mismatch :
  let c := Config.demo_config in
  Config.validate (λ _, None) c = Ok tt ∧
  id_token_signing_alg_values_supported (DiscoveryDocument_new (Config.issuer c) (Config.signing_algorithm (Config.signing c))) = ["RS384"] ∧
  (∀ (J : Token.JwtLib) (X : StaticKey.SigningCrypto) pub, Jwt.alg (StaticKey.header_of pub) = Jwt.ES256).
Proof. split; [vm_compute; reflexivity|]. split; [vm_compute; reflexivity|]. done. Qed.

(* ------------------------------------------------------------------ *)
(** ** Witness *)

Lemma listeners_equivalent_witness :
  concat (flat ∘ router <$> listeners (Config.mkServerConfig "0.0.0.0" 8080 (Some "127.0.0.1:9090") None)) =
  concat (flat ∘ router <$> listeners (Config.mkServerConfig "0.0.0.0" 8080 None None)).
Proof.
  refine (proj1 (listeners_equivalent (Config.mkServerConfig "0.0.0.0" 8080 (Some "127.0.0.1:9090") None) "127.0.0.1:9090" _)).
  reflexivity.
Defined.

End Server.
