(* ===== verification/Startup.v ===== *)
(** * Start-up ([src/src/main.rs])

    How [main] chooses from a loaded configuration the store, the cache, the path
    patterns and the validators of the identity sources.  A panic ([expect], [unwrap]) is
    an [Err] with its message; the files are an argument.  Listeners are in [Server],
    key managers in [KeyManager], the whole start in [Boot]. *)

From S2P Require Import Prelude Http DataStore Dynamo Jwt Identity PathPattern IdentityConfig Config Implicit Mtls Svid Oidc Gcp Jwks.

Module Startup.
Import Verify.
Local Open Scope Z_scope.

(** [r.expect(msg)], without the debug text of the error. *)
Definition expect {E A} (msg : string) (r : result E A) : result string A := map_err (λ _, msg) r.

(* ------------------------------------------------------------------ *)
(** ** Backends *)

(** [src/src/datastore/factory.rs].  The initialisation of the file-backed and of the
    Firestore store, and whether the [gcp] feature is compiled in, are arguments. *)
Section factory.
Context {L F : Type} (local_new : string → result DataStore.DataStoreError L).
Context (firestore_new : Config.FirestoreConfig → result DataStore.DataStoreError F) (gcp_feature : bool).

Inductive BuiltStore : Type :=
| LocalBuilt (store : L)
| DynamoBuilt (region : string) (store : Dynamo.DynamoDataStore)
| FirestoreBuilt (store : F).

Definition build_firestore_datastore (config : Config.DataStoreConfig) : result string BuiltStore :=
  if gcp_feature then
    firestore_config ← ok_or "datastore backend is 'firestore' but [datastore.firestore] section is missing"
                         (Config.ds_firestore config);
    store ← map_err (λ e, "failed to initialize Firestore datastore: " +:+ DataStore.DataStoreError_fmt e)
              (firestore_new firestore_config);
    Ok (FirestoreBuilt store)
  else Err "datastore backend is 'firestore' but the 'gcp' feature is not enabled. Recompile with --features gcp to use Firestore.".

Definition build_datastore (config : Config.DataStoreConfig) : result string BuiltStore :=
  match Config.ds_backend config with
  | Config.Local =>
      let path := default "/var/lib/quartermaster/data" (Config.ls_path <$> Config.ds_local config) in
      store ← map_err (λ e, "failed to initialize local datastore: " +:+ DataStore.DataStoreError_fmt e) (local_new path);
      Ok (LocalBuilt store)
  | Config.Dynamodb =>
      dynamo_config ← ok_or "datastore backend is 'dynamodb' but [datastore.dynamodb] section is missing"
                        (Config.ds_dynamodb config);
      Ok (DynamoBuilt (Config.db_region dynamo_config) (Dynamo.new dynamo_config))
  | Config.Firestore => build_firestore_datastore config
  end.

Definition data_store (c : Config.Config) : result string BuiltStore :=
  match Config.datastore c with
  | Some ds_config => expect "failed to build datastore from [datastore] config" (build_datastore ds_config)
  | None =>
      dynamo_config ← ok_or "either [datastore] or [dynamo] section must be present in config" (Config.dynamo c);
      Ok (DynamoBuilt (Config.dynamo_region dynamo_config)
            (Dynamo.new (Config.mkDynamoDb (Config.dynamo_region dynamo_config) (Config.billets_table dynamo_config)
                           (Config.policies_table dynamo_config))))
  end.
End factory.
Arguments BuiltStore : clear implicits.

Inductive CacheChoice : Type := MemoryCache | RedisCache (url : string).

(** [config.redis.as_ref().unwrap()] *)
Definition cache (c : Config.Config) : result string CacheChoice :=
  match Config.cache_backend (Config.cache c) with
  | Config.CacheRedis =>
      redis ← ok_or "called `Option::unwrap()` on a `None` value" (Config.redis c);
      Ok (RedisCache (Config.redis_url redis))
  | Config.CacheMemory => Ok MemoryCache
  end.

Section files.
Context (read_to_string : string → result string string).

(* ------------------------------------------------------------------ *)
(** ** Identity sources *)

Definition spire_source (c : Config.Config) : option IdentityConfig.SpireSourceConfig :=
  Config.identity c ≫= IdentityConfig.spire.

Definition path_pattern_matcher `{PathPattern.RegexLib} (c : Config.Config) :
    result string (option PathPattern.PathPatternMatcher) :=
  match spire_source c with
  | Some spire_source =>
      if bool_decide (IdentityConfig.path_patterns spire_source = []) then Ok None
      else match PathPattern.compile (IdentityConfig.spire_trust_domain spire_source) (IdentityConfig.path_patterns spire_source) with
           | Some (Ok matcher) => Ok (Some matcher)
           | Some (Err errors) => Err ("invalid path patterns in [identity.spire]: " +:+
                                       Str.join "; " (PathPattern.PathPatternError_fmt <$> errors))
           | None => Err "invalid capture name pattern"
           end
  | None => Ok None
  end.

Section jwt.
Context `{JwtVerify} (json_from_str : string → result string json).

Definition spire_validator (c : Config.Config) : result string (option Svid.SpireValidator) :=
  match Config.identity c with
  | Some identity_config =>
      match IdentityConfig.spire identity_config with
      | Some spire_source =>
          trust_bundle_json ← expect "failed to read SPIRE trust bundle from identity.spire.jwks_path"
                                (read_to_string (IdentityConfig.jwks_path spire_source));
          keys ← expect "failed to parse SPIRE trust bundle JWKS from identity.spire.jwks_path"
                   (Svid.parse_jwks json_from_str trust_bundle_json);
          Ok (Some (Svid.mkSpireValidator keys (IdentityConfig.spire_trust_domain spire_source)
                      (IdentityConfig.spire_audience spire_source)))
      | None => Ok None
      end
  | None =>
      match Config.spire c with
      | Some spire_config =>
          trust_bundle_json ← expect "failed to read SPIRE trust bundle for dispatcher"
                                (read_to_string (Config.trust_bundle_path spire_config));
          keys ← expect "failed to parse SPIRE trust bundle JWKS for dispatcher"
                   (Svid.parse_jwks json_from_str trust_bundle_json);
          Ok (Some (Svid.mkSpireValidator keys (Config.trust_domain spire_config) (Config.issuer c)))
      | None => Ok None
      end
  end.

Definition gcp_on (i : IdentityConfig.IdentityConfig) : bool :=
  match IdentityConfig.gcp i with Some g => IdentityConfig.gcp_enabled g | None => false end.

Definition jwks_manager (c : Config.Config) : option (gmap string Jwks.JwksSource) :=
  match Config.identity c with
  | Some identity_config =>
      if negb (bool_decide (IdentityConfig.oidc identity_config = [])) || gcp_on identity_config
      then Some (Jwks.from_config identity_config) else None
  | None => None
  end.

(** The validators hold the manager; what it answers depends on the time. *)
Definition oidc_validator (c : Config.Config) :
    option (list IdentityConfig.OidcSourceConfig * gmap string Jwks.JwksSource) :=
  identity_config ← Config.identity c;
  if bool_decide (IdentityConfig.oidc identity_config = []) then None
  else manager ← jwks_manager c; Some (IdentityConfig.oidc identity_config, manager).

Definition aws_sts_validator (c : Config.Config) : option IdentityConfig.AwsStsSourceConfig :=
  identity_config ← Config.identity c;
  aws_sts_config ← IdentityConfig.aws_sts identity_config;
  if IdentityConfig.aws_enabled aws_sts_config then Some aws_sts_config else None.

Definition gcp_validator (c : Config.Config) : option (IdentityConfig.GcpSourceConfig * gmap string Jwks.JwksSource) :=
  identity_config ← Config.identity c;
  gcp_config ← IdentityConfig.gcp identity_config;
  if IdentityConfig.gcp_enabled gcp_config then manager ← jwks_manager c; Some (gcp_config, manager) else None.

Definition implicit_billet_mapper (c : Config.Config) : Implicit.ImplicitBilletMapper :=
  match Config.identity c with
  | Some identity_config =>
      if negb (bool_decide (IdentityConfig.oidc identity_config = []))
      then Implicit.from_config (IdentityConfig.oidc identity_config) else Implicit.from_config []
  | None => Implicit.from_config []
  end.
End jwt.

Definition mtls_validator `{Mtls.X509Lib} (c : Config.Config) : result string (option Mtls.MtlsValidator) :=
  match Config.tls (Config.server c), spire_source c with
  | Some _, Some spire_source =>
      match IdentityConfig.x509_bundle_path spire_source with
      | Some path =>
          ca_pem ← map_err (λ e, "failed to read x509_bundle_path '" +:+ path +:+ "': " +:+ e) (read_to_string path);
          validator ← map_err (λ e, "failed to parse x509_bundle_path '" +:+ path +:+ "': " +:+ Mtls.MtlsError_fmt e)
                        (Mtls.from_pem ca_pem (IdentityConfig.spire_trust_domain spire_source));
          Ok (Some validator)
      | None => Ok None
      end
  | _, _ => Ok None
  end.
End files.

(* ------------------------------------------------------------------ *)
(** ** Properties *)

Section props.
Context (url_parse_error : string → option string).

(** Validation makes the [unwrap] of the Redis section safe. *)
Lemma cache_never_panics c : Config.config_valid url_parse_error c → is_ok (cache c) = true.
Proof.
  intros Hv. unfold cache. destruct (Config.cache_backend (Config.cache c)) eqn:Hb; [done|].
  destruct (Config.cv_redis _ _ Hv Hb) as [r ->]. done.
Qed.

(** With a validated configuration the factory finds the section of its backend: it
    fails only when a store cannot be initialised or the feature is missing. *)
Lemma factory_sections_present {L F} (local_new : string → result DataStore.DataStoreError L) firestore_new gcp c d e :
  Config.config_valid url_parse_error c → Config.datastore c = Some d →
  build_datastore (F := F) local_new firestore_new gcp d = Err e →
  (∃ path e', local_new path = Err e') ∨ (∃ fc e', firestore_new fc = Err e') ∨
  (Config.ds_backend d = Config.Firestore ∧ gcp = false).
Proof.
  intros Hv Hd. pose proof (Config.cv_datastore _ _ Hv d Hd) as Hok. unfold Config.datastore_ok in Hok. unfold build_datastore.
  destruct (Config.ds_backend d) eqn:Hb.
  - destruct (Config.ds_dynamodb d) as [x|]; cbn; [done|naive_solver].
  - unfold build_firestore_datastore. destruct gcp; [|naive_solver].
    destruct (Config.ds_firestore d) as [x|]; cbn; [|naive_solver]. destruct (firestore_new x) eqn:Hf; cbn; naive_solver.
  - cbn. destruct (local_new _) eqn:Hl; cbn; naive_solver.
Qed.

Context `{JwtVerify}.

Lemma foldl_add_oidc l m o :
  o ∈ l → NoDup (IdentityConfig.prefix <$> l) →
  foldl Jwks.add_oidc m l !! IdentityConfig.prefix o =
    Some (Jwks.new_source (Jwks.trim_end_matches "/" (IdentityConfig.issuer o) +:+ Jwks.well_known)
            (IdentityConfig.jwks_refresh_interval o) (IdentityConfig.max_staleness o)).
Proof.
  revert m. induction l as [|x l IH]; intros m Hin Hnd; [by apply not_elem_of_nil in Hin|]. cbn [foldl fmap list_fmap] in *.
  apply NoDup_cons in Hnd as [Hx Hnd]. apply elem_of_cons in Hin as [->|Hin]; [|by apply IH].
  assert (∀ m, IdentityConfig.prefix x ∉ (IdentityConfig.prefix <$> l) →
            foldl Jwks.add_oidc m l !! IdentityConfig.prefix x = m !! IdentityConfig.prefix x) as Hother.
  { clear. induction l as [|y l IH]; intros m Hn; [done|]. cbn [foldl fmap list_fmap] in *.
    apply not_elem_of_cons in Hn as [Hne Hn]. rewrite IH by done. unfold Jwks.add_oidc. by rewrite lookup_insert_ne. }
  rewrite Hother by done. unfold Jwks.add_oidc. apply lookup_insert_eq.
Qed.

(** The identifier of the key source of Google. *)
Definition clashes (i : IdentityConfig.IdentityConfig) (o : IdentityConfig.OidcSourceConfig) : bool :=
  gcp_on i && bool_decide (IdentityConfig.prefix o = "google").

Lemma contains_end p s : Str.contains p (s +:+ p) = true.
Proof.
  unfold Str.contains. enough (is_Some (Str.find_str p (s +:+ p))) as [x ->] by done.
  induction s as [|a s IH].
  - rewrite app_empty_l. assert (Str.strip_prefix p p = Some "") as Hp by (apply strip_prefix_Some; by rewrite app_empty_r).
    destruct p as [|a p]; [by eexists|]. unfold Str.find_str. fold Str.find_str. rewrite Hp. by eexists.
  - rewrite app_cons. unfold Str.find_str. fold Str.find_str. destruct (Str.strip_prefix p (String a (s +:+ p))); [done|].
    destruct IH as [x ->]. by eexists.
Qed.

Lemma from_config_manager c i : Config.identity c = Some i →
  (IdentityConfig.oidc i ≠ [] ∨ gcp_on i = true) → jwks_manager c = Some (Jwks.from_config i).
Proof.
  intros Hi Hon. unfold jwks_manager. rewrite Hi. destruct Hon as [Ho| ->]; [|by rewrite orb_true_r].
  by rewrite bool_decide_eq_false_2.
Qed.

(** The key source of an OIDC source, and Google's. *)
Lemma from_config_oidc i o : NoDup (IdentityConfig.prefix <$> IdentityConfig.oidc i) →
  o ∈ IdentityConfig.oidc i → clashes i o = false →
  Jwks.jwks_url <$> Jwks.from_config i !! IdentityConfig.prefix o =
    Some (Jwks.trim_end_matches "/" (IdentityConfig.issuer o) +:+ Jwks.well_known).
Proof.
  intros Hnd Ho Hcl. unfold clashes, gcp_on, Jwks.from_config in *. destruct (IdentityConfig.gcp i) as [g|];
    [destruct (IdentityConfig.gcp_enabled g)|]; try by rewrite foldl_add_oidc.
  apply bool_decide_eq_false in Hcl. rewrite lookup_insert_ne by done. by rewrite foldl_add_oidc.
Qed.

Lemma from_config_google i : gcp_on i = true →
  Jwks.jwks_url <$> Jwks.from_config i !! "google" = Some Jwks.GOOGLE_JWKS_URL.
Proof.
  unfold gcp_on, Jwks.from_config. destruct (IdentityConfig.gcp i) as [g|]; [|done]. intros ->. by rewrite lookup_insert_eq.
Qed.

Context `{!JwtVerifyLaws}.

End props.

(* ------------------------------------------------------------------ *)
(** ** Witnesses *)

(** One token, of a user of the identity provider. *)
Definition demo_payload : payload :=
  [("iss", JStr "https://idp.example.org/"); ("sub", JStr "u1"); ("aud", JStr "client"); ("exp", JNum 1900);
   ("email", JStr "ann@corp")].
#[local] Instance demo_verify : JwtVerify :=
  ToyVerify.toy_verify [("idt", ToyVerify.mkToyToken (Jwt.mkHeader Jwt.RS256 None) demo_payload "NE")].
#[local] Instance demo_verify_laws : JwtVerifyLaws := ToyVerify.toy_verify_laws _.

Definition oidc_source (prefix : string) : IdentityConfig.OidcSourceConfig :=
  IdentityConfig.mkOidcSource prefix "https://idp.example.org/" ["client"] 300 3600 [].

Definition with_sources (prefix : string) : Config.Config :=
  let d := Config.demo_config in
  Config.mkConfig (Config.issuer d) (Config.token_ttl_secs d) None (Config.dynamo d) (Config.signing d) (Config.ca d)
    (Config.cache d) (Config.redis d) (Config.rate d) (Config.server d) None None None None
    (Some (IdentityConfig.mkIdentityConfig None [oidc_source prefix] None
             (Some (IdentityConfig.mkGcpSource true "https://qm.example.org" None 300 3600))))
    Config.default_system_billets [].

(** A configuration file that parses to the given configuration. *)
Definition load_file (c : Config.Config) : result Config.ConfigError Config.Config :=
  Config.load (λ _, None) (λ _, Some "/etc/qm/config.toml") (λ _, Ok "config") (λ _, Ok c).

Lemma load_okta : load_file (with_sources "okta") = Ok (with_sources "okta").
Proof. vm_compute. reflexivity. Qed.

(** The identity provider answers, the keys are fetched, and a token is accepted. *)
Definition idp_keys : json := JObj [("keys", JArr [JObj [("kty", JStr "RSA"); ("n", JStr "N"); ("e", JStr "E")]])].
Definition idp_discovery : json := JObj [("jwks_uri", JStr "https://idp.example.org/keys")].

#[local] Instance idp_http : Http.HttpClient := {|
  Http.http_get := λ url, Ok (Http.mkResponse 200 "200 OK" (Ok url));
  Http.resp_json := λ T de r,
    ok_or "error decoding response body"
      (de (match Http.resp_text r with
           | Ok url => if bool_decide (url = "https://idp.example.org/keys") then idp_keys else idp_discovery
           | Err _ => JNull
           end))
|}.

Definition demo_identity : IdentityConfig.IdentityConfig :=
  default (IdentityConfig.mkIdentityConfig None [] None None) (Config.identity (with_sources "okta")).
Definition demo_sources : gmap string Jwks.JwksSource := Jwks.from_config demo_identity.
Definition demo_manager : gmap string Jwks.JwksSource := Jwks.refresh_source "okta" 100 demo_sources.
Definition demo_provider : Oidc.JwksProvider := Jwks.get_keys demo_manager 200.
Definition okta_keys : list DecodingKey := ["NE"].

Lemma okta_fetch :
  Jwks.fetch_keys "okta" (Jwks.trim_end_matches "/" "https://idp.example.org/" +:+ Jwks.well_known) = Ok okta_keys.
Proof. vm_compute. reflexivity. Qed.

Lemma demo_refresh :
  Jwks.steps demo_sources [Jwks.Fetched "okta" okta_keys; Jwks.Refreshed "okta" 100] (demo_manager, ∅).
Proof.
  apply (Jwks.refresh_source_steps demo_sources [] demo_sources ∅ "okta" 100
           (Jwks.new_source (Jwks.trim_end_matches "/" "https://idp.example.org/" +:+ Jwks.well_known) 300 3600) okta_keys);
    [constructor|vm_compute; reflexivity|set_solver|exact okta_fetch].
Qed.

Lemma demo_provided : Jwks.provided_by demo_sources demo_provider.
Proof.
  intros id ks ([] & Hf & [= <-])%bind_Ok.
  exists [Jwks.Fetched "okta" okta_keys; Jwks.Refreshed "okta" 100], [], demo_manager, ∅, demo_manager, ∅, 200.
  split; [exact demo_refresh|]. rewrite app_nil_r. split; [exact demo_refresh|]. split; [exact Hf|reflexivity].
Qed.

Definition demo_who : Identity.OidcIdentity := Identity.mkOidc "ann@corp" "okta" ∅ "u1".

Lemma demo_accepted :
  Oidc.validate (Oidc.mkOidcValidator [oidc_source "okta"] demo_provider) 1000 "idt" = Ok demo_who.
Proof. vm_compute. reflexivity. Qed.


(** The prefix [google] is not reserved: with it and an enabled GCP source, a
    configuration that is accepted gives the OIDC source the keys of Google. *)
Lemma google_prefix_collision :
  load_file (with_sources "google") = Ok (with_sources "google") ∧
  ∃ manager, oidc_validator (with_sources "google") = Some ([oidc_source "google"], manager) ∧
    Jwks.jwks_url <$> manager !! "google" = Some Jwks.GOOGLE_JWKS_URL.
Proof. split; [vm_compute; reflexivity|]. eexists. split; reflexivity. Qed.

(** Validation asks for neither of the two sections a store can come from: without
    both, an accepted configuration ends in a panic. *)
Definition storeless : Config.Config :=
  let d := with_sources "okta" in
  Config.mkConfig (Config.issuer d) (Config.token_ttl_secs d) None None (Config.signing d) (Config.ca d)
    (Config.cache d) (Config.redis d) (Config.rate d) (Config.server d) None None None None
    (Config.identity d) Config.default_system_billets [].

Lemma storeless_accepted :
  load_file storeless = Ok storeless ∧
  ∀ L F local_new firestore_new gcp, data_store (L := L) (F := F) local_new firestore_new gcp storeless =
    Err "either [datastore] or [dynamo] section must be present in config".
Proof. split; [vm_compute; reflexivity|]. reflexivity. Qed.

End Startup.
