(* ===== verification/TlsServer.v ===== *)
(** * The accept loop ([serve_tls] of [src/src/server/tls.rs])

    The loop spawns a task per connection; a task does the handshake, keeps the
    certificates of its session and hands every request of its connection to the
    router with them.  The interleaving of the tasks, and what comes from the sockets,
    is a list of events; [tokio], [rustls] and [hyper] are what produces them. *)

From S2P Require Import Prelude Config Server.

Module TlsServer.
Import Server.

(** What one task waits for: the end of its handshake, with
    [tls_stream.get_ref().1.peer_certificates()], a request, the end of the connection. *)
Inductive ConnEvent : Type :=
| HandshakeDone (peer_certs : option (list string))
| HandshakeFailed (e : string)
| Received (hs : list (string * option string))
| Ended (r : result string unit).

(** [listener.accept()], with the remote address, and the events of task [id]. *)
Inductive Event : Type :=
| Accept (r : result string string)
| OnConn (id : nat) (e : ConnEvent).

Inductive Task : Type :=
| Handshaking
| Serving (peer_certificates : list string)
| Finished.

(** The body of the spawned task; the request it passes to the router, if any.  An event
    that the task does not wait for does not occur. *)
Definition task_step (t : Task) (e : ConnEvent) : Task * option Request :=
  match t, e with
  | Handshaking, HandshakeDone peer_certs => (Serving (default [] peer_certs), None)
  | Handshaking, HandshakeFailed _ => (Finished, None)
  | Serving peer_certificates, Received hs => (Serving peer_certificates, Some (tls_request (Some peer_certificates) hs))
  | Serving _, Ended _ => (Finished, None)
  | _, _ => (t, None)
  end.

(** The tasks, in the order of the connections: a failed [accept] is logged and the loop
    goes on. *)
Definition serve_step (tasks : list Task) (ev : Event) : list Task * option (nat * Request) :=
  match ev with
  | Accept (Ok _) => (tasks ++ [Handshaking], None)
  | Accept (Err _) => (tasks, None)
  | OnConn id e =>
      match tasks !! id with
      | Some t => let '(t', o) := task_step t e in (<[id := t']> tasks, pair id <$> o)
      | None => (tasks, None)
      end
  end.

(** The requests the router gets, with the connections they came on. *)
Fixpoint serve_tls (tasks : list Task) (evs : list Event) : list Task * list (nat * Request) :=
  match evs with
  | [] => (tasks, [])
  | ev :: evs' =>
      let '(tasks1, o) := serve_step tasks ev in
      let '(tasks2, os) := serve_tls tasks1 evs' in
      (tasks2, option_list o ++ os)
  end.

(* ------------------------------------------------------------------ *)
(** ** One connection alone *)

Fixpoint task_run (t : Task) (es : list ConnEvent) : list Request :=
  match es with
  | [] => []
  | e :: es' => let '(t', o) := task_step t e in option_list o ++ task_run t' es'
  end.

(** The events of connection [id], once [n] connections are accepted. *)
Fixpoint own (id n : nat) (evs : list Event) : list ConnEvent :=
  match evs with
  | [] => []
  | Accept (Ok _) :: evs' => own id (S n) evs'
  | Accept (Err _) :: evs' => own id n evs'
  | OnConn i e :: evs' => if bool_decide (i = id ∧ (id < n)%nat) then e :: own id n evs' else own id n evs'
  end.

Definition is_accepted (ev : Event) : bool := match ev with Accept (Ok _) => true | _ => false end.
Definition accepted (evs : list Event) : nat := length (filter (λ ev, is_accepted ev = true) evs).

Definition requests_of (id : nat) (os : list (nat * Request)) : list Request := (filter (λ o, o.1 = id) os).*2.

Lemma requests_of_app id os os' : requests_of id (os ++ os') = requests_of id os ++ requests_of id os'.
Proof. unfold requests_of. by rewrite filter_app, fmap_app. Qed.

Lemma requests_of_option id i (o : option Request) :
  requests_of id (option_list (pair i <$> o)) = if decide (i = id) then option_list o else [].
Proof.
  unfold requests_of. destruct o as [r|]; [|by case_decide].
  change (option_list (pair i <$> Some r)) with [(i, r)]. rewrite filter_cons. cbn [fst]. by case_decide.
Qed.

(** What task [id] is, or will be once it is spawned. *)
Definition task_at (tasks : list Task) (id : nat) : Task := default Handshaking (tasks !! id).

Lemma serve_projects evs : ∀ tasks id,
  requests_of id (serve_tls tasks evs).2 = task_run (task_at tasks id) (own id (length tasks) evs).
Proof.
  unfold task_at. induction evs as [|ev evs IH]; intros tasks id; [done|]. cbn [serve_tls own].
  destruct ev as [[a|e]|i e]; cbn [serve_step].
  - specialize (IH (tasks ++ [Handshaking]) id). destruct (serve_tls _ evs) as [ts os]. cbn in *. rewrite IH.
    rewrite length_app, Nat.add_1_r. f_equal. rewrite lookup_app.
    destruct (tasks !! id); [done|]. by destruct (id - length tasks)%nat as [|k]; [|rewrite lookup_nil || destruct k].
  - specialize (IH tasks id). by destruct (serve_tls _ evs).
  - destruct (tasks !! i) as [t|] eqn:Ht.
    + destruct (task_step t e) as [t' o] eqn:Hs. specialize (IH (<[i := t']> tasks) id).
      destruct (serve_tls _ evs) as [ts os]. cbn [snd] in *. rewrite requests_of_app, requests_of_option, IH, length_insert.
      apply lookup_lt_Some in Ht as Hlt. destruct (decide (i = id)) as [->|Hne].
      * rewrite bool_decide_true by done. rewrite Ht. cbn [task_run from_option]. change (Datatypes.id t) with t.
        rewrite Hs, list_lookup_insert_eq by done. done.
      * rewrite bool_decide_false by naive_solver. by rewrite list_lookup_insert_ne.
    + specialize (IH tasks id). destruct (serve_tls _ evs) as [ts os]. cbn in *. rewrite IH.
      apply lookup_ge_None in Ht. rewrite bool_decide_false; [done|]. intros [-> ?]. lia.
Qed.

Lemma serve_length evs : ∀ tasks, length (serve_tls tasks evs).1 = (length tasks + accepted evs)%nat.
Proof.
  unfold accepted. induction evs as [|ev evs IH]; intros tasks; [cbn; lia|]. cbn [serve_tls]. rewrite filter_cons.
  destruct (serve_step tasks ev) as [ts1 o] eqn:Hs. specialize (IH ts1). destruct (serve_tls ts1 evs) as [ts os].
  cbn [fst] in *. rewrite IH.
  destruct ev as [[a|e]|i e]; cbn [is_accepted serve_step] in *; (rewrite decide_True by done) || (rewrite decide_False by done).
  - injection Hs as <- _. rewrite length_app. cbn. lia.
  - by injection Hs as <- _.
  - destruct (tasks !! i); [|by injection Hs as <- _]. destruct (task_step _ _). injection Hs as <- _. by rewrite length_insert.
Qed.

(** A task that serves was given its certificates by its own handshake. *)
Lemma task_run_certs es : ∀ t r, r ∈ task_run t es →
  ∃ certs hs, r = tls_request certs hs ∧ Received hs ∈ es ∧
    match t with
    | Handshaking => HandshakeDone certs ∈ es
    | Serving peer => certs = Some peer
    | Finished => False
    end.
Proof.
  induction es as [|e es IH]; intros t r Hr; [by apply not_elem_of_nil in Hr|]. cbn [task_run] in Hr.
  destruct t as [|peer|], e as [certs|m|hs|m]; cbn [task_step option_list app] in Hr.
  all: try (apply elem_of_cons in Hr as [->|Hr]; [by exists (Some peer), hs; split_and!; [|left|]|]).
  all: apply IH in Hr as (c & h & -> & Hh & Ht); try done.
  all: try (eexists _, h; split_and!; [done|by right|]; (by right) || done).
  exists certs, h. split_and!; [|by right|left]. subst c. by destruct certs.
Qed.

(** C37: the connections do not disturb each other: whatever order the events of the
    loop and of its tasks come in, the requests the router gets from one connection are
    those the connection would produce alone; each carries the certificates of that
    connection's own handshake, whose leaf the handlers see; and every connection that
    is accepted gets its task, after any failed accepts, handshakes and connections. *)
Theorem tls_connections_isolated evs id :
  let os := (serve_tls [] evs).2 in
  requests_of id os = task_run Handshaking (own id 0 evs) ∧
  length (serve_tls [] evs).1 = accepted evs ∧
  ∀ r, r ∈ requests_of id os → ∃ certs hs, HandshakeDone certs ∈ own id 0 evs ∧ Received hs ∈ own id 0 evs ∧
    headers r = hs ∧ ∀ uuid, client_certificate (apply_middleware uuid r) = Some (certs ≫= head).
Proof.
  intros os. pose proof (serve_projects evs [] id) as Hp. split_and!; [exact Hp|apply serve_length|].
  intros r Hr. unfold os in Hr. rewrite Hp in Hr. apply task_run_certs in Hr as (certs & hs & -> & Hh & Hc).
  exists certs, hs. split_and!; [done..|]. intros uuid. destruct (middleware_values uuid (tls_request certs hs)) as [_ ->].
  by destruct certs.
Qed.

(** Two interleaved connections, one with a certificate; a failed accept and a failed
    handshake in between. *)
Definition demo_events : list Event :=
  [Accept (Ok "10.0.0.1"); Accept (Err "too many files"); Accept (Ok "10.0.0.2"); OnConn 1 (HandshakeDone None);
   Accept (Ok "10.0.0.3"); OnConn 0 (HandshakeDone (Some ["LEAF"; "CA"])); OnConn 2 (HandshakeFailed "eof");
   OnConn 1 (Received []); OnConn 0 (Received []); OnConn 0 (Ended (Err "reset")); OnConn 1 (Received [])].

Lemma demo_requests :
  (λ o, (o.1, client_certificate (apply_middleware "u" o.2))) <$> (serve_tls [] demo_events).2 =
  [(1%nat, Some None); (0%nat, Some (Some "LEAF")); (1%nat, Some None)].
Proof. vm_compute. reflexivity. Qed.

Lemma tls_connections_isolated_witness :
  ∃ certs hs, HandshakeDone certs ∈ own 0 0 demo_events ∧ Received hs ∈ own 0 0 demo_events ∧
    client_certificate (apply_middleware "u" (tls_request (Some ["LEAF"; "CA"]) [])) = Some (certs ≫= head).
Proof.
  destruct (tls_connections_isolated demo_events 0) as (_ & _ & Hr).
  destruct (Hr (tls_request (Some ["LEAF"; "CA"]) []) (list_elem_of_here _ _)) as (certs & hs & Hc & Hh & _ & Hm).
  exists certs, hs. split; [exact Hc|]. split; [exact Hh|]. exact (Hm "u").
Defined.

End TlsServer.
