(* ===== verification/Boot.v ===== *)
(** * The start of the server ([src/src/main.rs])

    [main] from the loaded configuration to the bound listeners, in its order: the
    store, the two key managers and the authority, the system billets, the audit
    service, the synchronisation with its bounded wait, and the rest of the state of the
    server ([Startup], [Server]).  A panic is an [Err] with its message.  What is outside
    the process (files, clocks, Redis, sockets, the rounds of the background task that
    run while [main] waits) is an argument. *)

From S2P Require Import Prelude DataStore LocalStore DynamoApi Dynamo CedarApi AuditLog Demo Jwt Identity PathPattern IdentityConfig Config.
From S2P Require Import Implicit Mtls Svid Jwks RateLimit Cache Sync Cedar Resolver PolicyCrud BilletCrud StoreSafety Backends.
From S2P Require Import Token Der Cert AdminAuth StaticKey KeyManager KeySteps AnyStore Server Startup.

Module Boot.
Import DataStore Sync KeyManager StoreSafety.
Local Open Scope Z_scope.

(** One round of the background task: instant, duration and identifier. *)
Record Round : Type := mkRound { r_now : Z; r_duration : Z; r_uuid : string }.

(** [sync_rounds 0] are the rounds done before the first poll, [sync_rounds (S n)]
    those done during the sleep after poll [n]. *)
Record BootEnv : Type := mkBootEnv {
  load_config : result Config.ConfigError Config.Config;
  read_file : string → result string string;
  signing_env : NewEnv;
  ca_env : NewEnv;
  bootstrap_now : string;
  open_sinks : Config.AuditConfig → list AuditLog.Sink;
  sync_rounds : nat → list Round;
  connect_redis : string → result string unit;
  bind : string → result string unit
}.

(** [expect] on a result whose computation may itself panic. *)
Definition expect_fault {E A} (msg : string) (r : result (fault E) A) : result string A :=
  map_err (λ f, match f with Failed _ => msg | Panicked => "panicked" end) r.

Section boot.
Context `{CedarApi.CedarLib} `{PathPattern.RegexLib} `{HashIter} `{StaticKey.SigningCrypto} `{Chrono} `{AwsKms}.
Context `{Verify.JwtVerify} `{Mtls.X509Lib} `{Cert.RingIo, Cert.Rcgen}.
Context (json_from_str : string → result string json).
Context {PrivateKey ServerConfig : Type}
  (open_file : string → result string string) (certs : string → result string (list string))
  (private_key : string → result string (option PrivateKey))
  (with_single_cert : Server.ClientCertVerifier → list string → PrivateKey → result string ServerConfig).

(* ------------------------------------------------------------------ *)
(** ** Keys and the authority *)

Inductive Authority : Type :=
| KmsCa (a : Cert.KmsBackedAuthority AnyKeyManager)
| LocalCa (a : Cert.LocalAuthority).

Section keys.
Context {W : Type} `{!DataStore W}.

Definition signing_key_manager (env : BootEnv) (config : Config.Config) : M W string AnyKeyManager :=
  match Config.signing_backend config with
  | Some sb_config => λ w,
      let '(r, w') := build_key_manager (read_file env) sb_config "signing" (signing_env env) w in
      (expect_fault "failed to build signing key manager from [signing_backend] config" r, w')
  | None =>
      let mem_config := Config.mkMemorySigning (Config.signing_key_path (Config.signing config)) in
      manager ← lift_res (Startup.expect "failed to load signing key" (MemoryKeyManager_new (read_file env) mem_config));
      mret (MemoryManager manager)
  end.

Definition ca_key_manager (env : BootEnv) (ca_backend_config : Config.SigningBackendConfig) : M W string AnyKeyManager := λ w,
  let '(r, w') := build_key_manager (read_file env) ca_backend_config "ca" (ca_env env) w in
  (expect_fault "failed to build CA key manager" r, w').

Definition ca_files (env : BootEnv) (config : Config.Config) : result string (string * string) :=
  ca_key_pem ← Startup.expect "failed to read CA key" (read_file env (Config.ca_key_path (Config.ca config)));
  ca_cert_pem ← Startup.expect "failed to read CA certificate" (read_file env (Config.ca_cert_path (Config.ca config)));
  Ok (ca_key_pem, ca_cert_pem).

Definition certificate_authority (env : BootEnv) (config : Config.Config) : M W string Authority :=
  let ca := Config.ca config in
  match Config.ca_backend config with
  | Some ca_backend_config =>
      manager ← ca_key_manager env ca_backend_config;
      '(ca_key_pem, ca_cert_pem) ← lift_res (ca_files env config);
      a ← lift_res (Startup.expect "failed to initialize KMS-backed CA"
                      (Cert.KmsBackedAuthority_new manager ca_key_pem ca_cert_pem (Config.ca_ttl_secs ca)));
      mret (KmsCa a)
  | None =>
      '(ca_key_pem, ca_cert_pem) ← lift_res (ca_files env config);
      a ← lift_res (Startup.expect "failed to initialize CA"
                      (Cert.LocalAuthority_new ca_key_pem ca_cert_pem (Config.ca_ttl_secs ca) (Config.include_billets_ou ca)));
      mret (LocalCa a)
  end.

(* ------------------------------------------------------------------ *)
(** ** Synchronisation *)

Definition AUDIT_PANIC : string := "mpsc bounded channel requires buffer > 0".

(** [AuditService::new]: a channel without room is refused by a panic of [tokio]. *)
Definition audit_service (env : BootEnv) (config : Config.Config) : result string AuditLog.AuditService :=
  let audit_config := default Config.AuditConfig_default (Config.audit config) in
  _ ← fail_if (Config.buffer_capacity audit_config =? 0) AUDIT_PANIC;
  Ok (AuditLog.new (open_sinks env audit_config) (Z.to_nat (Config.buffer_capacity audit_config))).

(** The rounds the background task really does: it panics after the initial one when
    the interval of the timer is zero. *)
Definition sync_task (interval : Z) (done_before : nat) (rounds : list Round) : list Round :=
  if interval =? 0 then take (1 - done_before) rounds else rounds.

Definition run_rounds (rounds : list Round) (s : PolicySyncService (D := W)) : PolicySyncService :=
  foldl (λ s r, sync_round (r_now r) (r_duration r) (r_uuid r) s) s rounds.

(** [for _ in 0..50 { if policy_sync.is_initialized() { break } sleep(100 ms) }], from
    poll [n] on, [done] rounds being over.  The answer counts the sleeps. *)
Fixpoint wait_ready (polls : nat) (interval : Z) (rounds : nat → list Round) (n done_ : nat)
    (s : PolicySyncService (D := W)) : nat * PolicySyncService :=
  match polls with
  | O => (n, s)
  | S polls' =>
      if is_initialized s then (n, s)
      else
        let now := sync_task interval done_ (rounds (S n)) in
        wait_ready polls' interval rounds (S n) (done_ + length now) (run_rounds now s)
  end.

(** [PolicySyncService::new], [start] and the wait. *)
Definition waited (env : BootEnv) (config : Config.Config) (audit : AuditLog.AuditService) (w : W) :
    nat * PolicySyncService (D := W) :=
  let interval := Config.resolve_policy_sync_interval config in
  let first := sync_task interval 0 (sync_rounds env 0) in
  wait_ready 50 interval (sync_rounds env) 0 (length first) (run_rounds first (Sync.new w audit)).

Definition start_sync (env : BootEnv) (config : Config.Config) (audit : AuditLog.AuditService) :
    M W string (nat * PolicySyncService (D := W)) := λ w,
  (Ok (waited env config audit w), data_store (waited env config audit w).2).

(** [bootstrap_system_billets], whose error is only logged. *)
Definition bootstrap (env : BootEnv) : M W string unit := λ w,
  (Ok tt, (BilletCrud.bootstrap_system_billets (bootstrap_now env) w).2).
End keys.

(* ------------------------------------------------------------------ *)
(** ** The rest of the state *)

(** What depends on the configuration and the files only. *)
Record Parts : Type := mkParts {
  p_cache : Startup.CacheChoice;
  p_matcher : option PathPattern.PathPatternMatcher;
  p_resolver_matcher : PathPattern.PathPatternMatcher;
  p_spire : option Svid.SpireValidator;
  p_jwks : option (gmap string Jwks.JwksSource);
  p_oidc : option (list IdentityConfig.OidcSourceConfig * gmap string Jwks.JwksSource);
  p_aws : option IdentityConfig.AwsStsSourceConfig;
  p_gcp : option (IdentityConfig.GcpSourceConfig * gmap string Jwks.JwksSource);
  p_implicit : Implicit.ImplicitBilletMapper;
  p_mtls : option Mtls.MtlsValidator;
  p_tls : option ServerConfig;
  p_listeners : list Server.Listener
}.

Definition connect_cache (env : BootEnv) (config : Config.Config) : result string Startup.CacheChoice :=
  choice ← Startup.cache config;
  match choice with
  | Startup.RedisCache url => _ ← Startup.expect "failed to connect to Redis" (connect_redis env url); Ok choice
  | Startup.MemoryCache => Ok choice
  end.

(** [unwrap_or_else]: without patterns, a matcher that extracts nothing. *)
Definition resolver_matcher (m : option PathPattern.PathPatternMatcher) : result string PathPattern.PathPatternMatcher :=
  match m with
  | Some matcher => Ok matcher
  | None =>
      match PathPattern.compile "" [] with
      | Some (Ok matcher) => Ok matcher
      | Some (Err _) => Err "called `Result::unwrap()` on an `Err` value"
      | None => Err "invalid capture name pattern"
      end
  end.

Definition tls_server_config (config : Config.Config) : result string (option ServerConfig) :=
  match Config.tls (Config.server config) with
  | Some tls_config =>
      c ← map_err (λ e, "failed to build TLS config: " +:+ Server.TlsSetupError_fmt e)
            (Server.build_tls_config open_file certs private_key with_single_cert tls_config);
      Ok (Some c)
  | None => Ok None
  end.

Definition bind_listeners (env : BootEnv) (config : Config.Config) : result string (list Server.Listener) :=
  match Server.listeners (Config.server config) with
  | [main; admin] =>
      _ ← Startup.expect "failed to bind main listener" (bind env (Server.address main));
      _ ← Startup.expect "failed to bind admin listener" (bind env (Server.address admin));
      Ok [main; admin]
  | ls => _ ← try_for_each (λ l, Startup.expect "failed to bind" (bind env (Server.address l))) ls; Ok ls
  end.

Definition parts (env : BootEnv) (config : Config.Config) : result string Parts :=
  cache ← connect_cache env config;
  matcher ← Startup.path_pattern_matcher config;
  resolver_matcher ← resolver_matcher matcher;
  spire ← Startup.spire_validator (read_file env) json_from_str config;
  mtls ← Startup.mtls_validator (read_file env) config;
  tls ← tls_server_config config;
  listeners ← bind_listeners env config;
  Ok (mkParts cache matcher resolver_matcher spire (Startup.jwks_manager config) (Startup.oidc_validator config)
        (Startup.aws_sts_validator config) (Startup.gcp_validator config) (Startup.implicit_billet_mapper config)
        mtls tls listeners).

(* ------------------------------------------------------------------ *)
(** ** The whole start *)

Section state.
Context {W : Type}.

Record Booted : Type := mkBooted {
  b_config : Config.Config;
  b_signing : AnyKeyManager;
  b_authority : Authority;
  b_sync : PolicySyncService (D := W);
  b_sleeps : nat;
  b_parts : Parts
}.
End state.

(** The components that [AppState] holds, made of these. *)
Section components.
Context {W : Type} `{!DataStore W} (b : Booted (W := W)).

Definition local_authorizer : Cedar.CedarAuthorizer (D := W) :=
  Cedar.mkAuthorizer (b_sync b) (Config.system_billets (b_config b)).

Definition rate_limiter : RateLimit.InMemoryLimiter :=
  RateLimit.new (Config.requests_per_minute (Config.rate (b_config b))).

Definition resolver (to_rfc3339 : Z → string) : Resolver.BilletResolverImpl (D := W) :=
  Resolver.mkResolver (Cedar.batch_is_authorized_entity local_authorizer) (b_sync b)
    (secs (Config.cache_ttl_secs (Config.cache (b_config b)))) (p_resolver_matcher (b_parts b)) to_rfc3339.

(** [SigningManagerAdapter::new(signing_key_manager)] *)
Definition signing_manager : Token.SigningManager := key_view (b_signing b).

Definition issuer : Token.Es256Issuer :=
  Token.mkIssuer signing_manager (Config.issuer (b_config b)) (Config.token_ttl_secs (b_config b))
    (Config.billet_claims (b_config b)).

Definition admin_authenticator : AdminAuth.AdminAuthenticatorImpl :=
  AdminAuth.mkAuthenticator signing_manager (Cedar.is_authorized_admin local_authorizer) (Config.issuer (b_config b)).
End components.

(** After the configuration and the choice of the store. *)
Definition boot_on {W} `{!DataStore W} (env : BootEnv) (config : Config.Config) : M W string (Booted (W := W)) :=
  signing ← signing_key_manager env config;
  authority ← certificate_authority env config;
  _ ← bootstrap env;
  audit ← lift_res (audit_service env config);
  '(sleeps, policy_sync) ← start_sync env config audit;
  p ← lift_res (parts env config);
  mret (mkBooted config signing authority policy_sync sleeps p).

Context {L F : Type} (local_new : string → result DataStoreError L)
  (firestore_new : Config.FirestoreConfig → result DataStoreError F) (gcp_feature : bool).

(** [operations] are those of the store that was built, over the world behind it. *)
Definition boot {W} (operations : Startup.BuiltStore L F → DataStore W) (env : BootEnv) : M W string (Booted (W := W)) :=
  config ← lift_res (Startup.expect "failed to load configuration" (load_config env));
  built ← lift_res (Startup.data_store local_new firestore_new gcp_feature config);
  let _ := operations built in
  boot_on env config.

(* ------------------------------------------------------------------ *)
(** ** The wait *)

Lemma wait_ready_bound `{!DataStore W} polls interval rounds n k (s : PolicySyncService (D := W)) :
  let '(m, s') := wait_ready polls interval rounds n k s in
  (n ≤ m ≤ n + polls)%nat ∧ (is_initialized s' = false → m = n + polls)%nat.
Proof.
  revert n k s. induction polls as [|polls IH]; intros n k s; cbn [wait_ready]; [split; [lia|intros; lia]|].
  destruct (is_initialized s) eqn:Hi; [split; [lia|congruence]|].
  specialize (IH (S n) (k + length (sync_task interval k (rounds (S n))))%nat (run_rounds (sync_task interval k (rounds (S n))) s)).
  destruct (wait_ready _ _ _ _ _ _) as [m s']. destruct IH as [Hm Hs]. split; [lia|]. intros Hf. specialize (Hs Hf). lia.
Qed.

Lemma run_rounds_inv `{!DataStore W} (P : PolicySyncService (D := W) → Prop) rs s :
  (∀ now dur uuid s, P s → P (sync_round now dur uuid s)) → P s → P (run_rounds rs s).
Proof. intros Hstep. unfold run_rounds. revert s. induction rs as [|r rs IH]; intros s Hs; [done|]. by apply IH, Hstep. Qed.

(** An invariant of the rounds holds after the wait. *)
Lemma wait_ready_inv `{!DataStore W} (P : PolicySyncService (D := W) → Prop) polls interval rounds n k s :
  (∀ now dur uuid s, P s → P (sync_round now dur uuid s)) → P s → P (wait_ready polls interval rounds n k s).2.
Proof.
  intros Hstep. revert n k s. induction polls as [|polls IH]; intros n k s Hs; cbn [wait_ready]; [done|].
  destruct (is_initialized s); [done|]. by apply IH, run_rounds_inv.
Qed.
Lemma waited_inv `{!DataStore W} (P : PolicySyncService (D := W) → Prop) env config audit w :
  (∀ now dur uuid s, P s → P (sync_round now dur uuid s)) → P (Sync.new w audit) → P (waited env config audit w).2.
Proof. intros Hstep Hs. unfold waited. apply wait_ready_inv; [done|by apply run_rounds_inv]. Qed.

Lemma waited_bound `{!DataStore W} env config audit (w : W) :
  ((waited env config audit w).1 ≤ 50)%nat ∧
  (is_initialized (waited env config audit w).2 = false → (waited env config audit w).1 = 50%nat).
Proof.
  unfold waited. match goal with |- context [wait_ready ?p ?i ?r ?n ?k ?s] =>
    pose proof (wait_ready_bound p i r n k s) as Hb; destruct (wait_ready p i r n k s) as [m s'] end.
  destruct Hb as [Hm Hi]. cbn in *. split; [lia|exact Hi].
Qed.

Lemma Ok_inj {E A} (a b : A) : Ok (E := E) a = Ok b → a = b.
Proof. by intros [=]. Qed.

(** A start that succeeds, step by step. *)
Lemma boot_on_inv `{!DataStore W} env config (w : W) b w' :
  boot_on env config w = (Ok b, w') →
  ∃ w1 w2 audit, signing_key_manager env config w = (Ok (b_signing b), w1) ∧
    certificate_authority env config w1 = (Ok (b_authority b), w2) ∧
    audit_service env config = Ok audit ∧
    (b_sleeps b, b_sync b) = waited env config audit (BilletCrud.bootstrap_system_billets (bootstrap_now env) w2).2 ∧
    parts env config = Ok (b_parts b) ∧ b_config b = config.
Proof.
  unfold boot_on. intros Hr.
  apply M_bind_inv in Hr as [(signing & w1 & Hs & Hr)|(e & _ & [=])].
  apply M_bind_inv in Hr as [(authority & w2 & Ha & Hr)|(e & _ & [=])].
  apply M_bind_inv in Hr as [([] & w3 & Hb & Hr)|(e & _ & [=])]. injection Hb as <-.
  apply M_bind_inv in Hr as [(audit & w4 & Hl & Hr)|(e & _ & [=])]. injection Hl as Hau <-.
  apply M_bind_inv in Hr as [([n sync] & w5 & Hy & Hr)|(e & _ & [=])].
  unfold start_sync in Hy. apply pair_equal_spec in Hy as [Hy%Ok_inj _].
  apply M_bind_inv in Hr as [(p & w6 & Hl & Hr)|(e & _ & [=])]. injection Hl as Hp _. injection Hr as <- _.
  exists w1, w2, audit. cbn [b_signing b_authority b_sleeps b_sync b_parts b_config].
  split_and!; [exact Hs|exact Ha|exact Hau|exact (eq_sym Hy)|exact Hp|reflexivity].
Qed.

(* ------------------------------------------------------------------ *)
(** ** What a start does to the store *)

Section safe.
Context {W : Type} `{!DataStore W} `{!StoreSafety W} `{!KeySafety W}.

Lemma quiet_fault {E A} msg (m : M W (fault E) A) :
  quiet ss_ok ss_holds m → quiet ss_ok ss_holds (λ w, let '(r, w') := m w in (expect_fault msg r, w')).
Proof.
  intros Hm d r d' Hd Hr. destruct (m d) as [x d1] eqn:Hx. injection Hr as _ <-. by apply (Hm _ _ _ Hd Hx).
Qed.

Lemma signing_quiet env config : quiet ss_ok ss_holds (signing_key_manager env config : M W string _).
Proof.
  unfold signing_key_manager. case_match; [|footprint].
  apply (quiet_fault _ _ (KeySteps.build_key_manager_quiet _ _ _ _)).
Qed.

Lemma authority_quiet env config : quiet ss_ok ss_holds (certificate_authority env config : M W string _).
Proof.
  unfold certificate_authority. case_match; [|footprint]. apply writes_bind; [|intros ?; footprint].
  apply (quiet_fault _ _ (KeySteps.build_key_manager_quiet _ _ _ _)).
Qed.

Lemma start_sync_quiet env config audit : quiet ss_ok ss_holds (start_sync env config audit : M W string _).
Proof.
  intros w r w' Hw Hr. unfold start_sync in Hr. apply pair_equal_spec in Hr as [_ <-]. apply (waited_inv (λ s, store_step [] w (data_store s))); [|by apply store_step_refl].
  intros now dur uuid s Hs. eapply store_step_trans; [exact Hs|apply AnyStore.sync_round_store, Hs].
Qed.

Lemma boot_on_quiet env config : quiet ss_ok ss_holds (boot_on env config : M W string _).
Proof.
  apply writes_bind; [apply signing_quiet|intros ?]. apply writes_bind; [apply authority_quiet|intros ?].
  apply writes_bind; [intros w r w' Hw [= _ <-]; by apply bootstrap_step|intros ?].
  apply writes_bind; [footprint|intros ?]. apply writes_bind; [apply start_sync_quiet|intros []; footprint].
Qed.

(** The synchronised policies of a server that started come from the store as it was. *)
Lemma booted_sync_safe `{!CedarApi.CedarLaws} (S : string → Prop) env config w b w' :
  (∀ s, S s → is_ok (CedarApi.parse_policy_set s) = true) → AnyStore.store_safe S w →
  boot_on env config w = (Ok b, w') → AnyStore.sync_safe S (b_sync b).
Proof.
  intros HS [Hw Hh] (w1 & w2 & audit & H1' & H2' & _ & Hy & _)%boot_on_inv.
  replace (b_sync b) with (waited env config audit (BilletCrud.bootstrap_system_billets (bootstrap_now env) w2).2).2
    by (by rewrite <-Hy).
  apply signing_quiet in H1' as H1'; [|done]. destruct H1' as [Hw1 Hs1].
  apply authority_quiet in H2' as H2'; [|done]. destruct H2' as [Hw2 Hs2].
  destruct (bootstrap_step (bootstrap_now env) w2 Hw2) as [Hw3 Hs3].
  apply waited_inv; [intros now dur uuid s; by apply AnyStore.sync_round_safe|].
  split_and!; [done| |done]. split; [done|]. intros s Hs. apply Hh.
  destruct (Hs3 s Hs) as [Hs'|?%not_elem_of_nil]; [|done].
  destruct (Hs2 s Hs') as [Hs''|?%not_elem_of_nil]; [|done]. by destruct (Hs1 s Hs'') as [?|?%not_elem_of_nil].
Qed.
End safe.

(** With a configuration and a store, the start is [boot_on]. *)
Lemma boot_unfold {W} (operations : Startup.BuiltStore L F → DataStore W) env c built w :
  load_config env = Ok c → Startup.data_store local_new firestore_new gcp_feature c = Ok built →
  boot operations env w = (let _ := operations built in boot_on env c w).
Proof.
  intros Hc Hb. unfold boot, mbind at 1, M_bind at 1, lift_res at 1. rewrite Hc. cbn [Startup.expect map_err].
  unfold mbind at 1, M_bind at 1, lift_res at 1. rewrite Hb. reflexivity.
Qed.

(* ------------------------------------------------------------------ *)
(** ** A safe start *)

(** C2: a start of the server over any safe store, successful or not, adds no policy
    statement.  If the statements it finds were admitted by the administration API (or
    there are none) and so were those behind the billets of the cache, then in every run
    of the server it leaves behind, each billet of any answer goes back to an admitted
    request that covers it: the start, with its key managers, system billets and first
    synchronisation, opens no way around the checks. *)
Theorem boot_no_escalation {W C} (operations : Startup.BuiltStore L F → DataStore W) `{!Cache.Cache C} `{!Cache.CacheLaws C} `{!CedarApi.CedarLaws}
    (safe : ∀ x, @StoreSafety W (operations x)) (key_safe : ∀ x, @KeySafety W (operations x) (safe x)) env w r w' c built :
  load_config env = Ok c → Startup.data_store local_new firestore_new gcp_feature c = Ok built →
  let _ := operations built in let _ := safe built in
  ss_ok w → boot operations env w = (r, w') →
  store_step [] w w' ∧
  ∀ b h (cache : C) to_rfc3339 rs s',
    r = Ok b → (∀ s, ss_holds w s → AnyStore.requested (Config.system_billets c) h s) →
    Cache.cache_holds (λ _ bs, Forall (AnyStore.granted (Config.system_billets c) h) bs) cache →
    AnyStore.run (Config.system_billets c) (secs (Config.cache_ttl_secs (Config.cache c))) (p_resolver_matcher (b_parts b))
      to_rfc3339 (AnyStore.mkSystem (b_sync b) cache h) rs s' →
    ∀ res x, res ∈ rs → x ∈ Resolver.rbillets res → AnyStore.granted (Config.system_billets c) (AnyStore.requests s') x.
Proof.
  intros Hc Hb ops sf Hw Hr. rewrite (boot_unfold _ _ _ _ _ Hc Hb) in Hr. cbv zeta in Hr.
  pose proof (key_safe built) as ks.
  split; [apply (boot_on_quiet _ _ _ _ _ Hw Hr)|]. intros b h cache rfc rs s' -> Hh Hcache Hrun res x Hres Hx.
  refine (proj2 (proj2 (AnyStore.run_inv _ _ _ _ _ _ _ _ Hrun)) res x Hres Hx). split; [|exact Hcache].
  eapply booted_sync_safe; [apply AnyStore.requested_parses|split; [exact Hw|exact Hh]|exact Hr].
Qed.

(** The resolver of such a run is that of [main]. *)
Lemma resolver_booted {W C} `{!DataStore W} (b : Booted (W := W)) (cache : C) h to_rfc3339 :
  resolver b to_rfc3339 =
  AnyStore.resolver_of (Config.system_billets (b_config b)) (secs (Config.cache_ttl_secs (Config.cache (b_config b))))
    (p_resolver_matcher (b_parts b)) to_rfc3339 (AnyStore.mkSystem (b_sync b) cache h).
Proof. reflexivity. Qed.

(* ------------------------------------------------------------------ *)
(** ** A start without the store *)

(** The key of a purpose is read from a file. *)
Definition key_from_file (backend : option Config.SigningBackendConfig) : bool :=
  match backend with
  | Some sb => match Config.sb_backend sb with Config.Memory => true | Config.KmsDelegated => false end
  | None => true
  end.

Lemma build_from_file read sb p kenv : key_from_file (Some sb) = true →
  ∃ r, ∀ W `(!DataStore W) (w : W), build_key_manager read sb p kenv w = (r, w).
Proof.
  cbn. unfold build_key_manager. destruct (Config.sb_backend sb); [|done]. intros _. unfold_monad.
  destruct (Config.sb_memory sb) as [m|]; cbn; [|by eexists].
  destruct (MemoryKeyManager_new read m); cbn; by eexists.
Qed.

Lemma signing_from_file env c : key_from_file (Config.signing_backend c) = true →
  ∃ r, ∀ W `(!DataStore W) (w : W), signing_key_manager env c w = (r, w).
Proof.
  unfold signing_key_manager. destruct (Config.signing_backend c) as [sb|].
  - intros (r & Hr)%(build_from_file (read_file env) sb "signing" (signing_env env)).
    eexists. intros W ds w. rewrite (Hr W ds w). reflexivity.
  - intros _. unfold_monad. destruct (Startup.expect _ _); by eexists.
Qed.

Lemma authority_from_file env c : key_from_file (Config.ca_backend c) = true →
  ∃ r, ∀ W `(!DataStore W) (w : W), certificate_authority env c w = (r, w).
Proof.
  unfold certificate_authority. destruct (Config.ca_backend c) as [sb|].
  - intros (r & Hr)%(build_from_file (read_file env) sb "ca" (ca_env env)). unfold ca_key_manager. unfold_monad.
    setoid_rewrite Hr. destruct (expect_fault _ r); [|by eexists]. cbn.
    destruct (ca_files env c) as [[k p]|]; [|by eexists]. destruct (Startup.expect _ _); by eexists.
  - intros _. unfold_monad. destruct (ca_files env c) as [[k p]|]; [|by eexists].
    destruct (Startup.expect _ _); by eexists.
Qed.

(** A key file at the same path gives the server the key it gives another reader. *)
Definition static_key (c : Config.Config) : option Config.MemorySigningConfig :=
  match Config.signing_backend c with
  | None => Some (Config.mkMemorySigning (Config.signing_key_path (Config.signing c)))
  | Some sb =>
      match Config.sb_backend sb with
      | Config.Memory => Config.sb_memory sb
      | Config.KmsDelegated => None
      end
  end.

Lemma signing_static {W} `{!DataStore W} env c key (w : W) m w' :
  static_key c = Some key → signing_key_manager env c w = (Ok m, w') →
  ∃ mm, m = MemoryManager mm ∧ MemoryKeyManager_new (read_file env) key = Ok mm.
Proof.
  unfold static_key, signing_key_manager. destruct (Config.signing_backend c) as [sb|].
  - unfold build_key_manager. destruct (Config.sb_backend sb); [|done]. intros ->. unfold_monad. cbn.
    destruct (MemoryKeyManager_new (read_file env) key) as [mm|e]; cbn; [|done]. intros [= <- _]. by exists mm.
  - intros [= <-]. unfold_monad. destruct (MemoryKeyManager_new _ _) as [mm|e]; cbn; [|done]. intros [= <- _]. by exists mm.
Qed.

Lemma boot_on_signing {W} `{!DataStore W} env c (w : W) b w' :
  boot_on env c w = (Ok b, w') → b_config b = c ∧ ∃ w1, signing_key_manager env c w = (Ok (b_signing b), w1).
Proof. intros (w1 & w2 & audit & Hs & _ & _ & _ & _ & Hc)%boot_on_inv. eauto. Qed.

(** What a start without the policies looks like from outside. *)
Definition started {W} (env : BootEnv) (config : Config.Config) (r : result string (AnyKeyManager * Authority * Parts))
    (x : result string (Booted (W := W))) : Prop :=
  match r with
  | Ok (signing, authority, p) => ∃ n sync, x = Ok (mkBooted config signing authority sync n p) ∧
      (n ≤ 50)%nat ∧ (is_initialized sync = false → n = 50%nat)
  | Err e => x = Err e
  end.

Lemma started_ok {W} env c r (x : result string (Booted (W := W))) : started env c r x → is_ok x = true → is_ok r = true.
Proof. destruct r as [y|e]; [done|]. by intros ->. Qed.

Lemma boot_on_from_files env c :
  key_from_file (Config.signing_backend c) = true → key_from_file (Config.ca_backend c) = true →
  ∃ r, ∀ W `(!DataStore W) (w : W), started env c r (boot_on env c w).1.
Proof.
  intros (rs & Hs)%(signing_from_file env c) (ra & Ha)%(authority_from_file env c).
  exists (signing ← rs; authority ← ra; _ ← audit_service env c; p ← parts env c; Ok (signing, authority, p)).
  intros W ds w. unfold boot_on, mbind, M_bind. rewrite Hs. destruct rs as [signing|e]; cbn [mbind result_bind started fst]; [|done].
  rewrite Ha. destruct ra as [authority|e]; cbn [mbind result_bind started fst]; [|done].
  unfold bootstrap, lift_res, start_sync. destruct (audit_service env c) as [audit|e]; cbn [mbind result_bind started fst]; [|done].
  pose proof (waited_bound env c audit (BilletCrud.bootstrap_system_billets (bootstrap_now env) w).2) as Hb.
  destruct (waited env c audit _) as [n sync]. destruct (parts env c) as [p|e]; cbn in *; [|done]. by exists n, sync.
Qed.

(** C36: when both keys come from files, the outcome of a start does not depend on the
    data store at all: over any store in any state, one that answers every call with an
    error included, the start ends in the same panic or in a server with the same keys,
    authority, validators and listeners; and it sleeps at most fifty times (five
    seconds) for the first synchronisation; a server that comes up without policies has
    slept all fifty. *)
Theorem boot_ignores_store env c built :
  load_config env = Ok c → Startup.data_store local_new firestore_new gcp_feature c = Ok built →
  key_from_file (Config.signing_backend c) = true → key_from_file (Config.ca_backend c) = true →
  ∃ r, ∀ W (operations : Startup.BuiltStore L F → DataStore W) w, started env c r (boot operations env w).1.
Proof.
  intros Hc Hb Hs Ha. destruct (boot_on_from_files env c Hs Ha) as [r Hr]. exists r. intros W operations w.
  rewrite (boot_unfold operations env c built w Hc Hb). apply Hr.
Qed.
End boot.

(* ------------------------------------------------------------------ *)
(** ** Witnesses: a start over DynamoDB, and one without a store *)

Import Demo DynamoApi.ToyDynamo.
#[local] Existing Instance Resolver.no_regex.
#[local] Existing Instance Token.ToyJwt.toy_jwt.
#[local] Existing Instance StaticKey.ToyCrypto.toy_crypto.
#[local] Existing Instance DemoKeys.demo_chrono.
#[local] Existing Instance DemoKeys.demo_aws.
#[local] Existing Instance Jwks.DemoJwks.no_tokens.
#[local] Existing Instance Mtls.DemoX509.toy_x509.
#[local] Existing Instance Cert.DemoCert.demo_ring.
#[local] Existing Instance Cert.DemoCert.demo_rcgen.
#[local] Existing Instance AnyStore.table_store.
#[local] Existing Instance AnyStore.table_safe.
#[local] Existing Instance AnyStore.table_key_safe.

(** The demo configuration with the cache in memory and no SPIRE source. *)
Definition demo_boot_config : Config.Config :=
  let d := Config.demo_config in
  Config.mkConfig (Config.issuer d) (Config.token_ttl_secs d) None (Config.dynamo d) (Config.signing d) (Config.ca d)
    (Config.mkCacheConfig Config.CacheMemory 120) None (Config.rate d) (Config.server d)
    None None None None None Config.default_system_billets [].

(** The first round is done during the first sleep. *)
Definition demo_boot_env : BootEnv :=
  mkBootEnv (Ok demo_boot_config) demo_read DemoKeys.demo_new_env DemoKeys.demo_new_env "t0" (λ _, [])
    (λ n, match n with 1%nat => [mkRound 0 5 "u0"] | _ => [] end) (λ _, Err "no redis") (λ _, Ok tt).

Abbreviation demo_boot ops w :=
  (boot (L := unit) (F := unit) (PrivateKey := unit) (ServerConfig := unit) (λ _, Err "no JSON") (λ _, Err "no file")
    (λ _, Err "no PEM") (λ _, Err "no PEM") (λ _ _ _, Err "no TLS") (λ _, Err (Internal "no disk"))
    (λ _, Err (Internal "no network")) false (λ _, ops) demo_boot_env w).

Definition demo_run := demo_boot AnyStore.table_store (∅ : ToyTables).
Definition demo_result := demo_run.1.

Lemma demo_run_eq : demo_boot AnyStore.table_store ∅ = (demo_result, demo_run.2).
Proof. unfold demo_result, demo_run. apply surjective_pairing. Qed.

Lemma demo_boot_on :
  boot_on (PrivateKey := unit) (ServerConfig := unit) (λ _, Err "no JSON") (λ _, Err "no file") (λ _, Err "no PEM")
    (λ _, Err "no PEM") (λ _ _ _, Err "no TLS") demo_boot_env demo_boot_config (∅ : ToyTables) = (demo_result, demo_run.2).
Proof. by rewrite <-demo_run_eq, (boot_unfold _ _ _ _ _ _ _ _ (λ _, AnyStore.table_store) demo_boot_env demo_boot_config _ ∅ eq_refl eq_refl). Qed.

Lemma demo_boot_ok : is_ok demo_result = true.
Proof. vm_compute. reflexivity. Qed.

Lemma demo_boot_matcher :
  match demo_result with Ok b => Some (p_resolver_matcher (b_parts b)) | Err _ => None end =
  Some (PathPattern.mkMatcher [] "").
Proof. vm_compute. reflexivity. Qed.

(** The service it leaves behind, and a run of the server from there. *)
Definition demo_service : PolicySyncService (D := ToyTables) :=
  match demo_result with Ok b => b_sync b | Err _ => Sync.new ∅ (AuditLog.new [] 0) end.

Lemma demo_service_eq b : demo_result = Ok b → demo_service = b_sync b.
Proof. unfold demo_service. by intros ->. Qed.

Definition demo_started : AnyStore.demo_system := AnyStore.mkSystem demo_service Cache.Memory.new [].
Abbreviation demo_final := (AnyStore.demo_end (secs 120) (PathPattern.mkMatcher [] "") demo_started).

Lemma boot_demo_answer :
  (AnyStore.demo_resolved (secs 120) (PathPattern.mkMatcher [] "") demo_started).1 = Ok (Resolver.mkResolution ["reader"] false).
Proof. vm_compute. reflexivity. Qed.

Lemma boot_no_escalation_witness :
  AnyStore.granted Config.default_system_billets (AnyStore.requests demo_final) "reader".
Proof.
  destruct (boot_no_escalation (C := Cache.Memory.InMemoryCache) (L := unit) (F := unit) (PrivateKey := unit) (ServerConfig := unit)
    (λ _, Err "no JSON") (λ _, Err "no file") (λ _, Err "no PEM") (λ _, Err "no PEM") (λ _ _ _, Err "no TLS")
    (λ _, Err (Internal "no disk")) (λ _, Err (Internal "no network")) false (λ _, AnyStore.table_store)
    (λ _, AnyStore.table_safe) (λ _, AnyStore.table_key_safe) demo_boot_env (∅ : ToyTables)
    demo_result demo_run.2 demo_boot_config _ eq_refl eq_refl I demo_run_eq) as [_ Hrun].
  pose proof demo_boot_ok as Hok. pose proof demo_boot_matcher as Hm. pose proof demo_service_eq as Hs.
  destruct demo_result as [b|e]; [|discriminate Hok]. injection Hm as Hm. specialize (Hs b eq_refl).
  specialize (Hrun b [] Cache.Memory.new (λ _, "t") [Resolver.mkResolution ["reader"] false] demo_final eq_refl).
  rewrite Hm, <-Hs in Hrun.
  refine (Hrun _ (map_Forall_empty _) (AnyStore.any_demo_run_ok _ _ demo_started _ boot_demo_answer) _ "reader"
    (list_elem_of_here _ _) (list_elem_of_here _ _)).
  intros s (it & [k Hk] & _). cbn in Hk. discriminate.
Defined.

(** A store that is down. *)
Definition no_store : DataStore unit :=
  let fail {A} : M unit DataStoreError A := throw (Internal "down") in
  {| create_billet := λ _, fail; get_billet := λ _, fail; update_billet := λ _, fail; delete_billet_cascade := λ _, fail;
     list_billets := fail; create_policy := λ _, fail; get_policy := λ _ _, fail; update_policy := λ _, fail;
     delete_policy := λ _ _, fail; list_policies_for_billet := λ _, fail; list_all_policies := fail;
     put_ephemeral_key := λ _, fail; get_active_ephemeral_keys := λ _ _, fail;
     delete_expired_ephemeral_keys := λ _ _, fail; ping := fail |}.

Lemma boot_ignores_store_witness :
  ∃ r, is_ok r = true ∧ started demo_boot_env demo_boot_config r (demo_boot no_store tt).1.
Proof.
  destruct (boot_ignores_store (L := unit) (F := unit) (PrivateKey := unit) (ServerConfig := unit)
    (λ _, Err "no JSON") (λ _, Err "no file") (λ _, Err "no PEM") (λ _, Err "no PEM") (λ _ _ _, Err "no TLS")
    (λ _, Err (Internal "no disk")) (λ _, Err (Internal "no network")) false demo_boot_env demo_boot_config _
    eq_refl eq_refl eq_refl eq_refl) as [r Hr].
  exists r. split; [|apply Hr]. specialize (Hr ToyTables (λ _, AnyStore.table_store) ∅).
  rewrite demo_run_eq in Hr. exact (started_ok _ _ _ _ Hr demo_boot_ok).
Defined.

(** The capacity of the audit channel is not validated: zero is accepted and ends in
    a panic. *)
Definition no_buffer : Config.Config :=
  let d := demo_boot_config in
  Config.mkConfig (Config.issuer d) (Config.token_ttl_secs d) None (Config.dynamo d) (Config.signing d) (Config.ca d)
    (Config.cache d) None (Config.rate d) (Config.server d) (Some (Config.mkAuditConfig 0 [])) None None None None
    Config.default_system_billets [].

Lemma no_buffer_accepted :
  Config.validate (λ _, None) no_buffer = Ok tt ∧
  ∀ env, audit_service env no_buffer = Err AUDIT_PANIC.
Proof. split; [vm_compute; reflexivity|]. reflexivity. Qed.

End Boot.
