(* ===== verification/OpenApi.v ===== *)
(** * The OpenAPI document ([src/src/openapi.rs], the [utoipa::path] annotations of
    [src/src/handler/])

    Each annotation is an [Operation]; [ApiDoc] aggregates them.  The lemmas relate
    the document to the routing tables of [Server]; [StatusTypes] has the property and
    relates the document to what the handlers answer.  Serialisation by [utoipa] is an
    argument. *)

From S2P Require Import Prelude Config Server.

Module OpenApi.
Import Server.
Local Open Scope Z_scope.

(* ------------------------------------------------------------------ *)
(** ** Operations *)

Record Response : Type := mkResponse {
  r_status : Z;
  r_description : string;
  r_body : option string;
  r_content_type : option string
}.

Record Param : Type := mkParam { p_name : string; p_description : string }.

(** A request body is the name of a schema, with a content type if one is given. *)
Record Operation : Type := mkOperation {
  op_method : Method;
  op_path : string;
  op_tag : string;
  op_params : list Param;
  op_request_body : option (string * option string);
  op_responses : list Response;
  op_security : list string
}.

Definition doc_token_exchange : Operation :=
  mkOperation POST "/token" "token-exchange" [] (Some ("TokenExchangeForm", Some "application/x-www-form-urlencoded"))
    [mkResponse 200 "Token exchange successful" (Some "TokenExchangeResponse") None;
     mkResponse 400 "Bad request" (Some "ErrorBody") None;
     mkResponse 401 "Unauthorized" (Some "ErrorBody") None] ["MutualTLS"].

Definition doc_billet_discovery : Operation :=
  mkOperation POST "/billets/me" "discovery" [] (Some ("BilletDiscoveryForm", Some "application/x-www-form-urlencoded"))
    [mkResponse 200 "Discovery result" (Some "BilletDiscoveryResponse") None;
     mkResponse 400 "Bad request" (Some "ErrorBody") None;
     mkResponse 401 "Unauthorized" (Some "ErrorBody") None] ["MutualTLS"].

Definition doc_get_billet : Operation :=
  mkOperation GET "/billets/{name}" "discovery" [mkParam "name" "Billet name"] None
    [mkResponse 200 "Billet metadata" (Some "BilletMetadataResponse") None;
     mkResponse 401 "Unauthorized" (Some "ErrorBody") None;
     mkResponse 403 "Forbidden" (Some "ErrorBody") None;
     mkResponse 404 "Not found" (Some "ErrorBody") None] ["BearerAuth"].

Definition doc_openid_configuration : Operation :=
  mkOperation GET "/.well-known/openid-configuration" "discovery" [] None
    [mkResponse 200 "OIDC discovery document" (Some "DiscoveryDocument") None] [].

Definition doc_jwks : Operation :=
  mkOperation GET "/jwks.json" "discovery" [] None
    [mkResponse 200 "JSON Web Key Set" None None] [].

Definition doc_ca_chain : Operation :=
  mkOperation GET "/ca/chain.pem" "discovery" [] None
    [mkResponse 200 "CA certificate chain in PEM format" None (Some "text/plain")] [].

Definition doc_healthz : Operation :=
  mkOperation GET "/healthz" "system" [] None
    [mkResponse 200 "Service healthy or degraded" (Some "HealthResponse") None] [].

Definition doc_admin_create_billet : Operation :=
  mkOperation POST "/admin/billets" "admin-billets" [] (Some ("CreateBilletRequest", None))
    [mkResponse 201 "Billet created" (Some "AdminBilletMetadataResponse") None;
     mkResponse 401 "Unauthorized" (Some "ErrorBody") None;
     mkResponse 403 "Forbidden" (Some "ErrorBody") None] ["BearerAuth"].

Definition doc_admin_list_billets : Operation :=
  mkOperation GET "/admin/billets" "admin-billets" [] None
    [mkResponse 200 "List of billets" (Some "Vec<BilletListItem>") None;
     mkResponse 401 "Unauthorized" (Some "ErrorBody") None;
     mkResponse 403 "Forbidden" (Some "ErrorBody") None] ["BearerAuth"].

Definition doc_admin_get_billet : Operation :=
  mkOperation GET "/admin/billets/{name}" "admin-billets" [mkParam "name" "Billet name"] None
    [mkResponse 200 "Billet with policies" (Some "BilletWithPolicies") None;
     mkResponse 401 "Unauthorized" (Some "ErrorBody") None;
     mkResponse 403 "Forbidden" (Some "ErrorBody") None;
     mkResponse 404 "Not found" (Some "ErrorBody") None] ["BearerAuth"].

Definition doc_admin_update_billet : Operation :=
  mkOperation PUT "/admin/billets/{name}" "admin-billets" [mkParam "name" "Billet name"] (Some ("UpdateBilletRequest", None))
    [mkResponse 200 "Billet updated" (Some "AdminBilletMetadataResponse") None;
     mkResponse 401 "Unauthorized" (Some "ErrorBody") None;
     mkResponse 403 "Forbidden" (Some "ErrorBody") None;
     mkResponse 404 "Not found" (Some "ErrorBody") None] ["BearerAuth"].

Definition doc_admin_delete_billet : Operation :=
  mkOperation DELETE "/admin/billets/{name}" "admin-billets" [mkParam "name" "Billet name"] None
    [mkResponse 204 "Billet deleted" None None;
     mkResponse 401 "Unauthorized" (Some "ErrorBody") None;
     mkResponse 403 "Forbidden" (Some "ErrorBody") None;
     mkResponse 404 "Not found" (Some "ErrorBody") None] ["BearerAuth"].

Definition doc_admin_create_policy : Operation :=
  mkOperation POST "/admin/billets/{name}/policies" "admin-policies" [mkParam "name" "Billet name"] (Some ("CreatePolicyRequest", None))
    [mkResponse 201 "Policy created" (Some "PolicyResponse") None;
     mkResponse 401 "Unauthorized" (Some "ErrorBody") None;
     mkResponse 403 "Forbidden" (Some "ErrorBody") None;
     mkResponse 404 "Billet not found" (Some "ErrorBody") None] ["BearerAuth"].

Definition doc_admin_list_policies : Operation :=
  mkOperation GET "/admin/billets/{name}/policies" "admin-policies" [mkParam "name" "Billet name"] None
    [mkResponse 200 "List of policies" (Some "Vec<PolicyResponse>") None;
     mkResponse 401 "Unauthorized" (Some "ErrorBody") None;
     mkResponse 403 "Forbidden" (Some "ErrorBody") None] ["BearerAuth"].

Definition doc_admin_get_policy : Operation :=
  mkOperation GET "/admin/billets/{name}/policies/{id}" "admin-policies" [mkParam "name" "Billet name"; mkParam "id" "Policy ID"] None
    [mkResponse 200 "Policy details" (Some "PolicyResponse") None;
     mkResponse 401 "Unauthorized" (Some "ErrorBody") None;
     mkResponse 403 "Forbidden" (Some "ErrorBody") None;
     mkResponse 404 "Not found" (Some "ErrorBody") None] ["BearerAuth"].

Definition doc_admin_update_policy : Operation :=
  mkOperation PUT "/admin/billets/{name}/policies/{id}" "admin-policies" [mkParam "name" "Billet name"; mkParam "id" "Policy ID"] (Some ("UpdatePolicyRequest", None))
    [mkResponse 200 "Policy updated" (Some "PolicyResponse") None;
     mkResponse 401 "Unauthorized" (Some "ErrorBody") None;
     mkResponse 403 "Forbidden" (Some "ErrorBody") None;
     mkResponse 404 "Not found" (Some "ErrorBody") None] ["BearerAuth"].

Definition doc_admin_delete_policy : Operation :=
  mkOperation DELETE "/admin/billets/{name}/policies/{id}" "admin-policies" [mkParam "name" "Billet name"; mkParam "id" "Policy ID"] None
    [mkResponse 204 "Policy deleted" None None;
     mkResponse 401 "Unauthorized" (Some "ErrorBody") None;
     mkResponse 403 "Forbidden" (Some "ErrorBody") None;
     mkResponse 404 "Not found" (Some "ErrorBody") None] ["BearerAuth"].

(* ------------------------------------------------------------------ *)
(** ** The document *)

Inductive SecurityScheme : Type :=
| Http (scheme bearer_format : string)
| MutualTls (description : string).

Record Components : Type := mkComponents {
  schemas : list string;
  security_schemes : list (string * SecurityScheme)
}.

Record Spec : Type := mkSpec {
  title : string;
  version : string;
  info_description : string;
  paths : list (Handler * Operation);
  components : option Components;
  spec_tags : list (string * string)
}.

Definition documented : list (Handler * Operation) :=
  [(h_token_exchange, doc_token_exchange); (h_billet_discovery, doc_billet_discovery);
   (h_get_billet, doc_get_billet); (h_openid_configuration, doc_openid_configuration); (h_jwks, doc_jwks);
   (h_ca_chain, doc_ca_chain); (h_healthz, doc_healthz);
   (h_admin_create_billet, doc_admin_create_billet); (h_admin_list_billets, doc_admin_list_billets);
   (h_admin_get_billet, doc_admin_get_billet); (h_admin_update_billet, doc_admin_update_billet);
   (h_admin_delete_billet, doc_admin_delete_billet); (h_admin_create_policy, doc_admin_create_policy);
   (h_admin_list_policies, doc_admin_list_policies); (h_admin_get_policy, doc_admin_get_policy);
   (h_admin_update_policy, doc_admin_update_policy); (h_admin_delete_policy, doc_admin_delete_policy)].

Definition document_schemas : list string :=
  ["TokenExchangeForm"; "TokenExchangeResponse"; "BilletDiscoveryForm"; "BilletDiscoveryResponse";
   "BilletMetadataResponse"; "AdminBilletMetadataResponse"; "BilletWithPolicies"; "PolicySummary";
   "CreateBilletRequest"; "UpdateBilletRequest"; "CreatePolicyRequest"; "UpdatePolicyRequest"; "PolicyResponse";
   "ErrorBody"; "HealthResponse"; "HealthChecks"; "DiscoveryDocument"].

Definition document_tags : list (string * string) :=
  [("token-exchange", "RFC 8693 token exchange"); ("discovery", "OIDC discovery, JWKS, CA chain, billet lookup");
   ("admin-billets", "Billet CRUD (admin control plane)"); ("admin-policies", "Policy CRUD (admin control plane)");
   ("system", "Health and operational endpoints")].

(** [Modify for SecurityAddon] *)
Definition SecurityAddon (openapi : Spec) : Spec :=
  match components openapi with
  | Some c =>
      mkSpec (title openapi) (version openapi) (info_description openapi) (paths openapi)
        (Some (mkComponents (schemas c)
           (security_schemes c ++ [("BearerAuth", Http "bearer" "JWT"); ("MutualTLS", MutualTls "mTLS client certificate")])))
        (spec_tags openapi)
  | None => openapi
  end.

(** [ApiDoc::openapi()]: the modifier runs last. *)
Definition ApiDoc : Spec :=
  SecurityAddon (mkSpec "Quartermaster" "0.1.0" "Workload identity federation broker" documented
    (Some (mkComponents document_schemas [])) document_tags).

(** [GET /openapi.json]: status, content type and body. *)
Definition openapi_json (to_pretty_json : Spec → result string string) : Z * option (string * string) :=
  match to_pretty_json ApiDoc with
  | Ok json => (200, Some ("application/json", json))
  | Err _ => (500, None)
  end.

(* ------------------------------------------------------------------ *)
(** ** The document and the routes *)

(** A path pattern of [axum] as a path template: [:x] becomes [{x}]. *)
Definition template_segment (s : string) : string :=
  match Str.strip_prefix ":" s with Some x => "{" +:+ x +:+ "}" | None => s end.
Definition path_template (p : string) : string := Str.join "/" (template_segment <$> Str.split "/" p).
Definition path_params (p : string) : list string := omap (Str.strip_prefix ":") (Str.split "/" p).

Definition operation_key (h : Handler) (op : Operation) : string * Method * Handler * list string :=
  (op_path op, op_method op, h, p_name <$> op_params op).
Definition route_key (r : string * Method * Handler) : string * Method * Handler * list string :=
  (path_template r.1.1, r.1.2, r.2, path_params r.1.1).

(** Success and rejection documented, and every name declared. *)
Definition well_formed (spec : Spec) (op : Operation) : bool :=
  existsb (λ r, (200 <=? r_status r) && (r_status r <? 300)) (op_responses op) &&
  (bool_decide (op_security op = []) || existsb (λ r, r_status r =? 401) (op_responses op)) &&
  bool_decide (op_tag op ∈ (spec_tags spec).*1) &&
  bool_decide (op_security op ⊆ default [] ((λ c, (security_schemes c).*1) <$> components spec)) &&
  match op_request_body op with
  | Some (name, _) => bool_decide (name ∈ default [] (schemas <$> components spec))
  | None => true
  end.

(** A permutation of two concrete lists without repetitions. *)
Lemma Permutation_by_inclusion `{EqDecision A} (l k : list A) :
  NoDup l → NoDup k → Forall (λ x, x ∈ k) l → Forall (λ x, x ∈ l) k → l ≡ₚ k.
Proof. rewrite !Forall_forall. intros Hl Hk Hlk Hkl. apply NoDup_Permutation; naive_solver. Qed.

Definition served_keys (r : Router) : list (string * Method * Handler * list string) :=
  filter (λ k, k.1.2 ≠ h_openapi_json) (route_key <$> flat r).

Lemma document_routes : served_keys build_router ≡ₚ (λ p, operation_key p.1 p.2) <$> paths ApiDoc.
Proof. apply Permutation_by_inclusion; compute_decide. Qed.

(** Whatever listeners are configured, they serve the same routes. *)
Lemma served_routes server : concat (flat ∘ router <$> listeners server) = flat build_router.
Proof. unfold listeners. destruct (Config.admin_addr server); cbn; by rewrite ?app_nil_r. Qed.

End OpenApi.
