(* ===== verification/StatusTypes.v ===== *)
(** * The statuses of the answers

    A type system for the errors of a computation: [typed Q P m] says that [m] returns
    values of [Q] and fails with errors of [P] only.  Every handler is given the set of
    its error codes; what the OpenAPI document leaves out of it is listed. *)

From S2P Require Import Prelude Errors DataStore CedarApi PathPattern AuditLog Demo Implicit PolicyCrud BilletCrud AdminAuth.
From S2P Require Import Sync Cedar Cert Token RateLimit Cache Resolver Identity TokenHandler AdminHandlers Config KeyManager Server OpenApi.

Module StatusTypes.
Import Errors Server.

(* ------------------------------------------------------------------ *)
(** ** Typing *)

Definition rtyped {E A} (Q : A → Prop) (P : E → Prop) (r : result E A) : Prop :=
  match r with Ok a => Q a | Err e => P e end.

Definition typed {S E A} (Q : A → Prop) (P : E → Prop) (m : M S E A) : Prop := ∀ s, rtyped Q P (m s).1.

Abbreviation raises P m := (typed (λ _, True) P m).

Section rules.
Context {S E : Type}.
Implicit Types P : E → Prop.

Lemma typed_ret {A} (Q : A → Prop) P a : Q a → typed Q P (mret a : M S E A).
Proof. by intros ? s. Qed.

Lemma typed_throw {A} (Q : A → Prop) P e : P e → typed Q P (throw e : M S E A).
Proof. by intros ? s. Qed.

Lemma typed_lift {A} (Q : A → Prop) P (r : result E A) : rtyped Q P r → typed Q P (lift_res r : M S E A).
Proof. by intros ? s. Qed.

Lemma typed_weaken {A} (Q Q' : A → Prop) P P' (m : M S E A) :
  (∀ a, Q a → Q' a) → (∀ e, P e → P' e) → typed Q P m → typed Q' P' m.
Proof. intros HQ HP Hm s. specialize (Hm s). destruct (m s).1; cbn in *; auto. Qed.

Lemma typed_seq {A B} (Q' : A → Prop) (Q : B → Prop) P (m : M S E A) (k : A → M S E B) :
  typed Q' P m → (∀ a, Q' a → typed Q P (k a)) → typed Q P (m ≫= k).
Proof.
  intros Hm Hk s. specialize (Hm s). unfold mbind, M_bind.
  destruct (m s) as [[a|e] s1]; cbn in *; [by apply Hk|done].
Qed.

Lemma typed_bind {A B} (Q : B → Prop) P (m : M S E A) (k : A → M S E B) :
  raises P m → (∀ a, typed Q P (k a)) → typed Q P (m ≫= k).
Proof. intros Hm Hk. eapply typed_seq; [exact Hm|]. auto. Qed.

Lemma typed_map_err {F A} (Q : A → Prop) P (f : F → E) (m : M S F A) :
  typed Q (λ e, P (f e)) m → typed Q P (m_map_err f m).
Proof. intros Hm s. specialize (Hm s). unfold m_map_err. by destruct (m s) as [[a|e] s1]. Qed.

Lemma typed_on_err {F A} (Q : A → Prop) P (h : F → M S E A) (m : M S F A) :
  typed Q (λ e, typed Q P (h e)) m → typed Q P (m_on_err h m).
Proof.
  intros Hm s. specialize (Hm s). unfold m_on_err. destruct (m s) as [[a|e] s1]; cbn in *; [done|apply Hm].
Qed.
End rules.

Section results.
Context {E : Type}.
Implicit Types P : E → Prop.

Lemma rtyped_fail_if b P e : P e → rtyped (λ _, True) P (fail_if b e).
Proof. by destruct b. Qed.

Lemma rtyped_ok_or {A} P e (o : option A) : P e → rtyped (λ _, True) P (ok_or e o).
Proof. by destruct o. Qed.

Lemma rtyped_map_err {F A} P (f : F → E) (r : result F A) : (∀ e, P (f e)) → rtyped (λ _, True) P (map_err f r).
Proof. destruct r; cbn; auto. Qed.

Lemma rtyped_bind {A B} P (r : result E A) (k : A → result E B) :
  rtyped (λ _, True) P r → (∀ a, rtyped (λ _, True) P (k a)) → rtyped (λ _, True) P (r ≫= k).
Proof. destruct r; cbn; auto. Qed.
End results.

(** Any error at all. *)
Lemma raises_any {S E A} (P : E → Prop) (m : M S E A) : (∀ e, P e) → raises P m.
Proof. intros HP s. destruct (m s).1; cbn; auto. Qed.

(* ------------------------------------------------------------------ *)
(** ** The codes of each handler *)

Definition error_codes (h : Handler) : list ErrorCode :=
  match h with
  | h_openapi_json | h_openid_configuration | h_jwks | h_ca_chain | h_healthz => []
  | h_token_exchange => [InvalidRequest; InvalidToken; InsufficientScope; RateLimited; ServiceUnavailable]
  | h_billet_discovery => [InvalidRequest; InvalidToken; RateLimited; ServiceUnavailable]
  | h_get_billet => [InvalidToken; InsufficientScope; NotFound; ServiceUnavailable]
  | h_admin_create_billet => [InvalidToken; InsufficientScope; InvalidRequest; Conflict; ServiceUnavailable]
  | h_admin_list_billets | h_admin_list_policies => [InvalidToken; InsufficientScope; ServiceUnavailable]
  | h_admin_get_billet | h_admin_delete_billet | h_admin_get_policy | h_admin_delete_policy =>
      [InvalidToken; InsufficientScope; NotFound; ServiceUnavailable]
  | h_admin_update_billet | h_admin_create_policy | h_admin_update_policy =>
      [InvalidToken; InsufficientScope; InvalidRequest; NotFound; ServiceUnavailable]
  end.

(** The status of a successful answer; the health report has a second one. *)
Definition success_status (h : Handler) : Z :=
  match h with
  | h_admin_create_billet | h_admin_create_policy => 201
  | h_admin_delete_billet | h_admin_delete_policy => 204
  | _ => 200
  end.

Definition has_code (h : Handler) (e : DomainError) : Prop := err_code e ∈ error_codes h.

(** Reads the code of a constructed error. *)
Ltac code := solve [cbn; done | cbn; compute_decide | unfold has_code; cbn; compute_decide].

(* ------------------------------------------------------------------ *)
(** ** The administration handlers *)

Section admin.
Import DataStore AdminHandlers.
Context `{CedarApi.CedarLib} `{PayloadLib} `{HashIter} {D : Type} `{DataStore D}.
Implicit Types (app : AdminApp) (q : Req).

Definition handler_of (rq : admin_request) : Handler :=
  match rq with
  | CreateBillet _ => h_admin_create_billet
  | ListBillets => h_admin_list_billets
  | GetBillet _ => h_admin_get_billet
  | UpdateBillet _ _ => h_admin_update_billet
  | DeleteBillet _ => h_admin_delete_billet
  | CreatePolicy _ _ => h_admin_create_policy
  | ListPolicies _ => h_admin_list_policies
  | GetPolicy _ _ => h_admin_get_policy
  | UpdatePolicy _ _ _ => h_admin_update_policy
  | DeletePolicy _ _ => h_admin_delete_policy
  end.

Lemma auth_error_code h e : is_admin h = true → has_code h (map_auth_error e).
Proof. destruct h, e; try done; intros _; code. Qed.

Lemma typed_on_store {E A} (Q : A → Prop) (P : E → Prop) (m : M D E A) : typed Q P m → typed Q P (on_store m).
Proof. intros Hm s. specialize (Hm (data_store s)). unfold on_store. by destruct (m (data_store s)). Qed.

Lemma raises_emit {E} (P : E → Prop) ev : raises P (emit ev : M (AdminState (D := D)) E unit).
Proof. by intros s. Qed.

Lemma raises_header h q : is_admin h = true →
  raises (has_code h) (lift_res (extract_auth_header q) : M (AdminState (D := D)) DomainError string).
Proof. intros Hh. apply typed_lift, rtyped_ok_or. destruct h; try done; code. Qed.

Lemma raises_audited h app q hd act res tgt stm : is_admin h = true →
  raises (has_code h) (authenticate_audited app q hd act res tgt stm : M (AdminState (D := D)) DomainError unit).
Proof.
  intros Hh. unfold authenticate_audited. case_match; [by apply typed_ret|].
  apply typed_bind; [apply raises_emit|]. intros _. by apply typed_throw, auth_error_code.
Qed.

Lemma raises_plain h app hd act res : is_admin h = true →
  raises (has_code h) (authenticate_plain app hd act res : M (AdminState (D := D)) DomainError unit).
Proof.
  intros Hh. apply typed_bind; [|intros _; by apply typed_ret].
  apply typed_lift, rtyped_map_err. intros e. by apply auth_error_code.
Qed.

Lemma check_reserved_code h n ps : h = h_admin_create_billet → rtyped (λ _, True) (has_code h) (check_reserved n ps).
Proof. intros ->. induction ps as [|p ps IH]; cbn; [done|]. case_match; [code|done]. Qed.

(** The checks of a policy fail with two kinds of errors. *)
Definition invalid_policy (e : PolicyCrud.PolicyCrudError) : Prop :=
  match e with PolicyCrud.InvalidStatement _ | PolicyCrud.InvalidResourceScope _ => True | _ => False end.

Lemma try_for_each_typed {E A} (P : E → Prop) (f : A → result E unit) l :
  (∀ x, rtyped (λ _, True) P (f x)) → rtyped (λ _, True) P (try_for_each f l).
Proof. intros Hf. induction l as [|x l IH]; cbn; [done|]. by apply rtyped_bind. Qed.

Lemma validate_policy_typed sys b stm : rtyped (λ _, True) invalid_policy (PolicyCrud.validate_policy sys b stm).
Proof.
  assert (∀ r : result string CedarApi.PolicySet, rtyped (λ _, True) invalid_policy (map_err PolicyCrud.InvalidStatement r)) as Hp
    by (intros r; by apply rtyped_map_err).
  unfold PolicyCrud.validate_policy, PolicyCrud.validate_cedar_statement, PolicyCrud.validate_forbid_only,
    PolicyCrud.validate_resource_scope.
  apply rtyped_bind; [by apply rtyped_bind|]. intros _. apply rtyped_bind.
  - case_match; [|done]. apply rtyped_bind; [done|]. intros ps. apply try_for_each_typed. intros p. by apply rtyped_fail_if.
  - intros _. case_match; [|done]. apply rtyped_bind; [done|]. intros ps. apply try_for_each_typed. intros p.
    unfold PolicyCrud.check_policy_scope, PolicyCrud.check_resource_entity_uid.
    case_match; try done; (apply rtyped_bind; [by apply rtyped_fail_if|intros _; by apply rtyped_fail_if]).
Qed.

Lemma raises_validate h sys b stm :
  InvalidRequest ∈ error_codes h →
  raises (λ e, has_code h (map_policy_error e)) (lift_res (PolicyCrud.validate_policy sys b stm) : M D _ unit).
Proof.
  intros Hh s. cbn. pose proof (validate_policy_typed sys b stm) as Hv.
  destruct (PolicyCrud.validate_policy sys b stm) as [|e]; [done|]. by destruct e.
Qed.

(** Down to the calls of the store, any error of which is an internal error. *)
Ltac service_typing :=
  first
    [ by apply raises_header | by apply raises_audited | by apply raises_plain | apply raises_emit
    | by apply typed_lift, check_reserved_code
    | apply raises_validate; compute_decide
    | apply typed_lift, rtyped_fail_if; code
    | apply typed_lift, rtyped_ok_or; code
    | apply typed_lift, rtyped_map_err; intros ?; code
    | apply typed_map_err, typed_on_store
    | apply typed_map_err, raises_any; intros []; code
    | apply typed_ret; done
    | apply typed_throw; code
    | apply typed_bind; [|intros ?]
    | case_match ].

Lemma handle_typed app q rq :
  typed (λ st, st = success_status (handler_of rq)) (has_code (handler_of rq)) (handle (D := D) app q rq).
Proof.
  destruct rq; cbn [handle handler_of success_status].
  all: match goal with |- typed (λ z, z = ?st) _ _ => apply (typed_seq (λ r, r.1 = st)) end;
    [|by intros ? <-; apply typed_ret].
  all: unfold create_billet, list_billets, get_billet, update_billet, delete_billet, create_policy, list_policies,
    get_policy, update_policy, delete_policy.
  all: repeat service_typing.
Qed.
End admin.

(* ------------------------------------------------------------------ *)
(** ** The handlers of the data plane *)

Section data_plane.
Import TokenHandler.
Context `{CedarApi.CedarLib} `{PathPattern.RegexLib} `{HashIter} `{Token.JwtLib} `{Base64Lib}.
Context {D : Type} `{DataStore.DataStore D} {C : Type} `{Cache.Cache C} {L : Type} `{RateLimit.Limiter L}.
Implicit Types (app : AppState (D := D)) (ts : Instants).

Abbreviation Sh := (Shared (C := C) (L := L)).

Lemma raises_emit_shared {E} (P : E → Prop) ev : raises P (emit ev : M Sh E unit).
Proof. by intros s. Qed.

Lemma identity_error_code h e : h = h_token_exchange ∨ h = h_billet_discovery →
  has_code h (identity_error_to_domain_error e).
Proof. intros [-> | ->]; destruct e; code. Qed.

Lemma raises_caller h app ts rid aud cert tok tt_ : h = h_token_exchange ∨ h = h_billet_discovery →
  raises (has_code h) (authenticate_caller app ts rid aud cert tok tt_ : M Sh DomainError _).
Proof.
  intros Hh. unfold authenticate_caller. case_match.
  - apply typed_bind; [apply typed_lift, rtyped_ok_or; by destruct Hh as [-> | ->]; code|]. intros tt'.
    apply typed_bind; [|intros ?; by apply typed_ret]. apply typed_on_err, raises_any. intros e.
    apply typed_bind; [apply raises_emit_shared|]. intros _. by apply typed_throw, identity_error_code.
  - case_match; [by apply typed_ret|]. apply typed_throw. destruct Hh as [-> | ->]; code.
Qed.

Lemma resolver_input_typed h now i subj aud : h = h_token_exchange ∨ h = h_billet_discovery →
  rtyped (λ _, True) (has_code h) (build_resolver_input now i subj aud).
Proof.
  intros Hh. unfold build_resolver_input.
  assert (∀ d, has_code h (service_unavailable d)) as Hs by (intros d; destruct Hh as [-> | ->]; code).
  destruct i; [done|..]; (case_match; [|by apply Hs]).
  all: apply rtyped_bind; [by apply rtyped_map_err|]; intros ?; apply rtyped_bind; [by apply rtyped_map_err|done].
Qed.

Lemma apply_scope_typed raw bs : rtyped (λ _, True) (has_code h_token_exchange) (apply_scope raw bs).
Proof. unfold apply_scope. repeat case_match; try done. code. Qed.

Lemma issue_certificate_typed app csr subj bs :
  rtyped (λ _, True) (has_code h_token_exchange) (issue_certificate app csr subj bs).
Proof.
  unfold issue_certificate. case_match; [|done].
  apply rtyped_bind; [apply rtyped_map_err; intros e; code|]. intros ?.
  apply rtyped_bind; [apply rtyped_map_err; intros e; code|done].
Qed.

Ltac handler_typing :=
  first
    [ apply raises_caller; by auto
    | apply raises_emit_shared
    | apply typed_lift, resolver_input_typed; by auto
    | apply typed_lift, apply_scope_typed
    | apply typed_lift, issue_certificate_typed
    | apply typed_lift, rtyped_fail_if; code
    | apply typed_lift, rtyped_ok_or; code
    | apply typed_lift, rtyped_map_err; intros []; code
    | apply typed_map_err, raises_any; intros []; code
    | apply typed_on_err, raises_any; intros []
    | apply typed_ret; done
    | apply typed_throw; code
    | apply typed_bind; [|intros ?]
    | case_match ].

Lemma token_exchange_typed app ts rh cert form :
  raises (has_code h_token_exchange) (token_exchange app ts rh cert form : M Sh DomainError _).
Proof. unfold token_exchange. repeat handler_typing. Qed.

Lemma discovery_response_typed app i r :
  rtyped (λ _, True) (has_code h_billet_discovery) (discovery_response app i r).
Proof. unfold discovery_response. destruct r as [|[]]; try done; code. Qed.

Lemma attempt_typed {S E E' A} (P : E' → Prop) (m : M S E A) : raises P (attempt m : M S E' _).
Proof. intros s. unfold attempt. by destruct (m s). Qed.

Lemma billet_discovery_typed app ts rh cert form :
  raises (has_code h_billet_discovery) (billet_discovery app ts rh cert form : M Sh DomainError _).
Proof.
  unfold billet_discovery. rewrite discovery_caller_same.
  repeat first [apply attempt_typed | apply typed_lift, discovery_response_typed
    | rewrite discovery_input_same | handler_typing].
Qed.
End data_plane.

Section get_billet.
Import AdminAuth.
Context `{CedarApi.CedarLib} `{Token.JwtLib} {D : Type} `{DataStore.DataStore D}.

Lemma bearer_token_typed hd : rtyped (λ _, True) (has_code h_get_billet) (handler_bearer_token hd).
Proof. unfold handler_bearer_token. repeat (apply rtyped_bind; [apply rtyped_fail_if; code|intros ?]). done. Qed.

Lemma verify_typed m iss now tok : rtyped (λ _, True) (has_code h_get_billet) (verify_quartermaster_jwt m iss now tok).
Proof.
  unfold verify_quartermaster_jwt.
  repeat (apply rtyped_bind; [first [apply rtyped_map_err; intros e; code | apply rtyped_ok_or; code]|intros ?]).
  apply rtyped_map_err. intros []; code.
Qed.

Lemma get_billet_typed m iss authz now nt hd n :
  raises (has_code h_get_billet) (get_billet_handler m iss authz now nt hd n : M D DomainError _).
Proof.
  unfold get_billet_handler.
  repeat first
    [ apply typed_lift, bearer_token_typed | apply typed_lift, verify_typed
    | apply typed_lift, rtyped_fail_if; code | apply typed_lift, rtyped_ok_or; code
    | apply typed_lift, rtyped_map_err; intros []; code
    | apply typed_map_err, raises_any; intros []; code
    | apply typed_ret; done | apply typed_bind; [|intros ?] ].
Qed.
End get_billet.

(* ------------------------------------------------------------------ *)
(** ** The document and the answers *)

(** The status of an answer. *)
Definition status {A} (ok : A → Z) (r : result DomainError A) : Z :=
  match r with Ok a => ok a | Err e => resp_status (into_response e) end.

Definition answers (h : Handler) : list Z :=
  success_status h :: (match h with h_healthz => [503%Z] | h_openapi_json => [500%Z] | _ => [] end) ++
  (status_code <$> error_codes h).

(** A handler that returns a document, and has no way to fail. *)
Definition status_of_document {A} (document : A) : Z := status (λ _, 200%Z) (Ok document).

Definition documented_statuses (op : OpenApi.Operation) : list Z := OpenApi.r_status <$> OpenApi.op_responses op.

(** What the document leaves out. *)
Definition undocumented (h : Handler) : list Z :=
  match h with
  | h_token_exchange => [403; 429; 503]
  | h_billet_discovery => [429; 503]
  | h_admin_create_billet => [400; 409; 503]
  | h_admin_update_billet | h_admin_create_policy | h_admin_update_policy => [400; 503]
  | h_get_billet | h_healthz | h_admin_list_billets | h_admin_get_billet | h_admin_delete_billet
  | h_admin_list_policies | h_admin_get_policy | h_admin_delete_policy => [503]
  | h_openapi_json | h_openid_configuration | h_jwks | h_ca_chain => []
  end%Z.

Lemma typed_status {S A} h (ok : A → Z) (m : M S DomainError A) s :
  h ≠ h_healthz → h ≠ h_openapi_json →
  typed (λ a, ok a = success_status h) (has_code h) m → status ok (m s).1 ∈ answers h.
Proof.
  intros Hh Ho Hm. specialize (Hm s). destruct (m s).1 as [a|e]; cbn in *; [rewrite Hm; left|].
  right. apply elem_of_app. right. by apply list_elem_of_fmap_2.
Qed.

Lemma is_admin_handler h : is_admin h = true ↔ ∃ rq, h = handler_of rq.
Proof.
  split; [|by intros [[] ->]].
  set (b := AdminHandlers.mkCreateBillet "" "" [] [] []). set (u := AdminHandlers.mkUpdateBillet None None None None).
  set (p := AdminHandlers.mkPolicyRequest "" ""). intros Hh. destruct h; try discriminate Hh.
  all: first [ by exists (AdminHandlers.CreateBillet b) | by exists AdminHandlers.ListBillets
    | by exists (AdminHandlers.GetBillet "") | by exists (AdminHandlers.UpdateBillet "" u)
    | by exists (AdminHandlers.DeleteBillet "") | by exists (AdminHandlers.CreatePolicy "" p)
    | by exists (AdminHandlers.ListPolicies "") | by exists (AdminHandlers.GetPolicy "" "")
    | by exists (AdminHandlers.UpdatePolicy "" "" p) | by exists (AdminHandlers.DeletePolicy "" "") ].
Qed.

Section answers.
Context `{CedarApi.CedarLib} `{AdminHandlers.PayloadLib} `{PathPattern.RegexLib} `{HashIter} `{Token.JwtLib}
  `{TokenHandler.Base64Lib} {D : Type} `{DataStore.DataStore D} {C : Type} `{Cache.Cache C} {L : Type}
  `{RateLimit.Limiter L}.

(** C38: every one of the eighteen handlers, once it is called, answers only with the
    statuses of its type: its success status or the statuses of its error codes, 503 for
    the health report and 500 for the document of the API.  Everything the OpenAPI
    document promises for a handler is among them, and apart from the documented statuses
    only those listed as undocumented remain.  This is about the answers handlers return:
    not about a request that the routing or an extractor of [axum] refuses before the
    handler runs (400, 404, 405, 415, 422), nor about the 500 which [CatchPanicLayer]
    makes of a panic. *)
Theorem answers_typed :
  (∀ app q rq (s : AdminHandlers.AdminState), status id (AdminHandlers.handle (D := D) app q rq s).1 ∈ answers (handler_of rq)) ∧
  (∀ app ts rh cert form (s : TokenHandler.Shared (C := C) (L := L)),
     status (λ _, 200%Z) (TokenHandler.token_exchange (D := D) app ts rh cert form s).1 ∈ answers h_token_exchange) ∧
  (∀ app ts rh cert form (s : TokenHandler.Shared (C := C) (L := L)),
     status (λ _, 200%Z) (TokenHandler.billet_discovery (D := D) app ts rh cert form s).1 ∈ answers h_billet_discovery) ∧
  (∀ m iss authz now nt hd n (d : D),
     status (λ _, 200%Z) (AdminAuth.get_billet_handler m iss authz now nt hd n d).1 ∈ answers h_get_billet) ∧
  (∀ k i (d : D), (healthz k i d).1.1 ∈ answers h_healthz) ∧
  (∀ to_pretty_json, (OpenApi.openapi_json to_pretty_json).1 ∈ answers h_openapi_json) ∧
  (∀ p, status_of_document (openid_configuration p) ∈ answers h_openid_configuration) ∧
  (∀ p, status_of_document (jwks p) ∈ answers h_jwks) ∧
  (∀ p, status_of_document (ca_chain p) ∈ answers h_ca_chain) ∧
  (∀ h op, (h, op) ∈ OpenApi.documented →
     documented_statuses op ⊆ answers h ∧
     ∀ z, z ∈ answers h ↔ z ∈ documented_statuses op ∨ z ∈ undocumented h).
Proof.
  split_and!.
  - intros app q rq s. apply typed_status; [by destruct rq..|]. apply handle_typed.
  - intros app ts rh cert form s. apply typed_status; [done..|]. eapply typed_weaken; [..|apply token_exchange_typed]; done.
  - intros app ts rh cert form s. apply typed_status; [done..|]. eapply typed_weaken; [..|apply billet_discovery_typed]; done.
  - intros m iss authz now nt hd n d. apply typed_status; [done..|]. eapply typed_weaken; [..|apply get_billet_typed]; done.
  - intros k i d. unfold healthz. destruct (DataStore.ping d) as [[[]|e] d'], k, i; cbn; compute_decide.
  - intros tpj. unfold OpenApi.openapi_json. destruct (tpj _); cbn; compute_decide.
  - intros p. by left.
  - intros p. by left.
  - intros p. by left.
  - assert (Forall (λ p, documented_statuses p.2 ⊆ answers p.1 ∧
      Forall (λ z, z ∈ documented_statuses p.2 ∨ z ∈ undocumented p.1) (answers p.1) ∧
      Forall (λ z, z ∈ answers p.1) (undocumented p.1)) OpenApi.documented) as Hall by compute_decide.
    rewrite Forall_forall in Hall. intros h op Hin. destruct (Hall _ Hin) as (Hs & Ha & Hu).
    rewrite Forall_forall in Ha, Hu. split; [done|]. intros z. split; [apply Ha|intros [?|?]; [by apply Hs|by apply Hu]].
Qed.

(** Without an [Authorization] header the answer is 401 and nothing has happened. *)
Lemma handle_without_header app q rq (s : AdminHandlers.AdminState) : AdminHandlers.authorization q = None →
  status id (AdminHandlers.handle (D := D) app q rq s).1 = 401%Z ∧ (AdminHandlers.handle (D := D) app q rq s).2 = s.
Proof. destruct q as [x au t a u]; cbn. intros ->. by destruct rq. Qed.

(** C39: whichever listeners are configured, the OpenAPI document describes exactly the
    routes they serve, apart from its own: the same methods and path templates, each
    once, with the parameters of the path.  Its own route is served and answers 200 or
    500, whatever the request carries.  An operation documents the bearer scheme exactly
    if its handler is one of the administration or reads a billet; these answer 401 to a
    request without an [Authorization] header, and leave the state as it was; and the
    handlers whose operation documents no scheme never answer 401 or 403.  Each operation
    documents a success, a 401 if it has a scheme, and uses only tags, security schemes
    and request schemas that the document declares. *)
Theorem document_matches_routes server :
  let served := concat (flat ∘ router <$> listeners server) in
  filter (λ k, k.1.2 ≠ h_openapi_json) (OpenApi.route_key <$> served) ≡ₚ
    (λ p, OpenApi.operation_key p.1 p.2) <$> OpenApi.paths OpenApi.ApiDoc ∧
  NoDup ((λ p, (OpenApi.op_path p.2, OpenApi.op_method p.2)) <$> OpenApi.paths OpenApi.ApiDoc) ∧
  ("/openapi.json", GET, h_openapi_json) ∈ served ∧
  (∀ to_pretty_json, (OpenApi.openapi_json to_pretty_json).1 ∈ [200; 500]%Z) ∧
  (∀ h op, (h, op) ∈ OpenApi.paths OpenApi.ApiDoc →
     OpenApi.well_formed OpenApi.ApiDoc op = true ∧
     ("BearerAuth" ∈ OpenApi.op_security op ↔ h = h_get_billet ∨ (∃ rq, h = handler_of rq)) ∧
     (OpenApi.op_security op = [] → (401%Z ∉ answers h) ∧ (403%Z ∉ answers h))) ∧
  (∀ app q rq (s : AdminHandlers.AdminState), AdminHandlers.authorization q = None →
     status id (AdminHandlers.handle (D := D) app q rq s).1 = 401%Z ∧ (AdminHandlers.handle (D := D) app q rq s).2 = s) ∧
  (∀ m iss authz now nt n (d : D),
     status (λ _, 200%Z) (AdminAuth.get_billet_handler m iss authz now nt None n d).1 = 401%Z ∧
     (AdminAuth.get_billet_handler m iss authz now nt None n d).2 = d).
Proof.
  cbn zeta. rewrite OpenApi.served_routes. split_and!; [exact OpenApi.document_routes|compute_decide|compute_decide| | | |done].
  - intros tpj. unfold OpenApi.openapi_json. destruct (tpj _); cbn; compute_decide.
  - assert (Forall (λ p, OpenApi.well_formed OpenApi.ApiDoc p.2 = true ∧
      bool_decide ("BearerAuth" ∈ OpenApi.op_security p.2) = (bool_decide (p.1 = h_get_billet) || is_admin p.1) ∧
      (OpenApi.op_security p.2 = [] → (401%Z ∉ answers p.1) ∧ (403%Z ∉ answers p.1))) (OpenApi.paths OpenApi.ApiDoc)) as Hall by compute_decide.
    rewrite Forall_forall in Hall. intros h op Hin. destruct (Hall _ Hin) as (Hw & Hb & Hc).
    split; [done|]. split; [|done]. cbn [fst snd] in Hb.
    rewrite <-(bool_decide_spec (_ ∈ _)), Hb, <-is_admin_handler, orb_True, bool_decide_spec, Is_true_true. done.
  - intros app q rq s. apply handle_without_header.
Qed.

End answers.

(* ------------------------------------------------------------------ *)
(** ** The undocumented statuses occur *)

Import Demo.

(** A store that does not answer. *)
#[local] Instance down : DataStore.DataStore unit :=
  let fail {A} := λ d : unit, (Err (DataStore.Internal "down") : result DataStore.DataStoreError A, d) in {|
  DataStore.create_billet := λ _, fail; DataStore.get_billet := λ _, fail; DataStore.update_billet := λ _, fail;
  DataStore.delete_billet_cascade := λ _, fail; DataStore.list_billets := fail; DataStore.create_policy := λ _, fail;
  DataStore.get_policy := λ _ _, fail; DataStore.update_policy := λ _, fail; DataStore.delete_policy := λ _ _, fail;
  DataStore.list_policies_for_billet := λ _, fail; DataStore.list_all_policies := fail;
  DataStore.put_ephemeral_key := λ _, fail; DataStore.get_active_ephemeral_keys := λ _ _, fail;
  DataStore.delete_expired_ephemeral_keys := λ _ _, fail; DataStore.ping := fail |}.

Import AdminHandlers.
#[local] Existing Instance demo_payload.

Definition open_app : AdminApp :=
  mkAdminApp (λ _ _ _, Ok "spiffe://td/admin") (Implicit.from_config []) PolicyCrud.demo_system.

Definition demo_requests : list admin_request :=
  [CreateBillet (mkCreateBillet "ops" "" [] [] []); ListBillets; GetBillet "reader";
   UpdateBillet "reader" (mkUpdateBillet None None None None); DeleteBillet "reader";
   CreatePolicy "reader" (mkPolicyRequest "permit reader" ""); ListPolicies "reader"; GetPolicy "reader" "1";
   UpdatePolicy "reader" "1" (mkPolicyRequest "permit reader" ""); DeletePolicy "reader" "1"].

Definition admin_status {D} `{DataStore.DataStore D} (s : AdminState (D := D)) (rq : admin_request) : Z :=
  status id (handle open_app (demo_req (Some "Bearer h.p.s")) rq s).1.

(** The answers to a valid exchange when the caller asks for a billet it does not
    hold, has used up its rate, or comes before the first synchronisation. *)
Section exchanges.
Import Identity TokenHandler.
#[local] Existing Instance no_base64.
#[local] Existing Instance Resolver.no_regex.
#[local] Existing Instance RateLimit.InMemoryLimiter_Limiter.
Import Token.ToyJwt.
Abbreviation Sh := (Shared (C := Cache.Memory.InMemoryCache) (L := RateLimit.InMemoryLimiter)).

Definition wanting (billets : string) : TokenExchangeForm :=
  mkForm (Some GRANT_TYPE) (Some "svid") (Some TOKEN_TYPE_SPIRE) (Some "aud") None (Some billets).

Definition unsynced_app : AppState (D := Demo.store) :=
  mkApp demo_dispatcher None
    (Resolver.mkResolver (Cedar.batch_is_authorized_entity (Cedar.mkAuthorizer Sync.demo_sync []))
       Sync.demo_sync (secs 300) Resolver.demo_matcher (λ _, "t"))
    (Implicit.from_config []) Token.ToyJwt.toy_issuer (λ _, Err (CertApi.CaNotReady "no CA")).

Definition limited : Sh :=
  mkShared (RateLimit.new 0) Cache.Memory.new demo_audit.

Definition exchange_status (app : AppState (D := Demo.store)) (billets : string) (s : Sh) : Z :=
  status (λ _, 200%Z) (token_exchange app demo_instants None None (wanting billets) s).1.
Definition discovery_status (app : AppState (D := Demo.store)) (s : Sh) : Z :=
  status (λ _, 200%Z) (billet_discovery app demo_instants None None (mkDiscoveryForm (Some "svid") (Some TOKEN_TYPE_SPIRE)) s).1.
End exchanges.

(** Statuses that the document leaves out are the answers to these requests. *)
Lemma undocumented_occur :
  exchange_status TokenHandler.demo_app "writer" TokenHandler.demo_shared = 403%Z ∧
  exchange_status TokenHandler.demo_app "reader" limited = 429%Z ∧
  exchange_status unsynced_app "reader" TokenHandler.demo_shared = 503%Z ∧
  discovery_status TokenHandler.demo_app limited = 429%Z ∧
  discovery_status unsynced_app TokenHandler.demo_shared = 503%Z ∧
  (λ rq, admin_status (mkAdminState tt demo_audit) rq) <$> demo_requests = replicate 10 503%Z ∧
  admin_status demo_admin_state (CreateBillet (mkCreateBillet "reader" "" [] [] [])) = 409%Z ∧
  admin_status demo_admin_state (CreateBillet (mkCreateBillet "ops" "" [] [] ["?"])) = 400%Z ∧
  admin_status demo_admin_state (UpdateBillet "reader" (mkUpdateBillet None None None (Some ["?"]))) = 400%Z ∧
  admin_status demo_admin_state (CreatePolicy "reader" (mkPolicyRequest "allow" "")) = 400%Z ∧
  admin_status demo_admin_state (UpdatePolicy "reader" "1" (mkPolicyRequest "permit writer" "")) = 400%Z ∧
  (healthz KeyManager.Healthy true tt).1.1 = 503%Z.
Proof. vm_compute. split_and!; reflexivity. Qed.

End StatusTypes.
