(* ===== verification/Cli.v ===== *)
(** * The bootstrap command line ([src/src/bin/qm_bootstrap.rs])

    The whole tool: it works on the store directly, without the server.  Files,
    standard input, the clock and fresh identifiers are arguments; the state is the
    world behind the store and the text printed so far.  The parser of arguments
    ([clap]) is not modelled: [main] takes its outcome. *)

From S2P Require Import Prelude DataStore LocalStore CedarApi AuditLog Demo Jwt Token AdminAuth StaticKey Config.
From S2P Require Import Sync Cedar PathPattern Mtls Svid Cert PolicyCrud KeyManager DynamoApi Dynamo Resolver Jwks AnyStore Server Startup Boot.

Module Cli.
Import DataStore CedarApi AdminAuth KeyManager.
Local Open Scope Z_scope.

Inductive CliError : Type :=
| ConfigError (msg : string)
| DataStoreError (msg : string)
| CedarParseError (msg : string)
| BilletNotFound (msg : string)
| SigningError (msg : string)
| IoError (msg : string).

Definition CliError_fmt (e : CliError) : string :=
  match e with
  | ConfigError msg => "config error: " +:+ msg
  | DataStoreError msg => "datastore error: " +:+ msg
  | CedarParseError msg => "cedar parse error: " +:+ msg
  | BilletNotFound msg => "billet not found: " +:+ msg
  | SigningError msg => "signing error: " +:+ msg
  | IoError msg => "io error: " +:+ msg
  end.

Inductive Commands : Type :=
| AddPolicy (billet source : string)
| ListBillets
| ListPolicies (billet : string)
| IssueToken (billets : list string).

(** What a run reads: files, standard input, the clock (as unix seconds and as text),
    a fresh identifier, and the readings of a new key manager. *)
Record Env : Type := mkEnv {
  read_file : string → result string string;
  stdin : result string string;
  unix_now : Z;
  now_text : string;
  uuid : string;
  key_env : NewEnv
}.

(** [println!] adds a line feed. *)
Record World (W : Type) : Type := mkWorld { backend : W; stdout : string }.
Arguments mkWorld {W} _ _.
Arguments backend {W} _.
Arguments stdout {W} _.

Definition nl : string := CedarApi.nl.

Section cli.
Context `{CedarLib} `{StaticKey.SigningCrypto} `{Chrono} `{AwsKms} {W : Type}.

Definition on_backend {E A} (m : M W E A) : M (World W) E A :=
  λ s, match m (backend s) with (r, w) => (r, mkWorld w (stdout s)) end.
Definition print {E} (t : string) : M (World W) E unit := modify_st (λ s, mkWorld (backend s) (stdout s +:+ t)).
Definition println {E} (t : string) : M (World W) E unit := print (t +:+ nl).

(* ------------------------------------------------------------------ *)
(** ** Sources and statements *)

Definition read_source (env : Env) (source : string) : result CliError string :=
  if bool_decide (source = "-")
  then map_err (λ e, IoError ("failed to read stdin: " +:+ e)) (stdin env)
  else map_err (λ e, IoError ("failed to read '" +:+ source +:+ "': " +:+ e)) (read_file env source).

Definition validate_cedar_syntax (statement : string) : result CliError unit :=
  _ ← map_err (λ e, CedarParseError ("invalid Cedar syntax: " +:+ e)) (parse_policy_set statement); Ok tt.

(** [statement.lines().next().unwrap_or("(empty)")] *)
Definition first_line (statement : string) : string :=
  if Str.is_empty statement then "(empty)"
  else match Str.find_str nl statement with
       | Some (line, _) => default line (Str.strip_suffix (String "013" "") line)
       | None => statement
       end.

(* ------------------------------------------------------------------ *)
(** ** Subcommands *)

Section store.
Context `{!DataStore W}.

Definition store_error (e : DataStore.DataStoreError) : CliError := DataStoreError (DataStoreError_fmt e).

Definition add_policy (env : Env) (billet source : string) : M (World W) CliError unit :=
  statement ← lift_res (read_source env source);
  _ ← lift_res (validate_cedar_syntax statement);
  billet_record ← m_map_err store_error (on_backend (get_billet billet));
  _ ← lift_res (fail_if (bool_decide (billet_record = None)) (BilletNotFound billet));
  let policy_id := uuid env in
  let record := mkPolicy billet policy_id statement "" (now_text env) (now_text env) in
  _ ← m_map_err store_error (on_backend (create_policy record));
  println policy_id.

Fixpoint print_lines (l : list string) : M (World W) CliError unit :=
  match l with
  | [] => mret tt
  | t :: l' => _ ← println t; print_lines l'
  end.

Definition list_billets_cmd : M (World W) CliError unit :=
  billets ← m_map_err store_error (on_backend list_billets);
  if bool_decide (billets = []) then println "no billets found"
  else print_lines ((λ b, name b +:+ " — " +:+ description b) <$> billets).

Definition list_policies_cmd (billet : string) : M (World W) CliError unit :=
  policies ← m_map_err store_error (on_backend (list_policies_for_billet billet));
  if bool_decide (policies = []) then println ("no policies found for '" +:+ billet +:+ "'")
  else print_lines ((λ p, "[" +:+ policy_id p +:+ "] " +:+ first_line (statement p)) <$> policies).
End store.

(** The sum wraps as unsigned arithmetic of a release build does. *)
Definition build_bootstrap_claims (env : Env) (issuer : string) (billets : list string) : Token.Claims :=
  let now := wrap 64 (unix_now env) in
  Token.mkClaims issuer "bootstrap:admin" issuer billets ∅ now (wrap 64 (now + 600)) (uuid env) None.

Definition sign_jwt (key_manager : AnyKeyManager) (claims : Token.Claims) : result CliError string :=
  map_err (λ e, SigningError ("JWT signing failed: " +:+ e))
    (Token.jwt_encode (Token.header (key_view key_manager)) claims (Token.encoding_key (key_view key_manager))).

Definition issue_token (env : Env) (key_manager : AnyKeyManager) (issuer : string) (billets : list string) :
    M (World W) CliError unit :=
  token ← lift_res (sign_jwt key_manager (build_bootstrap_claims env issuer billets));
  print token.

(* ------------------------------------------------------------------ *)
(** ** The run *)

(** How the configuration is read, how the stores are initialised, and the operations
    of the store that was built, over the world behind it. *)
Section run.
Context {L F : Type} (load_config : result Config.ConfigError Config.Config)
  (local_new : string → result DataStore.DataStoreError L)
  (firestore_new : Config.FirestoreConfig → result DataStore.DataStoreError F) (gcp_feature : bool)
  (operations : Startup.BuiltStore L F → DataStore W).

Definition build_datastore (config : Config.Config) : result CliError (Startup.BuiltStore L F) :=
  match Config.datastore config with
  | Some ds_config => map_err DataStoreError (Startup.build_datastore local_new firestore_new gcp_feature ds_config)
  | None =>
      match Config.dynamo config with
      | Some dynamo_config =>
          Ok (Startup.DynamoBuilt (Config.dynamo_region dynamo_config)
                (Dynamo.new (Config.mkDynamoDb (Config.dynamo_region dynamo_config) (Config.billets_table dynamo_config)
                               (Config.policies_table dynamo_config))))
      | None => Err (ConfigError "either [datastore] or [dynamo] section must be present in config")
      end
  end.

Definition build_key_manager `{!DataStore W} (env : Env) (config : Config.Config) :
    M (World W) (fault CliError) AnyKeyManager :=
  match Config.signing_backend config with
  | Some sb_config =>
      m_map_fault SigningError (on_backend (KeyManager.build_key_manager (read_file env) sb_config "signing" (key_env env)))
  | None =>
      let mem_config := Config.mkMemorySigning (Config.signing_key_path (Config.signing config)) in
      manager ← lift_res (map_err (λ e, Failed (SigningError ("failed to load signing key: " +:+ KeyError_fmt e)))
                            (MemoryKeyManager_new (read_file env) mem_config));
      mret (MemoryManager manager)
  end.

Definition run (env : Env) (command : Commands) : M (World W) (fault CliError) unit :=
  config ← lift_res (map_err (λ e, Failed (ConfigError (Config.message e))) load_config);
  data_store ← lift_res (map_err Failed (build_datastore config));
  let _ := operations data_store in
  match command with
  | AddPolicy billet source => m_map_err Failed (add_policy env billet source)
  | ListBillets => m_map_err Failed list_billets_cmd
  | ListPolicies billet => m_map_err Failed (list_policies_cmd billet)
  | IssueToken billets =>
      key_manager ← build_key_manager env config;
      m_map_err Failed (issue_token env key_manager (Config.issuer config) billets)
  end.

(** [parsed] is the outcome of [Cli::try_parse], an error with its [use_stderr].  The
    answer is the exit code with the line on standard error; a panic exits with 101. *)
Definition main (env : Env) (parsed : result bool Commands) (s : World W) : (Z * option string) * World W :=
  match parsed with
  | Err use_stderr => ((if use_stderr then 1 else 0, None), s)
  | Ok command =>
      match run env command s with
      | (Ok _, s') => ((0, None), s')
      | (Err (Failed e), s') => ((1, Some ("Error: " +:+ CliError_fmt e)), s')
      | (Err Panicked, s') => ((101, None), s')
      end
  end.
End run.

(* ------------------------------------------------------------------ *)
(** ** Properties *)

Lemma on_backend_inv {E A} (m : M W E A) s r s' :
  on_backend m s = (r, s') → m (backend s) = (r, backend s') ∧ stdout s' = stdout s.
Proof. unfold on_backend. destruct (m (backend s)) as [x w]. by intros [= <- <-]. Qed.

Section add.
Context `{DataStoreLaws W} (env : Env).

(** [add_policy] adds exactly one record, of a statement that parses, to a billet that
    exists, and prints its identifier; when it fails it prints nothing and the policies
    are as they were. *)
Lemma add_policy_effect b src s r s' :
  ds_ok (backend s) → add_policy env b src s = (r, s') →
  ds_ok (backend s') ∧ ds_billets (backend s') = ds_billets (backend s) ∧
  match r with
  | Ok _ => ∃ stm ps, read_source env src = Ok stm ∧ parse_policy_set stm = Ok ps ∧
      is_Some (ds_billets (backend s) !! b) ∧ ds_policies (backend s) !! (b, uuid env) = None ∧
      ds_policies (backend s') = <[(b, uuid env) := mkPolicy b (uuid env) stm "" (now_text env) (now_text env)]> (ds_policies (backend s)) ∧
      stdout s' = stdout s +:+ uuid env +:+ nl
  | Err e => ds_policies (backend s') = ds_policies (backend s) ∧ stdout s' = stdout s ∧
      (e = BilletNotFound b → ds_billets (backend s) !! b = None)
  end.
Proof.
  intros Hd Hr. unfold add_policy in Hr.
  apply M_bind_inv in Hr as [(stm & s1 & Hl & Hr)|(e & Hl & ->)]; injection Hl as Hsrc <-.
  2:{ split_and!; try done. intros ->. unfold read_source in Hsrc.
      case_bool_decide; apply map_err_Err in Hsrc as (? & _ & ?); discriminate. }
  apply M_bind_inv in Hr as [([] & s1 & Hl & Hr)|(e & Hl & ->)]; injection Hl as Hv <-.
  2:{ split_and!; try done. intros ->. unfold validate_cedar_syntax in Hv.
      destruct (parse_policy_set stm); discriminate. }
  unfold validate_cedar_syntax in Hv. apply bind_Ok in Hv as (ps & Hps%map_err_Ok & _).
  apply bind_map_err in Hr as [(o & s1 & Hg & Hr)|(e & Hg & ->)]; apply on_backend_inv in Hg as [Hg Hout];
    apply get_billet_spec in Hg as (Hd1 & Hb1 & Hp1 & Ho); try done.
  specialize (Ho o eq_refl).
  apply M_bind_inv in Hr as [([] & s2 & Hl & Hr)|(e & Hl & ->)]; injection Hl as Hf <-;
    unfold fail_if in Hf; case_bool_decide as Hnone; try done.
  2:{ injection Hf as <-. split_and!; try done. intros _. by rewrite <-Ho. }
  assert (is_Some (ds_billets (backend s) !! b)) as Hex by (rewrite <-Ho; by apply not_eq_None_Some).
  apply bind_map_err in Hr as [([] & s2 & Hc & Hr)|(e & Hc & ->)]; apply on_backend_inv in Hc as [Hc Hout2];
    apply create_policy_spec in Hc as (Hd2 & Hb2 & Hc); try done.
  - injection Hr as <- <-. cbn. destruct Hc as [Hfree Hp2]. rewrite Hp1 in *. split_and!; [done|congruence|].
    exists stm, ps. by rewrite Hout2, Hout.
  - destruct Hc as [-> _]. split_and!; try done; congruence.
Qed.
End add.

(** For a statement the API would accept, the tool does to the store what the API does. *)
Lemma add_policy_like_api `{!DataStore W} env sys b src stm s :
  read_source env src = Ok stm → PolicyCrud.validate_policy sys b stm = Ok tt →
  let '(r, s') := add_policy env b src s in
  let '(r', d') := PolicyCrud.create sys (uuid env) (now_text env) b stm "" (backend s) in
  backend s' = d' ∧ is_ok r = is_ok r'.
Proof.
  intros Hsrc Hv. pose proof Hv as (ps & Hps & _)%PolicyCrud.validate_policy_Ok.
  unfold add_policy, PolicyCrud.create, validate_cedar_syntax, on_backend, println, print. unfold_monad.
  rewrite Hsrc, Hv, Hps. cbn. destruct (get_billet b (backend s)) as [[[rec|]|e] d1] eqn:Hg; cbn; [|done..].
  rewrite ?Hg. cbn. destruct (create_policy _ d1) as [[[]|e] d2] eqn:Hc; cbn; rewrite ?Hc; done.
Qed.

(* ------------------------------------------------------------------ *)
(** ** The bootstrap token *)

Lemma build_static `{!DataStore W} env c key s r s' :
  Boot.static_key c = Some key → build_key_manager env c s = (r, s') →
  s' = s ∧ ∀ m, r = Ok m → ∃ mm, m = MemoryManager mm ∧ MemoryKeyManager_new (read_file env) key = Ok mm.
Proof.
  unfold Boot.static_key, build_key_manager. destruct (Config.signing_backend c) as [sb|].
  - destruct (Config.sb_backend sb) eqn:Hb; [|done]. intros Hk. unfold m_map_fault, on_backend, KeyManager.build_key_manager.
    rewrite Hb, Hk. cbn. unfold_monad. destruct (MemoryKeyManager_new (read_file env) key) as [mm|e]; cbn;
      intros [= <- <-]; (split; [by destruct s|]); [intros m [= <-]; by exists mm|done].
  - intros [= <-]. unfold_monad. destruct (MemoryKeyManager_new _ _) as [mm|e]; cbn; intros [= <- <-];
      (split; [done|]); [intros m [= <-]; by exists mm|done].
Qed.

Context `{!Token.JwtLaws} `{!StaticKey.SigningCryptoLaws}.

(** Reading a key depends on its file only. *)
Lemma key_of_file read read' key :
  read (Config.ms_key_path key) = read' (Config.ms_key_path key) → MemoryKeyManager_new read key = MemoryKeyManager_new read' key.
Proof. unfold MemoryKeyManager_new, StaticKey.from_pem_file. by intros ->. Qed.

Lemma cli_issue_inv {L F} load_config local_new firestore_new gcp (operations : Startup.BuiltStore L F → DataStore W)
    env c key billets s s' :
  load_config = Ok c → Boot.static_key c = Some key →
  run load_config local_new firestore_new gcp operations env (IssueToken billets) s = (Ok tt, s') →
  ∃ mm token, MemoryKeyManager_new (read_file env) key = Ok mm ∧ backend s' = backend s ∧ stdout s' = stdout s +:+ token ∧
    Token.jwt_encode (Token.header (signing_view mm)) (build_bootstrap_claims env (Config.issuer c) billets)
      (Token.encoding_key (signing_view mm)) = Ok token.
Proof.
  intros -> Hk Hrun. unfold run in Hrun.
  apply M_bind_inv in Hrun as [(c' & s1 & Hl & Hrun)|(e & _ & [=])]. injection Hl as <- <-.
  apply M_bind_inv in Hrun as [(ds & s1 & Hl & Hrun)|(e & _ & [=])]. injection Hl as _ <-. cbv zeta in Hrun.
  apply M_bind_inv in Hrun as [(km & s1 & Hb & Hrun)|(e & _ & [=])].
  apply (build_static _ _ _ _ _ _ Hk) in Hb as [-> Hb]. destruct (Hb km eq_refl) as (mm & -> & Hmm).
  apply m_map_err_inv in Hrun as (x & Hrun & Hx).
  apply M_bind_inv in Hrun as [(token & s2 & Hs & Hp)|(e & Hs & ->)]; [|done].
  injection Hs as Hs <-. injection Hp as _ <-. apply map_err_Ok in Hs. by exists mm, token.
Qed.

Context `{PathPattern.RegexLib} `{Jwt.Verify.JwtVerify} `{Mtls.X509Lib} `{Cert.RingIo, Cert.Rcgen}.

(** C40: with a PKCS#8 key file, a token that the tool prints is accepted by every
    server that starts, over whatever store, with the same configuration and the same
    key file: for ten minutes it authenticates as [bootstrap:admin], exactly when the
    policies allow the action to the billets that were asked for, and always when one
    of them is a system billet; the tool prints nothing else and leaves the store
    alone. *)
Theorem bootstrap_token_authenticates {L F V} load_config local_new firestore_new gcp
    (operations : Startup.BuiltStore L F → DataStore W) `{!DataStore V} (parse : string → result string json)
    {PK SC} open_file certs private_key (with_cert : Server.ClientCertVerifier → list string → PK → result string SC)
    env c key der billets s s' env' (v v' : V) b now nt action resource :
  load_config = Ok c → Boot.static_key c = Some key → read_file env (Config.ms_key_path key) = Ok (StaticKey.pkcs8_to_pem der) →
  run load_config local_new firestore_new gcp operations env (IssueToken billets) s = (Ok tt, s') →
  Boot.read_file env' (Config.ms_key_path key) = read_file env (Config.ms_key_path key) →
  Boot.boot_on parse open_file certs private_key with_cert env' c v = (Ok b, v') →
  0 ≤ unix_now env → unix_now env + 600 < 2 ^ 64 → now ≤ unix_now env + 600 →
  backend s' = backend s ∧ ∃ token, stdout s' = stdout s +:+ token ∧
    authenticate (Boot.admin_authenticator b) now nt ("Bearer " +:+ token) action resource =
    match Cedar.is_authorized_admin (Boot.local_authorizer b)
            (Cedar.mkAdminReq billets action resource (Cedar.mkContext "" "" nt "" "" [])) ∅ with
    | Ok true => Ok "bootstrap:admin"
    | Ok false => Err InsufficientPrivileges
    | Err e => Err (InvalidToken ("authorization evaluation failed: " +:+ Cedar.CedarError_fmt e))
    end ∧
    ((∃ x, x ∈ billets ∧ x ∈ Config.system_billets c) →
     authenticate (Boot.admin_authenticator b) now nt ("Bearer " +:+ token) action resource = Ok "bootstrap:admin").
Proof.
  intros Hc Hk Hread Hrun Hsame Hboot H0' Hmax Hnow.
  destruct (cli_issue_inv _ _ _ _ _ _ _ _ _ _ _ Hc Hk Hrun) as (mm & token & Hmm & Hback & Hout & Henc).
  apply Boot.boot_on_signing in Hboot as [Hbc (v1 & Hs)].
  destruct (Boot.signing_static _ _ _ _ _ _ Hk Hs) as (mm' & Hm & Hmm').
  rewrite (key_of_file _ _ _ Hsame), Hmm in Hmm'. injection Hmm' as <-.
  split; [done|]. exists token. split; [done|].
  destruct (memory_manager_publishes (read_file env) key der mm (mkRotateEnv 0 0 0 0 (Err "")) (Ok tt) mm Hread Hmm eq_refl)
    as [_ [dk Hdk]].
  pose proof (signed_token_authenticates (Boot.admin_authenticator b) (SigningManagerAdapter mm) dk
    (build_bootstrap_claims env (Config.issuer c) billets) token now nt action resource Henc Hdk) as Ha.
  rewrite Ha; clear Ha.
  - split; [done|]. intros (x & Hx & Hsys). cbn. unfold Cedar.is_authorized_admin. cbn [Cedar.principals].
    replace (existsb _ billets) with true; [done|]. symmetry. apply existsb_exists. exists x.
    split; [by apply list_elem_of_In|]. cbn. rewrite Hbc. by apply bool_decide_eq_true.
  - cbn. unfold Boot.signing_manager. by rewrite Hm.
  - cbn. by rewrite Hbc.
  - done.
  - cbn. unfold wrap. rewrite !Z.mod_small by (rewrite ?Z.mod_small; lia). done.
Qed.
End cli.

(* ------------------------------------------------------------------ *)
(** ** Witnesses *)

Import Demo DemoKeys DynamoApi.ToyDynamo.

Definition demo_env (source : string) : Env :=
  mkEnv demo_read (Ok source) 1000 "t1" "u7" demo_new_env.

Definition demo_world : World Demo.store := mkWorld demo_store "".

(** The tool has no check of scopes: it adds a permit policy to the guardrails, which
    are to hold forbid policies only, and a policy of one billet that permits another. *)
Lemma add_policy_unchecked :
  let guardrail := add_policy (demo_env "permit *") "quartermaster-guardrails" "-" demo_world in
  let foreign := add_policy (demo_env "permit writer") "reader" "-" demo_world in
  is_ok guardrail.1 = true ∧ is_ok foreign.1 = true ∧
  is_ok (PolicyCrud.validate_policy PolicyCrud.demo_system "quartermaster-guardrails" "permit *") = false ∧
  statement <$> ds_policies (backend guardrail.2) !! ("quartermaster-guardrails", "u7") = Some "permit *" ∧
  statement <$> ds_policies (backend foreign.2) !! ("reader", "u7") = Some "permit writer".
Proof. vm_compute. split_and!; reflexivity. Qed.

(** The token of a run with the configuration and key file of [Boot]. *)
Lemma demo_issue :
  run (L := unit) (F := unit) (Ok Boot.demo_boot_config) (λ _, Err (Internal "no disk")) (λ _, Err (Internal "no network")) false
    (λ _, demo_store_ops) (demo_env "") (IssueToken ["quartermaster-admin"]) demo_world =
  (Ok tt, mkWorld demo_store "h.b.s").
Proof. vm_compute. reflexivity. Qed.

#[local] Existing Instance Resolver.no_regex.
#[local] Existing Instance Jwks.DemoJwks.no_tokens.
#[local] Existing Instance Mtls.DemoX509.toy_x509.
#[local] Existing Instance Cert.DemoCert.demo_ring.
#[local] Existing Instance Cert.DemoCert.demo_rcgen.
#[local] Existing Instance AnyStore.table_store.

Lemma bootstrap_token_authenticates_witness :
  ∃ b, Boot.demo_result = Ok b ∧
    authenticate (Boot.admin_authenticator b) 1500 "t" ("Bearer " +:+ "h.b.s") "createBillet" "ops" = Ok "bootstrap:admin".
Proof.
  pose proof Boot.demo_boot_ok as Hok. pose proof Boot.demo_boot_on as Hb.
  destruct Boot.demo_result as [b|e]; [|discriminate Hok]. exists b. split; [reflexivity|].
  destruct (bootstrap_token_authenticates (L := unit) (F := unit) (Ok Boot.demo_boot_config) (λ _, Err (Internal "no disk"))
    (λ _, Err (Internal "no network")) false (λ _, demo_store_ops) (V := ToyTables) (PK := unit) (SC := unit)
    (λ _, Err "no JSON") (λ _, Err "no file") (λ _, Err "no PEM") (λ _, Err "no PEM") (λ _ _ _, Err "no TLS")
    (demo_env "") Boot.demo_boot_config demo_memory [65] ["quartermaster-admin"] demo_world (mkWorld demo_store "h.b.s")
    Boot.demo_boot_env (∅ : ToyTables) (snd Boot.demo_run) b 1500 "t" "createBillet" "ops"
    eq_refl eq_refl eq_refl demo_issue eq_refl Hb ltac:(cbn; lia) ltac:(cbn; lia) ltac:(cbn; lia))
    as [_ (token & Hout & _ & Hauth)].
  change ("h.b.s" = "" +:+ token) in Hout. rewrite app_empty_l in Hout. subst token.
  apply Hauth. exists "quartermaster-admin". split; [left|]. compute_decide.
Defined.

End Cli.
